(** * Marlin4Due stepper core ([Marlin/stepper.cpp]) — a shallow embedding

    The stepper interrupt handler, the trapezoid generator, the endstop
    sampler, the timer re-arm and the babystep primitive are written as
    Rocq functions over an explicit machine state.  Compile-time options
    ([#ifdef]s and constants of the configuration headers) are fields of a
    [Config] record; the file-static variables of [stepper.cpp] are the
    fields of [state]; pin writes and timer programming are recorded in a
    chronological [trace]. *)

From Stdlib Require Import ZArith List Bool Lia SpecFloat.
Import ListNotations.
Local Open Scope Z_scope.

(** ** Machine integers (the target is a 32-bit SAM3X: [long] is 32 bits) *)

Definition uint8 (z : Z) : Z := z mod 2 ^ 8.
Definition uint16 (z : Z) : Z := z mod 2 ^ 16.
Definition uint32 (z : Z) : Z := z mod 2 ^ 32.
Definition uint64 (z : Z) : Z := z mod 2 ^ 64.
(** two's-complement [long] *)
Definition int32 (z : Z) : Z := (z + 2 ^ 31) mod 2 ^ 32 - 2 ^ 31.

Definition b2z (b : bool) : Z := if b then 1 else 0.

(** Modelled from the spec: the bit macros [BIT], [TEST] and [SET_BIT] are
    defined in [Marlin.h], which is not among the sources; the spec speaks of
    bitmasks with "one bit per axis" and of "set the axis bit".  [BIT b] is
    the mask of bit [b], [TEST n b] reads bit [b] of [n], [SET_BIT n b v]
    gives bit [b] of [n] the value [v]. *)
Definition BIT (b : Z) : Z := Z.shiftl 1 b.
Definition TEST (n b : Z) : bool := Z.testbit n b.
Definition SET_BIT (n b : Z) (v : bool) : Z :=
  if v then Z.lor n (BIT b) else Z.ldiff n (BIT b).

(** ** Enumerations *)

Inductive AxisEnum : Type := X_AXIS | Y_AXIS | Z_AXIS | E_AXIS.

Inductive EndstopEnum : Type :=
  X_MIN | Y_MIN | Z_MIN | Z_PROBE | X_MAX | Y_MAX | Z_MAX | Z2_MIN | Z2_MAX.

(** Driver outputs reached by the [*_STEP_WRITE] / [*_DIR_WRITE] macros. *)
Inductive Motor : Type := MX | MX2 | MY | MY2 | MZ | MZ2 | ME.

Definition AxisEnum_eqb (a b : AxisEnum) : bool :=
  match a, b with
  | X_AXIS, X_AXIS | Y_AXIS, Y_AXIS | Z_AXIS, Z_AXIS | E_AXIS, E_AXIS => true
  | _, _ => false
  end.

Definition Motor_eqb (a b : Motor) : bool :=
  match a, b with
  | MX, MX | MX2, MX2 | MY, MY | MY2, MY2 | MZ, MZ | MZ2, MZ2 | ME, ME => true
  | _, _ => false
  end.

(** Array cells are functions of the index; [upd] is an assignment to one cell. *)
Definition upd_axis {A} (f : AxisEnum -> A) (a : AxisEnum) (v : A) : AxisEnum -> A :=
  fun a' => if AxisEnum_eqb a a' then v else f a'.
Definition upd_motor {A} (f : Motor -> A) (m : Motor) (v : A) : Motor -> A :=
  fun m' => if Motor_eqb m m' then v else f m'.
Definition upd_Z {A} (f : Z -> A) (i : Z) (v : A) : Z -> A :=
  fun i' => if i =? i' then v else f i'.

(** The axis a given endstop belongs to ([_AXIS(AXIS)] of the macro argument
    whose name prefixes the endstop), and the endstop named by
    [_ENDSTOP(AXIS, MIN)] for that axis. *)
Definition endstop_axis (e : EndstopEnum) : AxisEnum :=
  match e with
  | X_MIN | X_MAX => X_AXIS
  | Y_MIN | Y_MAX => Y_AXIS
  | Z_MIN | Z_MAX | Z_PROBE | Z2_MIN | Z2_MAX => Z_AXIS
  end.
Definition endstop_MIN (e : EndstopEnum) : EndstopEnum :=
  match e with
  | X_MIN | X_MAX => X_MIN
  | Y_MIN | Y_MAX => Y_MIN
  | Z_MIN | Z_MAX | Z_PROBE | Z2_MIN | Z2_MAX => Z_MIN
  end.

(** ** Build configuration

    Everything below is decided in [Configuration.h], [Configuration_adv.h],
    [Marlin.h] and the HAL headers, none of which is among the sources: the
    options are parameters of the model.  [axis_bit] and [endstop_bit] are the
    numeric values of the [AxisEnum] and [EndstopEnum] enumerators when they
    are used as bit numbers; [X_HEAD] and [Y_HEAD] are the CoreXY
    head-direction bits of [out_bits]. *)
Record Config : Type := {
  ADVANCE : bool;
  ENABLE_HIGH_SPEED_STEPPING : bool;
  Z_LATE_ENABLE : bool;
  COREXY : bool;
  DUAL_X_CARRIAGE : bool;
  Y_DUAL_STEPPER_DRIVERS : bool;
  Z_DUAL_STEPPER_DRIVERS : bool;
  Z_DUAL_ENDSTOPS : bool;
  Z_PROBE_ENDSTOP : bool;
  DELTA : bool;
  HAS_ENDSTOP : EndstopEnum -> bool;
  INVERT_DIR : AxisEnum -> bool;
  INVERT_Y2_VS_Y_DIR : bool;
  INVERT_STEP_PIN : AxisEnum -> bool;
  ENDSTOP_INVERTING : EndstopEnum -> bool;
  BABYSTEP_INVERT_Z : bool;
  X_HOME_DIR : Z;
  X2_HOME_DIR : Z;
  Z_HOME_DIR : Z;
  MAX_STEP_FREQUENCY : Z;
  DOUBLE_STEP_FREQUENCY : Z;
  HAL_TIMER_RATE : Z;
  axis_bit : AxisEnum -> Z;
  X_HEAD : Z;
  Y_HEAD : Z;
  endstop_bit : EndstopEnum -> Z
}.

(** ** Planner blocks ([block_t] of [planner.h]; read-only here except [busy]) *)
Record block_t : Type := {
  steps : AxisEnum -> Z;
  step_event_count : Z;
  accelerate_until : Z;
  decelerate_after : Z;
  acceleration_rate : Z;
  direction_bits : Z;
  active_extruder : Z;
  initial_advance : Z;
  final_advance_b : Z;
  nominal_rate : Z;
  initial_rate : Z;
  final_rate : Z;
  busy : bool
}.

Definition set_busy (v : bool) (b : block_t) : block_t :=
  {| steps := steps b; step_event_count := step_event_count b;
     accelerate_until := accelerate_until b; decelerate_after := decelerate_after b;
     acceleration_rate := acceleration_rate b; direction_bits := direction_bits b;
     active_extruder := active_extruder b; initial_advance := initial_advance b;
     final_advance_b := final_advance_b b; nominal_rate := nominal_rate b;
     initial_rate := initial_rate b; final_rate := final_rate b; busy := v |}.

(** ** Observable effects, in program order *)
Inductive event : Type :=
  | StepWrite (m : Motor) (level : bool)
  | DirWrite (m : Motor) (level : bool)
  | EnableAxis (a : AxisEnum)
  | TimerCompare (rc : Z)
  | TimerSetCount (count : Z)
  | DelayMicroseconds (us : Z)
  | DiscardBlock.

(** What one interrupt reads from the hardware: the free-running counter
    [TC_CV] and the raw level [READ(pin)] of every endstop pin. *)
Record isr_input : Type := {
  TC_CV : Z;
  READ_ENDSTOP : EndstopEnum -> bool
}.

(** ** The state: the variables of [stepper.cpp], the planner queue it
    consumes, and the pins and comparator it drives *)
Record state : Type := {
  block_buffer : list block_t;
  current_block : option block_t;
  out_bits : Z;
  cleaning_buffer_counter : Z;
  performing_homing : bool;
  locked_z_motor : bool;
  locked_z2_motor : bool;
  counter : AxisEnum -> Z;
  step_events_completed : Z;
  advance_rate : Z;
  advance : Z;
  final_advance : Z;
  old_advance : Z;
  e_steps : Z -> Z;
  acceleration_time : Z;
  deceleration_time : Z;
  acc_step_rate : Z;
  step_loops : Z;
  OCR1A_nominal : Z;
  step_loops_nominal : Z;
  endstops_trigsteps : AxisEnum -> Z;
  endstop_hit_bits : Z;
  old_endstop_bits : Z;
  check_endstops : bool;
  count_position : AxisEnum -> Z;
  count_direction : AxisEnum -> Z;
  extruder_duplication_enabled : bool;
  step_pin : Motor -> bool;
  dir_pin : Motor -> bool;
  TC_RC : Z;
  trace : list event
}.

(** Assignments to one variable. *)
Definition set_block_buffer (v : list block_t) (s : state) : state :=
  {| block_buffer := v; current_block := current_block s; out_bits := out_bits s;
     cleaning_buffer_counter := cleaning_buffer_counter s; performing_homing := performing_homing s;
     locked_z_motor := locked_z_motor s; locked_z2_motor := locked_z2_motor s; counter := counter s;
     step_events_completed := step_events_completed s; advance_rate := advance_rate s;
     advance := advance s; final_advance := final_advance s; old_advance := old_advance s;
     e_steps := e_steps s; acceleration_time := acceleration_time s;
     deceleration_time := deceleration_time s; acc_step_rate := acc_step_rate s;
     step_loops := step_loops s; OCR1A_nominal := OCR1A_nominal s;
     step_loops_nominal := step_loops_nominal s; endstops_trigsteps := endstops_trigsteps s;
     endstop_hit_bits := endstop_hit_bits s; old_endstop_bits := old_endstop_bits s;
     check_endstops := check_endstops s; count_position := count_position s;
     count_direction := count_direction s;
     extruder_duplication_enabled := extruder_duplication_enabled s; step_pin := step_pin s;
     dir_pin := dir_pin s; TC_RC := TC_RC s; trace := trace s |}.

Definition set_current_block (v : option block_t) (s : state) : state :=
  {| block_buffer := block_buffer s; current_block := v; out_bits := out_bits s;
     cleaning_buffer_counter := cleaning_buffer_counter s; performing_homing := performing_homing s;
     locked_z_motor := locked_z_motor s; locked_z2_motor := locked_z2_motor s; counter := counter s;
     step_events_completed := step_events_completed s; advance_rate := advance_rate s;
     advance := advance s; final_advance := final_advance s; old_advance := old_advance s;
     e_steps := e_steps s; acceleration_time := acceleration_time s;
     deceleration_time := deceleration_time s; acc_step_rate := acc_step_rate s;
     step_loops := step_loops s; OCR1A_nominal := OCR1A_nominal s;
     step_loops_nominal := step_loops_nominal s; endstops_trigsteps := endstops_trigsteps s;
     endstop_hit_bits := endstop_hit_bits s; old_endstop_bits := old_endstop_bits s;
     check_endstops := check_endstops s; count_position := count_position s;
     count_direction := count_direction s;
     extruder_duplication_enabled := extruder_duplication_enabled s; step_pin := step_pin s;
     dir_pin := dir_pin s; TC_RC := TC_RC s; trace := trace s |}.

Definition set_out_bits (v : Z) (s : state) : state :=
  {| block_buffer := block_buffer s; current_block := current_block s; out_bits := v;
     cleaning_buffer_counter := cleaning_buffer_counter s; performing_homing := performing_homing s;
     locked_z_motor := locked_z_motor s; locked_z2_motor := locked_z2_motor s; counter := counter s;
     step_events_completed := step_events_completed s; advance_rate := advance_rate s;
     advance := advance s; final_advance := final_advance s; old_advance := old_advance s;
     e_steps := e_steps s; acceleration_time := acceleration_time s;
     deceleration_time := deceleration_time s; acc_step_rate := acc_step_rate s;
     step_loops := step_loops s; OCR1A_nominal := OCR1A_nominal s;
     step_loops_nominal := step_loops_nominal s; endstops_trigsteps := endstops_trigsteps s;
     endstop_hit_bits := endstop_hit_bits s; old_endstop_bits := old_endstop_bits s;
     check_endstops := check_endstops s; count_position := count_position s;
     count_direction := count_direction s;
     extruder_duplication_enabled := extruder_duplication_enabled s; step_pin := step_pin s;
     dir_pin := dir_pin s; TC_RC := TC_RC s; trace := trace s |}.

Definition set_cleaning_buffer_counter (v : Z) (s : state) : state :=
  {| block_buffer := block_buffer s; current_block := current_block s; out_bits := out_bits s;
     cleaning_buffer_counter := v; performing_homing := performing_homing s;
     locked_z_motor := locked_z_motor s; locked_z2_motor := locked_z2_motor s; counter := counter s;
     step_events_completed := step_events_completed s; advance_rate := advance_rate s;
     advance := advance s; final_advance := final_advance s; old_advance := old_advance s;
     e_steps := e_steps s; acceleration_time := acceleration_time s;
     deceleration_time := deceleration_time s; acc_step_rate := acc_step_rate s;
     step_loops := step_loops s; OCR1A_nominal := OCR1A_nominal s;
     step_loops_nominal := step_loops_nominal s; endstops_trigsteps := endstops_trigsteps s;
     endstop_hit_bits := endstop_hit_bits s; old_endstop_bits := old_endstop_bits s;
     check_endstops := check_endstops s; count_position := count_position s;
     count_direction := count_direction s;
     extruder_duplication_enabled := extruder_duplication_enabled s; step_pin := step_pin s;
     dir_pin := dir_pin s; TC_RC := TC_RC s; trace := trace s |}.

Definition set_performing_homing (v : bool) (s : state) : state :=
  {| block_buffer := block_buffer s; current_block := current_block s; out_bits := out_bits s;
     cleaning_buffer_counter := cleaning_buffer_counter s; performing_homing := v;
     locked_z_motor := locked_z_motor s; locked_z2_motor := locked_z2_motor s; counter := counter s;
     step_events_completed := step_events_completed s; advance_rate := advance_rate s;
     advance := advance s; final_advance := final_advance s; old_advance := old_advance s;
     e_steps := e_steps s; acceleration_time := acceleration_time s;
     deceleration_time := deceleration_time s; acc_step_rate := acc_step_rate s;
     step_loops := step_loops s; OCR1A_nominal := OCR1A_nominal s;
     step_loops_nominal := step_loops_nominal s; endstops_trigsteps := endstops_trigsteps s;
     endstop_hit_bits := endstop_hit_bits s; old_endstop_bits := old_endstop_bits s;
     check_endstops := check_endstops s; count_position := count_position s;
     count_direction := count_direction s;
     extruder_duplication_enabled := extruder_duplication_enabled s; step_pin := step_pin s;
     dir_pin := dir_pin s; TC_RC := TC_RC s; trace := trace s |}.

Definition set_locked_z_motor (v : bool) (s : state) : state :=
  {| block_buffer := block_buffer s; current_block := current_block s; out_bits := out_bits s;
     cleaning_buffer_counter := cleaning_buffer_counter s; performing_homing := performing_homing s;
     locked_z_motor := v; locked_z2_motor := locked_z2_motor s; counter := counter s;
     step_events_completed := step_events_completed s; advance_rate := advance_rate s;
     advance := advance s; final_advance := final_advance s; old_advance := old_advance s;
     e_steps := e_steps s; acceleration_time := acceleration_time s;
     deceleration_time := deceleration_time s; acc_step_rate := acc_step_rate s;
     step_loops := step_loops s; OCR1A_nominal := OCR1A_nominal s;
     step_loops_nominal := step_loops_nominal s; endstops_trigsteps := endstops_trigsteps s;
     endstop_hit_bits := endstop_hit_bits s; old_endstop_bits := old_endstop_bits s;
     check_endstops := check_endstops s; count_position := count_position s;
     count_direction := count_direction s;
     extruder_duplication_enabled := extruder_duplication_enabled s; step_pin := step_pin s;
     dir_pin := dir_pin s; TC_RC := TC_RC s; trace := trace s |}.

Definition set_locked_z2_motor (v : bool) (s : state) : state :=
  {| block_buffer := block_buffer s; current_block := current_block s; out_bits := out_bits s;
     cleaning_buffer_counter := cleaning_buffer_counter s; performing_homing := performing_homing s;
     locked_z_motor := locked_z_motor s; locked_z2_motor := v; counter := counter s;
     step_events_completed := step_events_completed s; advance_rate := advance_rate s;
     advance := advance s; final_advance := final_advance s; old_advance := old_advance s;
     e_steps := e_steps s; acceleration_time := acceleration_time s;
     deceleration_time := deceleration_time s; acc_step_rate := acc_step_rate s;
     step_loops := step_loops s; OCR1A_nominal := OCR1A_nominal s;
     step_loops_nominal := step_loops_nominal s; endstops_trigsteps := endstops_trigsteps s;
     endstop_hit_bits := endstop_hit_bits s; old_endstop_bits := old_endstop_bits s;
     check_endstops := check_endstops s; count_position := count_position s;
     count_direction := count_direction s;
     extruder_duplication_enabled := extruder_duplication_enabled s; step_pin := step_pin s;
     dir_pin := dir_pin s; TC_RC := TC_RC s; trace := trace s |}.

Definition set_counter (v : AxisEnum -> Z) (s : state) : state :=
  {| block_buffer := block_buffer s; current_block := current_block s; out_bits := out_bits s;
     cleaning_buffer_counter := cleaning_buffer_counter s; performing_homing := performing_homing s;
     locked_z_motor := locked_z_motor s; locked_z2_motor := locked_z2_motor s; counter := v;
     step_events_completed := step_events_completed s; advance_rate := advance_rate s;
     advance := advance s; final_advance := final_advance s; old_advance := old_advance s;
     e_steps := e_steps s; acceleration_time := acceleration_time s;
     deceleration_time := deceleration_time s; acc_step_rate := acc_step_rate s;
     step_loops := step_loops s; OCR1A_nominal := OCR1A_nominal s;
     step_loops_nominal := step_loops_nominal s; endstops_trigsteps := endstops_trigsteps s;
     endstop_hit_bits := endstop_hit_bits s; old_endstop_bits := old_endstop_bits s;
     check_endstops := check_endstops s; count_position := count_position s;
     count_direction := count_direction s;
     extruder_duplication_enabled := extruder_duplication_enabled s; step_pin := step_pin s;
     dir_pin := dir_pin s; TC_RC := TC_RC s; trace := trace s |}.

Definition set_step_events_completed (v : Z) (s : state) : state :=
  {| block_buffer := block_buffer s; current_block := current_block s; out_bits := out_bits s;
     cleaning_buffer_counter := cleaning_buffer_counter s; performing_homing := performing_homing s;
     locked_z_motor := locked_z_motor s; locked_z2_motor := locked_z2_motor s; counter := counter s;
     step_events_completed := v; advance_rate := advance_rate s; advance := advance s;
     final_advance := final_advance s; old_advance := old_advance s; e_steps := e_steps s;
     acceleration_time := acceleration_time s; deceleration_time := deceleration_time s;
     acc_step_rate := acc_step_rate s; step_loops := step_loops s; OCR1A_nominal := OCR1A_nominal s;
     step_loops_nominal := step_loops_nominal s; endstops_trigsteps := endstops_trigsteps s;
     endstop_hit_bits := endstop_hit_bits s; old_endstop_bits := old_endstop_bits s;
     check_endstops := check_endstops s; count_position := count_position s;
     count_direction := count_direction s;
     extruder_duplication_enabled := extruder_duplication_enabled s; step_pin := step_pin s;
     dir_pin := dir_pin s; TC_RC := TC_RC s; trace := trace s |}.

Definition set_advance (v : Z) (s : state) : state :=
  {| block_buffer := block_buffer s; current_block := current_block s; out_bits := out_bits s;
     cleaning_buffer_counter := cleaning_buffer_counter s; performing_homing := performing_homing s;
     locked_z_motor := locked_z_motor s; locked_z2_motor := locked_z2_motor s; counter := counter s;
     step_events_completed := step_events_completed s; advance_rate := advance_rate s; advance := v;
     final_advance := final_advance s; old_advance := old_advance s; e_steps := e_steps s;
     acceleration_time := acceleration_time s; deceleration_time := deceleration_time s;
     acc_step_rate := acc_step_rate s; step_loops := step_loops s; OCR1A_nominal := OCR1A_nominal s;
     step_loops_nominal := step_loops_nominal s; endstops_trigsteps := endstops_trigsteps s;
     endstop_hit_bits := endstop_hit_bits s; old_endstop_bits := old_endstop_bits s;
     check_endstops := check_endstops s; count_position := count_position s;
     count_direction := count_direction s;
     extruder_duplication_enabled := extruder_duplication_enabled s; step_pin := step_pin s;
     dir_pin := dir_pin s; TC_RC := TC_RC s; trace := trace s |}.

Definition set_final_advance (v : Z) (s : state) : state :=
  {| block_buffer := block_buffer s; current_block := current_block s; out_bits := out_bits s;
     cleaning_buffer_counter := cleaning_buffer_counter s; performing_homing := performing_homing s;
     locked_z_motor := locked_z_motor s; locked_z2_motor := locked_z2_motor s; counter := counter s;
     step_events_completed := step_events_completed s; advance_rate := advance_rate s;
     advance := advance s; final_advance := v; old_advance := old_advance s; e_steps := e_steps s;
     acceleration_time := acceleration_time s; deceleration_time := deceleration_time s;
     acc_step_rate := acc_step_rate s; step_loops := step_loops s; OCR1A_nominal := OCR1A_nominal s;
     step_loops_nominal := step_loops_nominal s; endstops_trigsteps := endstops_trigsteps s;
     endstop_hit_bits := endstop_hit_bits s; old_endstop_bits := old_endstop_bits s;
     check_endstops := check_endstops s; count_position := count_position s;
     count_direction := count_direction s;
     extruder_duplication_enabled := extruder_duplication_enabled s; step_pin := step_pin s;
     dir_pin := dir_pin s; TC_RC := TC_RC s; trace := trace s |}.

Definition set_old_advance (v : Z) (s : state) : state :=
  {| block_buffer := block_buffer s; current_block := current_block s; out_bits := out_bits s;
     cleaning_buffer_counter := cleaning_buffer_counter s; performing_homing := performing_homing s;
     locked_z_motor := locked_z_motor s; locked_z2_motor := locked_z2_motor s; counter := counter s;
     step_events_completed := step_events_completed s; advance_rate := advance_rate s;
     advance := advance s; final_advance := final_advance s; old_advance := v; e_steps := e_steps s;
     acceleration_time := acceleration_time s; deceleration_time := deceleration_time s;
     acc_step_rate := acc_step_rate s; step_loops := step_loops s; OCR1A_nominal := OCR1A_nominal s;
     step_loops_nominal := step_loops_nominal s; endstops_trigsteps := endstops_trigsteps s;
     endstop_hit_bits := endstop_hit_bits s; old_endstop_bits := old_endstop_bits s;
     check_endstops := check_endstops s; count_position := count_position s;
     count_direction := count_direction s;
     extruder_duplication_enabled := extruder_duplication_enabled s; step_pin := step_pin s;
     dir_pin := dir_pin s; TC_RC := TC_RC s; trace := trace s |}.

Definition set_e_steps (v : Z -> Z) (s : state) : state :=
  {| block_buffer := block_buffer s; current_block := current_block s; out_bits := out_bits s;
     cleaning_buffer_counter := cleaning_buffer_counter s; performing_homing := performing_homing s;
     locked_z_motor := locked_z_motor s; locked_z2_motor := locked_z2_motor s; counter := counter s;
     step_events_completed := step_events_completed s; advance_rate := advance_rate s;
     advance := advance s; final_advance := final_advance s; old_advance := old_advance s;
     e_steps := v; acceleration_time := acceleration_time s;
     deceleration_time := deceleration_time s; acc_step_rate := acc_step_rate s;
     step_loops := step_loops s; OCR1A_nominal := OCR1A_nominal s;
     step_loops_nominal := step_loops_nominal s; endstops_trigsteps := endstops_trigsteps s;
     endstop_hit_bits := endstop_hit_bits s; old_endstop_bits := old_endstop_bits s;
     check_endstops := check_endstops s; count_position := count_position s;
     count_direction := count_direction s;
     extruder_duplication_enabled := extruder_duplication_enabled s; step_pin := step_pin s;
     dir_pin := dir_pin s; TC_RC := TC_RC s; trace := trace s |}.

Definition set_acceleration_time (v : Z) (s : state) : state :=
  {| block_buffer := block_buffer s; current_block := current_block s; out_bits := out_bits s;
     cleaning_buffer_counter := cleaning_buffer_counter s; performing_homing := performing_homing s;
     locked_z_motor := locked_z_motor s; locked_z2_motor := locked_z2_motor s; counter := counter s;
     step_events_completed := step_events_completed s; advance_rate := advance_rate s;
     advance := advance s; final_advance := final_advance s; old_advance := old_advance s;
     e_steps := e_steps s; acceleration_time := v; deceleration_time := deceleration_time s;
     acc_step_rate := acc_step_rate s; step_loops := step_loops s; OCR1A_nominal := OCR1A_nominal s;
     step_loops_nominal := step_loops_nominal s; endstops_trigsteps := endstops_trigsteps s;
     endstop_hit_bits := endstop_hit_bits s; old_endstop_bits := old_endstop_bits s;
     check_endstops := check_endstops s; count_position := count_position s;
     count_direction := count_direction s;
     extruder_duplication_enabled := extruder_duplication_enabled s; step_pin := step_pin s;
     dir_pin := dir_pin s; TC_RC := TC_RC s; trace := trace s |}.

Definition set_deceleration_time (v : Z) (s : state) : state :=
  {| block_buffer := block_buffer s; current_block := current_block s; out_bits := out_bits s;
     cleaning_buffer_counter := cleaning_buffer_counter s; performing_homing := performing_homing s;
     locked_z_motor := locked_z_motor s; locked_z2_motor := locked_z2_motor s; counter := counter s;
     step_events_completed := step_events_completed s; advance_rate := advance_rate s;
     advance := advance s; final_advance := final_advance s; old_advance := old_advance s;
     e_steps := e_steps s; acceleration_time := acceleration_time s; deceleration_time := v;
     acc_step_rate := acc_step_rate s; step_loops := step_loops s; OCR1A_nominal := OCR1A_nominal s;
     step_loops_nominal := step_loops_nominal s; endstops_trigsteps := endstops_trigsteps s;
     endstop_hit_bits := endstop_hit_bits s; old_endstop_bits := old_endstop_bits s;
     check_endstops := check_endstops s; count_position := count_position s;
     count_direction := count_direction s;
     extruder_duplication_enabled := extruder_duplication_enabled s; step_pin := step_pin s;
     dir_pin := dir_pin s; TC_RC := TC_RC s; trace := trace s |}.

Definition set_acc_step_rate (v : Z) (s : state) : state :=
  {| block_buffer := block_buffer s; current_block := current_block s; out_bits := out_bits s;
     cleaning_buffer_counter := cleaning_buffer_counter s; performing_homing := performing_homing s;
     locked_z_motor := locked_z_motor s; locked_z2_motor := locked_z2_motor s; counter := counter s;
     step_events_completed := step_events_completed s; advance_rate := advance_rate s;
     advance := advance s; final_advance := final_advance s; old_advance := old_advance s;
     e_steps := e_steps s; acceleration_time := acceleration_time s;
     deceleration_time := deceleration_time s; acc_step_rate := v; step_loops := step_loops s;
     OCR1A_nominal := OCR1A_nominal s; step_loops_nominal := step_loops_nominal s;
     endstops_trigsteps := endstops_trigsteps s; endstop_hit_bits := endstop_hit_bits s;
     old_endstop_bits := old_endstop_bits s; check_endstops := check_endstops s;
     count_position := count_position s; count_direction := count_direction s;
     extruder_duplication_enabled := extruder_duplication_enabled s; step_pin := step_pin s;
     dir_pin := dir_pin s; TC_RC := TC_RC s; trace := trace s |}.

Definition set_step_loops (v : Z) (s : state) : state :=
  {| block_buffer := block_buffer s; current_block := current_block s; out_bits := out_bits s;
     cleaning_buffer_counter := cleaning_buffer_counter s; performing_homing := performing_homing s;
     locked_z_motor := locked_z_motor s; locked_z2_motor := locked_z2_motor s; counter := counter s;
     step_events_completed := step_events_completed s; advance_rate := advance_rate s;
     advance := advance s; final_advance := final_advance s; old_advance := old_advance s;
     e_steps := e_steps s; acceleration_time := acceleration_time s;
     deceleration_time := deceleration_time s; acc_step_rate := acc_step_rate s; step_loops := v;
     OCR1A_nominal := OCR1A_nominal s; step_loops_nominal := step_loops_nominal s;
     endstops_trigsteps := endstops_trigsteps s; endstop_hit_bits := endstop_hit_bits s;
     old_endstop_bits := old_endstop_bits s; check_endstops := check_endstops s;
     count_position := count_position s; count_direction := count_direction s;
     extruder_duplication_enabled := extruder_duplication_enabled s; step_pin := step_pin s;
     dir_pin := dir_pin s; TC_RC := TC_RC s; trace := trace s |}.

Definition set_OCR1A_nominal (v : Z) (s : state) : state :=
  {| block_buffer := block_buffer s; current_block := current_block s; out_bits := out_bits s;
     cleaning_buffer_counter := cleaning_buffer_counter s; performing_homing := performing_homing s;
     locked_z_motor := locked_z_motor s; locked_z2_motor := locked_z2_motor s; counter := counter s;
     step_events_completed := step_events_completed s; advance_rate := advance_rate s;
     advance := advance s; final_advance := final_advance s; old_advance := old_advance s;
     e_steps := e_steps s; acceleration_time := acceleration_time s;
     deceleration_time := deceleration_time s; acc_step_rate := acc_step_rate s;
     step_loops := step_loops s; OCR1A_nominal := v; step_loops_nominal := step_loops_nominal s;
     endstops_trigsteps := endstops_trigsteps s; endstop_hit_bits := endstop_hit_bits s;
     old_endstop_bits := old_endstop_bits s; check_endstops := check_endstops s;
     count_position := count_position s; count_direction := count_direction s;
     extruder_duplication_enabled := extruder_duplication_enabled s; step_pin := step_pin s;
     dir_pin := dir_pin s; TC_RC := TC_RC s; trace := trace s |}.

Definition set_step_loops_nominal (v : Z) (s : state) : state :=
  {| block_buffer := block_buffer s; current_block := current_block s; out_bits := out_bits s;
     cleaning_buffer_counter := cleaning_buffer_counter s; performing_homing := performing_homing s;
     locked_z_motor := locked_z_motor s; locked_z2_motor := locked_z2_motor s; counter := counter s;
     step_events_completed := step_events_completed s; advance_rate := advance_rate s;
     advance := advance s; final_advance := final_advance s; old_advance := old_advance s;
     e_steps := e_steps s; acceleration_time := acceleration_time s;
     deceleration_time := deceleration_time s; acc_step_rate := acc_step_rate s;
     step_loops := step_loops s; OCR1A_nominal := OCR1A_nominal s; step_loops_nominal := v;
     endstops_trigsteps := endstops_trigsteps s; endstop_hit_bits := endstop_hit_bits s;
     old_endstop_bits := old_endstop_bits s; check_endstops := check_endstops s;
     count_position := count_position s; count_direction := count_direction s;
     extruder_duplication_enabled := extruder_duplication_enabled s; step_pin := step_pin s;
     dir_pin := dir_pin s; TC_RC := TC_RC s; trace := trace s |}.

Definition set_endstops_trigsteps (v : AxisEnum -> Z) (s : state) : state :=
  {| block_buffer := block_buffer s; current_block := current_block s; out_bits := out_bits s;
     cleaning_buffer_counter := cleaning_buffer_counter s; performing_homing := performing_homing s;
     locked_z_motor := locked_z_motor s; locked_z2_motor := locked_z2_motor s; counter := counter s;
     step_events_completed := step_events_completed s; advance_rate := advance_rate s;
     advance := advance s; final_advance := final_advance s; old_advance := old_advance s;
     e_steps := e_steps s; acceleration_time := acceleration_time s;
     deceleration_time := deceleration_time s; acc_step_rate := acc_step_rate s;
     step_loops := step_loops s; OCR1A_nominal := OCR1A_nominal s;
     step_loops_nominal := step_loops_nominal s; endstops_trigsteps := v;
     endstop_hit_bits := endstop_hit_bits s; old_endstop_bits := old_endstop_bits s;
     check_endstops := check_endstops s; count_position := count_position s;
     count_direction := count_direction s;
     extruder_duplication_enabled := extruder_duplication_enabled s; step_pin := step_pin s;
     dir_pin := dir_pin s; TC_RC := TC_RC s; trace := trace s |}.

Definition set_endstop_hit_bits (v : Z) (s : state) : state :=
  {| block_buffer := block_buffer s; current_block := current_block s; out_bits := out_bits s;
     cleaning_buffer_counter := cleaning_buffer_counter s; performing_homing := performing_homing s;
     locked_z_motor := locked_z_motor s; locked_z2_motor := locked_z2_motor s; counter := counter s;
     step_events_completed := step_events_completed s; advance_rate := advance_rate s;
     advance := advance s; final_advance := final_advance s; old_advance := old_advance s;
     e_steps := e_steps s; acceleration_time := acceleration_time s;
     deceleration_time := deceleration_time s; acc_step_rate := acc_step_rate s;
     step_loops := step_loops s; OCR1A_nominal := OCR1A_nominal s;
     step_loops_nominal := step_loops_nominal s; endstops_trigsteps := endstops_trigsteps s;
     endstop_hit_bits := v; old_endstop_bits := old_endstop_bits s;
     check_endstops := check_endstops s; count_position := count_position s;
     count_direction := count_direction s;
     extruder_duplication_enabled := extruder_duplication_enabled s; step_pin := step_pin s;
     dir_pin := dir_pin s; TC_RC := TC_RC s; trace := trace s |}.

Definition set_old_endstop_bits (v : Z) (s : state) : state :=
  {| block_buffer := block_buffer s; current_block := current_block s; out_bits := out_bits s;
     cleaning_buffer_counter := cleaning_buffer_counter s; performing_homing := performing_homing s;
     locked_z_motor := locked_z_motor s; locked_z2_motor := locked_z2_motor s; counter := counter s;
     step_events_completed := step_events_completed s; advance_rate := advance_rate s;
     advance := advance s; final_advance := final_advance s; old_advance := old_advance s;
     e_steps := e_steps s; acceleration_time := acceleration_time s;
     deceleration_time := deceleration_time s; acc_step_rate := acc_step_rate s;
     step_loops := step_loops s; OCR1A_nominal := OCR1A_nominal s;
     step_loops_nominal := step_loops_nominal s; endstops_trigsteps := endstops_trigsteps s;
     endstop_hit_bits := endstop_hit_bits s; old_endstop_bits := v;
     check_endstops := check_endstops s; count_position := count_position s;
     count_direction := count_direction s;
     extruder_duplication_enabled := extruder_duplication_enabled s; step_pin := step_pin s;
     dir_pin := dir_pin s; TC_RC := TC_RC s; trace := trace s |}.

Definition set_check_endstops (v : bool) (s : state) : state :=
  {| block_buffer := block_buffer s; current_block := current_block s; out_bits := out_bits s;
     cleaning_buffer_counter := cleaning_buffer_counter s; performing_homing := performing_homing s;
     locked_z_motor := locked_z_motor s; locked_z2_motor := locked_z2_motor s; counter := counter s;
     step_events_completed := step_events_completed s; advance_rate := advance_rate s;
     advance := advance s; final_advance := final_advance s; old_advance := old_advance s;
     e_steps := e_steps s; acceleration_time := acceleration_time s;
     deceleration_time := deceleration_time s; acc_step_rate := acc_step_rate s;
     step_loops := step_loops s; OCR1A_nominal := OCR1A_nominal s;
     step_loops_nominal := step_loops_nominal s; endstops_trigsteps := endstops_trigsteps s;
     endstop_hit_bits := endstop_hit_bits s; old_endstop_bits := old_endstop_bits s;
     check_endstops := v; count_position := count_position s; count_direction := count_direction s;
     extruder_duplication_enabled := extruder_duplication_enabled s; step_pin := step_pin s;
     dir_pin := dir_pin s; TC_RC := TC_RC s; trace := trace s |}.

Definition set_count_position (v : AxisEnum -> Z) (s : state) : state :=
  {| block_buffer := block_buffer s; current_block := current_block s; out_bits := out_bits s;
     cleaning_buffer_counter := cleaning_buffer_counter s; performing_homing := performing_homing s;
     locked_z_motor := locked_z_motor s; locked_z2_motor := locked_z2_motor s; counter := counter s;
     step_events_completed := step_events_completed s; advance_rate := advance_rate s;
     advance := advance s; final_advance := final_advance s; old_advance := old_advance s;
     e_steps := e_steps s; acceleration_time := acceleration_time s;
     deceleration_time := deceleration_time s; acc_step_rate := acc_step_rate s;
     step_loops := step_loops s; OCR1A_nominal := OCR1A_nominal s;
     step_loops_nominal := step_loops_nominal s; endstops_trigsteps := endstops_trigsteps s;
     endstop_hit_bits := endstop_hit_bits s; old_endstop_bits := old_endstop_bits s;
     check_endstops := check_endstops s; count_position := v; count_direction := count_direction s;
     extruder_duplication_enabled := extruder_duplication_enabled s; step_pin := step_pin s;
     dir_pin := dir_pin s; TC_RC := TC_RC s; trace := trace s |}.

Definition set_count_direction (v : AxisEnum -> Z) (s : state) : state :=
  {| block_buffer := block_buffer s; current_block := current_block s; out_bits := out_bits s;
     cleaning_buffer_counter := cleaning_buffer_counter s; performing_homing := performing_homing s;
     locked_z_motor := locked_z_motor s; locked_z2_motor := locked_z2_motor s; counter := counter s;
     step_events_completed := step_events_completed s; advance_rate := advance_rate s;
     advance := advance s; final_advance := final_advance s; old_advance := old_advance s;
     e_steps := e_steps s; acceleration_time := acceleration_time s;
     deceleration_time := deceleration_time s; acc_step_rate := acc_step_rate s;
     step_loops := step_loops s; OCR1A_nominal := OCR1A_nominal s;
     step_loops_nominal := step_loops_nominal s; endstops_trigsteps := endstops_trigsteps s;
     endstop_hit_bits := endstop_hit_bits s; old_endstop_bits := old_endstop_bits s;
     check_endstops := check_endstops s; count_position := count_position s; count_direction := v;
     extruder_duplication_enabled := extruder_duplication_enabled s; step_pin := step_pin s;
     dir_pin := dir_pin s; TC_RC := TC_RC s; trace := trace s |}.

Definition set_step_pin (v : Motor -> bool) (s : state) : state :=
  {| block_buffer := block_buffer s; current_block := current_block s; out_bits := out_bits s;
     cleaning_buffer_counter := cleaning_buffer_counter s; performing_homing := performing_homing s;
     locked_z_motor := locked_z_motor s; locked_z2_motor := locked_z2_motor s; counter := counter s;
     step_events_completed := step_events_completed s; advance_rate := advance_rate s;
     advance := advance s; final_advance := final_advance s; old_advance := old_advance s;
     e_steps := e_steps s; acceleration_time := acceleration_time s;
     deceleration_time := deceleration_time s; acc_step_rate := acc_step_rate s;
     step_loops := step_loops s; OCR1A_nominal := OCR1A_nominal s;
     step_loops_nominal := step_loops_nominal s; endstops_trigsteps := endstops_trigsteps s;
     endstop_hit_bits := endstop_hit_bits s; old_endstop_bits := old_endstop_bits s;
     check_endstops := check_endstops s; count_position := count_position s;
     count_direction := count_direction s;
     extruder_duplication_enabled := extruder_duplication_enabled s; step_pin := v;
     dir_pin := dir_pin s; TC_RC := TC_RC s; trace := trace s |}.

Definition set_dir_pin (v : Motor -> bool) (s : state) : state :=
  {| block_buffer := block_buffer s; current_block := current_block s; out_bits := out_bits s;
     cleaning_buffer_counter := cleaning_buffer_counter s; performing_homing := performing_homing s;
     locked_z_motor := locked_z_motor s; locked_z2_motor := locked_z2_motor s; counter := counter s;
     step_events_completed := step_events_completed s; advance_rate := advance_rate s;
     advance := advance s; final_advance := final_advance s; old_advance := old_advance s;
     e_steps := e_steps s; acceleration_time := acceleration_time s;
     deceleration_time := deceleration_time s; acc_step_rate := acc_step_rate s;
     step_loops := step_loops s; OCR1A_nominal := OCR1A_nominal s;
     step_loops_nominal := step_loops_nominal s; endstops_trigsteps := endstops_trigsteps s;
     endstop_hit_bits := endstop_hit_bits s; old_endstop_bits := old_endstop_bits s;
     check_endstops := check_endstops s; count_position := count_position s;
     count_direction := count_direction s;
     extruder_duplication_enabled := extruder_duplication_enabled s; step_pin := step_pin s;
     dir_pin := v; TC_RC := TC_RC s; trace := trace s |}.

Definition set_TC_RC (v : Z) (s : state) : state :=
  {| block_buffer := block_buffer s; current_block := current_block s; out_bits := out_bits s;
     cleaning_buffer_counter := cleaning_buffer_counter s; performing_homing := performing_homing s;
     locked_z_motor := locked_z_motor s; locked_z2_motor := locked_z2_motor s; counter := counter s;
     step_events_completed := step_events_completed s; advance_rate := advance_rate s;
     advance := advance s; final_advance := final_advance s; old_advance := old_advance s;
     e_steps := e_steps s; acceleration_time := acceleration_time s;
     deceleration_time := deceleration_time s; acc_step_rate := acc_step_rate s;
     step_loops := step_loops s; OCR1A_nominal := OCR1A_nominal s;
     step_loops_nominal := step_loops_nominal s; endstops_trigsteps := endstops_trigsteps s;
     endstop_hit_bits := endstop_hit_bits s; old_endstop_bits := old_endstop_bits s;
     check_endstops := check_endstops s; count_position := count_position s;
     count_direction := count_direction s;
     extruder_duplication_enabled := extruder_duplication_enabled s; step_pin := step_pin s;
     dir_pin := dir_pin s; TC_RC := v; trace := trace s |}.

Definition set_trace (v : list event) (s : state) : state :=
  {| block_buffer := block_buffer s; current_block := current_block s; out_bits := out_bits s;
     cleaning_buffer_counter := cleaning_buffer_counter s; performing_homing := performing_homing s;
     locked_z_motor := locked_z_motor s; locked_z2_motor := locked_z2_motor s; counter := counter s;
     step_events_completed := step_events_completed s; advance_rate := advance_rate s;
     advance := advance s; final_advance := final_advance s; old_advance := old_advance s;
     e_steps := e_steps s; acceleration_time := acceleration_time s;
     deceleration_time := deceleration_time s; acc_step_rate := acc_step_rate s;
     step_loops := step_loops s; OCR1A_nominal := OCR1A_nominal s;
     step_loops_nominal := step_loops_nominal s; endstops_trigsteps := endstops_trigsteps s;
     endstop_hit_bits := endstop_hit_bits s; old_endstop_bits := old_endstop_bits s;
     check_endstops := check_endstops s; count_position := count_position s;
     count_direction := count_direction s;
     extruder_duplication_enabled := extruder_duplication_enabled s; step_pin := step_pin s;
     dir_pin := dir_pin s; TC_RC := TC_RC s; trace := v |}.

(** ** Pin output *)

Definition emit (e : event) (s : state) : state := set_trace (trace s ++ [e]) s.

Definition STEP_WRITE (m : Motor) (v : bool) (s : state) : state :=
  emit (StepWrite m v) (set_step_pin (upd_motor (step_pin s) m v) s).

Definition DIR_WRITE (m : Motor) (v : bool) (s : state) : state :=
  emit (DirWrite m v) (set_dir_pin (upd_motor (dir_pin s) m v) s).

(** [current_block->active_extruder].  The dual-carriage macros read it
    through the block pointer; without a block in hand that read is
    undefined in C, and the value given for that case has no counterpart in
    the program.  The interrupt reaches the read only with a block in hand
    and [babystep] never does ([ALWAYS] is set); a direct call of
    [set_stepper_direction] does, and what is stated of such a call assumes
    [block_pointer_read_defined]. *)
Definition cb_active_extruder (s : state) : Z :=
  match current_block s with
  | Some b => active_extruder b
  | None => 0
  end.

(** The read of [current_block->active_extruder] in [X_APPLY_DIR(v, false)]
    and [X_APPLY_STEP(v, false)] is defined: the build has one carriage, or
    duplication is on, or a block is in hand. *)
Definition block_pointer_read_defined (cfg : Config) (s : state) : Prop :=
  DUAL_X_CARRIAGE cfg = true -> extruder_duplication_enabled s = false ->
  current_block s <> None.

Section Stepper.

Variable cfg : Config.

(** *** The axis output router: [X_APPLY_DIR] ... [E_APPLY_STEP] *)

Definition X_APPLY_DIR (v ALWAYS : bool) (s : state) : state :=
  if DUAL_X_CARRIAGE cfg then
    if extruder_duplication_enabled s || ALWAYS
    then DIR_WRITE MX2 v (DIR_WRITE MX v s)
    else if negb (cb_active_extruder s =? 0) then DIR_WRITE MX2 v s else DIR_WRITE MX v s
  else DIR_WRITE MX v s.

Definition X_APPLY_STEP (v ALWAYS : bool) (s : state) : state :=
  if DUAL_X_CARRIAGE cfg then
    if extruder_duplication_enabled s || ALWAYS
    then STEP_WRITE MX2 v (STEP_WRITE MX v s)
    else if negb (cb_active_extruder s =? 0) then STEP_WRITE MX2 v s else STEP_WRITE MX v s
  else STEP_WRITE MX v s.

Definition Y_APPLY_DIR (v Q : bool) (s : state) : state :=
  if Y_DUAL_STEPPER_DRIVERS cfg
  then DIR_WRITE MY2 (xorb v (INVERT_Y2_VS_Y_DIR cfg)) (DIR_WRITE MY v s)
  else DIR_WRITE MY v s.

Definition Y_APPLY_STEP (v Q : bool) (s : state) : state :=
  if Y_DUAL_STEPPER_DRIVERS cfg
  then STEP_WRITE MY2 v (STEP_WRITE MY v s)
  else STEP_WRITE MY v s.

Definition Z_APPLY_DIR (v Q : bool) (s : state) : state :=
  if Z_DUAL_STEPPER_DRIVERS cfg
  then DIR_WRITE MZ2 v (DIR_WRITE MZ v s)
  else DIR_WRITE MZ v s.

(** One guarded write of the dual-endstop [Z_APPLY_STEP]:
    [if (!(TEST(old_endstop_bits, E) && (count_direction[Z_AXIS] ? 0)) && !locked) WRITE(v)]. *)
Definition Z_guarded_step (m : Motor) (e : EndstopEnum) (towards : bool) (locked : bool)
    (v : bool) (s : state) : state :=
  if negb (TEST (old_endstop_bits s) (endstop_bit cfg e) && towards) && negb locked
  then STEP_WRITE m v s else s.

Definition Z_APPLY_STEP (v Q : bool) (s : state) : state :=
  if Z_DUAL_STEPPER_DRIVERS cfg then
    if Z_DUAL_ENDSTOPS cfg then
      if performing_homing s then
        if Z_HOME_DIR cfg >? 0 then
          let s := Z_guarded_step MZ Z_MAX (count_direction s Z_AXIS >? 0)
                     (locked_z_motor s) v s in
          Z_guarded_step MZ2 Z2_MAX (count_direction s Z_AXIS >? 0) (locked_z2_motor s) v s
        else
          let s := Z_guarded_step MZ Z_MIN (count_direction s Z_AXIS <? 0)
                     (locked_z_motor s) v s in
          Z_guarded_step MZ2 Z2_MIN (count_direction s Z_AXIS <? 0) (locked_z2_motor s) v s
      else STEP_WRITE MZ2 v (STEP_WRITE MZ v s)
    else STEP_WRITE MZ2 v (STEP_WRITE MZ v s)
  else STEP_WRITE MZ v s.

(** [E_STEP_WRITE] fans out to the driver of the active extruder in
    [stepper_indirection.h]; the model has one extruder output [ME]. *)
Definition E_APPLY_STEP (v Q : bool) (s : state) : state := STEP_WRITE ME v s.

Definition APPLY_STEP (a : AxisEnum) : bool -> bool -> state -> state :=
  match a with
  | X_AXIS => X_APPLY_STEP
  | Y_AXIS => Y_APPLY_STEP
  | Z_AXIS => Z_APPLY_STEP
  | E_AXIS => E_APPLY_STEP
  end.

(** Modelled from the spec: [REV_E_DIR] and [NORM_E_DIR] come from
    [stepper_indirection.h] (absent); they latch the extruder direction pin
    for the negative, respectively positive, direction, "applying per-pin
    polarity inversion" like the [X], [Y] and [Z] direction writes. *)
Definition REV_E_DIR (s : state) : state := DIR_WRITE ME (INVERT_DIR cfg E_AXIS) s.
Definition NORM_E_DIR (s : state) : state := DIR_WRITE ME (negb (INVERT_DIR cfg E_AXIS)) s.

(** *** [MultiU32X32toH32]: [((uint64_t)longIn1 * longIn2 + 0x80000000) >> 32] *)
Definition MultiU32X32toH32 (longIn1 longIn2 : Z) : Z :=
  Z.shiftr (uint64 (uint64 (uint64 longIn1 * uint64 longIn2) + 0x80000000)) 32.

(** *** [calc_timer]

    Returns the timer interval and leaves the number of steps per interrupt
    in [step_loops].  The quotient is C's unsigned division; for a zero
    divisor the model has [Z]'s value [0]. *)
Definition calc_timer (step_rate : Z) (s : state) : Z * state :=
  let step_rate :=
    if step_rate >? MAX_STEP_FREQUENCY cfg then MAX_STEP_FREQUENCY cfg else step_rate in
  let '(step_rate, s) :=
    if ENABLE_HIGH_SPEED_STEPPING cfg then
      if step_rate >? 2 * DOUBLE_STEP_FREQUENCY cfg
      then (Z.shiftr step_rate 2, set_step_loops 4 s)
      else if step_rate >? DOUBLE_STEP_FREQUENCY cfg
      then (Z.shiftr step_rate 1, set_step_loops 2 s)
      else (step_rate, set_step_loops 1 s)
    else (step_rate, set_step_loops 1 s) in
  (HAL_TIMER_RATE cfg / step_rate, s).

(** *** [set_stepper_direction] *)

(** One of the three [if (TEST(out_bits, AXIS)) { ... } else { ... }] blocks. *)
Definition latch_direction (a : AxisEnum) (APPLY_DIR_ : bool -> bool -> state -> state)
    (s : state) : state :=
  if TEST (out_bits s) (axis_bit cfg a)
  then set_count_direction (upd_axis (count_direction s) a (-1))
         (APPLY_DIR_ (INVERT_DIR cfg a) false s)
  else set_count_direction (upd_axis (count_direction s) a 1)
         (APPLY_DIR_ (negb (INVERT_DIR cfg a)) false s).

Definition latch_e_direction (s : state) : state :=
  if TEST (out_bits s) (axis_bit cfg E_AXIS)
  then set_count_direction (upd_axis (count_direction s) E_AXIS (-1)) (REV_E_DIR s)
  else set_count_direction (upd_axis (count_direction s) E_AXIS 1) (NORM_E_DIR s).

Definition set_stepper_direction (s : state) : state :=
  let s := latch_direction X_AXIS X_APPLY_DIR s in
  let s := latch_direction Y_AXIS Y_APPLY_DIR s in
  let s := latch_direction Z_AXIS Z_APPLY_DIR s in
  if ADVANCE cfg then s else latch_e_direction s.

(** *** [HAL_timer_stepper_count]: re-arm the step timer *)
Definition HAL_timer_stepper_count (count : Z) (inp : isr_input) (s : state) : state :=
  let counter_value := uint32 (TC_CV inp + 42) in
  let rc := if counter_value <=? count then count else counter_value in
  emit (TimerCompare rc) (set_TC_RC rc s).

(** [e_steps[current_block->active_extruder] += ((advance >> 8) - old_advance);
     old_advance = advance >> 8;] *)
Definition advance_e_steps (b : block_t) (s : state) : state :=
  let ext := active_extruder b in
  let s := set_e_steps
             (upd_Z (e_steps s) ext
                (int32 (e_steps s ext + int32 (Z.shiftr (advance s) 8 - old_advance s)))) s in
  set_old_advance (Z.shiftr (advance s) 8) s.

(** *** [trapezoid_generator_reset] *)
Definition trapezoid_generator_reset (b : block_t) (s : state) : state :=
  let s :=
    if negb (direction_bits b =? out_bits s)
    then set_stepper_direction (set_out_bits (direction_bits b) s)
    else s in
  let s :=
    if ADVANCE cfg then
      let s := set_advance (initial_advance b) s in
      let s := set_final_advance (final_advance_b b) s in
      advance_e_steps b s
    else s in
  let s := set_deceleration_time 0 s in
  let '(t, s) := calc_timer (nominal_rate b) s in
  let s := set_OCR1A_nominal t s in
  let s := set_step_loops_nominal (uint16 (step_loops s)) s in
  let s := set_acc_step_rate (initial_rate b) s in
  let '(t, s) := calc_timer (acc_step_rate s) s in
  set_acceleration_time (int32 t) s.

(** *** The endstop sampler and latch *)

(** [current_endstop_bits] and [old_endstop_bits] are [uint16_t] with
    [Z_DUAL_ENDSTOPS] and [byte] without. *)
Definition endstop_t (z : Z) : Z :=
  if Z_DUAL_ENDSTOPS cfg then uint16 z else uint8 z.

Definition SET_ENDSTOP_BIT (inp : isr_input) (e : EndstopEnum) (bits : Z) : Z :=
  endstop_t (SET_BIT bits (endstop_bit cfg e)
               (xorb (READ_ENDSTOP inp e) (ENDSTOP_INVERTING cfg e))).

Definition COPY_BIT (bits : Z) (from to : EndstopEnum) : Z :=
  endstop_t (SET_BIT bits (endstop_bit cfg to) (TEST bits (endstop_bit cfg from))).

Definition TEST_ENDSTOP (s : state) (current_endstop_bits : Z) (e : EndstopEnum) : bool :=
  TEST current_endstop_bits (endstop_bit cfg e) && TEST (old_endstop_bits s) (endstop_bit cfg e).

(** [endstops_trigsteps[a] = count_position[a]] *)
Definition record_trigsteps (a : AxisEnum) (s : state) : state :=
  set_endstops_trigsteps (upd_axis (endstops_trigsteps s) a (count_position s a)) s.

(** [endstop_hit_bits |= BIT(e)]; the variable is a [char]. *)
Definition hit (e : EndstopEnum) (s : state) : state :=
  set_endstop_hit_bits (uint8 (Z.lor (endstop_hit_bits s) (BIT (endstop_bit cfg e)))) s.

(** [UPDATE_ENDSTOP(AXIS, MINMAX)] for the endstop [e = AXIS_MINMAX]; the
    sample under construction is threaded next to the state. *)
Definition UPDATE_ENDSTOP (inp : isr_input) (b : block_t) (e : EndstopEnum)
    (sc : state * Z) : state * Z :=
  let '(s, current_endstop_bits) := sc in
  let current_endstop_bits := SET_ENDSTOP_BIT inp e current_endstop_bits in
  if TEST_ENDSTOP s current_endstop_bits e && (steps b (endstop_axis e) >? 0) then
    let s := record_trigsteps (endstop_axis e) s in
    let s := hit (endstop_MIN e) s in
    (set_step_events_completed (step_event_count b) s, current_endstop_bits)
  else (s, current_endstop_bits).

(** The [DUAL_X_CARRIAGE] guard: endstops are only checked in the homing
    direction of the active extruder's carriage. *)
Definition dual_x_gate (b : block_t) (dir : Z) : bool :=
  if DUAL_X_CARRIAGE cfg then
    ((active_extruder b =? 0) && (X_HOME_DIR cfg =? dir))
    || (negb (active_extruder b =? 0) && (X2_HOME_DIR cfg =? dir))
  else true.

Definition endstops_X (inp : isr_input) (b : block_t) (sc : state * Z) : state * Z :=
  let out := out_bits (fst sc) in
  let by_direction (sc : state * Z) :=
    if TEST out (if COREXY cfg then X_HEAD cfg else axis_bit cfg X_AXIS) then
      if dual_x_gate b (-1) then
        if HAS_ENDSTOP cfg X_MIN then UPDATE_ENDSTOP inp b X_MIN sc else sc
      else sc
    else
      if dual_x_gate b 1 then
        if HAS_ENDSTOP cfg X_MAX then UPDATE_ENDSTOP inp b X_MAX sc else sc
      else sc in
  if COREXY cfg then
    if negb (steps b X_AXIS =? steps b Y_AXIS)
       || Bool.eqb (TEST out (axis_bit cfg X_AXIS)) (TEST out (axis_bit cfg Y_AXIS))
    then by_direction sc else sc
  else by_direction sc.

Definition endstops_Y (inp : isr_input) (b : block_t) (sc : state * Z) : state * Z :=
  let out := out_bits (fst sc) in
  let by_direction (sc : state * Z) :=
    if TEST out (if COREXY cfg then Y_HEAD cfg else axis_bit cfg Y_AXIS) then
      if HAS_ENDSTOP cfg Y_MIN then UPDATE_ENDSTOP inp b Y_MIN sc else sc
    else
      if HAS_ENDSTOP cfg Y_MAX then UPDATE_ENDSTOP inp b Y_MAX sc else sc in
  if COREXY cfg then
    if negb (steps b X_AXIS =? steps b Y_AXIS)
       || negb (Bool.eqb (TEST out (axis_bit cfg X_AXIS)) (TEST out (axis_bit cfg Y_AXIS)))
    then by_direction sc else sc
  else by_direction sc.

(** [byte z_test = TEST_ENDSTOP(Z) << 0 + TEST_ENDSTOP(Z2) << 1;]
    In C, [+] binds tighter than [<<], and [<<] associates to the left: the
    expression is [(TEST_ENDSTOP(Z) << (0 + TEST_ENDSTOP(Z2))) << 1]. *)
Definition z_test (s : state) (current_endstop_bits : Z) (e e2 : EndstopEnum) : Z :=
  uint8 (Z.shiftl
           (Z.shiftl (b2z (TEST_ENDSTOP s current_endstop_bits e))
                     (0 + b2z (TEST_ENDSTOP s current_endstop_bits e2)))
           1).

(** The [Z_DUAL_ENDSTOPS] branch, for [(e, e2) = (Z_MIN, Z2_MIN)] and
    [(Z_MAX, Z2_MAX)]; both set [BIT(Z_MIN)].  (The [COPY_BIT] line of the
    [Z_MAX] branch lacks its semicolon in the source; it is read as the
    statement it is in the [Z_MIN] branch.) *)
Definition endstops_Z_dual (inp : isr_input) (b : block_t) (e e2 : EndstopEnum)
    (sc : state * Z) : state * Z :=
  let '(s, current_endstop_bits) := sc in
  let current_endstop_bits := SET_ENDSTOP_BIT inp e current_endstop_bits in
  let current_endstop_bits :=
    if HAS_ENDSTOP cfg e2 then SET_ENDSTOP_BIT inp e2 current_endstop_bits
    else COPY_BIT current_endstop_bits e e2 in
  let zt := z_test s current_endstop_bits e e2 in
  if negb (zt =? 0) && (steps b Z_AXIS >? 0) then
    let s := record_trigsteps Z_AXIS s in
    let s := hit Z_MIN s in
    if negb (performing_homing s) || (zt =? 0x3)
    then (set_step_events_completed (step_event_count b) s, current_endstop_bits)
    else (s, current_endstop_bits)
  else (s, current_endstop_bits).

Definition endstops_Z_probe (inp : isr_input) (b : block_t) (sc : state * Z) : state * Z :=
  if Z_PROBE_ENDSTOP cfg then
    let '(s, current_endstop_bits) := UPDATE_ENDSTOP inp b Z_PROBE sc in
    if TEST_ENDSTOP s current_endstop_bits Z_PROBE
    then (hit Z_PROBE (record_trigsteps Z_AXIS s), current_endstop_bits)
    else (s, current_endstop_bits)
  else sc.

Definition endstops_Z (inp : isr_input) (b : block_t) (sc : state * Z) : state * Z :=
  let along (e e2 : EndstopEnum) (sc : state * Z) :=
    let sc :=
      if HAS_ENDSTOP cfg e then
        if Z_DUAL_ENDSTOPS cfg then endstops_Z_dual inp b e e2 sc
        else UPDATE_ENDSTOP inp b e sc
      else sc in
    endstops_Z_probe inp b sc in
  if TEST (out_bits (fst sc)) (axis_bit cfg Z_AXIS)
  then along Z_MIN Z2_MIN sc
  else along Z_MAX Z2_MAX sc.

(** The body of [if (check_endstops) { ... }]. *)
Definition check_endstops_phase (inp : isr_input) (b : block_t) (s : state) : state :=
  let sc := (s, 0) in
  let sc := endstops_X inp b sc in
  let sc := endstops_Y inp b sc in
  let '(s, current_endstop_bits) := endstops_Z inp b sc in
  set_old_endstop_bits current_endstop_bits s.

(** *** The Bresenham tracer *)

Definition STEP_START (b : block_t) (a : AxisEnum) (s : state) : state :=
  let s := set_counter (upd_axis (counter s) a (int32 (counter s a + steps b a))) s in
  if counter s a >? 0 then
    let s := APPLY_STEP a (negb (INVERT_STEP_PIN cfg a)) false s in
    let s := set_counter (upd_axis (counter s) a (int32 (counter s a - step_event_count b))) s in
    set_count_position
      (upd_axis (count_position s) a (int32 (count_position s a + count_direction s a))) s
  else s.

Definition STEP_END (a : AxisEnum) (s : state) : state :=
  APPLY_STEP a (INVERT_STEP_PIN cfg a) false s.

(** The [#ifdef ADVANCE] head of the loop body. *)
Definition advance_tick (b : block_t) (s : state) : state :=
  let s := set_counter
             (upd_axis (counter s) E_AXIS (int32 (counter s E_AXIS + steps b E_AXIS))) s in
  if counter s E_AXIS >? 0 then
    let s := set_counter
               (upd_axis (counter s) E_AXIS
                  (int32 (counter s E_AXIS - step_event_count b))) s in
    let ext := active_extruder b in
    set_e_steps
      (upd_Z (e_steps s) ext
         (int32 (e_steps s ext + (if TEST (out_bits s) (axis_bit cfg E_AXIS) then -1 else 1)))) s
  else s.

Definition step_starts (b : block_t) (s : state) : state :=
  let s := STEP_START b X_AXIS s in
  let s := STEP_START b Y_AXIS s in
  let s := STEP_START b Z_AXIS s in
  if ADVANCE cfg then s else STEP_START b E_AXIS s.

Definition step_ends (s : state) : state :=
  let s := STEP_END X_AXIS s in
  let s := STEP_END Y_AXIS s in
  let s := STEP_END Z_AXIS s in
  if ADVANCE cfg then s else STEP_END E_AXIS s.

(** [step_events_completed++] *)
Definition step_event_done (s : state) : state :=
  set_step_events_completed (uint32 (step_events_completed s + 1)) s.

(** One iteration of the high-speed loop, up to the [break] test. *)
Definition step_iteration (b : block_t) (s : state) : state :=
  let s := if ADVANCE cfg then advance_tick b s else s in
  step_event_done (step_ends (step_starts b s)).

(** [for (int8_t i = 0; i < step_loops; i++) { ...; if (...) break; }] with
    [n] iterations left. *)
Fixpoint step_loop (b : block_t) (n : nat) (s : state) : state :=
  match n with
  | O => s
  | S n' =>
      let s := step_iteration b s in
      if step_events_completed s >=? step_event_count b then s
      else step_loop b n' s
  end.

(** *** The trapezoid: the new timer value *)

Definition trapezoid_accelerate (b : block_t) (s : state) : Z * state :=
  let s := set_acc_step_rate
             (uint32 (MultiU32X32toH32 (acceleration_time s) (acceleration_rate b))) s in
  let s := set_acc_step_rate (uint32 (acc_step_rate s + initial_rate b)) s in
  let s := if acc_step_rate s >? nominal_rate b
           then set_acc_step_rate (nominal_rate b) s else s in
  let '(timer, s) := calc_timer (acc_step_rate s) s in
  let s := set_acceleration_time (int32 (acceleration_time s + timer)) s in
  let s :=
    if ADVANCE cfg then
      let s := set_advance
                 (Nat.iter (Z.to_nat (step_loops s))
                    (fun a => int32 (a + advance_rate s)) (advance s)) s in
      advance_e_steps b s
    else s in
  (timer, s).

Definition trapezoid_decelerate (b : block_t) (s : state) : Z * state :=
  let step_rate := uint32 (MultiU32X32toH32 (deceleration_time s) (acceleration_rate b)) in
  let step_rate :=
    if step_rate >? acc_step_rate s then final_rate b
    else uint32 (acc_step_rate s - step_rate) in
  let step_rate := if step_rate <? final_rate b then final_rate b else step_rate in
  let '(timer, s) := calc_timer step_rate s in
  let s := set_deceleration_time (int32 (deceleration_time s + timer)) s in
  let s :=
    if ADVANCE cfg then
      let s := set_advance
                 (Nat.iter (Z.to_nat (step_loops s))
                    (fun a => int32 (a - advance_rate s)) (advance s)) s in
      let s := if advance s <? final_advance s then set_advance (final_advance s) s else s in
      advance_e_steps b s
    else s in
  (timer, s).

Definition trapezoid_update (b : block_t) (s : state) : Z * state :=
  if step_events_completed s <=? uint32 (accelerate_until b) then trapezoid_accelerate b s
  else if step_events_completed s >? uint32 (decelerate_after b) then trapezoid_decelerate b s
  else (OCR1A_nominal s, set_step_loops (uint8 (step_loops_nominal s)) s).

(** *** The planner queue seen from the interrupt *)

(** Modelled from the spec: the planner ([planner.cpp]) is not among the
    sources.  "[plan_get_current_block() -> Block* | null] — peek, not
    dequeue; may return null if empty" and "[plan_discard_current_block()]
    — release the head". *)
Definition plan_get_current_block (s : state) : option block_t := hd_error (block_buffer s).
Definition plan_discard_current_block (s : state) : state :=
  emit DiscardBlock (set_block_buffer (tl (block_buffer s)) s).

(** *** [HAL_STEP_TIMER_ISR] *)

(** [if (cleaning_buffer_counter) { ... return; }]  (the optional
    [SD_FINISHED_RELEASECOMMAND] enqueues a G-code command and touches
    nothing of this state). *)
Definition isr_cleaning (inp : isr_input) (s : state) : state :=
  let s := set_current_block None s in
  let s := plan_discard_current_block s in
  let s := set_cleaning_buffer_counter (uint32 (cleaning_buffer_counter s - 1)) s in
  HAL_timer_stepper_count (HAL_TIMER_RATE cfg / 200) inp s.

(** [if (!current_block) { ... }]; the boolean tells that the handler
    returned from inside ([Z_LATE_ENABLE]). *)
Definition isr_acquire (inp : isr_input) (s : state) : state * bool :=
  match current_block s with
  | Some _ => (s, false)
  | None =>
      match plan_get_current_block s with
      | Some b =>
          let b := set_busy true b in
          let s := set_current_block (Some b) (set_block_buffer (b :: tl (block_buffer s)) s) in
          let s := trapezoid_generator_reset b s in
          let c := int32 (uint32 (- Z.shiftr (step_event_count b) 1)) in
          let s := set_counter (fun _ => c) s in
          let s := set_step_events_completed 0 s in
          if Z_LATE_ENABLE cfg && (steps b Z_AXIS >? 0)
          then (emit (TimerSetCount (HAL_TIMER_RATE cfg / 1000)) (emit (EnableAxis Z_AXIS) s),
                true)
          else (s, false)
      | None => (HAL_timer_stepper_count (HAL_TIMER_RATE cfg / 1000) inp s, false)
      end
  end.

(** [if (current_block != NULL) { ... }] up to and including the tracer. *)
Definition isr_endstops (inp : isr_input) (b : block_t) (s : state) : state :=
  if check_endstops s then check_endstops_phase inp b s else s.

Definition isr_steps (b : block_t) (s : state) : state :=
  if ENABLE_HIGH_SPEED_STEPPING cfg
  then step_loop b (Z.to_nat (step_loops s)) s
  else step_event_done (step_starts b s).

(** ... the timer update, the late [STEP_END]s, the re-arm and the release. *)
Definition isr_finish (inp : isr_input) (b : block_t) (s : state) : state :=
  let '(timer, s) := trapezoid_update b s in
  let s := if ENABLE_HIGH_SPEED_STEPPING cfg then s else step_ends s in
  let s := HAL_timer_stepper_count timer inp s in
  if step_events_completed s >=? step_event_count b
  then plan_discard_current_block (set_current_block None s)
  else s.

Definition isr_block (inp : isr_input) (b : block_t) (s : state) : state :=
  isr_finish inp b (isr_steps b (isr_endstops inp b s)).

Definition HAL_STEP_TIMER_ISR (inp : isr_input) (s : state) : state :=
  if negb (cleaning_buffer_counter s =? 0) then isr_cleaning inp s
  else
    let '(s, returned) := isr_acquire inp s in
    if returned then s
    else
      match current_block s with
      | Some b => isr_block inp b s
      | None => s
      end.

(** *** The position mirror and the small setters of the public interface *)

Definition st_set_position (x y z e : Z) (s : state) : state :=
  set_count_position
    (fun a => match a with X_AXIS => x | Y_AXIS => y | Z_AXIS => z | E_AXIS => e end) s.

Definition st_set_e_position (e : Z) (s : state) : state :=
  set_count_position (upd_axis (count_position s) E_AXIS e) s.

Definition st_get_position (axis : AxisEnum) (s : state) : Z := count_position s axis.

Definition endstops_hit_on_purpose (s : state) : state := set_endstop_hit_bits 0 s.
Definition enable_endstops (check : bool) (s : state) : state := set_check_endstops check s.
Definition In_Homing_Process (v : bool) (s : state) : state := set_performing_homing v s.
Definition Lock_z_motor (v : bool) (s : state) : state := set_locked_z_motor v s.
Definition Lock_z2_motor (v : bool) (s : state) : state := set_locked_z2_motor v s.

(** *** [babystep] *)

(** [BABYSTEP_AXIS(axis, AXIS, INVERT)], with the macros of [AXIS] passed in:
    [m] is the pin read by [AXIS_DIR_READ]. *)
Definition BABYSTEP_AXIS (a : AxisEnum) (m : Motor)
    (APPLY_DIR_ APPLY_STEP_ : bool -> bool -> state -> state)
    (INVERT direction : bool) (s : state) : state :=
  let s := emit (EnableAxis a) s in
  let old_pin := dir_pin s m in
  let s := APPLY_DIR_ (xorb (xorb (INVERT_DIR cfg a) direction) INVERT) true s in
  let s := APPLY_STEP_ (negb (INVERT_STEP_PIN cfg a)) true s in
  let s := emit (DelayMicroseconds 2) s in
  let s := APPLY_STEP_ (INVERT_STEP_PIN cfg a) true s in
  APPLY_DIR_ old_pin true s.

Definition babystep_delta_z (direction : bool) (s : state) : state :=
  let z_direction := xorb direction (BABYSTEP_INVERT_Z cfg) in
  let s := emit (EnableAxis Z_AXIS) (emit (EnableAxis Y_AXIS) (emit (EnableAxis X_AXIS) s)) in
  let old_x_dir_pin := dir_pin s MX in
  let old_y_dir_pin := dir_pin s MY in
  let old_z_dir_pin := dir_pin s MZ in
  let s := DIR_WRITE MX (xorb (INVERT_DIR cfg X_AXIS) z_direction) s in
  let s := DIR_WRITE MY (xorb (INVERT_DIR cfg Y_AXIS) z_direction) s in
  let s := DIR_WRITE MZ (xorb (INVERT_DIR cfg Z_AXIS) z_direction) s in
  let s := STEP_WRITE MX (negb (INVERT_STEP_PIN cfg X_AXIS)) s in
  let s := STEP_WRITE MY (negb (INVERT_STEP_PIN cfg Y_AXIS)) s in
  let s := STEP_WRITE MZ (negb (INVERT_STEP_PIN cfg Z_AXIS)) s in
  let s := emit (DelayMicroseconds 1) s in
  let s := STEP_WRITE MX (INVERT_STEP_PIN cfg X_AXIS) s in
  let s := STEP_WRITE MY (INVERT_STEP_PIN cfg Y_AXIS) s in
  let s := STEP_WRITE MZ (INVERT_STEP_PIN cfg Z_AXIS) s in
  let s := DIR_WRITE MX old_x_dir_pin s in
  let s := DIR_WRITE MY old_y_dir_pin s in
  DIR_WRITE MZ old_z_dir_pin s.

Definition babystep (axis : AxisEnum) (direction : bool) (s : state) : state :=
  match axis with
  | X_AXIS => BABYSTEP_AXIS X_AXIS MX X_APPLY_DIR X_APPLY_STEP false direction s
  | Y_AXIS => BABYSTEP_AXIS Y_AXIS MY Y_APPLY_DIR Y_APPLY_STEP false direction s
  | Z_AXIS =>
      if DELTA cfg then babystep_delta_z direction s
      else BABYSTEP_AXIS Z_AXIS MZ Z_APPLY_DIR Z_APPLY_STEP (BABYSTEP_INVERT_Z cfg) direction s
  | E_AXIS => s
  end.


End Stepper.

(** ** Running the interrupt *)

(** Successive interrupts, one input each. *)
Fixpoint run (cfg : Config) (inps : list isr_input) (s : state) : state :=
  match inps with
  | [] => s
  | inp :: rest => run cfg rest (HAL_STEP_TIMER_ISR cfg inp s)
  end.

(** The invocation hands the head of the queue back to the planner. *)
Definition releases (cfg : Config) (inp : isr_input) (s : state) : bool :=
  (length (block_buffer (HAL_STEP_TIMER_ISR cfg inp s)) <? length (block_buffer s))%nat.

(** Interrupts up to and including the one that releases the block at the
    head of the queue; [None] when the inputs run out before. *)
Fixpoint execute_block (cfg : Config) (inps : list isr_input) (s : state) : option state :=
  match inps with
  | [] => None
  | inp :: rest =>
      if releases cfg inp s then Some (HAL_STEP_TIMER_ISR cfg inp s)
      else execute_block cfg rest (HAL_STEP_TIMER_ISR cfg inp s)
  end.

(** The endstop check of this invocation overwrites [step_events_completed]. *)
Definition endstop_truncates (cfg : Config) (inp : isr_input) (s : state) : bool :=
  if negb (cleaning_buffer_counter s =? 0) then false
  else
    let '(s1, returned) := isr_acquire cfg inp s in
    if returned then false
    else
      match current_block s1 with
      | Some b =>
          negb (step_events_completed (isr_endstops cfg inp b s1) =? step_events_completed s1)
      | None => false
      end.

(** No invocation up to the release of the head block is cut short by an
    endstop. *)
Fixpoint untruncated (cfg : Config) (inps : list isr_input) (s : state) : bool :=
  match inps with
  | [] => true
  | inp :: rest =>
      negb (endstop_truncates cfg inp s)
      && (releases cfg inp s || untruncated cfg rest (HAL_STEP_TIMER_ISR cfg inp s))
  end.

(** The signed step vector of a block: "1 = negative direction". *)
Definition signed_steps (cfg : Config) (b : block_t) (a : AxisEnum) : Z :=
  if TEST (direction_bits b) (axis_bit cfg a) then - steps b a else steps b a.

(** ** Well-formedness *)

(** A block as the planner produces it: step counts are non-negative and
    [step_event_count], their maximum, is at least one and fits a [long]. *)
Definition block_wf (b : block_t) : Prop :=
  1 <= step_event_count b < 2 ^ 31 /\
  forall a, 0 <= steps b a <= step_event_count b.

(** [count_direction] mirrors the direction last latched from [out_bits]
    (the extruder's only when the main interrupt steps it). *)
Definition directions_latched (cfg : Config) (s : state) : Prop :=
  forall a, (a = E_AXIS -> ADVANCE cfg = false) ->
    count_direction s a = if TEST (out_bits s) (axis_bit cfg a) then -1 else 1.

(** The enumerators used as bit numbers fit the variables that hold them:
    the four bits latched in the [char] [endstop_hit_bits] are below 8 and
    every endstop bit fits [old_endstop_bits]. *)
Definition all_endstops : list EndstopEnum :=
  [X_MIN; Y_MIN; Z_MIN; Z_PROBE; X_MAX; Y_MAX; Z_MAX; Z2_MIN; Z2_MAX].

Definition endstop_bits_fit (cfg : Config) : bool :=
  forallb (fun e => (0 <=? endstop_bit cfg e) && (endstop_bit cfg e <? 8))
          [X_MIN; Y_MIN; Z_MIN; Z_PROBE]
  && forallb (fun e => (0 <=? endstop_bit cfg e)
                       && (endstop_bit cfg e <? (if Z_DUAL_ENDSTOPS cfg then 16 else 8)))
       (if Z_DUAL_ENDSTOPS cfg then all_endstops
        else [X_MIN; Y_MIN; Z_MIN; Z_PROBE; X_MAX; Y_MAX; Z_MAX]).

Definition is_MAX (e : EndstopEnum) : bool :=
  match e with
  | X_MAX | Y_MAX | Z_MAX | Z2_MAX => true
  | _ => false
  end.

(** No [MAX] enumerator shares its value with one of the latched ones. *)
Definition MAX_bits_apart (cfg : Config) : bool :=
  forallb (fun m =>
     forallb (fun e => negb (endstop_bit cfg m =? endstop_bit cfg e))
             [X_MIN; Y_MIN; Z_MIN; Z_PROBE])
    [X_MAX; Y_MAX; Z_MAX; Z2_MAX].

(** ** Step edges in a trace *)

Definition motor_axis (m : Motor) : AxisEnum :=
  match m with
  | MX | MX2 => X_AXIS
  | MY | MY2 => Y_AXIS
  | MZ | MZ2 => Z_AXIS
  | ME => E_AXIS
  end.

(** A step pin is driven to its active level, respectively back to idle. *)
Definition is_rise (cfg : Config) (e : event) : bool :=
  match e with
  | StepWrite m v => Bool.eqb v (negb (INVERT_STEP_PIN cfg (motor_axis m)))
  | _ => false
  end.
Definition is_fall (cfg : Config) (e : event) : bool :=
  match e with
  | StepWrite m v => Bool.eqb v (INVERT_STEP_PIN cfg (motor_axis m))
  | _ => false
  end.

(** Every rising edge precedes every falling edge. *)
Fixpoint rises_before_falls (cfg : Config) (l : list event) : bool :=
  match l with
  | [] => true
  | e :: l' =>
      if is_fall cfg e then forallb (fun e' => negb (is_rise cfg e')) l'
      else rises_before_falls cfg l'
  end.

(** The levels written to the step pin of [m], in order. *)
Definition step_writes (m : Motor) (l : list event) : list bool :=
  flat_map (fun e => match e with
                     | StepWrite m' v => if Motor_eqb m m' then [v] else []
                     | _ => []
                     end) l.

(** The events a computation appended to the trace of [s]. *)
Definition new_events (s s' : state) : list event := skipn (length (trace s)) (trace s').

(** One pulse: the pin goes to its active level and back. *)
Definition one_pulse (cfg : Config) (m : Motor) : list bool :=
  [negb (INVERT_STEP_PIN cfg (motor_axis m)); INVERT_STEP_PIN cfg (motor_axis m)].

(** The drivers [babystep] pulses for an axis when no Z motor is held back. *)
Definition babystep_motors (cfg : Config) (axis : AxisEnum) : list Motor :=
  match axis with
  | X_AXIS => if DUAL_X_CARRIAGE cfg then [MX; MX2] else [MX]
  | Y_AXIS => if Y_DUAL_STEPPER_DRIVERS cfg then [MY; MY2] else [MY]
  | Z_AXIS => if DELTA cfg then [MX; MY; MZ]
              else if Z_DUAL_STEPPER_DRIVERS cfg then [MZ; MZ2] else [MZ]
  | E_AXIS => []
  end.

(** The dual-endstop [Z_APPLY_STEP] may hold a Z motor back. *)
Definition z_steps_guarded (cfg : Config) (s : state) : bool :=
  negb (DELTA cfg) && Z_DUAL_STEPPER_DRIVERS cfg && Z_DUAL_ENDSTOPS cfg && performing_homing s.

(** ** Example builds and states *)

Definition axis_number (a : AxisEnum) : Z :=
  match a with X_AXIS => 0 | Y_AXIS => 1 | Z_AXIS => 2 | E_AXIS => 3 end.

Definition endstop_number (e : EndstopEnum) : Z :=
  match e with
  | X_MIN => 0 | Y_MIN => 1 | Z_MIN => 2 | Z_PROBE => 3
  | X_MAX => 4 | Y_MAX => 5 | Z_MAX => 6 | Z2_MIN => 7 | Z2_MAX => 8
  end.

(** A Cartesian machine with MIN and MAX switches on the three axes, active
    high everywhere; the three flags choose the advance engine, step
    doubling and a second Z motor with its own endstops. *)
Definition build (advance_on high_speed dual_z : bool) : Config :=
  {| ADVANCE := advance_on;
     ENABLE_HIGH_SPEED_STEPPING := high_speed;
     Z_LATE_ENABLE := false;
     COREXY := false;
     DUAL_X_CARRIAGE := false;
     Y_DUAL_STEPPER_DRIVERS := false;
     Z_DUAL_STEPPER_DRIVERS := dual_z;
     Z_DUAL_ENDSTOPS := dual_z;
     Z_PROBE_ENDSTOP := false;
     DELTA := false;
     HAS_ENDSTOP := fun e => match e with
                             | Z_PROBE => false
                             | Z2_MIN | Z2_MAX => dual_z
                             | _ => true
                             end;
     INVERT_DIR := fun _ => false;
     INVERT_Y2_VS_Y_DIR := false;
     INVERT_STEP_PIN := fun _ => false;
     ENDSTOP_INVERTING := fun _ => false;
     BABYSTEP_INVERT_Z := false;
     X_HOME_DIR := -1;
     X2_HOME_DIR := 1;
     Z_HOME_DIR := -1;
     MAX_STEP_FREQUENCY := 320000;
     DOUBLE_STEP_FREQUENCY := 96000;
     HAL_TIMER_RATE := 2625000;
     axis_bit := axis_number;
     X_HEAD := 4;
     Y_HEAD := 5;
     endstop_bit := endstop_number |}.

Definition cartesian : Config := build false false false.
Definition cartesian_fast : Config := build false true false.
Definition cartesian_advance : Config := build true false false.
Definition dual_z_build : Config := build false true true.

(** The variables as C initialises them, every output low, an empty queue. *)
Definition power_on : state :=
  {| block_buffer := [];
     current_block := None;
     out_bits := 0;
     cleaning_buffer_counter := 0;
     performing_homing := false;
     locked_z_motor := false;
     locked_z2_motor := false;
     counter := fun _ => 0;
     step_events_completed := 0;
     advance_rate := 0;
     advance := 0;
     final_advance := 0;
     old_advance := 0;
     e_steps := fun _ => 0;
     acceleration_time := 0;
     deceleration_time := 0;
     acc_step_rate := 0;
     step_loops := 0;
     OCR1A_nominal := 0;
     step_loops_nominal := 0;
     endstops_trigsteps := fun _ => 0;
     endstop_hit_bits := 0;
     old_endstop_bits := 0;
     check_endstops := true;
     count_position := fun _ => 0;
     count_direction := fun _ => 1;
     extruder_duplication_enabled := false;
     step_pin := fun _ => false;
     dir_pin := fun _ => false;
     TC_RC := 0;
     trace := [] |}.

(** A move of [(x, y, z, e)] steps at a constant [rate]. *)
Definition constant_rate_block (x y z e : Z) (dirs rate : Z) : block_t :=
  {| steps := fun a => match a with X_AXIS => x | Y_AXIS => y | Z_AXIS => z | E_AXIS => e end;
     step_event_count := Z.max (Z.max x y) (Z.max z e);
     accelerate_until := 0;
     decelerate_after := Z.max (Z.max x y) (Z.max z e);
     acceleration_rate := 0;
     direction_bits := dirs;
     active_extruder := 0;
     initial_advance := 0;
     final_advance_b := 0;
     nominal_rate := rate;
     initial_rate := rate;
     final_rate := rate;
     busy := false |}.

(** No switch closed, respectively the listed switches closed. *)
Definition quiet_input : isr_input := {| TC_CV := 0; READ_ENDSTOP := fun _ => false |}.
Definition input_with (closed : EndstopEnum -> bool) : isr_input :=
  {| TC_CV := 0; READ_ENDSTOP := closed |}.

Definition enqueue (b : block_t) (s : state) : state :=
  set_block_buffer (block_buffer s ++ [b]) s.

(** A block with a ramp up and a ramp down, caught in either ramp. *)
Definition ramp_block : block_t :=
  {| steps := fun a => match a with X_AXIS => 100 | _ => 0 end;
     step_event_count := 100;
     accelerate_until := 40;
     decelerate_after := 60;
     acceleration_rate := 4294967;
     direction_bits := 0;
     active_extruder := 0;
     initial_advance := 0;
     final_advance_b := 0;
     nominal_rate := 2000;
     initial_rate := 500;
     final_rate := 500;
     busy := true |}.
Definition accelerating : state :=
  set_acceleration_time 52500 (set_step_events_completed 10 power_on).
Definition decelerating : state :=
  set_deceleration_time 52500 (set_acc_step_rate 2000 (set_step_events_completed 70 power_on)).

(** ** Footprints: what a piece of code may write *)

Definition forget_outputs (s : state) : state :=
  set_trace [] (set_TC_RC 0 (set_dir_pin (fun _ => false) (set_step_pin (fun _ => false) s))).

Definition forget_tracer (s : state) : state :=
  set_e_steps (fun _ => 0)
    (set_count_position (fun _ => 0) (set_counter (fun _ => 0) (forget_outputs s))).

Definition forget_ticks (s : state) : state :=
  set_step_events_completed 0 (forget_tracer s).

Definition forget_rates (s : state) : state :=
  set_e_steps (fun _ => 0)
    (set_old_advance 0
       (set_advance 0
          (set_deceleration_time 0
             (set_acceleration_time 0 (set_step_loops 0 (set_acc_step_rate 0 s)))))).

Definition forget_trapezoid (s : state) : state := forget_rates (forget_outputs s).

Definition forget_latch (s : state) : state :=
  set_step_events_completed 0
    (set_endstop_hit_bits 0 (set_endstops_trigsteps (fun _ => 0) s)).

Definition forget_check (s : state) : state := set_old_endstop_bits 0 (forget_latch s).

Definition forget_finish (s : state) : state :=
  set_current_block None (set_block_buffer [] (forget_trapezoid s)).

Definition forget_direction (s : state) : state :=
  set_count_direction (fun _ => 0) (forget_outputs s).

Definition forget_reset (s : state) : state :=
  set_out_bits 0
    (set_count_direction (fun _ => 0)
       (set_final_advance 0
          (set_OCR1A_nominal 0 (set_step_loops_nominal 0 (forget_trapezoid s))))).

Definition forget_acquire (s : state) : state :=
  set_current_block None
    (set_block_buffer []
       (set_counter (fun _ => 0) (set_step_events_completed 0 (forget_reset s)))).

(** Everything but the endstop variables and the switches set from the main
    loop. *)
Definition forget_motion (s : state) : state :=
  set_cleaning_buffer_counter 0
    (set_count_position (fun _ => 0) (forget_acquire s)).

(** What the endstop check may do to the state: record a position, latch one
    of the four bits of [endstop_hit_bits], force the end of the block. *)
Inductive latches (cfg : Config) (b : block_t) (s0 : state) : state -> Prop :=
  | latches_refl : latches cfg b s0 s0
  | latches_record a s : latches cfg b s0 s -> latches cfg b s0 (record_trigsteps a s)
  | latches_hit e s :
      In e [X_MIN; Y_MIN; Z_MIN; Z_PROBE] ->
      latches cfg b s0 s -> latches cfg b s0 (hit cfg e s)
  | latches_done s :
      latches cfg b s0 s ->
      latches cfg b s0 (set_step_events_completed (step_event_count b) s).

(** The switch reads asserted in this sample; in this one and the last. *)
Definition asserted (cfg : Config) (inp : isr_input) (e : EndstopEnum) : bool :=
  xorb (READ_ENDSTOP inp e) (ENDSTOP_INVERTING cfg e).
Definition confirmed (cfg : Config) (inp : isr_input) (s : state) (e : EndstopEnum) : bool :=
  asserted cfg inp e && TEST (old_endstop_bits s) (endstop_bit cfg e).

(** The block moves towards endstop [e] and the build checks [e] through
    [UPDATE_ENDSTOP]: the conditions on the path to its call. *)
Definition x_head_moves (cfg : Config) (b : block_t) (s : state) : bool :=
  if COREXY cfg then
    negb (steps b X_AXIS =? steps b Y_AXIS)
    || Bool.eqb (TEST (out_bits s) (axis_bit cfg X_AXIS)) (TEST (out_bits s) (axis_bit cfg Y_AXIS))
  else true.
Definition y_head_moves (cfg : Config) (b : block_t) (s : state) : bool :=
  if COREXY cfg then
    negb (steps b X_AXIS =? steps b Y_AXIS)
    || negb (Bool.eqb (TEST (out_bits s) (axis_bit cfg X_AXIS))
                      (TEST (out_bits s) (axis_bit cfg Y_AXIS)))
  else true.
Definition gated (cfg : Config) (b : block_t) (s : state) (e : EndstopEnum) : bool :=
  let out := out_bits s in
  let xbit := if COREXY cfg then X_HEAD cfg else axis_bit cfg X_AXIS in
  let ybit := if COREXY cfg then Y_HEAD cfg else axis_bit cfg Y_AXIS in
  let zbit := axis_bit cfg Z_AXIS in
  match e with
  | X_MIN => x_head_moves cfg b s && TEST out xbit && dual_x_gate cfg b (-1)
             && HAS_ENDSTOP cfg X_MIN
  | X_MAX => x_head_moves cfg b s && negb (TEST out xbit) && dual_x_gate cfg b 1
             && HAS_ENDSTOP cfg X_MAX
  | Y_MIN => y_head_moves cfg b s && TEST out ybit && HAS_ENDSTOP cfg Y_MIN
  | Y_MAX => y_head_moves cfg b s && negb (TEST out ybit) && HAS_ENDSTOP cfg Y_MAX
  | Z_MIN => TEST out zbit && HAS_ENDSTOP cfg Z_MIN && negb (Z_DUAL_ENDSTOPS cfg)
  | Z_MAX => negb (TEST out zbit) && HAS_ENDSTOP cfg Z_MAX && negb (Z_DUAL_ENDSTOPS cfg)
  | Z_PROBE => Z_PROBE_ENDSTOP cfg
  | Z2_MIN | Z2_MAX => false
  end.

(** The enumerators of the endstops are pairwise different bit numbers. *)
Fixpoint distinct (l : list Z) : bool :=
  match l with
  | [] => true
  | x :: l' => forallb (fun y => negb (x =? y)) l' && distinct l'
  end.
Definition endstop_bits_distinct (cfg : Config) : bool :=
  distinct (map (endstop_bit cfg) all_endstops).

(** Endstop [e] has caught the block: its position is recorded, the bit of
    its axis is latched and the block is at its end. *)
Definition latched (cfg : Config) (b : block_t) (e : EndstopEnum) (s0 s : state) : Prop :=
  endstops_trigsteps s (endstop_axis e) = count_position s0 (endstop_axis e) /\
  TEST (endstop_hit_bits s) (endstop_bit cfg (endstop_MIN e)) = true /\
  step_events_completed s = step_event_count b.

(** The state after the three axis checks, before the sample is stored. *)
Definition checked (cfg : Config) (inp : isr_input) (b : block_t) (s : state) : state * Z :=
  endstops_Z cfg inp b (endstops_Y cfg inp b (endstops_X cfg inp b (s, 0))).

Create HintDb latch.

(** ** Traces *)

Definition not_rise (cfg : Config) (e : event) : bool := negb (is_rise cfg e).
Definition not_fall (cfg : Config) (e : event) : bool := negb (is_fall cfg e).
Definition no_step (e : event) : bool :=
  match e with
  | StepWrite _ _ => false
  | _ => true
  end.

(** [s'] continues the trace of [s] with events that all satisfy [P]. *)
Definition extends (P : event -> bool) (s s' : state) : Prop :=
  exists l, trace s' = trace s ++ l /\ forallb P l = true.

(** A homing move towards X_MIN whose switch has closed one sample ago. *)
Definition x_min_closed : isr_input :=
  input_with (fun e => match e with X_MIN => true | _ => false end).
Definition x_homing_block : block_t := constant_rate_block 20 0 0 0 1 1000.
Definition x_homing : state :=
  run cartesian [quiet_input; x_min_closed] (enqueue x_homing_block power_on).

(** A move towards X_MAX whose switch has closed one sample ago. *)
Definition x_max_closed : isr_input :=
  input_with (fun e => match e with X_MAX => true | _ => false end).
Definition x_forward_block : block_t := constant_rate_block 20 0 0 0 0 1000.
Definition x_max_seen : state :=
  run cartesian [quiet_input; x_max_closed] (enqueue x_forward_block power_on).

(** Homing Z downwards on a machine with two Z motors and two Z endstops. *)
Definition both_z_min_closed : isr_input :=
  input_with (fun e => match e with Z_MIN | Z2_MIN => true | _ => false end).
Definition z2_min_closed : isr_input :=
  input_with (fun e => match e with Z2_MIN => true | _ => false end).
Definition z_homing_block : block_t := constant_rate_block 0 0 100 0 4 1000.
Definition z_homing : state := In_Homing_Process true (enqueue z_homing_block power_on).
Definition z_descending : state := enqueue z_homing_block power_on.

(** A short move fast enough for two steps per interrupt. *)
Definition fast_block : block_t := constant_rate_block 2 0 0 0 0 100000.

(** ** The motors behind an axis *)

Definition Motor_in (m : Motor) (l : list Motor) : bool := existsb (Motor_eqb m) l.

(** The step pins [APPLY_STEP a v ALWAYS] writes in state [s]: the fan-out of
    the axis output router. *)
Definition step_targets (cfg : Config) (a : AxisEnum) (ALWAYS : bool) (s : state)
    : list Motor :=
  match a with
  | X_AXIS =>
      if DUAL_X_CARRIAGE cfg then
        if extruder_duplication_enabled s || ALWAYS then [MX; MX2]
        else if negb (cb_active_extruder s =? 0) then [MX2] else [MX]
      else [MX]
  | Y_AXIS => if Y_DUAL_STEPPER_DRIVERS cfg then [MY; MY2] else [MY]
  | Z_AXIS =>
      if Z_DUAL_STEPPER_DRIVERS cfg then
        if Z_DUAL_ENDSTOPS cfg && performing_homing s then
          let free m e towards locked :=
            if negb (TEST (old_endstop_bits s) (endstop_bit cfg e) && towards) && negb locked
            then [m] else [] in
          if Z_HOME_DIR cfg >? 0 then
            free MZ Z_MAX (count_direction s Z_AXIS >? 0) (locked_z_motor s)
            ++ free MZ2 Z2_MAX (count_direction s Z_AXIS >? 0) (locked_z2_motor s)
          else
            free MZ Z_MIN (count_direction s Z_AXIS <? 0) (locked_z_motor s)
            ++ free MZ2 Z2_MIN (count_direction s Z_AXIS <? 0) (locked_z2_motor s)
        else [MZ; MZ2]
      else [MZ]
  | E_AXIS => [ME]
  end.

(** The motors a babystep on [axis] pulses in state [s]. *)
Definition babystep_targets (cfg : Config) (axis : AxisEnum) (s : state) : list Motor :=
  match axis with
  | E_AXIS => []
  | Z_AXIS => if DELTA cfg then [MX; MY; MZ] else step_targets cfg Z_AXIS true s
  | _ => step_targets cfg axis true s
  end.

(** The second driver of an axis, whose direction pin [babystep] rewrites
    from the level it read on the first. *)
Definition babystep_second_dirs (cfg : Config) (axis : AxisEnum) : list Motor :=
  match axis with
  | X_AXIS => if DUAL_X_CARRIAGE cfg then [MX2] else []
  | Y_AXIS => if Y_DUAL_STEPPER_DRIVERS cfg then [MY2] else []
  | Z_AXIS => if DELTA cfg then [] else if Z_DUAL_STEPPER_DRIVERS cfg then [MZ2] else []
  | E_AXIS => []
  end.

Definition forget_steps (s : state) : state :=
  set_trace [] (set_step_pin (fun _ => false) s).

(** Both Z switches latched while homing down: the state after the third
    interrupt of the dual-Z scenario. *)
Definition z_both_latched : state :=
  run dual_z_build [quiet_input; both_z_min_closed; both_z_min_closed] z_homing.

(** What a piece of code writes to the step pins: [w m] is the list of
    levels written to the pin of [m]. *)
Definition writes (w : Motor -> list bool) (s s' : state) : Prop :=
  exists l, trace s' = trace s ++ l /\ forall m, step_writes m l = w m.

(** ** Tracing a block *)

(** The sign [set_stepper_direction] gives [count_direction] for a block. *)
Definition block_dir (cfg : Config) (b : block_t) (a : AxisEnum) : Z :=
  if TEST (direction_bits b) (axis_bit cfg a) then -1 else 1.

(** One Bresenham step of an axis: the new counter, and whether it steps. *)
Definition bres_counter (b : block_t) (a : AxisEnum) (c : Z) : Z :=
  let c1 := int32 (c + steps b a) in
  if c1 >? 0 then int32 (c1 - step_event_count b) else c1.
Definition bres_steps (b : block_t) (a : AxisEnum) (c : Z) : bool :=
  int32 (c + steps b a) >? 0.

(** The state [k] step events into block [b], seen from axis [a] that started
    at position [p0]: the axis has stepped [n] times, its Bresenham counter
    is [-(N/2) + k * steps - n * N] and lies in [(-N, 0]]. *)
Record tracing (cfg : Config) (b : block_t) (rest : list block_t) (a : AxisEnum) (p0 : Z)
    (k : Z) (s : state) : Prop := {
  tr_block : current_block s = Some b;
  tr_queue : block_buffer s = b :: rest;
  tr_clean : cleaning_buffer_counter s = 0;
  tr_events : step_events_completed s = k;
  tr_loops : 1 <= step_loops s <= 4;
  tr_nominal : 1 <= step_loops_nominal s <= 4;
  tr_dir : count_direction s a = block_dir cfg b a;
  tr_axis : exists n,
    counter s a = - (step_event_count b / 2) + k * steps b a - n * step_event_count b
    /\ - step_event_count b < counter s a <= 0
    /\ count_position s a = int32 (p0 + block_dir cfg b a * n)
}.

(** The block at the head of the queue is done and gone. *)
Definition finished (cfg : Config) (b : block_t) (rest : list block_t) (a : AxisEnum)
    (p0 : Z) (s : state) : Prop :=
  current_block s = None
  /\ block_buffer s = rest
  /\ st_get_position a s = int32 (p0 + signed_steps cfg b a).

(** A diagonal move with extrusion, X negative. *)
Definition diagonal_block : block_t := constant_rate_block 3 4 0 2 1 1000.

(** A build with two X carriages and the X direction pins inverted. *)
Definition dual_x_build : Config :=
  {| ADVANCE := false;
     ENABLE_HIGH_SPEED_STEPPING := false;
     Z_LATE_ENABLE := false;
     COREXY := false;
     DUAL_X_CARRIAGE := true;
     Y_DUAL_STEPPER_DRIVERS := false;
     Z_DUAL_STEPPER_DRIVERS := false;
     Z_DUAL_ENDSTOPS := false;
     Z_PROBE_ENDSTOP := false;
     DELTA := false;
     HAS_ENDSTOP := HAS_ENDSTOP cartesian;
     INVERT_DIR := fun a => match a with X_AXIS => true | _ => false end;
     INVERT_Y2_VS_Y_DIR := false;
     INVERT_STEP_PIN := fun _ => false;
     ENDSTOP_INVERTING := fun _ => false;
     BABYSTEP_INVERT_Z := false;
     X_HOME_DIR := -1;
     X2_HOME_DIR := 1;
     Z_HOME_DIR := -1;
     MAX_STEP_FREQUENCY := 320000;
     DOUBLE_STEP_FREQUENCY := 96000;
     HAL_TIMER_RATE := 2625000;
     axis_bit := axis_number;
     X_HEAD := 4;
     Y_HEAD := 5;
     endstop_bit := endstop_number |}.

(** Two steps of the second carriage in the negative direction. *)
Definition second_carriage_block : block_t :=
  {| steps := fun a => match a with X_AXIS => 2 | _ => 0 end;
     step_event_count := 2;
     accelerate_until := 0;
     decelerate_after := 2;
     acceleration_rate := 0;
     direction_bits := 1;
     active_extruder := 1;
     initial_advance := 0;
     final_advance_b := 0;
     nominal_rate := 1000;
     initial_rate := 1000;
     final_rate := 1000;
     busy := false |}.

(** The second carriage's block taken up and one step made. *)
Definition second_carriage_started : state :=
  HAL_STEP_TIMER_ISR dual_x_build quiet_input (enqueue second_carriage_block power_on).

(** The second carriage has moved: its direction pin is high, the first
    carriage's still low. *)
Definition second_carriage_moved : state :=
  run dual_x_build [quiet_input; quiet_input; quiet_input]
    (enqueue second_carriage_block power_on).

(** * The rest of the stepper: stopping, directions, timing, reports *)

(** ** Stopping, flushing and idling *)

(** Modelled from the spec: [blocks_queued] belongs to the planner
    ([planner.cpp], not among the sources); the spec lists
    "[blocks_queued() -> bool]" next to the peek and release operations of
    the block queue. *)
Definition blocks_queued (s : state) : bool :=
  match block_buffer s with
  | [] => false
  | _ :: _ => true
  end.

(** [while (blocks_queued()) plan_discard_current_block();] with [n]
    iterations left. *)
Fixpoint discard_while_queued (n : nat) (s : state) : state :=
  match n with
  | O => s
  | S n' =>
      if blocks_queued s then discard_while_queued n' (plan_discard_current_block s) else s
  end.

(** [quickStop]; the loop gets one iteration per queued block.  (Masking
    and unmasking the stepper interrupt around the loop has no counterpart
    in [state].) *)
Definition quickStop (s : state) : state :=
  let s := set_cleaning_buffer_counter 5000 s in
  let s := discard_while_queued (length (block_buffer s)) s in
  set_current_block None s.

(** The value [HAL_timer_stepper_count count] leaves in the comparator. *)
Definition rearm (count : Z) (inp : isr_input) : Z :=
  Z.max count (uint32 (TC_CV inp + 42)).

(** Events that program the step timer. *)
Definition is_timer (e : event) : bool :=
  match e with
  | TimerCompare _ | TimerSetCount _ => true
  | _ => false
  end.

(** Three blocks in the queue, the first in progress. *)
Definition three_queued : state :=
  HAL_STEP_TIMER_ISR cartesian quiet_input
    (enqueue fast_block (enqueue diagonal_block (enqueue x_homing_block power_on))).

(** ** A tick on a block in progress *)

(** What such a tick may write, direction pins left out: the step pins, the
    comparator and the trace, the tracer, the rates, the endstop variables
    and the queue. *)
Definition forget_pulses (s : state) : state :=
  set_trace [] (set_TC_RC 0 (set_step_pin (fun _ => false) s)).

Definition forget_tick (s : state) : state :=
  set_current_block None
    (set_block_buffer []
       (forget_check
          (forget_rates
             (set_count_position (fun _ => 0) (set_counter (fun _ => 0) (forget_pulses s)))))).

Definition is_step_write (e : event) : bool :=
  match e with
  | StepWrite _ _ => true
  | _ => false
  end.

(** ** Directions *)

(** The level [set_stepper_direction] writes to the direction pins of axis
    [a] for the direction bits [out]. *)
Definition dir_level (cfg : Config) (out : Z) (a : AxisEnum) : bool :=
  if TEST out (axis_bit cfg a) then INVERT_DIR cfg a else negb (INVERT_DIR cfg a).

(** The first driver of every axis the interrupt steps, the X carriages of a
    dual-carriage build apart (they are latched one at a time). *)
Definition primary_motors (cfg : Config) : list Motor :=
  (if DUAL_X_CARRIAGE cfg then [] else [MX]) ++ [MY; MZ] ++ (if ADVANCE cfg then [] else [ME]).

(** The direction pins show the direction bits. *)
Definition pins_latched (cfg : Config) (s : state) : Prop :=
  forall m, Motor_in m (primary_motors cfg) = true ->
    dir_pin s m = dir_level cfg (out_bits s) (motor_axis m).

(** What [set_stepper_direction] may write besides the pins. *)
Definition forget_dirs (s : state) : state :=
  set_count_direction (fun _ => 0) (set_trace [] (set_dir_pin (fun _ => false) s)).

Definition is_dir_write (e : event) : bool :=
  match e with
  | DirWrite _ _ => true
  | _ => false
  end.

(** While a block is in hand the direction bits are the block's. *)
Definition bits_of_block (s : state) : Prop :=
  forall b, current_block s = Some b -> out_bits s = direction_bits b.

(** The timer programming among a list of events. *)
Definition timer_events (l : list event) : list event := filter is_timer l.

(** The same interrupt with other levels on the endstop pins. *)
Definition with_endstops (closed : EndstopEnum -> bool) (inp : isr_input) : isr_input :=
  {| TC_CV := TC_CV inp; READ_ENDSTOP := closed |}.

(** A build that wakes the Z driver late, and a block that moves Z. *)
Definition z_late_build : Config :=
  {| ADVANCE := false;
     ENABLE_HIGH_SPEED_STEPPING := false;
     Z_LATE_ENABLE := true;
     COREXY := false;
     DUAL_X_CARRIAGE := false;
     Y_DUAL_STEPPER_DRIVERS := false;
     Z_DUAL_STEPPER_DRIVERS := false;
     Z_DUAL_ENDSTOPS := false;
     Z_PROBE_ENDSTOP := false;
     DELTA := false;
     HAS_ENDSTOP := HAS_ENDSTOP cartesian;
     INVERT_DIR := fun _ => false;
     INVERT_Y2_VS_Y_DIR := false;
     INVERT_STEP_PIN := fun _ => false;
     ENDSTOP_INVERTING := fun _ => false;
     BABYSTEP_INVERT_Z := false;
     X_HOME_DIR := -1;
     X2_HOME_DIR := 1;
     Z_HOME_DIR := -1;
     MAX_STEP_FREQUENCY := 320000;
     DOUBLE_STEP_FREQUENCY := 96000;
     HAL_TIMER_RATE := 2625000;
     axis_bit := axis_number;
     X_HEAD := 4;
     Y_HEAD := 5;
     endstop_bit := endstop_number |}.

Definition z_lift_block : block_t := constant_rate_block 0 0 8 0 0 1000.

(** The nominal interval and loop count noted when the block in hand was
    taken up. *)
Definition nominal_noted (cfg : Config) (s : state) : Prop :=
  forall b, current_block s = Some b ->
    OCR1A_nominal s = fst (calc_timer cfg (nominal_rate b) s)
    /\ step_loops_nominal s = step_loops (snd (calc_timer cfg (nominal_rate b) s)).

(** The ramp block fifty step events in, cruising. *)
Definition cruising : state :=
  set_OCR1A_nominal 1312
    (set_step_loops_nominal 1
       (set_step_events_completed 50
          (set_current_block (Some ramp_block) (enqueue ramp_block power_on)))).

(** ** Reporting endstop hits *)

(** [(float)n] for a [long] [n], and the quotient of two [float]s: IEEE 754
    single precision (24 bits of precision, exponents below 128), rounded to
    the nearest, ties to even. *)
Definition float_of_long (n : Z) : spec_float := binary_normalize 24 128 n 0 false.
Definition float_div (x y : spec_float) : spec_float := SFdiv 24 128 x y.

(** [(float)endstops_trigsteps[a] / axis_steps_per_unit[a]], the value
    handed to [SERIAL_ECHOPAIR]; [axis_steps_per_unit] is the planner's
    array ([planner.cpp], not among the sources) and a parameter here. *)
Definition echoed_position (axis_steps_per_unit : AxisEnum -> spec_float) (a : AxisEnum)
    (trigsteps : Z) : spec_float :=
  float_div (float_of_long trigsteps) (axis_steps_per_unit a).

(** One [SERIAL_ECHOPAIR] / [LCD_MESSAGEPGM] pair of [checkHitEndstops]: the
    endstop whose bit is reported and the position echoed for it. *)
Inductive hit_report : Type :=
  | HitReport (label : EndstopEnum) (position : spec_float).

(** [endstop_hit_bits & BIT(e)] as a C condition. *)
Definition hit_bit_set (cfg : Config) (s : state) (e : EndstopEnum) : bool :=
  negb (Z.land (endstop_hit_bits s) (BIT (endstop_bit cfg e)) =? 0).

(** [checkHitEndstops]; [abort] stands for [abort_on_endstop_hit] in a build
    with [ABORT_ON_ENDSTOP_HIT_FEATURE_ENABLED] and [SDSUPPORT] (stopping
    the SD print and the heaters has no counterpart in [state]). *)
Definition checkHitEndstops (cfg : Config) (axis_steps_per_unit : AxisEnum -> spec_float)
    (abort : bool) (s : state) : list hit_report * state :=
  let echo (e : EndstopEnum) (a : AxisEnum) :=
    if hit_bit_set cfg s e
    then [HitReport e (echoed_position axis_steps_per_unit a (endstops_trigsteps s a))]
    else [] in
  if negb (endstop_hit_bits s =? 0) then
    let r :=
      echo X_MIN X_AXIS ++ echo Y_MIN Y_AXIS ++ echo Z_MIN Z_AXIS
      ++ (if Z_PROBE_ENDSTOP cfg then echo Z_PROBE Z_AXIS else []) in
    let s := endstops_hit_on_purpose s in
    (r, if abort then quickStop s else s)
  else ([], s).

(** Eighty steps to the unit on every axis. *)
Definition eighty_steps_per_unit : AxisEnum -> spec_float := fun _ => float_of_long 80.

(** The endstops reported for a build. *)
Definition reported_endstops (cfg : Config) : list EndstopEnum :=
  [X_MIN; Y_MIN; Z_MIN] ++ (if Z_PROBE_ENDSTOP cfg then [Z_PROBE] else []).

(** The interrupt in which the closed X_MIN switch is confirmed. *)
Definition x_min_confirmed : state := HAL_STEP_TIMER_ISR cartesian x_min_closed x_homing.

(** ** The stored endstop sample *)

(** The endstops a tick samples through [UPDATE_ENDSTOP], in program order. *)
Definition sampled (cfg : Config) (b : block_t) (s : state) : list EndstopEnum :=
  filter (gated cfg b s) [X_MIN; X_MAX; Y_MIN; Y_MAX; Z_MIN; Z_MAX; Z_PROBE].

(** [SET_ENDSTOP_BIT] for each endstop of a list in turn. *)
Definition sample_of (cfg : Config) (inp : isr_input) (l : list EndstopEnum) (bits : Z) : Z :=
  fold_left (fun acc e => SET_ENDSTOP_BIT cfg inp e acc) l bits.

(** ** Step pins at rest *)

(** Every step pin is at its idle level. *)
Definition steps_idle (cfg : Config) (s : state) : Prop :=
  forall m, step_pin s m = INVERT_STEP_PIN cfg (motor_axis m).

(** What the axis output router reads to choose the pins it writes. *)
Definition router_inputs (s : state) : bool * Z * bool * Z * Z * bool * bool :=
  (extruder_duplication_enabled s, cb_active_extruder s, performing_homing s,
   old_endstop_bits s, count_direction s Z_AXIS, locked_z_motor s, locked_z2_motor s).

(** The step pins a tick of the tracer may write. *)
Definition all_targets (cfg : Config) (s : state) : list Motor :=
  step_targets cfg X_AXIS false s ++ step_targets cfg Y_AXIS false s
  ++ step_targets cfg Z_AXIS false s
  ++ (if ADVANCE cfg then [] else step_targets cfg E_AXIS false s).

(** ** Whole queues *)

(** The signed steps of a list of blocks on one axis, and the interrupts
    that suffice to run them: one per step event and one to take each block
    up. *)
Fixpoint total_steps (cfg : Config) (bs : list block_t) (a : AxisEnum) : Z :=
  match bs with
  | [] => 0
  | b :: bs' => signed_steps cfg b a + total_steps cfg bs' a
  end.

Fixpoint ticks_needed (bs : list block_t) : nat :=
  match bs with
  | [] => O
  | b :: bs' => (Z.to_nat (step_event_count b) + 1 + ticks_needed bs')%nat
  end.

(** What every interrupt keeps once the endstop check is off. *)
Definition unchecked_run (cfg : Config) (s : state) : Prop :=
  cleaning_buffer_counter s = 0 /\ check_endstops s = false /\ directions_latched cfg s.

(** ** The extruder interrupt of an advance build

    [ISR(TIMER0_COMPA_vect)] steps the extruders from [e_steps], which the
    main interrupt fills.  It drives the extruders' own step and direction
    pins and the comparator of timer 0; these and its variable [old_OCR0A]
    stand beside the stepper state. *)
Inductive e_event : Type :=
  | EStepWrite (n : Z) (level : bool)
  | EDirWrite (n : Z) (level : bool)
  | Timer0Compare (v : Z).

(** [EXTRUDERS], [INVERT_E_STEP_PIN] and [INVERT_E0_DIR] .. [INVERT_E3_DIR]
    of [Configuration.h]. *)
Record AdvanceConfig : Type := {
  EXTRUDERS : Z;
  INVERT_E_STEP_PIN : bool;
  INVERT_E_DIR : Z -> bool
}.

Record advance_state : Type := {
  stepper : state;
  old_OCR0A : Z;
  e_trace : list e_event
}.

Definition e_emit (ev : e_event) (x : advance_state) : advance_state :=
  {| stepper := stepper x; old_OCR0A := old_OCR0A x; e_trace := e_trace x ++ [ev] |}.

Definition set_e_step (n v : Z) (x : advance_state) : advance_state :=
  {| stepper := set_e_steps (upd_Z (e_steps (stepper x)) n v) (stepper x);
     old_OCR0A := old_OCR0A x; e_trace := e_trace x |}.

(** The body repeated for each extruder:
    [if (e_steps[n] != 0) { En_STEP_WRITE(INVERT_E_STEP_PIN);
       if (e_steps[n] < 0) { En_DIR_WRITE(INVERT_En_DIR); e_steps[n]++;
                             En_STEP_WRITE(!INVERT_E_STEP_PIN); }
       else if (e_steps[n] > 0) { En_DIR_WRITE(!INVERT_En_DIR); e_steps[n]--;
                                  En_STEP_WRITE(!INVERT_E_STEP_PIN); } }] *)
Definition advance_pulse (acfg : AdvanceConfig) (n : Z) (x : advance_state) : advance_state :=
  if negb (e_steps (stepper x) n =? 0) then
    let x := e_emit (EStepWrite n (INVERT_E_STEP_PIN acfg)) x in
    if e_steps (stepper x) n <? 0 then
      let x := e_emit (EDirWrite n (INVERT_E_DIR acfg n)) x in
      let x := set_e_step n (int32 (e_steps (stepper x) n + 1)) x in
      e_emit (EStepWrite n (negb (INVERT_E_STEP_PIN acfg))) x
    else if 0 <? e_steps (stepper x) n then
      let x := e_emit (EDirWrite n (negb (INVERT_E_DIR acfg n))) x in
      let x := set_e_step n (int32 (e_steps (stepper x) n - 1)) x in
      e_emit (EStepWrite n (negb (INVERT_E_STEP_PIN acfg))) x
    else x
  else x.

(** One pass of the [for] loop: extruder 0, and 1, 2, 3 as [EXTRUDERS] has
    them. *)
Definition advance_pass (acfg : AdvanceConfig) (x : advance_state) : advance_state :=
  let x := advance_pulse acfg 0 x in
  let x := if 1 <? EXTRUDERS acfg then advance_pulse acfg 1 x else x in
  let x := if 2 <? EXTRUDERS acfg then advance_pulse acfg 2 x else x in
  let x := if 3 <? EXTRUDERS acfg then advance_pulse acfg 3 x else x in
  x.

(** [old_OCR0A] is an [unsigned char]; the loop body runs four times. *)
Definition TIMER0_COMPA_vect (acfg : AdvanceConfig) (x : advance_state) : advance_state :=
  let v := (old_OCR0A x + 52) mod 256 in
  let x := {| stepper := stepper x; old_OCR0A := v;
              e_trace := e_trace x ++ [Timer0Compare v] |} in
  Nat.iter 4 (advance_pass acfg) x.

(** The extruders the handler has code for: the first always, the others as
    [EXTRUDERS] says. *)
Definition has_extruder (acfg : AdvanceConfig) (m : Z) : bool :=
  (m =? 0) || ((1 <=? m) && (m <=? 3) && (m <? EXTRUDERS acfg)).

(** The writes to the pins of extruder [m]. *)
Definition is_extruder_event (m : Z) (ev : e_event) : bool :=
  match ev with
  | EStepWrite n _ | EDirWrite n _ => n =? m
  | Timer0Compare _ => false
  end.
Definition extruder_events (m : Z) (l : list e_event) : list e_event :=
  filter (is_extruder_event m) l.

(** [j] pulses of extruder [m] in the direction of the sign of [e]: step pin
    to its idle level, direction, step pin to its active level. *)
Definition e_pulses (acfg : AdvanceConfig) (m e j : Z) : list e_event :=
  concat (repeat [EStepWrite m (INVERT_E_STEP_PIN acfg);
                  EDirWrite m (if e <? 0 then INVERT_E_DIR acfg m
                               else negb (INVERT_E_DIR acfg m));
                  EStepWrite m (negb (INVERT_E_STEP_PIN acfg))]
            (Z.to_nat j)).

(** [e] moved [j] towards zero, stopping there. *)
Definition toward_zero (e j : Z) : Z :=
  if e <? 0 then Z.min 0 (e + j) else Z.max 0 (e - j).

(** Everything of the stepper but [e_steps]. *)
Definition forget_e_steps (s : state) : state := set_e_steps (fun _ => 0) s.

(** Two extruders, normal pin polarity; three retract steps pending on the
    first extruder and six feed steps on the second. *)
Definition two_extruders : AdvanceConfig :=
  {| EXTRUDERS := 2; INVERT_E_STEP_PIN := false; INVERT_E_DIR := fun _ => false |}.
Definition e_pending : advance_state :=
  {| stepper := set_e_steps (fun n => if n =? 0 then -3 else if n =? 1 then 6 else 0) power_on;
     old_OCR0A := 230; e_trace := [] |}.

(** Extruder [m] advanced by [j] steps between two states. *)
Definition advanced (acfg : AdvanceConfig) (m j : Z) (x x' : advance_state) : Prop :=
  e_steps (stepper x') m = toward_zero (e_steps (stepper x) m) j
  /\ extruder_events m (e_trace x')
     = extruder_events m (e_trace x)
       ++ e_pulses acfg m (e_steps (stepper x) m) (Z.min j (Z.abs (e_steps (stepper x) m))).

(** The interval and loop count [calc_timer] yields for a rate; neither
    depends on the state it runs in. *)
Definition timer_of (cfg : Config) (step_rate : Z) : Z :=
  fst (calc_timer cfg step_rate power_on).
Definition loops_of (cfg : Config) (step_rate : Z) : Z :=
  step_loops (snd (calc_timer cfg step_rate power_on)).

(** Machine arithmetic and the bit macros are reasoned about through their
    lemmas, never unfolded by simplification. *)
Arguments uint8 : simpl never.
Arguments uint16 : simpl never.
Arguments uint32 : simpl never.
Arguments uint64 : simpl never.
Arguments int32 : simpl never.
Arguments MultiU32X32toH32 : simpl never.
Arguments BIT : simpl never.
Arguments TEST : simpl never.
Arguments SET_BIT : simpl never.
Arguments calc_timer : simpl never.
Arguments timer_of : simpl never.
Arguments loops_of : simpl never.

(** * Proofs *)

(** ** Machine arithmetic *)

Lemma uint32_small z : 0 <= z < 2 ^ 32 -> uint32 z = z.
Proof. intros H. unfold uint32. apply Z.mod_small. exact H. Qed.

Lemma uint64_small z : 0 <= z < 2 ^ 64 -> uint64 z = z.
Proof. intros H. unfold uint64. apply Z.mod_small. exact H. Qed.

Lemma uint8_small z : 0 <= z < 2 ^ 8 -> uint8 z = z.
Proof. intros H. unfold uint8. apply Z.mod_small. exact H. Qed.

Lemma int32_small z : - 2 ^ 31 <= z < 2 ^ 31 -> int32 z = z.
Proof. intros H. unfold int32. rewrite Z.mod_small; lia. Qed.

Lemma uint32_range z : 0 <= uint32 z < 2 ^ 32.
Proof. unfold uint32. apply Z.mod_pos_bound. lia. Qed.

Lemma int32_range z : - 2 ^ 31 <= int32 z < 2 ^ 31.
Proof. unfold int32. pose proof (Z.mod_pos_bound (z + 2 ^ 31) (2 ^ 32)). lia. Qed.

(** [long] addition is addition modulo [2^32]: an inner wrap is absorbed. *)
Lemma int32_add_l x y : int32 (int32 x + y) = int32 (x + y).
Proof.
  unfold int32.
  replace ((x + 2 ^ 31) mod 2 ^ 32 - 2 ^ 31 + y + 2 ^ 31)
    with ((x + 2 ^ 31) mod 2 ^ 32 + y) by ring.
  rewrite Zplus_mod_idemp_l. f_equal. f_equal. ring.
Qed.

(** The 32x32 multiply keeps the rounded upper word of the product. *)
Lemma MultiU32X32toH32_exact t a :
  0 <= t < 2 ^ 31 -> 0 <= a < 2 ^ 31 ->
  MultiU32X32toH32 t a = (a * t + 0x80000000) / 2 ^ 32.
Proof.
  intros Ht Ha. unfold MultiU32X32toH32.
  assert (Hp : 0 <= t * a < 2 ^ 62) by nia.
  rewrite (uint64_small t), (uint64_small a) by lia.
  rewrite (uint64_small (t * a)) by lia.
  rewrite uint64_small by lia.
  rewrite Z.shiftr_div_pow2 by lia.
  f_equal. ring.
Qed.

Lemma MultiU32X32toH32_bound t a :
  0 <= t < 2 ^ 31 -> 0 <= a < 2 ^ 31 ->
  0 <= MultiU32X32toH32 t a < 2 ^ 31.
Proof.
  intros Ht Ha. rewrite MultiU32X32toH32_exact by assumption.
  assert (Hp : 0 <= a * t < 2 ^ 62) by nia.
  split.
  - apply Z.div_pos; lia.
  - apply Z.div_lt_upper_bound; lia.
Qed.

(** ** [calc_timer] *)

Lemma calc_timer_eq cfg r s :
  calc_timer cfg r s = (timer_of cfg r, set_step_loops (loops_of cfg r) s).
Proof.
  unfold timer_of, loops_of, calc_timer.
  destruct (ENABLE_HIGH_SPEED_STEPPING cfg);
    repeat match goal with
           | |- context [if ?c then _ else _] => destruct c
           end; reflexivity.
Qed.

Lemma loops_of_cases cfg r : loops_of cfg r = 1 \/ loops_of cfg r = 2 \/ loops_of cfg r = 4.
Proof.
  unfold loops_of, calc_timer.
  destruct (ENABLE_HIGH_SPEED_STEPPING cfg);
    repeat match goal with
           | |- context [if ?c then _ else _] => destruct c
           end; simpl; auto.
Qed.

(** ** The timer re-arm *)

(** C8 (as amended) — as long as counter + 42 does not overflow the 32-bit
    counter, the re-arm writes the requested target when counter + 42 has
    not passed it and otherwise moves the target forward to counter + 42;
    the comparator then always ends up ahead of the counter. *)
Theorem HAL_timer_stepper_count_clamps (count : Z) (inp : isr_input) (s : state) :
  0 <= TC_CV inp -> TC_CV inp + 42 < 2 ^ 32 ->
  let s' := HAL_timer_stepper_count count inp s in
  (TC_CV inp + 42 <= count -> TC_RC s' = count) /\
  (count < TC_CV inp + 42 -> TC_RC s' = TC_CV inp + 42) /\
  TC_RC s' = Z.max count (TC_CV inp + 42) /\
  TC_CV inp < TC_RC s' /\
  trace s' = trace s ++ [TimerCompare (TC_RC s')].
Proof.
  intros H0 H1 s'. subst s'. unfold HAL_timer_stepper_count, emit. simpl.
  rewrite uint32_small by lia.
  destruct (Z.leb_spec (TC_CV inp + 42) count); repeat split; intros; lia.
Qed.

Lemma HAL_timer_stepper_count_clamps_witness :
  TC_RC (HAL_timer_stepper_count 1000 {| TC_CV := 990; READ_ENDSTOP := fun _ => false |}
           power_on) = 1032.
Proof.
  apply (HAL_timer_stepper_count_clamps 1000
           {| TC_CV := 990; READ_ENDSTOP := fun _ => false |} power_on); simpl; lia.
Defined.

(** C8 as stated fails: six counts before the counter wraps, counter + 42 is
    computed as 36; a request of 1000, long passed by the counter, is
    written as it is and the comparator is left behind the counter instead
    of being moved to counter + 42. *)
Lemma timer_guard_wraps :
  let inp := {| TC_CV := 4294967290; READ_ENDSTOP := fun _ => false |} in
  let s' := HAL_timer_stepper_count 1000 inp power_on in
  1000 < TC_CV inp + 42
  /\ uint32 (TC_CV inp + 42) = 36
  /\ TC_RC s' = 1000
  /\ TC_RC s' <> TC_CV inp + 42
  /\ TC_RC s' < TC_CV inp.
Proof. vm_compute. repeat split; congruence. Qed.

(** Projections of assignments compute. *)
Ltac st_simpl :=
  cbn [
       block_buffer current_block out_bits cleaning_buffer_counter performing_homing
       locked_z_motor locked_z2_motor counter step_events_completed advance_rate advance
       final_advance old_advance e_steps acceleration_time deceleration_time
       acc_step_rate step_loops OCR1A_nominal step_loops_nominal endstops_trigsteps
       endstop_hit_bits old_endstop_bits check_endstops count_position count_direction
       extruder_duplication_enabled step_pin dir_pin TC_RC trace set_block_buffer
       set_current_block set_out_bits set_cleaning_buffer_counter set_performing_homing
       set_locked_z_motor set_locked_z2_motor set_counter set_step_events_completed
       set_advance set_final_advance set_old_advance set_e_steps set_acceleration_time
       set_deceleration_time set_acc_step_rate set_step_loops set_OCR1A_nominal
       set_step_loops_nominal set_endstops_trigsteps set_endstop_hit_bits
       set_old_endstop_bits set_check_endstops set_count_position set_count_direction
       set_step_pin set_dir_pin set_TC_RC set_trace fst snd emit
       
  ] in *.

(** ** The trapezoid *)

Lemma trapezoid_accelerate_eq cfg b s :
  let D := uint32 (MultiU32X32toH32 (acceleration_time s) (acceleration_rate b)) in
  let r0 := uint32 (D + initial_rate b) in
  let rate := if r0 >? nominal_rate b then nominal_rate b else r0 in
  fst (trapezoid_accelerate cfg b s) = timer_of cfg rate /\
  acc_step_rate (snd (trapezoid_accelerate cfg b s)) = rate /\
  acceleration_time (snd (trapezoid_accelerate cfg b s))
    = int32 (acceleration_time s + timer_of cfg rate) /\
  deceleration_time (snd (trapezoid_accelerate cfg b s)) = deceleration_time s /\
  step_loops (snd (trapezoid_accelerate cfg b s)) = loops_of cfg rate.
Proof.
  unfold trapezoid_accelerate, advance_e_steps. cbv zeta.
  rewrite calc_timer_eq. st_simpl.
  destruct (ADVANCE cfg);
    destruct (uint32 (uint32 (MultiU32X32toH32 (acceleration_time s) (acceleration_rate b))
                    + initial_rate b) >? nominal_rate b);
  st_simpl; repeat split; reflexivity.
Qed.

Lemma trapezoid_decelerate_eq cfg b s :
  let D := uint32 (MultiU32X32toH32 (deceleration_time s) (acceleration_rate b)) in
  let r0 := if D >? acc_step_rate s then final_rate b else uint32 (acc_step_rate s - D) in
  let rate := if r0 <? final_rate b then final_rate b else r0 in
  fst (trapezoid_decelerate cfg b s) = timer_of cfg rate /\
  acc_step_rate (snd (trapezoid_decelerate cfg b s)) = acc_step_rate s /\
  deceleration_time (snd (trapezoid_decelerate cfg b s))
    = int32 (deceleration_time s + timer_of cfg rate) /\
  acceleration_time (snd (trapezoid_decelerate cfg b s)) = acceleration_time s /\
  step_loops (snd (trapezoid_decelerate cfg b s)) = loops_of cfg rate.
Proof.
  unfold trapezoid_decelerate, advance_e_steps. cbv zeta.
  rewrite calc_timer_eq. destruct (ADVANCE cfg); st_simpl.
  - match goal with
    | |- context [if ?c then set_advance _ _ else _] => destruct c
    end; st_simpl; repeat split; reflexivity.
  - repeat split; reflexivity.
Qed.

(** C4 — in the acceleration branch the new step rate is
    min(nominal_rate, initial_rate + (acceleration_rate * acceleration_time + 2^31) / 2^32),
    the fixed-point product being taken on 64 bits and rounded before the
    shift; the interval is calc_timer of that rate and acceleration_time
    grows by the interval. *)
Theorem acceleration_branch_rate (cfg : Config) (b : block_t) (s : state) :
  0 <= acceleration_time s < 2 ^ 31 ->
  0 <= acceleration_rate b < 2 ^ 31 ->
  0 <= initial_rate b ->
  initial_rate b
    + (acceleration_rate b * acceleration_time s + 0x80000000) / 2 ^ 32 < 2 ^ 32 ->
  step_events_completed s <= uint32 (accelerate_until b) ->
  let rate :=
    Z.min (nominal_rate b)
          (initial_rate b
           + (acceleration_rate b * acceleration_time s + 0x80000000) / 2 ^ 32) in
  let timer := fst (calc_timer cfg rate s) in
  let s' := snd (trapezoid_update cfg b s) in
  acc_step_rate s' = rate /\
  fst (trapezoid_update cfg b s) = timer /\
  acceleration_time s' = int32 (acceleration_time s + timer) /\
  (- 2 ^ 31 <= acceleration_time s + timer < 2 ^ 31 ->
   acceleration_time s' = acceleration_time s + timer).
Proof.
  intros Ht Ha Hi Hsum Hbr rate timer s'.
  assert (Htimer : timer = timer_of cfg rate)
    by (unfold timer; rewrite calc_timer_eq; reflexivity).
  pose proof (MultiU32X32toH32_bound _ _ Ht Ha) as HD.
  pose proof (MultiU32X32toH32_exact _ _ Ht Ha) as HDe.
  destruct (trapezoid_accelerate_eq cfg b s) as (E1 & E2 & E3 & _).
  rewrite (uint32_small (MultiU32X32toH32 _ _)) in E1, E2, E3 by lia.
  rewrite uint32_small in E1, E2, E3 by lia.
  rewrite HDe in E1, E2, E3.
  assert (Hrate :
    (if (acceleration_rate b * acceleration_time s + 0x80000000) / 2 ^ 32
        + initial_rate b >? nominal_rate b
     then nominal_rate b
     else (acceleration_rate b * acceleration_time s + 0x80000000) / 2 ^ 32
          + initial_rate b) = rate).
  { unfold rate.
    destruct (Z.gtb_spec
                ((acceleration_rate b * acceleration_time s + 0x80000000) / 2 ^ 32
                 + initial_rate b) (nominal_rate b)); lia. }
  rewrite Hrate in E1, E2, E3.
  assert (Hupd : trapezoid_update cfg b s = trapezoid_accelerate cfg b s).
  { unfold trapezoid_update. apply Z.leb_le in Hbr. rewrite Hbr. reflexivity. }
  subst s'. rewrite Hupd, Htimer.
  repeat split; try assumption.
  intros Hr. rewrite E3. apply int32_small. exact Hr.
Qed.

(** C5 — in the deceleration branch, with
    D = (acceleration_rate * deceleration_time + 2^31) / 2^32, the step rate
    is final_rate when D exceeds acc_step_rate and max(final_rate,
    acc_step_rate - D) otherwise; the interval is calc_timer of that rate and
    deceleration_time grows by the interval. *)
Theorem deceleration_branch_rate (cfg : Config) (b : block_t) (s : state) :
  0 <= deceleration_time s < 2 ^ 31 ->
  0 <= acceleration_rate b < 2 ^ 31 ->
  0 <= acc_step_rate s < 2 ^ 32 ->
  uint32 (accelerate_until b) < step_events_completed s ->
  uint32 (decelerate_after b) < step_events_completed s ->
  let D := (acceleration_rate b * deceleration_time s + 2 ^ 31) / 2 ^ 32 in
  let rate :=
    if D >? acc_step_rate s then final_rate b
    else Z.max (final_rate b) (acc_step_rate s - D) in
  let timer := fst (calc_timer cfg rate s) in
  let s' := snd (trapezoid_update cfg b s) in
  fst (trapezoid_update cfg b s) = timer /\
  deceleration_time s' = int32 (deceleration_time s + timer) /\
  (- 2 ^ 31 <= deceleration_time s + timer < 2 ^ 31 ->
   deceleration_time s' = deceleration_time s + timer) /\
  acc_step_rate s' = acc_step_rate s.
Proof.
  intros Ht Ha Hacc Hb1 Hb2 D rate timer s'.
  assert (Htimer : timer = timer_of cfg rate)
    by (unfold timer; rewrite calc_timer_eq; reflexivity).
  pose proof (MultiU32X32toH32_bound _ _ Ht Ha) as HD.
  pose proof (MultiU32X32toH32_exact _ _ Ht Ha) as HDe.
  change (2 ^ 31) with 0x80000000 in D.
  fold D in HDe.
  destruct (trapezoid_decelerate_eq cfg b s) as (E1 & E2 & E3 & _).
  rewrite (uint32_small (MultiU32X32toH32 _ _)) in E1, E3 by lia.
  rewrite HDe in E1, E3.
  assert (Hrate :
    (if (if D >? acc_step_rate s then final_rate b else uint32 (acc_step_rate s - D))
        <? final_rate b
     then final_rate b
     else if D >? acc_step_rate s then final_rate b else uint32 (acc_step_rate s - D))
    = rate).
  { unfold rate. destruct (Z.gtb_spec D (acc_step_rate s)).
    - rewrite Z.ltb_irrefl. reflexivity.
    - rewrite uint32_small by lia.
      destruct (Z.ltb_spec (acc_step_rate s - D) (final_rate b)); lia. }
  rewrite Hrate in E1, E3.
  assert (Hupd : trapezoid_update cfg b s = trapezoid_decelerate cfg b s).
  { unfold trapezoid_update.
    destruct (Z.leb_spec (step_events_completed s) (uint32 (accelerate_until b))); [lia|].
    destruct (Z.gtb_spec (step_events_completed s) (uint32 (decelerate_after b))); [|lia].
    reflexivity. }
  subst s'. rewrite Hupd, Htimer.
  repeat split; try assumption.
  intros Hr. rewrite E3. apply int32_small. exact Hr.
Qed.

Lemma acceleration_branch_rate_witness :
  acc_step_rate (snd (trapezoid_update cartesian ramp_block accelerating))
  = Z.min (nominal_rate ramp_block)
      (initial_rate ramp_block
       + (acceleration_rate ramp_block * acceleration_time accelerating + 0x80000000)
         / 2 ^ 32).
Proof.
  apply (acceleration_branch_rate cartesian ramp_block accelerating); vm_compute; easy.
Defined.

Lemma deceleration_branch_rate_witness :
  fst (trapezoid_update cartesian ramp_block decelerating)
  = fst (calc_timer cartesian
           (if (acceleration_rate ramp_block * deceleration_time decelerating + 2 ^ 31)
               / 2 ^ 32 >? acc_step_rate decelerating
            then final_rate ramp_block
            else Z.max (final_rate ramp_block)
                   (acc_step_rate decelerating
                    - (acceleration_rate ramp_block * deceleration_time decelerating
                       + 2 ^ 31) / 2 ^ 32))
           decelerating).
Proof.
  apply (deceleration_branch_rate cartesian ramp_block decelerating); vm_compute; easy.
Defined.

Ltac cases :=
  repeat match goal with
         | |- context [if ?c then _ else _] => destruct c
         end.

Section Frames.
Variable cfg : Config.

Lemma forget_outputs_emit e s : forget_outputs (emit e s) = forget_outputs s.
Proof. reflexivity. Qed.
Lemma forget_outputs_STEP_WRITE m v s : forget_outputs (STEP_WRITE m v s) = forget_outputs s.
Proof. reflexivity. Qed.
Lemma forget_outputs_DIR_WRITE m v s : forget_outputs (DIR_WRITE m v s) = forget_outputs s.
Proof. reflexivity. Qed.

Lemma forget_outputs_APPLY_STEP a v q s :
  forget_outputs (APPLY_STEP cfg a v q s) = forget_outputs s.
Proof.
  destruct a; unfold APPLY_STEP, X_APPLY_STEP, Y_APPLY_STEP, Z_APPLY_STEP, E_APPLY_STEP,
    Z_guarded_step; cases; reflexivity.
Qed.

Lemma forget_outputs_HAL_timer_stepper_count c inp s :
  forget_outputs (HAL_timer_stepper_count c inp s) = forget_outputs s.
Proof. reflexivity. Qed.

Lemma forget_tracer_outputs s s' :
  forget_outputs s = forget_outputs s' -> forget_tracer s = forget_tracer s'.
Proof. unfold forget_tracer. intros ->. reflexivity. Qed.

Lemma forget_tracer_STEP_START b a s :
  forget_tracer (STEP_START cfg b a s) = forget_tracer s.
Proof.
  unfold STEP_START. cbv zeta.
  match goal with |- context [if ?c then _ else _] => destruct c end; [|reflexivity].
  transitivity (forget_tracer
                  (APPLY_STEP cfg a (negb (INVERT_STEP_PIN cfg a)) false
                     (set_counter
                        (upd_axis (counter s) a (int32 (counter s a + steps b a))) s)));
    [reflexivity|].
  rewrite (forget_tracer_outputs _ _ (forget_outputs_APPLY_STEP _ _ _ _)). reflexivity.
Qed.

Lemma forget_tracer_STEP_END a s : forget_tracer (STEP_END cfg a s) = forget_tracer s.
Proof. apply forget_tracer_outputs, forget_outputs_APPLY_STEP. Qed.

Lemma forget_tracer_advance_tick b s : forget_tracer (advance_tick cfg b s) = forget_tracer s.
Proof. unfold advance_tick. cbv zeta. cases; reflexivity. Qed.

Lemma forget_tracer_step_starts b s : forget_tracer (step_starts cfg b s) = forget_tracer s.
Proof.
  unfold step_starts. cbv zeta. destruct (ADVANCE cfg);
    rewrite !forget_tracer_STEP_START; reflexivity.
Qed.

Lemma forget_tracer_step_ends s : forget_tracer (step_ends cfg s) = forget_tracer s.
Proof.
  unfold step_ends. cbv zeta. destruct (ADVANCE cfg);
    rewrite !forget_tracer_STEP_END; reflexivity.
Qed.

Lemma forget_ticks_tracer s s' :
  forget_tracer s = forget_tracer s' -> forget_ticks s = forget_ticks s'.
Proof. unfold forget_ticks. intros ->. reflexivity. Qed.

Lemma forget_tracer_step_iteration b s :
  forget_tracer (step_iteration cfg b s) = forget_tracer (step_event_done s).
Proof.
  unfold step_iteration. cbv zeta.
  transitivity (forget_tracer
                  (step_event_done
                     (forget_tracer
                        (step_ends cfg
                           (step_starts cfg b (if ADVANCE cfg then advance_tick cfg b s else s))))));
    [reflexivity|].
  rewrite forget_tracer_step_ends, forget_tracer_step_starts.
  destruct (ADVANCE cfg); [rewrite forget_tracer_advance_tick|]; reflexivity.
Qed.

Lemma step_events_completed_step_iteration b s :
  step_events_completed (step_iteration cfg b s) = uint32 (step_events_completed s + 1).
Proof.
  change (step_events_completed (forget_tracer (step_iteration cfg b s))
          = uint32 (step_events_completed s + 1)).
  rewrite forget_tracer_step_iteration. reflexivity.
Qed.

Lemma forget_ticks_step_iteration b s :
  forget_ticks (step_iteration cfg b s) = forget_ticks s.
Proof.
  rewrite (forget_ticks_tracer _ _ (forget_tracer_step_iteration b s)). reflexivity.
Qed.

Lemma forget_ticks_step_loop b n : forall s,
  forget_ticks (step_loop cfg b n s) = forget_ticks s.
Proof.
  induction n as [|n IH]; intros s; [reflexivity|].
  cbn [step_loop]. cbv zeta.
  destruct (step_events_completed (step_iteration cfg b s) >=? step_event_count b).
  - apply forget_ticks_step_iteration.
  - rewrite IH. apply forget_ticks_step_iteration.
Qed.

Lemma forget_ticks_isr_steps b s : forget_ticks (isr_steps cfg b s) = forget_ticks s.
Proof.
  unfold isr_steps. destruct (ENABLE_HIGH_SPEED_STEPPING cfg).
  - apply forget_ticks_step_loop.
  - transitivity (forget_ticks (step_starts cfg b s)); [reflexivity|].
    apply forget_ticks_tracer, forget_tracer_step_starts.
Qed.

(** The trapezoid update. *)
Lemma forget_trapezoid_outputs s s' :
  forget_outputs s = forget_outputs s' -> forget_trapezoid s = forget_trapezoid s'.
Proof. unfold forget_trapezoid. intros ->. reflexivity. Qed.

Lemma forget_rates_update b s :
  forget_rates (snd (trapezoid_update cfg b s)) = forget_rates s.
Proof.
  unfold trapezoid_update, trapezoid_accelerate, trapezoid_decelerate, advance_e_steps.
  cbv zeta. rewrite !calc_timer_eq.
  cases; reflexivity.
Qed.

Lemma forget_trapezoid_update b s :
  forget_trapezoid (snd (trapezoid_update cfg b s)) = forget_trapezoid s.
Proof.
  pose proof (forget_rates_update b s) as H.
  change (forget_trapezoid (forget_rates (snd (trapezoid_update cfg b s)))
          = forget_trapezoid (forget_rates s)).
  rewrite H. reflexivity.
Qed.

End Frames.

(** ** Bits *)

Lemma testbit_1 j : Z.testbit 1 j = (j =? 0).
Proof. destruct j as [|q|q]; [reflexivity | destruct q; reflexivity | reflexivity]. Qed.

Lemma TEST_BIT k i : 0 <= i -> TEST (BIT k) i = (i =? k).
Proof.
  intros Hi. unfold TEST, BIT. rewrite Z.shiftl_spec by assumption.
  rewrite testbit_1. destruct (Z.eqb_spec (i - k) 0), (Z.eqb_spec i k); try reflexivity; lia.
Qed.

Lemma TEST_neg n i : i < 0 -> TEST n i = false.
Proof. intros. unfold TEST. apply Z.testbit_neg_r. assumption. Qed.

Lemma TEST_uint8 x i : TEST (uint8 x) i = (i <? 8) && TEST x i.
Proof.
  unfold TEST, uint8. destruct (Z.ltb_spec i 8).
  - rewrite Z.mod_pow2_bits_low by assumption. reflexivity.
  - rewrite Z.mod_pow2_bits_high by lia. reflexivity.
Qed.

Lemma TEST_uint16 x i : TEST (uint16 x) i = (i <? 16) && TEST x i.
Proof.
  unfold TEST, uint16. destruct (Z.ltb_spec i 16).
  - rewrite Z.mod_pow2_bits_low by assumption. reflexivity.
  - rewrite Z.mod_pow2_bits_high by lia. reflexivity.
Qed.

Lemma TEST_lor x y i : TEST (Z.lor x y) i = TEST x i || TEST y i.
Proof. apply Z.lor_spec. Qed.

Lemma TEST_SET_BIT n k v i :
  0 <= i -> TEST (SET_BIT n k v) i = if i =? k then v else TEST n i.
Proof.
  intros Hi. unfold SET_BIT. destruct v.
  - rewrite TEST_lor, TEST_BIT by assumption.
    destruct (i =? k); [apply orb_true_r | apply orb_false_r].
  - unfold TEST at 1. rewrite Z.ldiff_spec. fold (TEST n i) (TEST (BIT k) i).
    rewrite TEST_BIT by assumption.
    destruct (i =? k); [apply andb_false_r | apply andb_true_r].
Qed.

Section Latch.
Variable cfg : Config.

Lemma TEST_endstop_t x i :
  TEST (endstop_t cfg x) i = (i <? (if Z_DUAL_ENDSTOPS cfg then 16 else 8)) && TEST x i.
Proof. unfold endstop_t. destruct (Z_DUAL_ENDSTOPS cfg); [apply TEST_uint16 | apply TEST_uint8]. Qed.

(** Bit [i] of [endstop_hit_bits] after [hit e]. *)
Lemma TEST_hit e s i :
  TEST (endstop_hit_bits (hit cfg e s)) i
  = (i <? 8) && (TEST (endstop_hit_bits s) i || ((0 <=? i) && (i =? endstop_bit cfg e))).
Proof.
  unfold hit. st_simpl. rewrite TEST_uint8, TEST_lor. f_equal. f_equal.
  destruct (Z.leb_spec 0 i).
  - rewrite TEST_BIT by assumption. reflexivity.
  - apply TEST_neg. assumption.
Qed.

Variable b : block_t.

Lemma latches_frame s0 s : latches cfg b s0 s -> forget_latch s = forget_latch s0.
Proof. induction 1; [reflexivity | | | ]; rewrite <- IHlatches; reflexivity. Qed.

Lemma latches_count_position s0 s : latches cfg b s0 s -> count_position s = count_position s0.
Proof.
  intros H. apply latches_frame in H.
  change (count_position (forget_latch s) = count_position (forget_latch s0)).
  rewrite H. reflexivity.
Qed.

Lemma latches_old_endstop_bits s0 s :
  latches cfg b s0 s -> old_endstop_bits s = old_endstop_bits s0.
Proof.
  intros H. apply latches_frame in H.
  change (old_endstop_bits (forget_latch s) = old_endstop_bits (forget_latch s0)).
  rewrite H. reflexivity.
Qed.

Lemma latches_trans s0 s1 s2 :
  latches cfg b s0 s1 -> latches cfg b s1 s2 -> latches cfg b s0 s2.
Proof. intros H01 H12. induction H12; [assumption | | | ]; constructor; assumption. Qed.

Lemma latches_step_events_completed s0 s :
  latches cfg b s0 s ->
  step_events_completed s = step_events_completed s0
  \/ step_events_completed s = step_event_count b.
Proof. induction 1; st_simpl; auto. Qed.

Lemma latches_trigsteps s0 s :
  latches cfg b s0 s ->
  forall a, endstops_trigsteps s a = endstops_trigsteps s0 a
            \/ endstops_trigsteps s a = count_position s0 a.
Proof.
  induction 1; intros a'; auto.
  - unfold record_trigsteps. st_simpl. unfold upd_axis.
    destruct (AxisEnum_eqb a a') eqn:E; [|apply IHlatches].
    right. rewrite (latches_count_position _ _ H). destruct a, a'; try discriminate; reflexivity.
  - apply IHlatches.
  - apply IHlatches.
Qed.

(** Only the [X_MIN], [Y_MIN], [Z_MIN] and [Z_PROBE] bits are ever added. *)
Lemma latches_hit_only s0 s :
  latches cfg b s0 s ->
  forall i, TEST (endstop_hit_bits s) i = true ->
    TEST (endstop_hit_bits s0) i = true
    \/ In i (map (endstop_bit cfg) [X_MIN; Y_MIN; Z_MIN; Z_PROBE]).
Proof.
  induction 1; intros i Hi; auto.
  rewrite TEST_hit in Hi.
  apply andb_prop in Hi. destruct Hi as [_ Hi].
  apply orb_prop in Hi. destruct Hi as [Hi|Hi]; [auto|].
  apply andb_prop in Hi. destruct Hi as [_ Hi]. apply Z.eqb_eq in Hi. subst i.
  right. apply in_map. assumption.
Qed.

(** A latched bit stays latched. *)
Lemma latches_hit_mono s0 s :
  latches cfg b s0 s ->
  forall i, i < 8 -> TEST (endstop_hit_bits s0) i = true -> TEST (endstop_hit_bits s) i = true.
Proof.
  induction 1; intros i Hi Hset; auto.
  rewrite TEST_hit. rewrite (IHlatches i Hi Hset).
  apply Z.ltb_lt in Hi. rewrite Hi. reflexivity.
Qed.

End Latch.

Section Endstops.
Variable cfg : Config.
Variable inp : isr_input.
Variable b : block_t.

#[local] Hint Constructors latches : latch.

Lemma MIN_is_latchable e : In (endstop_MIN e) [X_MIN; Y_MIN; Z_MIN; Z_PROBE].
Proof. destruct e; simpl; auto. Qed.

(** The sample bit just written reads back, when it fits the variable. *)
Lemma TEST_SET_ENDSTOP_BIT e bits i :
  0 <= i ->
  TEST (SET_ENDSTOP_BIT cfg inp e bits) i
  = (i <? (if Z_DUAL_ENDSTOPS cfg then 16 else 8))
    && (if i =? endstop_bit cfg e then asserted cfg inp e else TEST bits i).
Proof.
  intros Hi. unfold SET_ENDSTOP_BIT. rewrite TEST_endstop_t, TEST_SET_BIT by assumption.
  reflexivity.
Qed.

Lemma TEST_ENDSTOP_sampled e s bits :
  TEST_ENDSTOP cfg s (SET_ENDSTOP_BIT cfg inp e bits) e = true -> confirmed cfg inp s e = true.
Proof.
  unfold TEST_ENDSTOP, confirmed. intros H. apply andb_prop in H. destruct H as [H1 H2].
  rewrite H2, andb_true_r.
  destruct (Z.ltb_spec (endstop_bit cfg e) 0) as [Hn|Hn].
  - rewrite TEST_neg in H1 by assumption. discriminate.
  - rewrite TEST_SET_ENDSTOP_BIT, Z.eqb_refl in H1 by assumption.
    apply andb_prop in H1. apply H1.
Qed.

Lemma TEST_ENDSTOP_confirmed e s bits :
  0 <= endstop_bit cfg e < (if Z_DUAL_ENDSTOPS cfg then 16 else 8) ->
  confirmed cfg inp s e = true ->
  TEST_ENDSTOP cfg s (SET_ENDSTOP_BIT cfg inp e bits) e = true.
Proof.
  unfold TEST_ENDSTOP, confirmed. intros Hfit H. apply andb_prop in H. destruct H as [H1 H2].
  rewrite H2, andb_true_r, TEST_SET_ENDSTOP_BIT, Z.eqb_refl, H1 by lia.
  rewrite andb_true_r. apply Z.ltb_lt. lia.
Qed.

Lemma UPDATE_ENDSTOP_latches e s0 sc :
  latches cfg b s0 (fst sc) -> latches cfg b s0 (fst (UPDATE_ENDSTOP cfg inp b e sc)).
Proof.
  destruct sc as [s bits]. unfold UPDATE_ENDSTOP. cbv zeta. intros H.
  cases; st_simpl; auto using MIN_is_latchable with latch.
Qed.

Lemma UPDATE_ENDSTOP_quiet e sc :
  confirmed cfg inp (fst sc) e = false -> fst (UPDATE_ENDSTOP cfg inp b e sc) = fst sc.
Proof.
  destruct sc as [s bits]. unfold UPDATE_ENDSTOP. cbv zeta. st_simpl. intros H.
  destruct (TEST_ENDSTOP cfg s (SET_ENDSTOP_BIT cfg inp e bits) e) eqn:E; [|reflexivity].
  apply TEST_ENDSTOP_sampled in E. congruence.
Qed.

Lemma UPDATE_ENDSTOP_fires e sc :
  0 <= endstop_bit cfg e < (if Z_DUAL_ENDSTOPS cfg then 16 else 8) ->
  confirmed cfg inp (fst sc) e = true ->
  steps b (endstop_axis e) > 0 ->
  fst (UPDATE_ENDSTOP cfg inp b e sc)
  = set_step_events_completed (step_event_count b)
      (hit cfg (endstop_MIN e) (record_trigsteps (endstop_axis e) (fst sc))).
Proof.
  destruct sc as [s bits]. unfold UPDATE_ENDSTOP. cbv zeta. st_simpl. intros Hfit H Hs.
  rewrite (TEST_ENDSTOP_confirmed e s bits Hfit H).
  destruct (Z.gtb_spec (steps b (endstop_axis e)) 0); [reflexivity | lia].
Qed.

Lemma TEST_COPY_BIT bits from to i :
  0 <= i ->
  TEST (COPY_BIT cfg bits from to) i
  = (i <? (if Z_DUAL_ENDSTOPS cfg then 16 else 8))
    && (if i =? endstop_bit cfg to then TEST bits (endstop_bit cfg from) else TEST bits i).
Proof.
  intros Hi. unfold COPY_BIT. rewrite TEST_endstop_t, TEST_SET_BIT by assumption.
  reflexivity.
Qed.

(** The value the source's expression really has: bit 1 for Z alone, bit 2
    for Z together with Z2, nothing for Z2 alone; never [0x3]. *)
Lemma z_test_value s bits e e2 :
  z_test cfg s bits e e2
  = if TEST_ENDSTOP cfg s bits e then (if TEST_ENDSTOP cfg s bits e2 then 4 else 2) else 0.
Proof.
  unfold z_test. destruct (TEST_ENDSTOP cfg s bits e), (TEST_ENDSTOP cfg s bits e2);
    reflexivity.
Qed.

Lemma endstops_Z_dual_latches e e2 s0 sc :
  latches cfg b s0 (fst sc) -> latches cfg b s0 (fst (endstops_Z_dual cfg inp b e e2 sc)).
Proof.
  destruct sc as [s bits]. unfold endstops_Z_dual. cbv zeta. intros H.
  cases; st_simpl; auto 6 with latch datatypes.
Qed.

(** While homing, the dual branch never ends the block. *)
Lemma endstops_Z_dual_homing e e2 sc :
  performing_homing (fst sc) = true ->
  step_events_completed (fst (endstops_Z_dual cfg inp b e e2 sc))
  = step_events_completed (fst sc).
Proof.
  destruct sc as [s bits]. unfold endstops_Z_dual, hit, record_trigsteps. cbv zeta.
  st_simpl. intros Hh. rewrite Hh, !z_test_value.
  destruct (HAS_ENDSTOP cfg e2);
    match goal with
    | |- context [TEST_ENDSTOP cfg s ?B e] =>
        destruct (TEST_ENDSTOP cfg s B e), (TEST_ENDSTOP cfg s B e2)
    end; simpl; cases; reflexivity.
Qed.

Lemma endstops_Z_dual_quiet e e2 sc :
  endstop_bit cfg e <> endstop_bit cfg e2 ->
  confirmed cfg inp (fst sc) e = false ->
  fst (endstops_Z_dual cfg inp b e e2 sc) = fst sc.
Proof.
  destruct sc as [s bits]. unfold endstops_Z_dual. cbv zeta. st_simpl. intros Hne Hc.
  rewrite !z_test_value.
  match goal with
  | |- context [TEST_ENDSTOP cfg s ?B e] =>
      assert (Hq : TEST_ENDSTOP cfg s B e = false); [|rewrite Hq; reflexivity]
  end.
  apply not_true_is_false. intros Ht. apply not_true_iff_false in Hc. apply Hc.
  unfold TEST_ENDSTOP in Ht. apply andb_prop in Ht. destruct Ht as [H1 H2].
  unfold confirmed. rewrite H2, andb_true_r.
  destruct (Z.ltb_spec (endstop_bit cfg e) 0) as [Hn|Hn].
  { rewrite TEST_neg in H1 by assumption. discriminate. }
  destruct (HAS_ENDSTOP cfg e2).
  - rewrite TEST_SET_ENDSTOP_BIT in H1 by assumption.
    apply Z.eqb_neq in Hne. rewrite Hne in H1.
    apply andb_prop in H1. destruct H1 as [_ H1].
    rewrite TEST_SET_ENDSTOP_BIT, Z.eqb_refl in H1 by assumption.
    apply andb_prop in H1. apply H1.
  - rewrite TEST_COPY_BIT in H1 by assumption.
    apply Z.eqb_neq in Hne. rewrite Hne in H1.
    apply andb_prop in H1. destruct H1 as [_ H1].
    rewrite TEST_SET_ENDSTOP_BIT, Z.eqb_refl in H1 by assumption.
    apply andb_prop in H1. apply H1.
Qed.

Lemma endstops_Z_probe_latches s0 sc :
  latches cfg b s0 (fst sc) -> latches cfg b s0 (fst (endstops_Z_probe cfg inp b sc)).
Proof.
  unfold endstops_Z_probe. intros H. destruct (Z_PROBE_ENDSTOP cfg); [|assumption].
  pose proof (UPDATE_ENDSTOP_latches Z_PROBE s0 sc H) as H'.
  destruct (UPDATE_ENDSTOP cfg inp b Z_PROBE sc) as [s bits].
  cases; st_simpl; auto 6 with latch datatypes.
Qed.

Lemma endstops_Z_probe_quiet sc :
  confirmed cfg inp (fst sc) Z_PROBE = false ->
  fst (endstops_Z_probe cfg inp b sc) = fst sc.
Proof.
  unfold endstops_Z_probe. intros Hc. destruct (Z_PROBE_ENDSTOP cfg); [|reflexivity].
  pose proof (UPDATE_ENDSTOP_quiet Z_PROBE sc Hc) as Hq.
  assert (Hs : snd (UPDATE_ENDSTOP cfg inp b Z_PROBE sc)
               = SET_ENDSTOP_BIT cfg inp Z_PROBE (snd sc)).
  { destruct sc as [s bits]. unfold UPDATE_ENDSTOP. cbv zeta. cases; reflexivity. }
  destruct (UPDATE_ENDSTOP cfg inp b Z_PROBE sc) as [s bits]. st_simpl. subst.
  destruct (TEST_ENDSTOP cfg (fst sc) (SET_ENDSTOP_BIT cfg inp Z_PROBE (snd sc)) Z_PROBE) eqn:E;
    [|reflexivity].
  apply TEST_ENDSTOP_sampled in E. congruence.
Qed.

Lemma endstops_X_latches s0 sc :
  latches cfg b s0 (fst sc) -> latches cfg b s0 (fst (endstops_X cfg inp b sc)).
Proof.
  unfold endstops_X. cbv zeta. intros H.
  cases; auto using UPDATE_ENDSTOP_latches.
Qed.

Lemma endstops_Y_latches s0 sc :
  latches cfg b s0 (fst sc) -> latches cfg b s0 (fst (endstops_Y cfg inp b sc)).
Proof.
  unfold endstops_Y. cbv zeta. intros H.
  cases; auto using UPDATE_ENDSTOP_latches.
Qed.

Lemma endstops_Z_latches s0 sc :
  latches cfg b s0 (fst sc) -> latches cfg b s0 (fst (endstops_Z cfg inp b sc)).
Proof.
  unfold endstops_Z. cbv zeta. intros H.
  cases; auto using UPDATE_ENDSTOP_latches, endstops_Z_dual_latches, endstops_Z_probe_latches.
Qed.

Lemma checked_latches s : latches cfg b s (fst (checked cfg inp b s)).
Proof.
  unfold checked.
  apply endstops_Z_latches, endstops_Y_latches, endstops_X_latches. constructor.
Qed.

Lemma check_endstops_phase_eq s :
  check_endstops_phase cfg inp b s
  = set_old_endstop_bits (snd (checked cfg inp b s)) (fst (checked cfg inp b s)).
Proof.
  unfold check_endstops_phase, checked. cbv zeta.
  destruct (endstops_Z cfg inp b (endstops_Y cfg inp b (endstops_X cfg inp b (s, 0)))).
  reflexivity.
Qed.

Lemma endstops_X_quiet sc :
  (forall e, confirmed cfg inp (fst sc) e = false) -> fst (endstops_X cfg inp b sc) = fst sc.
Proof.
  unfold endstops_X. cbv zeta. intros H. cases; auto using UPDATE_ENDSTOP_quiet.
Qed.

Lemma endstops_Y_quiet sc :
  (forall e, confirmed cfg inp (fst sc) e = false) -> fst (endstops_Y cfg inp b sc) = fst sc.
Proof.
  unfold endstops_Y. cbv zeta. intros H. cases; auto using UPDATE_ENDSTOP_quiet.
Qed.

Lemma distinct_Z_Z2 :
  endstop_bits_distinct cfg = true ->
  endstop_bit cfg Z_MIN <> endstop_bit cfg Z2_MIN
  /\ endstop_bit cfg Z_MAX <> endstop_bit cfg Z2_MAX.
Proof.
  unfold endstop_bits_distinct, all_endstops. cbn [map distinct forallb]. intros H.
  repeat match goal with
         | H : _ && _ = true |- _ => apply andb_prop in H; destruct H
         | H : negb _ = true |- _ => apply negb_true_iff, Z.eqb_neq in H
         end.
  split; assumption.
Qed.

Lemma endstops_Z_quiet sc :
  endstop_bits_distinct cfg = true ->
  (forall e, confirmed cfg inp (fst sc) e = false) -> fst (endstops_Z cfg inp b sc) = fst sc.
Proof.
  unfold endstops_Z. cbv zeta. intros Hd H. destruct (distinct_Z_Z2 Hd) as [Hmin Hmax].
  cases;
    rewrite endstops_Z_probe_quiet;
    rewrite ?endstops_Z_dual_quiet, ?UPDATE_ENDSTOP_quiet; auto.
Qed.

(** With no switch asserted in both samples, the check latches nothing. *)
Lemma checked_quiet s :
  endstop_bits_distinct cfg = true ->
  (forall e, confirmed cfg inp s e = false) -> fst (checked cfg inp b s) = s.
Proof.
  intros Hd H. unfold checked.
  assert (HX : fst (endstops_X cfg inp b (s, 0)) = s) by (apply endstops_X_quiet, H).
  assert (HY : fst (endstops_Y cfg inp b (endstops_X cfg inp b (s, 0))) = s).
  { rewrite endstops_Y_quiet; rewrite ?HX; auto. }
  rewrite endstops_Z_quiet; rewrite ?HY; auto.
Qed.

(** *** A confirmed, gated trigger *)

Lemma latched_latches e s0 s s' :
  endstop_bit cfg (endstop_MIN e) < 8 ->
  latches cfg b s0 s -> latched cfg b e s0 s -> latches cfg b s s' ->
  latched cfg b e s0 s'.
Proof.
  intros Hfit H0 (Ht & Hh & Hc) H. unfold latched.
  repeat split.
  - destruct (latches_trigsteps cfg b s s' H (endstop_axis e)) as [E|E]; rewrite E.
    + assumption.
    + rewrite (latches_count_position cfg b s0 s H0). reflexivity.
  - apply (latches_hit_mono cfg b s s' H); assumption.
  - destruct (latches_step_events_completed cfg b s s' H) as [E|E]; rewrite E; auto.
Qed.

Lemma UPDATE_ENDSTOP_latched e s0 s bits :
  0 <= endstop_bit cfg e < (if Z_DUAL_ENDSTOPS cfg then 16 else 8) ->
  0 <= endstop_bit cfg (endstop_MIN e) < 8 ->
  latches cfg b s0 s ->
  confirmed cfg inp s0 e = true ->
  steps b (endstop_axis e) > 0 ->
  latched cfg b e s0 (fst (UPDATE_ENDSTOP cfg inp b e (s, bits))).
Proof.
  intros Hfit Hmin H Hc Hs.
  rewrite UPDATE_ENDSTOP_fires; try assumption.
  - unfold latched. repeat split.
    + unfold hit, record_trigsteps, upd_axis. st_simpl.
      replace (AxisEnum_eqb (endstop_axis e) (endstop_axis e)) with true
        by (destruct e; reflexivity).
      rewrite (latches_count_position cfg b s0 s H). reflexivity.
    + st_simpl. rewrite TEST_hit, Z.eqb_refl.
      destruct Hmin as [Hlo Hhi]. apply Z.leb_le in Hlo. apply Z.ltb_lt in Hhi.
      rewrite Hlo, Hhi. cbn [andb]. apply orb_true_r.
  - unfold confirmed in *. st_simpl. rewrite (latches_old_endstop_bits cfg b s0 s H).
    assumption.
Qed.

Lemma gated_out_bits s s' e :
  out_bits s = out_bits s' -> gated cfg b s e = gated cfg b s' e.
Proof. unfold gated, x_head_moves, y_head_moves. intros ->. reflexivity. Qed.

Lemma latches_out_bits s0 s : latches cfg b s0 s -> out_bits s = out_bits s0.
Proof.
  intros H. apply latches_frame in H.
  change (out_bits (forget_latch s) = out_bits (forget_latch s0)).
  rewrite H. reflexivity.
Qed.

Ltac split_gate H :=
  repeat match type of H with
         | _ && _ = true => let H' := fresh "G" in apply andb_prop in H; destruct H as [H H']
         end.

Lemma endstops_X_gated e sc :
  e = X_MIN \/ e = X_MAX ->
  gated cfg b (fst sc) e = true ->
  endstops_X cfg inp b sc = UPDATE_ENDSTOP cfg inp b e sc.
Proof.
  unfold gated, endstops_X, x_head_moves. cbv zeta.
  intros [-> | ->] G; split_gate G.
  - rewrite G1, G0, G2. destruct (COREXY cfg); rewrite ?G; reflexivity.
  - apply negb_true_iff in G2. rewrite G1, G0, G2. destruct (COREXY cfg); rewrite ?G; reflexivity.
Qed.

Lemma endstops_Y_gated e sc :
  e = Y_MIN \/ e = Y_MAX ->
  gated cfg b (fst sc) e = true ->
  endstops_Y cfg inp b sc = UPDATE_ENDSTOP cfg inp b e sc.
Proof.
  unfold gated, endstops_Y, y_head_moves. cbv zeta.
  intros [-> | ->] G; split_gate G.
  - rewrite G0, G1. destruct (COREXY cfg); rewrite ?G; reflexivity.
  - apply negb_true_iff in G1. rewrite G0, G1. destruct (COREXY cfg); rewrite ?G; reflexivity.
Qed.

Lemma endstops_Z_gated e sc :
  e = Z_MIN \/ e = Z_MAX ->
  gated cfg b (fst sc) e = true ->
  endstops_Z cfg inp b sc = endstops_Z_probe cfg inp b (UPDATE_ENDSTOP cfg inp b e sc).
Proof.
  unfold gated, endstops_Z. cbv zeta.
  intros [-> | ->] G; split_gate G; apply negb_true_iff in G0.
  - rewrite G, G1, G0. reflexivity.
  - apply negb_true_iff in G. rewrite G, G1, G0. reflexivity.
Qed.

Lemma endstops_Z_probe_latched s0 sc :
  Z_PROBE_ENDSTOP cfg = true ->
  0 <= endstop_bit cfg Z_PROBE < 8 ->
  0 <= endstop_bit cfg Z_MIN < 8 ->
  latches cfg b s0 (fst sc) ->
  confirmed cfg inp s0 Z_PROBE = true ->
  steps b Z_AXIS > 0 ->
  latched cfg b Z_PROBE s0 (fst (endstops_Z_probe cfg inp b sc)).
Proof.
  intros Hp Hfit Hmin H Hc Hs. destruct sc as [s bits].
  assert (Hw : 0 <= endstop_bit cfg Z_PROBE < (if Z_DUAL_ENDSTOPS cfg then 16 else 8))
    by (destruct (Z_DUAL_ENDSTOPS cfg); lia).
  pose proof (UPDATE_ENDSTOP_latched Z_PROBE s0 s bits Hw Hmin H Hc Hs) as HL.
  pose proof (UPDATE_ENDSTOP_latches Z_PROBE s0 (s, bits) H) as HU.
  apply (latched_latches Z_PROBE s0 _ _ (proj2 Hmin) HU HL).
  unfold endstops_Z_probe. rewrite Hp.
  destruct (UPDATE_ENDSTOP cfg inp b Z_PROBE (s, bits)) as [s1 bits1].
  cases; st_simpl; auto 6 with latch datatypes.
Qed.

(** The first part of [endstops_Z], before the probe. *)
Lemma endstops_Z_probe_last s0 sc :
  latches cfg b s0 (fst sc) ->
  exists sc', latches cfg b s0 (fst sc')
              /\ endstops_Z cfg inp b sc = endstops_Z_probe cfg inp b sc'.
Proof.
  intros H. unfold endstops_Z. cbv zeta.
  cases; eexists; (split; [|reflexivity]);
    auto using UPDATE_ENDSTOP_latches, endstops_Z_dual_latches.
Qed.

Lemma fit_bits e :
  endstop_bits_fit cfg = true ->
  e <> Z2_MIN -> e <> Z2_MAX ->
  0 <= endstop_bit cfg e < (if Z_DUAL_ENDSTOPS cfg then 16 else 8)
  /\ 0 <= endstop_bit cfg (endstop_MIN e) < 8.
Proof.
  unfold endstop_bits_fit, all_endstops. intros H H1 H2.
  destruct (Z_DUAL_ENDSTOPS cfg); cbn [forallb] in H;
    repeat match goal with
           | H : _ && _ = true |- _ => apply andb_prop in H; destruct H
           | H : (_ <=? _) = true |- _ => apply Z.leb_le in H
           | H : (_ <? _) = true |- _ => apply Z.ltb_lt in H
           end;
    destruct e; cbn [endstop_MIN]; try contradiction; lia.
Qed.

Lemma fit_latchable e :
  endstop_bits_fit cfg = true ->
  In e [X_MIN; Y_MIN; Z_MIN; Z_PROBE] -> 0 <= endstop_bit cfg e < 8.
Proof.
  unfold endstop_bits_fit. intros H Hin.
  apply andb_prop in H. destruct H as [H _].
  rewrite forallb_forall in H. specialize (H e Hin).
  apply andb_prop in H. destruct H as [H1 H2].
  apply Z.leb_le in H1. apply Z.ltb_lt in H2. lia.
Qed.

(** A confirmed trigger of a gated endstop survives to the end of the check. *)
Lemma checked_latched e s :
  endstop_bits_fit cfg = true ->
  gated cfg b s e = true ->
  confirmed cfg inp s e = true ->
  steps b (endstop_axis e) > 0 ->
  latched cfg b e s (fst (checked cfg inp b s)).
Proof.
  intros Hfit Hg Hc Hs.
  assert (HZ2 : e <> Z2_MIN /\ e <> Z2_MAX) by (split; intros ->; discriminate).
  destruct (fit_bits e Hfit (proj1 HZ2) (proj2 HZ2)) as [Hw Hmin].
  pose proof (endstops_X_latches s (s, 0) (latches_refl cfg b s)) as LX.
  pose proof (endstops_Y_latches s _ LX) as LY.
  unfold checked.
  set (sx := endstops_X cfg inp b (s, 0)) in *.
  set (sy := endstops_Y cfg inp b sx) in *.
  assert (GX : gated cfg b (fst sx) e = true)
    by (rewrite (gated_out_bits (fst sx) s e (latches_out_bits s _ LX)); exact Hg).
  assert (GY : gated cfg b (fst sy) e = true)
    by (rewrite (gated_out_bits (fst sy) s e (latches_out_bits s _ LY)); exact Hg).
  assert (after_X : latched cfg b e s (fst sx) ->
                    latched cfg b e s (fst (endstops_Z cfg inp b sy))).
  { intros HL.
    apply (latched_latches e s (fst sx) _ (proj2 Hmin) LX HL).
    apply endstops_Z_latches, endstops_Y_latches. constructor. }
  assert (after_Y : latched cfg b e s (fst sy) ->
                    latched cfg b e s (fst (endstops_Z cfg inp b sy))).
  { intros HL.
    apply (latched_latches e s (fst sy) _ (proj2 Hmin) LY HL).
    apply endstops_Z_latches. constructor. }
  destruct e; try discriminate Hg.
  - apply after_X. subst sx. rewrite (endstops_X_gated X_MIN (s, 0)) by auto.
    apply UPDATE_ENDSTOP_latched; auto. constructor.
  - apply after_Y. subst sy. rewrite (endstops_Y_gated Y_MIN sx) by auto.
    destruct sx. apply UPDATE_ENDSTOP_latched; auto.
  - rewrite (endstops_Z_gated Z_MIN sy) by auto.
    destruct sy as [s2 bits2].
    apply (latched_latches Z_MIN s _ _ (proj2 Hmin)
             (UPDATE_ENDSTOP_latches Z_MIN s (s2, bits2) LY)).
    + apply UPDATE_ENDSTOP_latched; auto.
    + apply endstops_Z_probe_latches. constructor.
  - destruct (endstops_Z_probe_last s sy LY) as (sc' & L' & ->).
    apply endstops_Z_probe_latched; auto.
    apply fit_latchable; simpl; auto.
  - apply after_X. subst sx. rewrite (endstops_X_gated X_MAX (s, 0)) by auto.
    apply UPDATE_ENDSTOP_latched; auto. constructor.
  - apply after_Y. subst sy. rewrite (endstops_Y_gated Y_MAX sx) by auto.
    destruct sx. apply UPDATE_ENDSTOP_latched; auto.
  - rewrite (endstops_Z_gated Z_MAX sy) by auto.
    destruct sy as [s2 bits2].
    apply (latched_latches Z_MAX s _ _ (proj2 Hmin)
             (UPDATE_ENDSTOP_latches Z_MAX s (s2, bits2) LY)).
    + apply UPDATE_ENDSTOP_latched; auto.
    + apply endstops_Z_probe_latches. constructor.
Qed.

End Endstops.

(** ** The interrupt as a whole *)

Section Interrupt.
Variable cfg : Config.
Variable inp : isr_input.

Lemma forget_direction_outputs s s' :
  forget_outputs s = forget_outputs s' -> forget_direction s = forget_direction s'.
Proof. unfold forget_direction. intros ->. reflexivity. Qed.

Lemma forget_outputs_APPLY_DIR v q s :
  forget_outputs (X_APPLY_DIR cfg v q s) = forget_outputs s
  /\ forget_outputs (Y_APPLY_DIR cfg v q s) = forget_outputs s
  /\ forget_outputs (Z_APPLY_DIR cfg v q s) = forget_outputs s.
Proof.
  unfold X_APPLY_DIR, Y_APPLY_DIR, Z_APPLY_DIR. repeat split; cases; reflexivity.
Qed.

Lemma forget_direction_latch_direction a f s :
  (forall v q s, forget_outputs (f v q s) = forget_outputs s) ->
  forget_direction (latch_direction cfg a f s) = forget_direction s.
Proof.
  intros Hf. unfold latch_direction.
  destruct (TEST (out_bits s) (axis_bit cfg a));
    match goal with
    | |- forget_direction (set_count_direction _ ?x) = _ =>
        transitivity (forget_direction x); [reflexivity|]
    end; apply forget_direction_outputs, Hf.
Qed.

Lemma forget_direction_set_stepper_direction s :
  forget_direction (set_stepper_direction cfg s) = forget_direction s.
Proof.
  unfold set_stepper_direction. cbv zeta.
  assert (HE : forall s, forget_direction (latch_e_direction cfg s) = forget_direction s)
    by (intros s'; unfold latch_e_direction; cases; reflexivity).
  destruct (ADVANCE cfg); rewrite ?HE;
    rewrite !forget_direction_latch_direction;
    try reflexivity; intros; apply forget_outputs_APPLY_DIR.
Qed.

Lemma forget_reset_direction s s' :
  forget_direction s = forget_direction s' -> forget_reset s = forget_reset s'.
Proof.
  intros H. change (forget_reset (forget_direction s) = forget_reset (forget_direction s')).
  rewrite H. reflexivity.
Qed.

Lemma forget_reset_trapezoid_generator_reset b s :
  forget_reset (trapezoid_generator_reset cfg b s) = forget_reset s.
Proof.
  unfold trapezoid_generator_reset, advance_e_steps. cbv zeta.
  rewrite !calc_timer_eq.
  destruct (negb (direction_bits b =? out_bits s)), (ADVANCE cfg);
    st_simpl;
    try (transitivity (forget_reset (set_stepper_direction cfg (set_out_bits (direction_bits b) s)));
         [reflexivity|];
         rewrite (forget_reset_direction _ _ (forget_direction_set_stepper_direction _)));
    reflexivity.
Qed.
Lemma forget_acquire_reset s s' :
  forget_reset s = forget_reset s' -> forget_acquire s = forget_acquire s'.
Proof. unfold forget_acquire. intros ->. reflexivity. Qed.

(** The three ways through [if (!current_block) { ... }]. *)
Lemma isr_acquire_busy b s :
  current_block s = Some b -> isr_acquire cfg inp s = (s, false).
Proof. intros H. unfold isr_acquire. rewrite H. reflexivity. Qed.

Lemma isr_acquire_empty s :
  current_block s = None -> block_buffer s = [] ->
  isr_acquire cfg inp s = (HAL_timer_stepper_count (HAL_TIMER_RATE cfg / 1000) inp s, false).
Proof.
  intros H1 H2. unfold isr_acquire, plan_get_current_block. rewrite H1, H2. reflexivity.
Qed.

Lemma isr_acquire_fresh b0 rest s :
  current_block s = None -> block_buffer s = b0 :: rest ->
  let b := set_busy true b0 in
  let s1 :=
    set_step_events_completed 0
      (set_counter (fun _ => int32 (uint32 (- Z.shiftr (step_event_count b) 1)))
         (trapezoid_generator_reset cfg b
            (set_current_block (Some b) (set_block_buffer (b :: rest) s)))) in
  isr_acquire cfg inp s
  = if Z_LATE_ENABLE cfg && (steps b Z_AXIS >? 0)
    then (emit (TimerSetCount (HAL_TIMER_RATE cfg / 1000)) (emit (EnableAxis Z_AXIS) s1), true)
    else (s1, false).
Proof.
  intros H1 H2. unfold isr_acquire, plan_get_current_block. rewrite H1, H2. reflexivity.
Qed.

Lemma forget_acquire_isr_acquire s :
  forget_acquire (fst (isr_acquire cfg inp s)) = forget_acquire s.
Proof.
  destruct (current_block s) as [b|] eqn:Hb.
  { rewrite (isr_acquire_busy b s Hb). reflexivity. }
  destruct (block_buffer s) as [|b0 rest] eqn:Hq.
  { rewrite (isr_acquire_empty s Hb Hq). reflexivity. }
  rewrite (isr_acquire_fresh b0 rest s Hb Hq). cbv zeta.
  pose proof (forget_reset_trapezoid_generator_reset (set_busy true b0)
                (set_current_block (Some (set_busy true b0))
                   (set_block_buffer (set_busy true b0 :: rest) s))) as HR.
  apply forget_acquire_reset in HR.
  remember (trapezoid_generator_reset cfg (set_busy true b0)
              (set_current_block (Some (set_busy true b0))
                 (set_block_buffer (set_busy true b0 :: rest) s))) as s1 eqn:E.
  clear E.
  transitivity (forget_acquire s1); [cases; reflexivity|].
  rewrite HR. reflexivity.
Qed.

Lemma forget_finish_trapezoid s s' :
  forget_trapezoid s = forget_trapezoid s' -> forget_finish s = forget_finish s'.
Proof. unfold forget_finish. intros ->. reflexivity. Qed.

Lemma forget_trapezoid_step_ends s :
  forget_trapezoid (step_ends cfg s) = forget_trapezoid s.
Proof.
  apply forget_trapezoid_outputs. unfold step_ends, STEP_END. cbv zeta.
  destruct (ADVANCE cfg); rewrite !forget_outputs_APPLY_STEP; reflexivity.
Qed.

(** The state [isr_finish] re-arms the timer on. *)
Lemma isr_finish_eq b s :
  isr_finish cfg inp b s
  = let s1 := snd (trapezoid_update cfg b s) in
    let s2 := if ENABLE_HIGH_SPEED_STEPPING cfg then s1 else step_ends cfg s1 in
    let s3 := HAL_timer_stepper_count (fst (trapezoid_update cfg b s)) inp s2 in
    if step_events_completed s >=? step_event_count b
    then plan_discard_current_block (set_current_block None s3)
    else s3.
Proof.
  unfold isr_finish. destruct (trapezoid_update cfg b s) as [timer s1] eqn:E. cbv zeta.
  cbn [fst snd].
  assert (Hs : step_events_completed s1 = step_events_completed s).
  { change s1 with (snd (timer, s1)). rewrite <- E.
    change (step_events_completed (forget_trapezoid (snd (trapezoid_update cfg b s)))
            = step_events_completed (forget_trapezoid s)).
    rewrite forget_trapezoid_update. reflexivity. }
  assert (Hs2 : step_events_completed
                  (HAL_timer_stepper_count timer inp
                     (if ENABLE_HIGH_SPEED_STEPPING cfg then s1 else step_ends cfg s1))
                = step_events_completed s).
  { rewrite <- Hs. destruct (ENABLE_HIGH_SPEED_STEPPING cfg); [reflexivity|].
    change (step_events_completed (forget_trapezoid (step_ends cfg s1))
            = step_events_completed (forget_trapezoid s1)).
    rewrite forget_trapezoid_step_ends. reflexivity. }
  rewrite Hs2. reflexivity.
Qed.

Lemma forget_finish_isr_finish b s :
  forget_finish (isr_finish cfg inp b s) = forget_finish s.
Proof.
  rewrite isr_finish_eq. cbv zeta.
  match goal with
  | |- forget_finish (if _ then plan_discard_current_block (set_current_block None ?x) else ?x)
       = _ => transitivity (forget_finish x); [cases; reflexivity|]
  end.
  apply forget_finish_trapezoid.
  transitivity (forget_trapezoid
                  (if ENABLE_HIGH_SPEED_STEPPING cfg
                   then snd (trapezoid_update cfg b s)
                   else step_ends cfg (snd (trapezoid_update cfg b s)))); [reflexivity|].
  destruct (ENABLE_HIGH_SPEED_STEPPING cfg); rewrite ?forget_trapezoid_step_ends;
    apply forget_trapezoid_update.
Qed.

(** The block is handed back exactly when the step events are used up. *)
Lemma isr_finish_release b s :
  step_events_completed s >= step_event_count b ->
  current_block (isr_finish cfg inp b s) = None
  /\ block_buffer (isr_finish cfg inp b s) = tl (block_buffer s).
Proof.
  intros H. rewrite isr_finish_eq. cbv zeta.
  destruct (Z.geb_spec (step_events_completed s) (step_event_count b)); [|lia].
  split; [reflexivity|].
  unfold plan_discard_current_block. st_simpl. f_equal.
  match goal with
  | |- block_buffer ?x = _ =>
      change (block_buffer x) with
        (block_buffer
           (if ENABLE_HIGH_SPEED_STEPPING cfg
            then snd (trapezoid_update cfg b s)
            else step_ends cfg (snd (trapezoid_update cfg b s))))
  end.
  transitivity (block_buffer (snd (trapezoid_update cfg b s))).
  - destruct (ENABLE_HIGH_SPEED_STEPPING cfg); [reflexivity|].
    change (block_buffer (forget_trapezoid (step_ends cfg (snd (trapezoid_update cfg b s))))
            = block_buffer (forget_trapezoid (snd (trapezoid_update cfg b s)))).
    rewrite forget_trapezoid_step_ends. reflexivity.
  - change (block_buffer (forget_trapezoid (snd (trapezoid_update cfg b s)))
            = block_buffer (forget_trapezoid s)).
    rewrite forget_trapezoid_update. reflexivity.
Qed.

Lemma isr_finish_keep b s :
  step_events_completed s < step_event_count b ->
  current_block (isr_finish cfg inp b s) = current_block s
  /\ block_buffer (isr_finish cfg inp b s) = block_buffer s.
Proof.
  intros H.
  assert (E : forget_trapezoid (isr_finish cfg inp b s) = forget_trapezoid s).
  { rewrite isr_finish_eq. cbv zeta.
    destruct (Z.geb_spec (step_events_completed s) (step_event_count b)); [lia|].
    transitivity (forget_trapezoid
                    (if ENABLE_HIGH_SPEED_STEPPING cfg
                     then snd (trapezoid_update cfg b s)
                     else step_ends cfg (snd (trapezoid_update cfg b s)))); [reflexivity|].
    destruct (ENABLE_HIGH_SPEED_STEPPING cfg); rewrite ?forget_trapezoid_step_ends;
      apply forget_trapezoid_update. }
  split.
  - change (current_block (forget_trapezoid (isr_finish cfg inp b s))
            = current_block (forget_trapezoid s)). rewrite E. reflexivity.
  - change (block_buffer (forget_trapezoid (isr_finish cfg inp b s))
            = block_buffer (forget_trapezoid s)). rewrite E. reflexivity.
Qed.

(** Coarsening: none of the motion code writes the endstop variables. *)
Lemma forget_motion_ticks s s' :
  forget_ticks s = forget_ticks s' -> forget_motion s = forget_motion s'.
Proof.
  intros H. change (forget_motion (forget_ticks s) = forget_motion (forget_ticks s')).
  rewrite H. reflexivity.
Qed.

Lemma forget_motion_finish s s' :
  forget_finish s = forget_finish s' -> forget_motion s = forget_motion s'.
Proof.
  intros H. change (forget_motion (forget_finish s) = forget_motion (forget_finish s')).
  rewrite H. reflexivity.
Qed.

Lemma forget_motion_acquire s s' :
  forget_acquire s = forget_acquire s' -> forget_motion s = forget_motion s'.
Proof. unfold forget_motion. intros ->. reflexivity. Qed.

Lemma forget_motion_isr_cleaning s : forget_motion (isr_cleaning cfg inp s) = forget_motion s.
Proof. reflexivity. Qed.

Lemma forget_motion_after_endstops b s :
  forget_motion (isr_finish cfg inp b (isr_steps cfg b s)) = forget_motion s.
Proof.
  rewrite (forget_motion_finish _ _ (forget_finish_isr_finish _ _)).
  apply forget_motion_ticks, forget_ticks_isr_steps.
Qed.

(** With a block in hand and no flush pending the handler runs the block. *)
Lemma isr_running b s :
  cleaning_buffer_counter s = 0 -> current_block s = Some b ->
  HAL_STEP_TIMER_ISR cfg inp s = isr_block cfg inp b s.
Proof.
  intros Hc Hb. unfold HAL_STEP_TIMER_ISR, isr_acquire. rewrite Hc, Hb. cbn [Z.eqb negb].
  rewrite Hb. reflexivity.
Qed.

Lemma forget_check_isr_endstops b s :
  forget_check (isr_endstops cfg inp b s) = forget_check s.
Proof.
  unfold isr_endstops. destruct (check_endstops s); [|reflexivity].
  rewrite check_endstops_phase_eq.
  transitivity (forget_check (fst (checked cfg inp b s))); [reflexivity|].
  unfold forget_check.
  rewrite (latches_frame cfg b _ _ (checked_latches cfg inp b s)). reflexivity.
Qed.

Lemma isr_block_eq b s :
  isr_block cfg inp b s = isr_finish cfg inp b (isr_steps cfg b (isr_endstops cfg inp b s)).
Proof. reflexivity. Qed.

(** Once the endstop check has put [step_events_completed] at the end of the
    block, the tracer takes one more step event and stops. *)
Lemma isr_steps_forced b s :
  0 <= step_event_count b < 2 ^ 32 - 1 ->
  step_events_completed s = step_event_count b ->
  step_event_count b <= step_events_completed (isr_steps cfg b s) <= step_event_count b + 1.
Proof.
  intros HN Hs. unfold isr_steps. destruct (ENABLE_HIGH_SPEED_STEPPING cfg).
  - destruct (Z.to_nat (step_loops s)) as [|n]; cbn [step_loop]; [lia|]. cbv zeta.
    rewrite step_events_completed_step_iteration, Hs, uint32_small by lia.
    destruct (Z.geb_spec (step_event_count b + 1) (step_event_count b)); [|lia].
    rewrite step_events_completed_step_iteration, Hs, uint32_small by lia. lia.
  - unfold step_event_done. st_simpl.
    change (step_events_completed (step_starts cfg b s))
      with (step_events_completed (forget_tracer (step_starts cfg b s))).
    rewrite forget_tracer_step_starts. st_simpl.
    unfold forget_tracer, forget_outputs. st_simpl.
    rewrite Hs, uint32_small by lia. lia.
Qed.

(** What the endstop check leaves in the endstop variables is what the whole
    invocation leaves there. *)
Lemma endstop_variables_after_check b s :
  endstops_trigsteps (isr_block cfg inp b s) = endstops_trigsteps (isr_endstops cfg inp b s)
  /\ endstop_hit_bits (isr_block cfg inp b s) = endstop_hit_bits (isr_endstops cfg inp b s).
Proof.
  rewrite isr_block_eq.
  pose proof (forget_motion_after_endstops b (isr_endstops cfg inp b s)) as H.
  split.
  - change (endstops_trigsteps
              (forget_motion (isr_finish cfg inp b (isr_steps cfg b (isr_endstops cfg inp b s))))
            = endstops_trigsteps (forget_motion (isr_endstops cfg inp b s))).
    rewrite H. reflexivity.
  - change (endstop_hit_bits
              (forget_motion (isr_finish cfg inp b (isr_steps cfg b (isr_endstops cfg inp b s))))
            = endstop_hit_bits (forget_motion (isr_endstops cfg inp b s))).
    rewrite H. reflexivity.
Qed.

Lemma block_buffer_after_check b s :
  block_buffer (isr_steps cfg b (isr_endstops cfg inp b s)) = block_buffer s.
Proof.
  transitivity (block_buffer (isr_endstops cfg inp b s)).
  - change (block_buffer (forget_ticks (isr_steps cfg b (isr_endstops cfg inp b s)))
            = block_buffer (forget_ticks (isr_endstops cfg inp b s))).
    rewrite forget_ticks_isr_steps. reflexivity.
  - unfold isr_endstops. destruct (check_endstops s); [|reflexivity].
    rewrite check_endstops_phase_eq. st_simpl.
    pose proof (latches_frame cfg b _ _ (checked_latches cfg inp b s)) as H.
    change (block_buffer (forget_latch (fst (checked cfg inp b s)))
            = block_buffer (forget_latch s)).
    rewrite H. reflexivity.
Qed.

End Interrupt.



(** ** The bits of [endstop_hit_bits] *)

Section HitBits.
Variable cfg : Config.

(** The dual-endstop branch latches [Z_MIN] whenever the first switch is
    confirmed (for [Z_MAX] as for [Z_MIN]). *)
Lemma endstops_Z_dual_latches_Z_MIN inp b e e2 sc :
  endstop_bits_fit cfg = true ->
  Z_DUAL_ENDSTOPS cfg = true ->
  e = Z_MIN \/ e = Z_MAX ->
  endstop_bit cfg e <> endstop_bit cfg e2 ->
  confirmed cfg inp (fst sc) e = true ->
  steps b Z_AXIS > 0 ->
  TEST (endstop_hit_bits (fst (endstops_Z_dual cfg inp b e e2 sc))) (endstop_bit cfg Z_MIN)
  = true.
Proof.
  intros Hfit Hdual He Hne Hc Hs. destruct sc as [s bits]. st_simpl.
  assert (Hw : 0 <= endstop_bit cfg e < 16).
  { destruct (fit_bits cfg e Hfit) as [H _]; [destruct He; subst; discriminate..|].
    rewrite Hdual in H. exact H. }
  assert (Hmin : 0 <= endstop_bit cfg Z_MIN < 8) by (apply fit_latchable; simpl; auto).
  unfold endstops_Z_dual. cbv zeta. rewrite !z_test_value.
  match goal with
  | |- context [TEST_ENDSTOP cfg s ?B e] =>
      assert (Hq : TEST_ENDSTOP cfg s B e = true)
  end.
  { unfold confirmed in Hc. apply andb_prop in Hc. destruct Hc as [Hc1 Hc2].
    unfold TEST_ENDSTOP. st_simpl. rewrite Hc2, andb_true_r.
    apply Z.eqb_neq in Hne.
    destruct (HAS_ENDSTOP cfg e2).
    - rewrite TEST_SET_ENDSTOP_BIT, Hne, TEST_SET_ENDSTOP_BIT, Z.eqb_refl, Hc1, Hdual by lia.
      destruct (Z.ltb_spec (endstop_bit cfg e) 16); [reflexivity | lia].
    - rewrite TEST_COPY_BIT, Hne, TEST_SET_ENDSTOP_BIT, Z.eqb_refl, Hc1, Hdual by lia.
      destruct (Z.ltb_spec (endstop_bit cfg e) 16); [reflexivity | lia]. }
  rewrite Hq.
  assert (Hh : TEST (endstop_hit_bits (hit cfg Z_MIN (record_trigsteps Z_AXIS s)))
                 (endstop_bit cfg Z_MIN) = true).
  { rewrite TEST_hit, Z.eqb_refl.
    destruct Hmin as [Hlo Hhi]. apply Z.leb_le in Hlo. apply Z.ltb_lt in Hhi.
    rewrite Hlo, Hhi. cbn [andb]. apply orb_true_r. }
  destruct (Z.gtb_spec (steps b Z_AXIS) 0); [|lia].
  match goal with
  | |- context [if TEST_ENDSTOP cfg s ?B e2 then _ else _] =>
      destruct (TEST_ENDSTOP cfg s B e2)
  end; cbn [Z.eqb negb andb Pos.eqb]; cases; st_simpl; exact Hh.
Qed.

(** One invocation adds nothing to [endstop_hit_bits] but the four bits. *)
Lemma ISR_hit_only inp s i :
  TEST (endstop_hit_bits (HAL_STEP_TIMER_ISR cfg inp s)) i = true ->
  TEST (endstop_hit_bits s) i = true
  \/ In i (map (endstop_bit cfg) [X_MIN; Y_MIN; Z_MIN; Z_PROBE]).
Proof.
  unfold HAL_STEP_TIMER_ISR.
  destruct (negb (cleaning_buffer_counter s =? 0)).
  { change (endstop_hit_bits (isr_cleaning cfg inp s))
      with (endstop_hit_bits (forget_motion (isr_cleaning cfg inp s))).
    rewrite forget_motion_isr_cleaning. auto. }
  pose proof (forget_motion_acquire _ _ (forget_acquire_isr_acquire cfg inp s)) as Ha.
  destruct (isr_acquire cfg inp s) as [s1 returned]. cbn [fst] in Ha.
  assert (Hh : endstop_hit_bits s1 = endstop_hit_bits s).
  { change (endstop_hit_bits (forget_motion s1) = endstop_hit_bits (forget_motion s)).
    rewrite Ha. reflexivity. }
  destruct returned; [rewrite Hh; auto|].
  destruct (current_block s1) as [b|]; [|rewrite Hh; auto].
  rewrite (proj2 (endstop_variables_after_check cfg inp b s1)).
  unfold isr_endstops. destruct (check_endstops s1); [|rewrite Hh; auto].
  rewrite check_endstops_phase_eq. st_simpl. intros H.
  apply (latches_hit_only cfg b s1 _ (checked_latches cfg inp b s1)) in H.
  rewrite Hh in H. exact H.
Qed.

Lemma run_hit_only inps : forall s i,
  TEST (endstop_hit_bits (run cfg inps s)) i = true ->
  TEST (endstop_hit_bits s) i = true
  \/ In i (map (endstop_bit cfg) [X_MIN; Y_MIN; Z_MIN; Z_PROBE]).
Proof.
  induction inps as [|inp rest IH]; intros s i H; cbn [run] in H; [auto|].
  apply IH in H. destruct H as [H|H]; [|auto].
  apply ISR_hit_only in H. exact H.
Qed.

Lemma MAX_not_latchable e :
  MAX_bits_apart cfg = true -> is_MAX e = true ->
  ~ In (endstop_bit cfg e) (map (endstop_bit cfg) [X_MIN; Y_MIN; Z_MIN; Z_PROBE]).
Proof.
  unfold MAX_bits_apart. cbn [forallb map In]. intros H He Hin.
  repeat match goal with
         | H : _ && _ = true |- _ => apply andb_prop in H; destruct H
         | H : negb _ = true |- _ => apply negb_true_iff, Z.eqb_neq in H
         end.
  destruct e; try discriminate He;
    repeat match goal with
           | H : _ \/ _ |- _ => destruct H
           end; try contradiction; try congruence.
Qed.

(** A confirmed trigger of an endstop checked through [UPDATE_ENDSTOP] has
    the MIN bit of its axis latched when the handler returns. *)
Lemma ISR_latches_MIN inp b s e :
  endstop_bits_fit cfg = true ->
  cleaning_buffer_counter s = 0 -> current_block s = Some b -> check_endstops s = true ->
  gated cfg b s e = true -> confirmed cfg inp s e = true -> steps b (endstop_axis e) > 0 ->
  TEST (endstop_hit_bits (HAL_STEP_TIMER_ISR cfg inp s)) (endstop_bit cfg (endstop_MIN e))
  = true.
Proof.
  intros Hfit Hc Hb Hk Hg Hconf Hst.
  rewrite (isr_running cfg inp b s Hc Hb).
  rewrite (proj2 (endstop_variables_after_check cfg inp b s)).
  unfold isr_endstops. rewrite Hk, check_endstops_phase_eq.
  exact (proj1 (proj2 (checked_latched cfg inp b e s Hfit Hg Hconf Hst))).
Qed.

(** The same for the Z_MAX switch of a dual-endstop build, on a block that
    moves Z upwards. *)
Lemma ISR_dual_Z_MAX_latches_Z_MIN inp b s :
  endstop_bits_fit cfg = true ->
  Z_DUAL_ENDSTOPS cfg = true -> HAS_ENDSTOP cfg Z_MAX = true ->
  endstop_bit cfg Z_MAX <> endstop_bit cfg Z2_MAX ->
  cleaning_buffer_counter s = 0 -> current_block s = Some b -> check_endstops s = true ->
  TEST (out_bits s) (axis_bit cfg Z_AXIS) = false ->
  confirmed cfg inp s Z_MAX = true -> steps b Z_AXIS > 0 ->
  TEST (endstop_hit_bits (HAL_STEP_TIMER_ISR cfg inp s)) (endstop_bit cfg Z_MIN) = true.
Proof.
  intros Hfit Hdual Hhas Hne Hc Hb Hk Hout Hconf Hst.
  rewrite (isr_running cfg inp b s Hc Hb).
  rewrite (proj2 (endstop_variables_after_check cfg inp b s)).
  unfold isr_endstops. rewrite Hk, check_endstops_phase_eq.
  change (TEST (endstop_hit_bits (fst (checked cfg inp b s))) (endstop_bit cfg Z_MIN) = true).
  pose proof (endstops_X_latches cfg inp b s (s, 0) (latches_refl cfg b s)) as LX.
  pose proof (endstops_Y_latches cfg inp b s _ LX) as LY.
  unfold checked.
  set (sy := endstops_Y cfg inp b (endstops_X cfg inp b (s, 0))) in *.
  assert (Hmin : 0 <= endstop_bit cfg Z_MIN < 8) by (apply fit_latchable; simpl; auto).
  unfold endstops_Z. cbv zeta.
  rewrite (latches_out_bits cfg b s _ LY), Hout, Hhas, Hdual.
  apply (latches_hit_mono cfg b (fst (endstops_Z_dual cfg inp b Z_MAX Z2_MAX sy)) _
           (endstops_Z_probe_latches cfg inp b _ _ (latches_refl cfg b _))
           (endstop_bit cfg Z_MIN) (proj2 Hmin)).
  apply endstops_Z_dual_latches_Z_MIN; auto.
  unfold confirmed in *. rewrite (latches_old_endstop_bits cfg b s _ LY). exact Hconf.
Qed.

End HitBits.

(** C10 — a confirmed MAX trigger handled by [UPDATE_ENDSTOP] (X_MAX, Y_MAX,
    Z_MAX without dual endstops) and the dual-Z [Z_MAX] branch leave the MIN
    bit of the axis set in [endstop_hit_bits] when the handler returns, and
    no run of the interrupt ever sets a MAX bit there: only the [X_MIN],
    [Y_MIN], [Z_MIN] and [Z_PROBE] bits are added. *)
Theorem MAX_trigger_latches_MIN_bit (cfg : Config) :
  endstop_bits_fit cfg = true ->
  MAX_bits_apart cfg = true ->
  (forall inp b s e,
     e = X_MAX \/ e = Y_MAX \/ e = Z_MAX ->
     cleaning_buffer_counter s = 0 -> current_block s = Some b -> check_endstops s = true ->
     gated cfg b s e = true ->
     confirmed cfg inp s e = true ->
     steps b (endstop_axis e) > 0 ->
     TEST (endstop_hit_bits (HAL_STEP_TIMER_ISR cfg inp s))
          (endstop_bit cfg (endstop_MIN e)) = true)
  /\
  (forall inp b s,
     Z_DUAL_ENDSTOPS cfg = true -> HAS_ENDSTOP cfg Z_MAX = true ->
     endstop_bit cfg Z_MAX <> endstop_bit cfg Z2_MAX ->
     cleaning_buffer_counter s = 0 -> current_block s = Some b -> check_endstops s = true ->
     TEST (out_bits s) (axis_bit cfg Z_AXIS) = false ->
     confirmed cfg inp s Z_MAX = true ->
     steps b Z_AXIS > 0 ->
     TEST (endstop_hit_bits (HAL_STEP_TIMER_ISR cfg inp s)) (endstop_bit cfg Z_MIN) = true)
  /\
  (forall inp b e sc,
     e = X_MAX \/ e = Y_MAX \/ e = Z_MAX ->
     confirmed cfg inp (fst sc) e = true ->
     steps b (endstop_axis e) > 0 ->
     TEST (endstop_hit_bits (fst (UPDATE_ENDSTOP cfg inp b e sc)))
          (endstop_bit cfg (endstop_MIN e)) = true)
  /\
  (forall inp b sc,
     Z_DUAL_ENDSTOPS cfg = true ->
     endstop_bit cfg Z_MAX <> endstop_bit cfg Z2_MAX ->
     confirmed cfg inp (fst sc) Z_MAX = true ->
     steps b Z_AXIS > 0 ->
     TEST (endstop_hit_bits (fst (endstops_Z_dual cfg inp b Z_MAX Z2_MAX sc)))
          (endstop_bit cfg Z_MIN) = true)
  /\
  (forall inps s i,
     TEST (endstop_hit_bits (run cfg inps s)) i = true ->
     TEST (endstop_hit_bits s) i = true
     \/ In i (map (endstop_bit cfg) [X_MIN; Y_MIN; Z_MIN; Z_PROBE]))
  /\
  (forall inps s e,
     is_MAX e = true ->
     TEST (endstop_hit_bits s) (endstop_bit cfg e) = false ->
     TEST (endstop_hit_bits (run cfg inps s)) (endstop_bit cfg e) = false).
Proof.
  intros Hfit Hapart. split; [|split; [|split; [|split; [|split]]]].
  - intros inp b s e _ Hc Hb Hk Hg Hconf Hst.
    apply (ISR_latches_MIN cfg inp b s e Hfit Hc Hb Hk Hg Hconf Hst).
  - intros inp b s Hdual Hhas Hne Hc Hb Hk Hout Hconf Hst.
    apply (ISR_dual_Z_MAX_latches_Z_MIN cfg inp b s Hfit Hdual Hhas Hne Hc Hb Hk Hout Hconf Hst).
  - intros inp b e [s bits] He Hc Hs.
    assert (HZ2 : e <> Z2_MIN /\ e <> Z2_MAX)
      by (split; intros ->; destruct He as [?|[?|?]]; discriminate).
    destruct (fit_bits cfg e Hfit (proj1 HZ2) (proj2 HZ2)) as [Hw Hmin].
    apply (UPDATE_ENDSTOP_latched cfg inp b e s s bits Hw Hmin (latches_refl cfg b s) Hc Hs).
  - intros inp b sc Hdual Hne Hc Hs.
    apply endstops_Z_dual_latches_Z_MIN; auto.
  - intros inps s i. apply run_hit_only.
  - intros inps s e He H0.
    apply not_true_is_false. intros H1.
    apply run_hit_only in H1. destruct H1 as [H1|H1].
    + congruence.
    + exact (MAX_not_latchable cfg e Hapart He H1).
Qed.

(** A block moving X upwards whose X_MAX switch, closed one sample ago, is
    confirmed in this interrupt: the X_MIN bit is latched, the X_MAX bit is
    not. *)
Lemma MAX_trigger_latches_MIN_bit_witness :
  TEST (endstop_hit_bits (HAL_STEP_TIMER_ISR cartesian x_max_closed x_max_seen))
       (endstop_bit cartesian (endstop_MIN X_MAX)) = true
  /\ TEST (endstop_hit_bits (run cartesian [x_max_closed; quiet_input] x_max_seen))
          (endstop_bit cartesian X_MAX) = false.
Proof.
  destruct (MAX_trigger_latches_MIN_bit cartesian) as (H1 & _ & _ & _ & _ & H6);
    [vm_compute; reflexivity..|].
  split.
  - apply (H1 x_max_closed (set_busy true x_forward_block) x_max_seen X_MAX);
      vm_compute; auto; easy.
  - apply H6; vm_compute; reflexivity.
Defined.

(** ** The dual-Z endstop test *)

(** C3 — the code at the failing input: homing Z downwards with both the Z
    and the Z2 switch confirmed, [z_test] is 4, not [0x3]; the hit is latched
    but the block is not ended (3 of its 100 step events are done and it is
    still the current block).  Off homing, the Z2 switch alone latches
    nothing and ends nothing. *)
Theorem dual_z_homing_both_latched_continues :
  let before := run dual_z_build [quiet_input; both_z_min_closed] z_homing in
  let after := HAL_STEP_TIMER_ISR dual_z_build both_z_min_closed before in
  let alone := run dual_z_build [quiet_input; z2_min_closed; z2_min_closed] z_descending in
  confirmed dual_z_build both_z_min_closed before Z_MIN = true
  /\ confirmed dual_z_build both_z_min_closed before Z2_MIN = true
  /\ z_test dual_z_build before
       (SET_ENDSTOP_BIT dual_z_build both_z_min_closed Z2_MIN
          (SET_ENDSTOP_BIT dual_z_build both_z_min_closed Z_MIN 0)) Z_MIN Z2_MIN = 4
  /\ TEST (endstop_hit_bits after) (endstop_bit dual_z_build Z_MIN) = true
  /\ option_map step_event_count (current_block after) = Some 100
  /\ step_events_completed after = 3
  /\ endstop_hit_bits alone = 0
  /\ option_map step_event_count (current_block alone) = Some 100
  /\ step_events_completed alone = 3.
Proof. vm_compute. repeat split; reflexivity. Qed.

(** ** Step edges *)

Section Edges.
Variable cfg : Config.

Lemma extends_same P s s' : trace s' = trace s -> extends P s s'.
Proof. intros H. exists []. rewrite H, app_nil_r. split; reflexivity. Qed.

Lemma extends_refl P s : extends P s s.
Proof. apply extends_same. reflexivity. Qed.

Lemma extends_trans P s1 s2 s3 : extends P s1 s2 -> extends P s2 s3 -> extends P s1 s3.
Proof.
  intros (l1 & E1 & H1) (l2 & E2 & H2). exists (l1 ++ l2).
  rewrite E2, E1, app_assoc, forallb_app, H1, H2. split; reflexivity.
Qed.

Lemma extends_weaken (P Q : event -> bool) s s' :
  (forall e, P e = true -> Q e = true) -> extends P s s' -> extends Q s s'.
Proof.
  intros HPQ (l & E & H). exists l. split; [assumption|].
  rewrite forallb_forall in *. auto.
Qed.

Lemma extends_emit (P : event -> bool) e s : P e = true -> extends P s (emit e s).
Proof. intros H. exists [e]. cbn [forallb]. rewrite H. split; reflexivity. Qed.

Lemma extends_STEP_WRITE (P : event -> bool) m v s :
  P (StepWrite m v) = true -> extends P s (STEP_WRITE m v s).
Proof. intros H. exists [StepWrite m v]. cbn [forallb]. rewrite H. split; reflexivity. Qed.

Lemma extends_DIR_WRITE (P : event -> bool) m v s :
  P (DirWrite m v) = true -> extends P s (DIR_WRITE m v s).
Proof. intros H. exists [DirWrite m v]. cbn [forallb]. rewrite H. split; reflexivity. Qed.

Lemma no_step_not_fall e : no_step e = true -> not_fall cfg e = true.
Proof. destruct e; try reflexivity. discriminate. Qed.

Lemma no_step_not_rise e : no_step e = true -> not_rise cfg e = true.
Proof. destruct e; try reflexivity. discriminate. Qed.

(** Writing the active level is a rise and no fall; the idle level the
    other way round. *)
Lemma active_not_fall m :
  not_fall cfg (StepWrite m (negb (INVERT_STEP_PIN cfg (motor_axis m)))) = true.
Proof. unfold not_fall, is_fall. destruct (INVERT_STEP_PIN cfg (motor_axis m)); reflexivity. Qed.

Lemma idle_not_rise m :
  not_rise cfg (StepWrite m (INVERT_STEP_PIN cfg (motor_axis m))) = true.
Proof. unfold not_rise, is_rise. destruct (INVERT_STEP_PIN cfg (motor_axis m)); reflexivity. Qed.

(** [APPLY_STEP a v] writes [v] to motors of axis [a] only. *)
Lemma extends_APPLY_STEP (P : event -> bool) a v q s :
  (forall m, motor_axis m = a -> P (StepWrite m v) = true) ->
  extends P s (APPLY_STEP cfg a v q s).
Proof.
  intros H.
  destruct a; unfold APPLY_STEP, X_APPLY_STEP, Y_APPLY_STEP, Z_APPLY_STEP, E_APPLY_STEP,
    Z_guarded_step; cases;
    repeat first [ apply extends_refl
                 | eapply extends_trans; [|apply extends_STEP_WRITE; apply H; reflexivity] ].
Qed.

Lemma extends_STEP_START b a s : extends (not_fall cfg) s (STEP_START cfg b a s).
Proof.
  unfold STEP_START. cbv zeta.
  match goal with |- context [if ?c then _ else _] => destruct c end;
    [|apply extends_same; reflexivity].
  eapply extends_trans; [|apply extends_same; reflexivity].
  eapply extends_trans; [apply extends_same|apply extends_APPLY_STEP].
  - reflexivity.
  - intros m <-. apply active_not_fall.
Qed.

Lemma extends_STEP_END a s : extends (not_rise cfg) s (STEP_END cfg a s).
Proof. unfold STEP_END. apply extends_APPLY_STEP. intros m <-. apply idle_not_rise. Qed.

Lemma extends_step_starts b s : extends (not_fall cfg) s (step_starts cfg b s).
Proof.
  unfold step_starts. cbv zeta.
  destruct (ADVANCE cfg);
    repeat (eapply extends_trans; [|apply extends_STEP_START]); apply extends_refl.
Qed.

Lemma extends_step_ends s : extends (not_rise cfg) s (step_ends cfg s).
Proof.
  unfold step_ends. cbv zeta.
  destruct (ADVANCE cfg);
    repeat (eapply extends_trans; [|apply extends_STEP_END]); apply extends_refl.
Qed.

Lemma new_events_extends s s' l : trace s' = trace s ++ l -> new_events s s' = l.
Proof.
  intros H. unfold new_events. rewrite H.
  rewrite skipn_app, skipn_all, Nat.sub_diag. reflexivity.
Qed.

Lemma rises_before_falls_no_rise l :
  forallb (not_rise cfg) l = true -> rises_before_falls cfg l = true.
Proof.
  induction l as [|e l IH]; [reflexivity|]. cbn [forallb rises_before_falls]. intros H.
  apply andb_prop in H. destruct H as [_ H].
  destruct (is_fall cfg e); [exact H | apply IH, H].
Qed.

Lemma rises_before_falls_app l1 l2 :
  forallb (not_fall cfg) l1 = true -> forallb (not_rise cfg) l2 = true ->
  rises_before_falls cfg (l1 ++ l2) = true.
Proof.
  induction l1 as [|e l1 IH]; cbn [app forallb rises_before_falls]; intros H1 H2.
  - apply rises_before_falls_no_rise, H2.
  - apply andb_prop in H1. destruct H1 as [He H1]. unfold not_fall in He.
    apply negb_true_iff in He. rewrite He. apply IH; assumption.
Qed.

(** Rises first, falls after: the shape of one well-ordered stretch. *)
Lemma rises_then_falls s1 s2 s3 :
  extends (not_fall cfg) s1 s2 -> extends (not_rise cfg) s2 s3 ->
  rises_before_falls cfg (new_events s1 s3) = true.
Proof.
  intros (l1 & E1 & H1) (l2 & E2 & H2).
  rewrite (new_events_extends s1 s3 (l1 ++ l2)) by (rewrite E2, E1, app_assoc; reflexivity).
  apply rises_before_falls_app; assumption.
Qed.

Lemma trace_advance_tick b s : trace (advance_tick cfg b s) = trace s.
Proof. unfold advance_tick. cbv zeta. cases; reflexivity. Qed.

Lemma trace_trapezoid_update b s : trace (snd (trapezoid_update cfg b s)) = trace s.
Proof.
  change (trace (forget_rates (snd (trapezoid_update cfg b s))) = trace (forget_rates s)).
  rewrite forget_rates_update. reflexivity.
Qed.

Lemma trace_isr_endstops inp b s : trace (isr_endstops cfg inp b s) = trace s.
Proof.
  unfold isr_endstops. destruct (check_endstops s); [|reflexivity].
  rewrite check_endstops_phase_eq. st_simpl.
  change (trace (forget_latch (fst (checked cfg inp b s))) = trace (forget_latch s)).
  rewrite (latches_frame cfg b _ _ (checked_latches cfg inp b s)). reflexivity.
Qed.

(** One iteration of the step loop: rises, then falls. *)
Lemma step_iteration_rises_then_falls b s :
  exists mid, extends (not_fall cfg) s mid
              /\ extends (not_rise cfg) mid (step_iteration cfg b s).
Proof.
  unfold step_iteration. cbv zeta.
  exists (step_starts cfg b (if ADVANCE cfg then advance_tick cfg b s else s)). split.
  - eapply extends_trans; [|apply extends_step_starts].
    apply extends_same. destruct (ADVANCE cfg); [apply trace_advance_tick | reflexivity].
  - eapply extends_trans; [apply extends_step_ends|].
    apply extends_same. reflexivity.
Qed.

Lemma extends_HAL_timer_stepper_count c inp s :
  extends no_step s (HAL_timer_stepper_count c inp s).
Proof.
  unfold HAL_timer_stepper_count. cbv zeta.
  eapply extends_trans; [|apply extends_emit; reflexivity]. apply extends_same. reflexivity.
Qed.

Lemma extends_plan_discard_current_block s :
  extends no_step s (plan_discard_current_block s).
Proof.
  unfold plan_discard_current_block.
  eapply extends_trans; [|apply extends_emit; reflexivity]. apply extends_same. reflexivity.
Qed.

Lemma extends_APPLY_DIR v q s :
  extends no_step s (X_APPLY_DIR cfg v q s)
  /\ extends no_step s (Y_APPLY_DIR cfg v q s)
  /\ extends no_step s (Z_APPLY_DIR cfg v q s).
Proof.
  unfold X_APPLY_DIR, Y_APPLY_DIR, Z_APPLY_DIR. repeat split; cases;
    repeat first [ apply extends_refl
                 | eapply extends_trans; [|apply extends_DIR_WRITE; reflexivity] ].
Qed.

Lemma extends_latch_direction a f s :
  (forall v q s, extends no_step s (f v q s)) ->
  extends no_step s (latch_direction cfg a f s).
Proof.
  intros Hf. unfold latch_direction. cases;
    (eapply extends_trans; [apply Hf | apply extends_same; reflexivity]).
Qed.

Lemma extends_set_stepper_direction s : extends no_step s (set_stepper_direction cfg s).
Proof.
  unfold set_stepper_direction. cbv zeta.
  assert (HE : forall s, extends no_step s (latch_e_direction cfg s)).
  { intros s'. unfold latch_e_direction, REV_E_DIR, NORM_E_DIR. cases;
      (eapply extends_trans; [apply extends_DIR_WRITE; reflexivity
                             | apply extends_same; reflexivity]). }
  assert (HX : forall s, extends no_step s (latch_direction cfg X_AXIS (X_APPLY_DIR cfg) s))
    by (intros; apply extends_latch_direction; intros; apply extends_APPLY_DIR).
  assert (HY : forall s, extends no_step s (latch_direction cfg Y_AXIS (Y_APPLY_DIR cfg) s))
    by (intros; apply extends_latch_direction; intros; apply extends_APPLY_DIR).
  assert (HZ : forall s, extends no_step s (latch_direction cfg Z_AXIS (Z_APPLY_DIR cfg) s))
    by (intros; apply extends_latch_direction; intros; apply extends_APPLY_DIR).
  destruct (ADVANCE cfg).
  - eapply extends_trans; [|apply HZ]. eapply extends_trans; [|apply HY]. apply HX.
  - eapply extends_trans; [|apply HE].
    eapply extends_trans; [|apply HZ]. eapply extends_trans; [|apply HY]. apply HX.
Qed.

Lemma trace_trapezoid_generator_reset b s :
  trace (trapezoid_generator_reset cfg b s)
  = trace (if negb (direction_bits b =? out_bits s)
           then set_stepper_direction cfg (set_out_bits (direction_bits b) s)
           else s).
Proof.
  unfold trapezoid_generator_reset, advance_e_steps. cbv zeta. rewrite !calc_timer_eq.
  destruct (negb (direction_bits b =? out_bits s)), (ADVANCE cfg); reflexivity.
Qed.

Lemma extends_trapezoid_generator_reset b s :
  extends no_step s (trapezoid_generator_reset cfg b s).
Proof.
  assert (H : extends no_step s
                (if negb (direction_bits b =? out_bits s)
                 then set_stepper_direction cfg (set_out_bits (direction_bits b) s)
                 else s)).
  { destruct (negb (direction_bits b =? out_bits s)); [|apply extends_refl].
    eapply extends_trans; [apply extends_same|apply extends_set_stepper_direction].
    reflexivity. }
  eapply extends_trans; [exact H|].
  apply extends_same, trace_trapezoid_generator_reset.
Qed.

Lemma extends_isr_acquire inp s : extends no_step s (fst (isr_acquire cfg inp s)).
Proof.
  destruct (current_block s) as [b|] eqn:Hb.
  { rewrite (isr_acquire_busy cfg inp b s Hb). apply extends_refl. }
  destruct (block_buffer s) as [|b0 rest] eqn:Hq.
  { rewrite (isr_acquire_empty cfg inp s Hb Hq). apply extends_HAL_timer_stepper_count. }
  rewrite (isr_acquire_fresh cfg inp b0 rest s Hb Hq). cbv zeta.
  pose proof (extends_trapezoid_generator_reset (set_busy true b0)
                (set_current_block (Some (set_busy true b0))
                   (set_block_buffer (set_busy true b0 :: rest) s))) as HR.
  remember (trapezoid_generator_reset cfg (set_busy true b0)
              (set_current_block (Some (set_busy true b0))
                 (set_block_buffer (set_busy true b0 :: rest) s))) as s1 eqn:E.
  clear E.
  assert (H1 : extends no_step s s1).
  { eapply extends_trans; [apply extends_same|exact HR]. reflexivity. }
  cases; cbn [fst].
  - eapply extends_trans; [|apply extends_emit; reflexivity].
    eapply extends_trans; [|apply extends_emit; reflexivity].
    eapply extends_trans; [exact H1|apply extends_same; reflexivity].
  - eapply extends_trans; [exact H1|apply extends_same; reflexivity].
Qed.

Lemma extends_isr_cleaning inp s : extends no_step s (isr_cleaning cfg inp s).
Proof.
  unfold isr_cleaning. cbv zeta.
  eapply extends_trans; [|apply extends_HAL_timer_stepper_count].
  eapply extends_trans; [|apply extends_same; reflexivity].
  eapply extends_trans; [|apply extends_plan_discard_current_block].
  apply extends_same. reflexivity.
Qed.

(** The tail of the invocation only lowers step pins. *)
Lemma extends_isr_finish inp b s : extends (not_rise cfg) s (isr_finish cfg inp b s).
Proof.
  rewrite isr_finish_eq. cbv zeta.
  assert (H1 : extends (not_rise cfg) s
                 (if ENABLE_HIGH_SPEED_STEPPING cfg
                  then snd (trapezoid_update cfg b s)
                  else step_ends cfg (snd (trapezoid_update cfg b s)))).
  { destruct (ENABLE_HIGH_SPEED_STEPPING cfg).
    - apply extends_same, trace_trapezoid_update.
    - eapply extends_trans; [|apply extends_step_ends].
      apply extends_same, trace_trapezoid_update. }
  assert (H2 : forall c x, extends (not_rise cfg) x (HAL_timer_stepper_count c inp x)).
  { intros. eapply extends_weaken; [apply no_step_not_rise|].
    apply extends_HAL_timer_stepper_count. }
  destruct (step_events_completed s >=? step_event_count b).
  - eapply extends_trans;
      [|eapply extends_weaken; [apply no_step_not_rise
                               |apply extends_plan_discard_current_block]].
    eapply extends_trans; [|apply extends_same; reflexivity].
    eapply extends_trans; [exact H1|apply H2].
  - eapply extends_trans; [exact H1|apply H2].
Qed.

(** The tracer part of a block's invocation, when the loop runs at most once. *)
Lemma isr_steps_rises_then_falls b s :
  ENABLE_HIGH_SPEED_STEPPING cfg = false \/ step_loops s <= 1 ->
  exists mid, extends (not_fall cfg) s mid
              /\ extends (not_rise cfg) mid (isr_steps cfg b s).
Proof.
  intros H. unfold isr_steps. destruct (ENABLE_HIGH_SPEED_STEPPING cfg) eqn:HS.
  - destruct H as [H|H]; [discriminate|].
    destruct (Z.to_nat (step_loops s)) as [|[|n]] eqn:En; [| |lia].
    + exists s. split; apply extends_refl.
    + cbn [step_loop]. cbv zeta.
      destruct (step_iteration_rises_then_falls b s) as (mid & H1 & H2).
      exists mid. split; [exact H1|]. cases; exact H2.
  - exists (step_event_done (step_starts cfg b s)). split; [|apply extends_refl].
    eapply extends_trans; [apply extends_step_starts|apply extends_same; reflexivity].
Qed.

Lemma isr_block_rises_then_falls inp b s :
  ENABLE_HIGH_SPEED_STEPPING cfg = false \/ step_loops s <= 1 ->
  exists mid, extends (not_fall cfg) s mid
              /\ extends (not_rise cfg) mid (isr_block cfg inp b s).
Proof.
  intros H. rewrite isr_block_eq.
  destruct (isr_steps_rises_then_falls b (isr_endstops cfg inp b s)) as (mid & H1 & H2).
  { destruct H as [H|H]; [left; exact H|right].
    change (step_loops (isr_endstops cfg inp b s))
      with (step_loops (forget_check (isr_endstops cfg inp b s))).
    rewrite forget_check_isr_endstops. exact H. }
  exists mid. split.
  - eapply extends_trans; [apply extends_same, trace_isr_endstops|exact H1].
  - eapply extends_trans; [exact H2|apply extends_isr_finish].
Qed.

End Edges.

(** C7 (as amended) — rising step edges precede falling ones within each
    iteration of the step loop; within a whole invocation they do in a build
    without high-speed stepping and, with it, whenever [step_loops] is at
    most 1 when the step loop is reached: its value at entry for a block in
    hand, the value [trapezoid_generator_reset] has just computed for a
    block taken up in this invocation. *)
Theorem rising_edges_precede_falling_edges (cfg : Config) (inp : isr_input) (s : state) :
  (forall b, rises_before_falls cfg (new_events s (step_iteration cfg b s)) = true)
  /\ (ENABLE_HIGH_SPEED_STEPPING cfg = false ->
      rises_before_falls cfg (new_events s (HAL_STEP_TIMER_ISR cfg inp s)) = true)
  /\ (forall b, cleaning_buffer_counter s = 0 -> current_block s = Some b ->
                step_loops s <= 1 ->
      rises_before_falls cfg (new_events s (HAL_STEP_TIMER_ISR cfg inp s)) = true)
  /\ (step_loops (fst (isr_acquire cfg inp s)) <= 1 ->
      rises_before_falls cfg (new_events s (HAL_STEP_TIMER_ISR cfg inp s)) = true).
Proof.
  assert (G : ENABLE_HIGH_SPEED_STEPPING cfg = false
              \/ step_loops (fst (isr_acquire cfg inp s)) <= 1 ->
              rises_before_falls cfg (new_events s (HAL_STEP_TIMER_ISR cfg inp s)) = true).
  { intros K. unfold HAL_STEP_TIMER_ISR.
    destruct (negb (cleaning_buffer_counter s =? 0)).
    { apply (rises_then_falls cfg s s); [apply extends_refl|].
      eapply extends_weaken; [apply no_step_not_rise|apply extends_isr_cleaning]. }
    pose proof (extends_isr_acquire cfg inp s) as Ha.
    revert K Ha. destruct (isr_acquire cfg inp s) as [s1 returned]. cbn [fst].
    intros K Ha.
    assert (Hq : rises_before_falls cfg (new_events s s1) = true).
    { apply (rises_then_falls cfg s s); [apply extends_refl|].
      eapply extends_weaken; [apply no_step_not_rise|exact Ha]. }
    destruct returned; [exact Hq|].
    destruct (current_block s1) as [b|]; [|exact Hq].
    destruct (isr_block_rises_then_falls cfg inp b s1 K) as (mid & H1 & H2).
    apply (rises_then_falls cfg s mid); [|exact H2].
    eapply extends_trans; [|exact H1].
    eapply extends_weaken; [apply no_step_not_fall|exact Ha]. }
  split; [|split; [|split]].
  - intros b. destruct (step_iteration_rises_then_falls cfg b s) as (mid & H1 & H2).
    apply (rises_then_falls cfg s mid _ H1 H2).
  - intros HS. apply G. left. exact HS.
  - intros b Hc Hb Hl. rewrite (isr_running cfg inp b s Hc Hb).
    destruct (isr_block_rises_then_falls cfg inp b s (or_intror Hl)) as (mid & H1 & H2).
    apply (rises_then_falls cfg s mid _ H1 H2).
  - intros Hl. apply G. right. exact Hl.
Qed.

(** C7 as stated fails: with two steps per interrupt the falling edge of the
    first step comes before the rising edge of the second.  ([step_loops] is
    0 when this invocation begins and 2 when it reaches the step loop.) *)
Lemma step_loops_interleave_edges :
  let s := HAL_STEP_TIMER_ISR cartesian_fast quiet_input (enqueue fast_block power_on) in
  step_writes MX (trace s) = [true; false; true; false]
  /\ rises_before_falls cartesian_fast (new_events (enqueue fast_block power_on) s) = false
  /\ step_loops (enqueue fast_block power_on) = 0
  /\ step_loops (fst (isr_acquire cartesian_fast quiet_input (enqueue fast_block power_on)))
     = 2.
Proof. vm_compute. repeat split; reflexivity. Qed.

(** A build without step doubling; and a build with it taking up a block
    slow enough for one step per interrupt. *)
Lemma rising_edges_precede_falling_edges_witness :
  rises_before_falls cartesian
    (new_events (enqueue x_homing_block power_on)
       (HAL_STEP_TIMER_ISR cartesian quiet_input (enqueue x_homing_block power_on)))
  = true
  /\ rises_before_falls cartesian_fast
       (new_events (enqueue x_homing_block power_on)
          (HAL_STEP_TIMER_ISR cartesian_fast quiet_input (enqueue x_homing_block power_on)))
     = true.
Proof.
  split.
  - apply (proj1 (proj2 (rising_edges_precede_falling_edges cartesian quiet_input
                           (enqueue x_homing_block power_on)))).
    reflexivity.
  - apply (proj2 (proj2 (proj2 (rising_edges_precede_falling_edges cartesian_fast quiet_input
                                  (enqueue x_homing_block power_on))))).
    vm_compute. discriminate.
Defined.

(** ** Babystepping *)


Section Babystep.
Variable cfg : Config.

Lemma step_writes_app m l1 l2 : step_writes m (l1 ++ l2) = step_writes m l1 ++ step_writes m l2.
Proof. unfold step_writes. apply flat_map_app. Qed.

Lemma writes_same s s' : trace s' = trace s -> writes (fun _ => []) s s'.
Proof. intros H. exists []. rewrite H, app_nil_r. split; reflexivity. Qed.

Lemma writes_trans w1 w2 s1 s2 s3 :
  writes w1 s1 s2 -> writes w2 s2 s3 -> writes (fun m => w1 m ++ w2 m) s1 s3.
Proof.
  intros (l1 & E1 & H1) (l2 & E2 & H2). exists (l1 ++ l2). split.
  - rewrite E2, E1, app_assoc. reflexivity.
  - intros m. rewrite step_writes_app, H1, H2. reflexivity.
Qed.

Lemma writes_ext w w' s s' : (forall m, w m = w' m) -> writes w s s' -> writes w' s s'.
Proof. intros H (l & E & Hl). exists l. split; [exact E|]. intros m. rewrite Hl. apply H. Qed.

Lemma writes_emit e s : no_step e = true -> writes (fun _ => []) s (emit e s).
Proof.
  intros H. exists [e]. split; [reflexivity|]. intros m.
  destruct e; try reflexivity. discriminate.
Qed.

Lemma writes_DIR_WRITE m v s : writes (fun _ => []) s (DIR_WRITE m v s).
Proof. exists [DirWrite m v]. split; reflexivity. Qed.

Lemma writes_STEP_WRITE m v s :
  writes (fun m' => if Motor_in m' [m] then [v] else []) s (STEP_WRITE m v s).
Proof.
  exists [StepWrite m v]. split; [reflexivity|]. intros m'.
  unfold Motor_in. cbn [step_writes flat_map existsb app].
  destruct m, m'; reflexivity.
Qed.

Lemma writes_new_events w s s' m : writes w s s' -> step_writes m (new_events s s') = w m.
Proof. intros (l & E & H). rewrite (new_events_extends s s' l E). apply H. Qed.

Lemma writes_APPLY_DIR v q s :
  writes (fun _ => []) s (X_APPLY_DIR cfg v q s)
  /\ writes (fun _ => []) s (Y_APPLY_DIR cfg v q s)
  /\ writes (fun _ => []) s (Z_APPLY_DIR cfg v q s).
Proof.
  unfold X_APPLY_DIR, Y_APPLY_DIR, Z_APPLY_DIR. repeat split; cases;
    repeat first [ apply writes_DIR_WRITE
                 | eapply writes_ext;
                   [|eapply writes_trans; [apply writes_DIR_WRITE|apply writes_DIR_WRITE]];
                   reflexivity ].
Qed.

Lemma writes_Z_guarded_step m e towards locked v s :
  writes (fun m' =>
            if Motor_in m'
                 (if negb (TEST (old_endstop_bits s) (endstop_bit cfg e) && towards)
                     && negb locked then [m] else [])
            then [v] else [])
         s (Z_guarded_step cfg m e towards locked v s).
Proof.
  unfold Z_guarded_step.
  destruct (negb (TEST (old_endstop_bits s) (endstop_bit cfg e) && towards) && negb locked).
  - apply writes_STEP_WRITE.
  - apply writes_same. reflexivity.
Qed.

(** Two writes in a row, to the motors of [l1] then of [l2]. *)
Lemma writes_both (l1 l2 : list Motor) v s1 s2 s3 :
  (forall m, Motor_in m l1 && Motor_in m l2 = false) ->
  writes (fun m => if Motor_in m l1 then [v] else []) s1 s2 ->
  writes (fun m => if Motor_in m l2 then [v] else []) s2 s3 ->
  writes (fun m => if Motor_in m (l1 ++ l2) then [v] else []) s1 s3.
Proof.
  intros Hd H1 H2. eapply writes_ext; [|eapply writes_trans; [exact H1|exact H2]].
  intros m. cbv beta. unfold Motor_in in *. rewrite existsb_app.
  specialize (Hd m).
  destruct (existsb (Motor_eqb m) l1), (existsb (Motor_eqb m) l2);
    try reflexivity; discriminate.
Qed.

Lemma writes_APPLY_STEP a v q s :
  writes (fun m => if Motor_in m (step_targets cfg a q s) then [v] else [])
         s (APPLY_STEP cfg a v q s).
Proof.
  destruct a; unfold APPLY_STEP, step_targets, X_APPLY_STEP, Y_APPLY_STEP, Z_APPLY_STEP,
    E_APPLY_STEP.
  - cases; try apply writes_STEP_WRITE.
    apply (writes_both [MX] [MX2] v s (STEP_WRITE MX v s));
      [intros m; destruct m; reflexivity|apply writes_STEP_WRITE..].
  - cases; try apply writes_STEP_WRITE.
    apply (writes_both [MY] [MY2] v s (STEP_WRITE MY v s));
      [intros m; destruct m; reflexivity|apply writes_STEP_WRITE..].
  - destruct (Z_DUAL_STEPPER_DRIVERS cfg); [|apply writes_STEP_WRITE].
    assert (Hboth : writes (fun m => if Motor_in m [MZ; MZ2] then [v] else []) s
                      (STEP_WRITE MZ2 v (STEP_WRITE MZ v s))).
    { apply (writes_both [MZ] [MZ2] v s (STEP_WRITE MZ v s));
        [intros m; destruct m; reflexivity|apply writes_STEP_WRITE..]. }
    destruct (Z_DUAL_ENDSTOPS cfg); [|exact Hboth].
    destruct (performing_homing s); [|exact Hboth].
    cbn [andb]. cbv zeta.
    assert (guarded : forall e e2 towards,
              writes
                (fun m =>
                   if Motor_in m
                        ((if negb (TEST (old_endstop_bits s) (endstop_bit cfg e) && towards)
                             && negb (locked_z_motor s) then [MZ] else [])
                         ++ (if negb (TEST (old_endstop_bits s) (endstop_bit cfg e2) && towards)
                                && negb (locked_z2_motor s) then [MZ2] else []))
                   then [v] else [])
                s
                (Z_guarded_step cfg MZ2 e2 towards (locked_z2_motor s) v
                   (Z_guarded_step cfg MZ e towards (locked_z_motor s) v s))).
    { intros e e2 towards.
      eapply writes_both; [|apply writes_Z_guarded_step|].
      - intros m. cases; destruct m; reflexivity.
      - pose proof (writes_Z_guarded_step MZ2 e2 towards (locked_z2_motor s) v
                      (Z_guarded_step cfg MZ e towards (locked_z_motor s) v s)) as H.
        replace (old_endstop_bits (Z_guarded_step cfg MZ e towards (locked_z_motor s) v s))
          with (old_endstop_bits s) in H
          by (unfold Z_guarded_step; cases; reflexivity).
        exact H. }
    assert (same : forall e towards,
              count_direction (Z_guarded_step cfg MZ e towards (locked_z_motor s) v s)
              = count_direction s
              /\ locked_z2_motor (Z_guarded_step cfg MZ e towards (locked_z_motor s) v s)
                 = locked_z2_motor s)
      by (intros; unfold Z_guarded_step; cases; split; reflexivity).
    destruct (Z_HOME_DIR cfg >? 0).
    + destruct (same Z_MAX (count_direction s Z_AXIS >? 0)) as [E1 E2].
      rewrite E1, E2. apply guarded.
    + destruct (same Z_MIN (count_direction s Z_AXIS <? 0)) as [E1 E2].
      rewrite E1, E2. apply guarded.
  - apply writes_STEP_WRITE.
Qed.
Lemma forget_steps_APPLY_STEP a v q s :
  forget_steps (APPLY_STEP cfg a v q s) = forget_steps s.
Proof.
  destruct a; unfold APPLY_STEP, X_APPLY_STEP, Y_APPLY_STEP, Z_APPLY_STEP, E_APPLY_STEP,
    Z_guarded_step; cases; reflexivity.
Qed.

Lemma dir_pin_APPLY_STEP a v q s : dir_pin (APPLY_STEP cfg a v q s) = dir_pin s.
Proof.
  change (dir_pin (forget_steps (APPLY_STEP cfg a v q s)) = dir_pin (forget_steps s)).
  rewrite forget_steps_APPLY_STEP. reflexivity.
Qed.

Lemma step_targets_outputs a q s s' :
  forget_outputs s = forget_outputs s' -> step_targets cfg a q s = step_targets cfg a q s'.
Proof.
  intros H.
  change (step_targets cfg a q (forget_outputs s) = step_targets cfg a q (forget_outputs s')).
  rewrite H. reflexivity.
Qed.

(** [BABYSTEP_AXIS] for an axis whose macros behave like those of X, Y, Z. *)
Section OneAxis.
Variable a : AxisEnum.
Variable m0 : Motor.
Variable second : list Motor.
Variable AD : bool -> bool -> state -> state.
Hypothesis AD_outputs : forall v q s, forget_outputs (AD v q s) = forget_outputs s.
Hypothesis AD_writes : forall v q s, writes (fun _ => []) s (AD v q s).
Hypothesis AD_first : forall v s, dir_pin (AD v true s) m0 = v.
Hypothesis AD_others : forall v s m,
  Motor_in m second = false -> m <> m0 -> dir_pin (AD v true s) m = dir_pin s m.

Let AS := APPLY_STEP cfg a.

Lemma BABYSTEP_AXIS_outputs INVERT direction s :
  forget_outputs (BABYSTEP_AXIS cfg a m0 AD AS INVERT direction s) = forget_outputs s.
Proof.
  unfold BABYSTEP_AXIS, AS. cbv zeta.
  rewrite AD_outputs, forget_outputs_APPLY_STEP, forget_outputs_emit,
    forget_outputs_APPLY_STEP, AD_outputs.
  reflexivity.
Qed.

Lemma BABYSTEP_AXIS_writes INVERT direction s :
  writes (fun m => if Motor_in m (step_targets cfg a true s)
                   then [negb (INVERT_STEP_PIN cfg a); INVERT_STEP_PIN cfg a] else [])
         s (BABYSTEP_AXIS cfg a m0 AD AS INVERT direction s).
Proof.
  unfold BABYSTEP_AXIS, AS. cbv zeta.
  set (s1 := emit (EnableAxis a) s).
  set (s2 := AD (xorb (xorb (INVERT_DIR cfg a) direction) INVERT) true s1).
  set (s3 := APPLY_STEP cfg a (negb (INVERT_STEP_PIN cfg a)) true s2).
  set (s4 := emit (DelayMicroseconds 2) s3).
  set (s5 := APPLY_STEP cfg a (INVERT_STEP_PIN cfg a) true s4).
  assert (T2 : step_targets cfg a true s2 = step_targets cfg a true s)
    by (apply step_targets_outputs; subst s2 s1; rewrite AD_outputs; reflexivity).
  assert (T4 : step_targets cfg a true s4 = step_targets cfg a true s).
  { rewrite <- T2. apply step_targets_outputs. subst s4 s3.
    rewrite forget_outputs_emit, forget_outputs_APPLY_STEP. reflexivity. }
  pose proof (writes_emit (EnableAxis a) s eq_refl) as W1.
  pose proof (AD_writes (xorb (xorb (INVERT_DIR cfg a) direction) INVERT) true s1) as W2.
  pose proof (writes_APPLY_STEP a (negb (INVERT_STEP_PIN cfg a)) true s2) as W3.
  pose proof (writes_emit (DelayMicroseconds 2) s3 eq_refl) as W4.
  pose proof (writes_APPLY_STEP a (INVERT_STEP_PIN cfg a) true s4) as W5.
  pose proof (AD_writes (dir_pin s1 m0) true s5) as W6.
  rewrite T2 in W3. rewrite T4 in W5.
  fold s1 s2 s3 s4 s5 in W1, W2, W3, W4, W5, W6.
  pose proof (writes_trans _ _ _ _ _
                (writes_trans _ _ _ _ _
                   (writes_trans _ _ _ _ _
                      (writes_trans _ _ _ _ _ (writes_trans _ _ _ _ _ W1 W2) W3) W4) W5) W6)
    as W.
  eapply writes_ext; [|exact W].
  intros m. cbv beta.
  destruct (Motor_in m (step_targets cfg a true s)); reflexivity.
Qed.

Lemma BABYSTEP_AXIS_dir_pin INVERT direction s m :
  Motor_in m second = false ->
  dir_pin (BABYSTEP_AXIS cfg a m0 AD AS INVERT direction s) m = dir_pin s m.
Proof.
  intros Hm. unfold BABYSTEP_AXIS, AS. cbv zeta.
  destruct (Motor_eqb m m0) eqn:E.
  - assert (m = m0) by (destruct m, m0; try discriminate E; reflexivity). subst m.
    rewrite AD_first. reflexivity.
  - assert (Hne : m <> m0) by (intros ->; destruct m0; discriminate E).
    rewrite (AD_others _ _ m Hm Hne).
    rewrite dir_pin_APPLY_STEP.
    change (dir_pin (emit (DelayMicroseconds 2) ?x)) with (dir_pin x).
    rewrite dir_pin_APPLY_STEP.
    rewrite (AD_others _ _ m Hm Hne). reflexivity.
Qed.

End OneAxis.

Lemma dir_pin_DIR_WRITE m v s m' :
  dir_pin (DIR_WRITE m v s) m' = if Motor_eqb m m' then v else dir_pin s m'.
Proof. reflexivity. Qed.

Lemma babystep_count_position axis direction s :
  count_position (babystep cfg axis direction s) = count_position s.
Proof.
  assert (H : forget_outputs (babystep cfg axis direction s) = forget_outputs s).
  { unfold babystep. destruct axis; try reflexivity.
    - apply BABYSTEP_AXIS_outputs. intros; apply forget_outputs_APPLY_DIR.
    - apply BABYSTEP_AXIS_outputs. intros; apply forget_outputs_APPLY_DIR.
    - destruct (DELTA cfg); [reflexivity|].
      apply BABYSTEP_AXIS_outputs. intros; apply forget_outputs_APPLY_DIR. }
  change (count_position (forget_outputs (babystep cfg axis direction s))
          = count_position (forget_outputs s)).
  rewrite H. reflexivity.
Qed.

Lemma babystep_writes axis direction s :
  writes (fun m => if Motor_in m (babystep_targets cfg axis s) then one_pulse cfg m else [])
         s (babystep cfg axis direction s).
Proof.
  unfold babystep, babystep_targets. destruct axis.
  - eapply writes_ext; [|apply BABYSTEP_AXIS_writes].
    + intros m. cbv beta. unfold step_targets, one_pulse. rewrite orb_true_r.
      destruct (DUAL_X_CARRIAGE cfg); destruct m; reflexivity.
    + intros; apply forget_outputs_APPLY_DIR.
    + intros; apply writes_APPLY_DIR.
  - eapply writes_ext; [|apply BABYSTEP_AXIS_writes].
    + intros m. cbv beta. unfold step_targets, one_pulse.
      destruct (Y_DUAL_STEPPER_DRIVERS cfg); destruct m; reflexivity.
    + intros; apply forget_outputs_APPLY_DIR.
    + intros; apply writes_APPLY_DIR.
  - destruct (DELTA cfg).
    + unfold babystep_delta_z, one_pulse, STEP_WRITE, DIR_WRITE. cbv zeta. st_simpl.
      eexists. split.
      * unfold emit. st_simpl. rewrite <- !app_assoc. reflexivity.
      * intros m. destruct m; reflexivity.
    + eapply writes_ext; [|apply BABYSTEP_AXIS_writes].
      * intros m. cbv beta. unfold step_targets, one_pulse. cbv zeta.
        destruct (Z_DUAL_STEPPER_DRIVERS cfg); [|destruct m; reflexivity].
        destruct (Z_DUAL_ENDSTOPS cfg && performing_homing s); [|destruct m; reflexivity].
        destruct (Z_HOME_DIR cfg >? 0);
          repeat match goal with
                 | |- context [if ?c then [?m'] else []] => destruct c
                 end; destruct m; reflexivity.
      * intros; apply forget_outputs_APPLY_DIR.
      * intros; apply writes_APPLY_DIR.
  - apply writes_same. reflexivity.
Qed.

Lemma babystep_dir_pin axis direction s m :
  Motor_in m (babystep_second_dirs cfg axis) = false ->
  dir_pin (babystep cfg axis direction s) m = dir_pin s m.
Proof.
  unfold babystep, babystep_second_dirs. destruct axis; intros Hm.
  - apply (BABYSTEP_AXIS_dir_pin X_AXIS MX (if DUAL_X_CARRIAGE cfg then [MX2] else []));
      [| |exact Hm].
    + intros v s'. unfold X_APPLY_DIR. cbn [orb].
      rewrite orb_true_r. destruct (DUAL_X_CARRIAGE cfg); reflexivity.
    + intros v s' m' H1 H2. unfold X_APPLY_DIR. rewrite orb_true_r.
      destruct (DUAL_X_CARRIAGE cfg); rewrite ?dir_pin_DIR_WRITE;
        destruct m'; try reflexivity; try discriminate H1; contradiction.
  - apply (BABYSTEP_AXIS_dir_pin Y_AXIS MY
             (if Y_DUAL_STEPPER_DRIVERS cfg then [MY2] else [])); [| |exact Hm].
    + intros v s'. unfold Y_APPLY_DIR. destruct (Y_DUAL_STEPPER_DRIVERS cfg); reflexivity.
    + intros v s' m' H1 H2. unfold Y_APPLY_DIR.
      destruct (Y_DUAL_STEPPER_DRIVERS cfg); rewrite ?dir_pin_DIR_WRITE;
        destruct m'; try reflexivity; try discriminate H1; contradiction.
  - destruct (DELTA cfg).
    + unfold babystep_delta_z, STEP_WRITE, DIR_WRITE. cbv zeta. st_simpl.
      unfold upd_motor. destruct m; reflexivity.
    + apply (BABYSTEP_AXIS_dir_pin Z_AXIS MZ
               (if Z_DUAL_STEPPER_DRIVERS cfg then [MZ2] else [])); [| |exact Hm].
      * intros v s'. unfold Z_APPLY_DIR. destruct (Z_DUAL_STEPPER_DRIVERS cfg); reflexivity.
      * intros v s' m' H1 H2. unfold Z_APPLY_DIR.
        destruct (Z_DUAL_STEPPER_DRIVERS cfg); rewrite ?dir_pin_DIR_WRITE;
          destruct m'; try reflexivity; try discriminate H1; contradiction.
  - reflexivity.
Qed.

End Babystep.




(** ** Progress through a block *)

Section Progress.
Variable cfg : Config.

Lemma step_loop_progress b n : forall s,
  0 <= step_events_completed s < step_event_count b ->
  step_event_count b < 2 ^ 32 ->
  step_events_completed s <= step_events_completed (step_loop cfg b n s) <= step_event_count b.
Proof.
  induction n as [|n IH]; intros s Hs HN; cbn [step_loop]; [lia|]. cbv zeta.
  pose proof (step_events_completed_step_iteration cfg b s) as E.
  rewrite uint32_small in E by lia.
  destruct (Z.geb_spec (step_events_completed (step_iteration cfg b s)) (step_event_count b)).
  - lia.
  - specialize (IH (step_iteration cfg b s)). lia.
Qed.

Lemma step_events_completed_step_starts b s :
  step_events_completed (step_starts cfg b s) = step_events_completed s.
Proof.
  change (step_events_completed (forget_tracer (step_starts cfg b s))
          = step_events_completed (forget_tracer s)).
  rewrite forget_tracer_step_starts. reflexivity.
Qed.

(** A running block: the tracer moves [step_events_completed] up, never past
    the end of the block. *)
Lemma isr_steps_progress b s :
  0 <= step_events_completed s < step_event_count b ->
  step_event_count b < 2 ^ 32 ->
  step_events_completed s <= step_events_completed (isr_steps cfg b s) <= step_event_count b.
Proof.
  intros Hs HN. unfold isr_steps. destruct (ENABLE_HIGH_SPEED_STEPPING cfg).
  - apply step_loop_progress; assumption.
  - unfold step_event_done. st_simpl. rewrite step_events_completed_step_starts.
    rewrite uint32_small by lia. lia.
Qed.

Lemma step_events_completed_isr_finish inp b s :
  step_events_completed (isr_finish cfg inp b s) = step_events_completed s.
Proof.
  change (step_events_completed (forget_finish (isr_finish cfg inp b s))
          = step_events_completed (forget_finish s)).
  rewrite forget_finish_isr_finish. reflexivity.
Qed.

Lemma step_events_completed_isr_endstops inp b s :
  step_events_completed (isr_endstops cfg inp b s) = step_events_completed s
  \/ step_events_completed (isr_endstops cfg inp b s) = step_event_count b.
Proof.
  unfold isr_endstops. destruct (check_endstops s); [|auto].
  rewrite check_endstops_phase_eq. st_simpl.
  apply (latches_step_events_completed cfg b s _ (checked_latches cfg inp b s)).
Qed.

Lemma endstop_truncates_running inp b s :
  cleaning_buffer_counter s = 0 -> current_block s = Some b ->
  endstop_truncates cfg inp s
  = negb (step_events_completed (isr_endstops cfg inp b s) =? step_events_completed s).
Proof.
  intros Hc Hb. unfold endstop_truncates.
  rewrite Hc, (isr_acquire_busy cfg inp b s Hb), Hb. reflexivity.
Qed.

Lemma step_events_completed_fresh inp b0 rest s :
  cleaning_buffer_counter s = 0 -> current_block s = None -> block_buffer s = b0 :: rest ->
  step_events_completed (fst (isr_acquire cfg inp s)) = 0.
Proof.
  intros Hc Hb Hq. rewrite (isr_acquire_fresh cfg inp b0 rest s Hb Hq). cbv zeta.
  cases; reflexivity.
Qed.

End Progress.

(** C6 (as amended) — within a block [step_events_completed] starts at 0 and
    never decreases; it stays at or below [step_event_count] in every
    invocation the endstop check does not cut short, and is
    [step_event_count + 1] at most otherwise; the block is released in the
    invocation in which it reaches or passes [step_event_count]. *)
Theorem step_events_completed_progress (cfg : Config) (inp : isr_input) (b : block_t)
    (s : state) :
  cleaning_buffer_counter s = 0 ->
  current_block s = Some b ->
  0 <= step_events_completed s < step_event_count b ->
  step_event_count b < 2 ^ 32 - 1 ->
  let s' := HAL_STEP_TIMER_ISR cfg inp s in
  step_events_completed s <= step_events_completed s' <= step_event_count b + 1
  /\ (endstop_truncates cfg inp s = false -> step_events_completed s' <= step_event_count b)
  /\ (step_events_completed s' >= step_event_count b ->
       current_block s' = None /\ block_buffer s' = tl (block_buffer s))
  /\ (step_events_completed s' < step_event_count b ->
       current_block s' = Some b /\ block_buffer s' = block_buffer s)
  /\ (forall s0 b0 rest,
        cleaning_buffer_counter s0 = 0 -> current_block s0 = None ->
        block_buffer s0 = b0 :: rest ->
        step_events_completed (fst (isr_acquire cfg inp s0)) = 0).
Proof.
  intros Hc Hb Hs HN s'. subst s'.
  rewrite (isr_running cfg inp b s Hc Hb), isr_block_eq.
  rewrite (endstop_truncates_running cfg inp b s Hc Hb).
  rewrite step_events_completed_isr_finish.
  set (s1 := isr_endstops cfg inp b s).
  assert (Hcur : current_block (isr_steps cfg b s1) = Some b).
  { rewrite <- Hb.
    transitivity (current_block s1).
    - change (current_block (forget_ticks (isr_steps cfg b s1))
              = current_block (forget_ticks s1)).
      rewrite forget_ticks_isr_steps. reflexivity.
    - subst s1. change (current_block (forget_check (isr_endstops cfg inp b s))
                        = current_block (forget_check s)).
      rewrite forget_check_isr_endstops. reflexivity. }
  pose proof (block_buffer_after_check cfg inp b s) as Hq. fold s1 in Hq.
  assert (Hrange :
    (step_events_completed s1 = step_events_completed s
     /\ step_events_completed s
        <= step_events_completed (isr_steps cfg b s1) <= step_event_count b)
    \/ (step_events_completed s1 = step_event_count b
        /\ step_event_count b
           <= step_events_completed (isr_steps cfg b s1) <= step_event_count b + 1)).
  { destruct (step_events_completed_isr_endstops cfg inp b s) as [E|E]; fold s1 in E.
    - left. split; [exact E|]. rewrite <- E. apply isr_steps_progress; lia.
    - right. split; [exact E|]. apply isr_steps_forced; lia. }
  repeat split.
  - destruct Hrange as [[_ H]|[_ H]]; lia.
  - destruct Hrange as [[_ H]|[_ H]]; lia.
  - intros Hn. apply negb_false_iff, Z.eqb_eq in Hn.
    destruct Hrange as [[_ H]|[E H]]; [lia|]. rewrite E in Hn. lia.
  - apply isr_finish_release. assumption.
  - rewrite (proj2 (isr_finish_release cfg inp b _ H)), Hq. reflexivity.
  - rewrite (proj1 (isr_finish_keep cfg inp b _ H)). exact Hcur.
  - rewrite (proj2 (isr_finish_keep cfg inp b _ H)). exact Hq.
  - intros s0 b0 rest. apply step_events_completed_fresh.
Qed.

Lemma step_events_completed_progress_witness :
  step_events_completed (HAL_STEP_TIMER_ISR cartesian quiet_input x_homing)
  <= step_event_count x_homing_block.
Proof.
  apply (step_events_completed_progress cartesian quiet_input
           (set_busy true x_homing_block) x_homing); vm_compute; easy.
Defined.

(** C6 as stated fails: the endstop check moves [step_events_completed] to
    [step_event_count] and the tracer still counts one more step event. *)
Lemma endstop_truncation_overshoots :
  option_map step_event_count (current_block x_homing) = Some 20
  /\ step_events_completed (HAL_STEP_TIMER_ISR cartesian x_min_closed x_homing) = 21.
Proof. vm_compute. split; reflexivity. Qed.

(** ** Tracing a block to its end *)

Ltac by_frame E L :=
  match goal with
  | |- ?p ?x = ?p ?y => change (p (E x) = p (E y)); rewrite L; reflexivity
  end.

Section Tracer.
Variable cfg : Config.
Variable b : block_t.

Lemma tracer_APPLY_STEP a v q s :
  counter (APPLY_STEP cfg a v q s) = counter s
  /\ count_position (APPLY_STEP cfg a v q s) = count_position s
  /\ count_direction (APPLY_STEP cfg a v q s) = count_direction s.
Proof.
  repeat split; by_frame forget_outputs (forget_outputs_APPLY_STEP cfg a v q s).
Qed.

Lemma AxisEnum_eqb_eq a a' : AxisEnum_eqb a a' = true <-> a = a'.
Proof. destruct a, a'; split; intros H; try reflexivity; discriminate H. Qed.

Lemma AxisEnum_eqb_refl a : AxisEnum_eqb a a = true.
Proof. destruct a; reflexivity. Qed.

Lemma AxisEnum_eqb_neq a a' : a <> a' -> AxisEnum_eqb a a' = false.
Proof. destruct a, a'; intros H; try reflexivity; contradiction H; reflexivity. Qed.

Lemma STEP_START_direction a s :
  count_direction (STEP_START cfg b a s) = count_direction s.
Proof. by_frame forget_tracer (forget_tracer_STEP_START cfg b a s). Qed.

Lemma upd_axis_same {A} (f : AxisEnum -> A) a v : upd_axis f a v a = v.
Proof. unfold upd_axis. rewrite AxisEnum_eqb_refl. reflexivity. Qed.

Lemma upd_axis_other {A} (f : AxisEnum -> A) a a' v : a <> a' -> upd_axis f a v a' = f a'.
Proof. intros H. unfold upd_axis. rewrite (AxisEnum_eqb_neq a a' H). reflexivity. Qed.

(** [STEP_START] on its own axis ... *)
Lemma STEP_START_self a s :
  counter (STEP_START cfg b a s) a = bres_counter b a (counter s a)
  /\ count_position (STEP_START cfg b a s) a
     = if bres_steps b a (counter s a)
       then int32 (count_position s a + count_direction s a)
       else count_position s a.
Proof.
  unfold STEP_START, bres_counter, bres_steps. cbv zeta. st_simpl.
  rewrite upd_axis_same.
  destruct (tracer_APPLY_STEP a (negb (INVERT_STEP_PIN cfg a)) false
              (set_counter (upd_axis (counter s) a (int32 (counter s a + steps b a))) s))
    as (E1 & E2 & E3).
  destruct (int32 (counter s a + steps b a) >? 0); st_simpl.
  - rewrite E1, E2, E3. st_simpl. rewrite !upd_axis_same. split; reflexivity.
  - rewrite upd_axis_same. split; reflexivity.
Qed.

(** ... and on the others. *)
Lemma STEP_START_other a a' s :
  a <> a' ->
  counter (STEP_START cfg b a s) a' = counter s a'
  /\ count_position (STEP_START cfg b a s) a' = count_position s a'.
Proof.
  intros Hne. unfold STEP_START. cbv zeta. st_simpl.
  rewrite upd_axis_same.
  destruct (tracer_APPLY_STEP a (negb (INVERT_STEP_PIN cfg a)) false
              (set_counter (upd_axis (counter s) a (int32 (counter s a + steps b a))) s))
    as (E1 & E2 & E3).
  destruct (int32 (counter s a + steps b a) >? 0); st_simpl.
  - rewrite E1, E2. st_simpl. rewrite !(upd_axis_other _ a a' _ Hne). split; reflexivity.
  - rewrite (upd_axis_other _ a a' _ Hne). split; reflexivity.
Qed.

(** The four [STEP_START]s, for an axis the interrupt steps. *)
Lemma step_starts_axis a s :
  (a = E_AXIS -> ADVANCE cfg = false) ->
  counter (step_starts cfg b s) a = bres_counter b a (counter s a)
  /\ count_position (step_starts cfg b s) a
     = (if bres_steps b a (counter s a)
        then int32 (count_position s a + count_direction s a)
        else count_position s a)
  /\ count_direction (step_starts cfg b s) = count_direction s.
Proof.
  intros HE. unfold step_starts. cbv zeta.
  set (s1 := STEP_START cfg b X_AXIS s).
  set (s2 := STEP_START cfg b Y_AXIS s1).
  set (s3 := STEP_START cfg b Z_AXIS s2).
  assert (D1 : count_direction s1 = count_direction s) by apply STEP_START_direction.
  assert (D2 : count_direction s2 = count_direction s)
    by (subst s2; rewrite STEP_START_direction; exact D1).
  assert (D3 : count_direction s3 = count_direction s)
    by (subst s3; rewrite STEP_START_direction; exact D2).
  assert (D4 : count_direction (STEP_START cfg b E_AXIS s3) = count_direction s)
    by (rewrite STEP_START_direction; exact D3).
  destruct a.
  - destruct (STEP_START_self X_AXIS s) as [C1 P1]. fold s1 in C1, P1.
    destruct (STEP_START_other Y_AXIS X_AXIS s1) as [C2 P2]; [discriminate|]. fold s2 in C2, P2.
    destruct (STEP_START_other Z_AXIS X_AXIS s2) as [C3 P3]; [discriminate|]. fold s3 in C3, P3.
    destruct (STEP_START_other E_AXIS X_AXIS s3) as [C4 P4]; [discriminate|].
    destruct (ADVANCE cfg); repeat split; congruence.
  - destruct (STEP_START_other X_AXIS Y_AXIS s) as [C1 P1]; [discriminate|]. fold s1 in C1, P1.
    destruct (STEP_START_self Y_AXIS s1) as [C2 P2]. fold s2 in C2, P2.
    destruct (STEP_START_other Z_AXIS Y_AXIS s2) as [C3 P3]; [discriminate|]. fold s3 in C3, P3.
    destruct (STEP_START_other E_AXIS Y_AXIS s3) as [C4 P4]; [discriminate|].
    rewrite C1, P1, D1 in *.
    destruct (ADVANCE cfg); repeat split; congruence.
  - destruct (STEP_START_other X_AXIS Z_AXIS s) as [C1 P1]; [discriminate|]. fold s1 in C1, P1.
    destruct (STEP_START_other Y_AXIS Z_AXIS s1) as [C2 P2]; [discriminate|]. fold s2 in C2, P2.
    destruct (STEP_START_self Z_AXIS s2) as [C3 P3]. fold s3 in C3, P3.
    destruct (STEP_START_other E_AXIS Z_AXIS s3) as [C4 P4]; [discriminate|].
    rewrite C2, P2, D2, C1, P1 in *.
    destruct (ADVANCE cfg); repeat split; congruence.
  - rewrite (HE eq_refl).
    destruct (STEP_START_other X_AXIS E_AXIS s) as [C1 P1]; [discriminate|]. fold s1 in C1, P1.
    destruct (STEP_START_other Y_AXIS E_AXIS s1) as [C2 P2]; [discriminate|]. fold s2 in C2, P2.
    destruct (STEP_START_other Z_AXIS E_AXIS s2) as [C3 P3]; [discriminate|]. fold s3 in C3, P3.
    destruct (STEP_START_self E_AXIS s3) as [C4 P4].
    rewrite C3, P3, D3, C2, P2, C1, P1 in *.
    repeat split; congruence.
Qed.

Lemma forget_outputs_step_ends s : forget_outputs (step_ends cfg s) = forget_outputs s.
Proof.
  unfold step_ends, STEP_END. cbv zeta.
  destruct (ADVANCE cfg); rewrite !forget_outputs_APPLY_STEP; reflexivity.
Qed.

Lemma advance_tick_axis a s :
  a <> E_AXIS ->
  counter (advance_tick cfg b s) a = counter s a
  /\ count_position (advance_tick cfg b s) = count_position s
  /\ count_direction (advance_tick cfg b s) = count_direction s.
Proof.
  intros Ha. unfold advance_tick. cbv zeta. st_simpl. rewrite upd_axis_same.
  destruct (int32 (counter s E_AXIS + steps b E_AXIS) >? 0); st_simpl;
    rewrite ?upd_axis_other by congruence; repeat split; reflexivity.
Qed.

(** One iteration of the step loop, for an axis the interrupt steps. *)
Lemma step_iteration_axis a s :
  (a = E_AXIS -> ADVANCE cfg = false) ->
  counter (step_iteration cfg b s) a = bres_counter b a (counter s a)
  /\ count_position (step_iteration cfg b s) a
     = (if bres_steps b a (counter s a)
        then int32 (count_position s a + count_direction s a)
        else count_position s a)
  /\ count_direction (step_iteration cfg b s) a = count_direction s a.
Proof.
  intros HE. unfold step_iteration. cbv zeta.
  set (s0 := if ADVANCE cfg then advance_tick cfg b s else s).
  assert (H0 : counter s0 a = counter s a
               /\ count_position s0 = count_position s
               /\ count_direction s0 = count_direction s).
  { subst s0. destruct (ADVANCE cfg) eqn:EA; [|repeat split; reflexivity].
    apply advance_tick_axis. intros ->. specialize (HE eq_refl). discriminate. }
  destruct H0 as (C0 & P0 & D0).
  destruct (step_starts_axis a s0 HE) as (C1 & P1 & D1).
  rewrite C0, P0, D0 in *.
  assert (F : forget_outputs (step_event_done (step_ends cfg (step_starts cfg b s0)))
              = forget_outputs (step_event_done (step_starts cfg b s0))).
  { transitivity (step_event_done (forget_outputs (step_ends cfg (step_starts cfg b s0))));
      [reflexivity|]. rewrite forget_outputs_step_ends. reflexivity. }
  repeat split.
  - rewrite <- C1.
    change (counter (forget_outputs (step_event_done (step_ends cfg (step_starts cfg b s0)))) a
            = counter (forget_outputs (step_event_done (step_starts cfg b s0))) a).
    rewrite F. reflexivity.
  - rewrite <- P1.
    change (count_position
              (forget_outputs (step_event_done (step_ends cfg (step_starts cfg b s0)))) a
            = count_position (forget_outputs (step_event_done (step_starts cfg b s0))) a).
    rewrite F. reflexivity.
  - rewrite <- D1.
    change (count_direction
              (forget_outputs (step_event_done (step_ends cfg (step_starts cfg b s0)))) a
            = count_direction (forget_outputs (step_event_done (step_starts cfg b s0))) a).
    rewrite F. reflexivity.
Qed.

(** The Bresenham counter stays in [(-N, 0]] and accounts for every step. *)
Lemma bres_invariant a k n c :
  block_wf b ->
  c = - (step_event_count b / 2) + k * steps b a - n * step_event_count b ->
  - step_event_count b < c <= 0 ->
  exists n',
    (if bres_steps b a c then n' = n + 1 else n' = n)
    /\ bres_counter b a c
       = - (step_event_count b / 2) + (k + 1) * steps b a - n' * step_event_count b
    /\ - step_event_count b < bres_counter b a c <= 0.
Proof.
  intros [HN Hst] Hc Hr. specialize (Hst a).
  unfold bres_steps, bres_counter. cbv zeta.
  rewrite (int32_small (c + steps b a)) by lia.
  destruct (Z.gtb_spec (c + steps b a) 0).
  - exists (n + 1). rewrite int32_small by lia. repeat split; lia.
  - exists n. repeat split; lia.
Qed.

Variable rest : list block_t.
Variable a : AxisEnum.
Variable p0 : Z.
Hypothesis stepped : a = E_AXIS -> ADVANCE cfg = false.
Hypothesis wf : block_wf b.

Lemma tracing_step_iteration k s :
  tracing cfg b rest a p0 k s -> 0 <= k < step_event_count b ->
  tracing cfg b rest a p0 (k + 1) (step_iteration cfg b s).
Proof.
  intros [Hb Hq Hc He Hl Hn Hd (n & Hcnt & Hr & Hp)] Hk.
  pose proof (forget_ticks_step_iteration cfg b s) as F.
  destruct (step_iteration_axis a s stepped) as (C & P & D).
  destruct (bres_invariant a k n (counter s a) wf Hcnt Hr) as (n' & Hn' & Hc' & Hr').
  destruct wf as [HN _].
  split.
  - rewrite <- Hb. by_frame forget_ticks F.
  - rewrite <- Hq. by_frame forget_ticks F.
  - rewrite <- Hc. by_frame forget_ticks F.
  - rewrite step_events_completed_step_iteration, He, uint32_small by lia. reflexivity.
  - replace (step_loops (step_iteration cfg b s)) with (step_loops s); [exact Hl|].
    symmetry. by_frame forget_ticks F.
  - replace (step_loops_nominal (step_iteration cfg b s)) with (step_loops_nominal s);
      [exact Hn|]. symmetry. by_frame forget_ticks F.
  - rewrite D. exact Hd.
  - exists n'. rewrite C, P. repeat split; try assumption; try lia.
    destruct (bres_steps b a (counter s a)); subst n'.
    + rewrite Hp, Hd, int32_add_l. f_equal. ring.
    + exact Hp.
Qed.

Lemma tracing_step_loop n : forall k s,
  tracing cfg b rest a p0 k s -> 0 <= k < step_event_count b ->
  exists k', k <= k' <= step_event_count b
             /\ ((1 <= n)%nat -> k < k')
             /\ tracing cfg b rest a p0 k' (step_loop cfg b n s).
Proof.
  induction n as [|n IH]; intros k s Ht Hk; cbn [step_loop].
  - exists k. split; [lia|]. split; [intros; lia|exact Ht].
  - cbv zeta. pose proof (tracing_step_iteration k s Ht Hk) as Ht1.
    pose proof (tr_events _ _ _ _ _ _ _ Ht1) as E. rewrite E.
    destruct (Z.geb_spec (k + 1) (step_event_count b)).
    + exists (k + 1). split; [lia|]. split; [intros; lia|exact Ht1].
    + destruct (IH (k + 1) _ Ht1) as (k' & Hk' & _ & Ht'); [lia|].
      exists k'. split; [lia|]. split; [intros; lia|exact Ht'].
Qed.

(** The tracer of a build without step doubling: one step event. *)
Lemma tracing_single_step k s :
  tracing cfg b rest a p0 k s -> 0 <= k < step_event_count b ->
  tracing cfg b rest a p0 (k + 1) (step_event_done (step_starts cfg b s)).
Proof.
  intros [Hb Hq Hc He Hl Hn Hd (n & Hcnt & Hr & Hp)] Hk.
  assert (F : forget_ticks (step_event_done (step_starts cfg b s)) = forget_ticks s).
  { transitivity (forget_ticks (step_starts cfg b s)); [reflexivity|].
    apply forget_ticks_tracer, forget_tracer_step_starts. }
  destruct (step_starts_axis a s stepped) as (C & P & D).
  destruct (bres_invariant a k n (counter s a) wf Hcnt Hr) as (n' & Hn' & Hc' & Hr').
  destruct wf as [HN _].
  split.
  - rewrite <- Hb. by_frame forget_ticks F.
  - rewrite <- Hq. by_frame forget_ticks F.
  - rewrite <- Hc. by_frame forget_ticks F.
  - unfold step_event_done. st_simpl.
    rewrite step_events_completed_step_starts, He, uint32_small by lia. reflexivity.
  - replace (step_loops (step_event_done (step_starts cfg b s))) with (step_loops s);
      [exact Hl|]. symmetry. by_frame forget_ticks F.
  - replace (step_loops_nominal (step_event_done (step_starts cfg b s)))
      with (step_loops_nominal s); [exact Hn|]. symmetry. by_frame forget_ticks F.
  - change (count_direction (step_starts cfg b s) a = block_dir cfg b a).
    rewrite D. exact Hd.
  - exists n'.
    change (counter (step_starts cfg b s) a
            = - (step_event_count b / 2) + (k + 1) * steps b a - n' * step_event_count b
            /\ - step_event_count b < counter (step_starts cfg b s) a <= 0
            /\ count_position (step_starts cfg b s) a = int32 (p0 + block_dir cfg b a * n')).
    rewrite C, P. repeat split; try assumption; try lia.
    destruct (bres_steps b a (counter s a)); subst n'.
    + rewrite Hp, Hd, int32_add_l. f_equal. ring.
    + exact Hp.
Qed.

Lemma tracing_isr_steps k s :
  tracing cfg b rest a p0 k s -> 0 <= k < step_event_count b ->
  exists k', k < k' <= step_event_count b
             /\ tracing cfg b rest a p0 k' (isr_steps cfg b s).
Proof.
  intros Ht Hk. unfold isr_steps. destruct (ENABLE_HIGH_SPEED_STEPPING cfg).
  - destruct (tracing_step_loop (Z.to_nat (step_loops s)) k s Ht Hk) as (k' & H1 & H2 & H3).
    exists k'. split; [|exact H3].
    pose proof (tr_loops _ _ _ _ _ _ _ Ht). lia.
  - exists (k + 1). split; [lia|]. apply tracing_single_step; assumption.
Qed.

Lemma tracing_isr_endstops inp k s :
  tracing cfg b rest a p0 k s ->
  step_events_completed (isr_endstops cfg inp b s) = step_events_completed s ->
  tracing cfg b rest a p0 k (isr_endstops cfg inp b s).
Proof.
  intros [Hb Hq Hc He Hl Hn Hd (n & Hcnt & Hr & Hp)] Hs.
  pose proof (forget_check_isr_endstops cfg inp b s) as F.
  assert (C : counter (isr_endstops cfg inp b s) = counter s) by by_frame forget_check F.
  assert (P : count_position (isr_endstops cfg inp b s) = count_position s)
    by by_frame forget_check F.
  split.
  - rewrite <- Hb. by_frame forget_check F.
  - rewrite <- Hq. by_frame forget_check F.
  - rewrite <- Hc. by_frame forget_check F.
  - rewrite Hs. exact He.
  - replace (step_loops (isr_endstops cfg inp b s)) with (step_loops s); [exact Hl|].
    symmetry. by_frame forget_check F.
  - replace (step_loops_nominal (isr_endstops cfg inp b s)) with (step_loops_nominal s);
      [exact Hn|]. symmetry. by_frame forget_check F.
  - assert (D : count_direction (isr_endstops cfg inp b s) = count_direction s)
      by by_frame forget_check F.
    rewrite D. exact Hd.
  - exists n. rewrite C, P. split; [exact Hcnt|]. split; [exact Hr|exact Hp].
Qed.

(** [step_loops] after the timer update. *)
Lemma step_loops_trapezoid_update s :
  1 <= step_loops_nominal s <= 4 ->
  1 <= step_loops (snd (trapezoid_update cfg b s)) <= 4.
Proof.
  intros Hn. unfold trapezoid_update.
  destruct (step_events_completed s <=? uint32 (accelerate_until b)).
  - destruct (trapezoid_accelerate_eq cfg b s) as (_ & _ & _ & _ & E). rewrite E.
    match goal with |- _ <= loops_of cfg ?r <= _ => destruct (loops_of_cases cfg r) as [H|[H|H]] end;
      rewrite H; lia.
  - destruct (step_events_completed s >? uint32 (decelerate_after b)).
    + destruct (trapezoid_decelerate_eq cfg b s) as (_ & _ & _ & _ & E). rewrite E.
      match goal with |- _ <= loops_of cfg ?r <= _ => destruct (loops_of_cases cfg r) as [H|[H|H]] end;
        rewrite H; lia.
    + st_simpl. rewrite uint8_small; lia.
Qed.

Lemma step_loops_isr_finish inp s :
  step_loops (isr_finish cfg inp b s) = step_loops (snd (trapezoid_update cfg b s)).
Proof.
  rewrite isr_finish_eq. cbv zeta.
  transitivity (step_loops
                  (if ENABLE_HIGH_SPEED_STEPPING cfg
                   then snd (trapezoid_update cfg b s)
                   else step_ends cfg (snd (trapezoid_update cfg b s)))).
  - cases; reflexivity.
  - destruct (ENABLE_HIGH_SPEED_STEPPING cfg); [reflexivity|].
    by_frame forget_outputs (forget_outputs_step_ends (snd (trapezoid_update cfg b s))).
Qed.

Lemma tracing_isr_finish inp k s :
  tracing cfg b rest a p0 k s -> k < step_event_count b ->
  tracing cfg b rest a p0 k (isr_finish cfg inp b s).
Proof.
  intros [Hb Hq Hc He Hl Hn Hd (n & Hcnt & Hr & Hp)] Hk.
  pose proof (forget_finish_isr_finish cfg inp b s) as F.
  destruct (isr_finish_keep cfg inp b s) as [K1 K2]; [lia|].
  assert (C : counter (isr_finish cfg inp b s) = counter s) by by_frame forget_finish F.
  assert (P : count_position (isr_finish cfg inp b s) = count_position s)
    by by_frame forget_finish F.
  split.
  - rewrite K1. exact Hb.
  - rewrite K2. exact Hq.
  - rewrite <- Hc. by_frame forget_finish F.
  - rewrite <- He. by_frame forget_finish F.
  - rewrite step_loops_isr_finish. apply step_loops_trapezoid_update. exact Hn.
  - replace (step_loops_nominal (isr_finish cfg inp b s)) with (step_loops_nominal s);
      [exact Hn|]. symmetry. by_frame forget_finish F.
  - assert (D : count_direction (isr_finish cfg inp b s) = count_direction s)
      by by_frame forget_finish F.
    rewrite D. exact Hd.
  - exists n. rewrite C, P. split; [exact Hcnt|]. split; [exact Hr|exact Hp].
Qed.

(** At the end of the block the axis has made exactly its steps. *)
Lemma tracing_done s :
  tracing cfg b rest a p0 (step_event_count b) s ->
  count_position s a = int32 (p0 + signed_steps cfg b a).
Proof.
  intros [_ _ _ _ _ _ _ (n & Hcnt & Hr & Hp)].
  destruct wf as [HN Hst]. specialize (Hst a).
  assert (Hh : 0 <= step_event_count b / 2 < step_event_count b).
  { split; [apply Z.div_pos; lia | apply Z.div_lt; lia]. }
  assert (En : n = steps b a) by nia.
  rewrite Hp, En. f_equal. f_equal. unfold signed_steps, block_dir.
  destruct (TEST (direction_bits b) (axis_bit cfg a)); ring.
Qed.

(** One invocation on a block in progress: either the block goes on, further
    along, or it is released with the axis at its target. *)
Lemma tracing_isr_block inp k s :
  tracing cfg b rest a p0 k s -> 0 <= k < step_event_count b ->
  step_events_completed (isr_endstops cfg inp b s) = step_events_completed s ->
  (exists k', k < k' < step_event_count b
              /\ tracing cfg b rest a p0 k' (isr_block cfg inp b s))
  \/ (current_block (isr_block cfg inp b s) = None
      /\ block_buffer (isr_block cfg inp b s) = rest
      /\ count_position (isr_block cfg inp b s) a = int32 (p0 + signed_steps cfg b a)).
Proof.
  intros Ht Hk Hs. rewrite isr_block_eq.
  pose proof (tracing_isr_endstops inp k s Ht Hs) as Ht1.
  destruct (tracing_isr_steps k _ Ht1 Hk) as (k' & Hk' & Ht2).
  destruct (Z.eq_dec k' (step_event_count b)) as [E|E].
  - right. subst k'.
    pose proof (tr_events _ _ _ _ _ _ _ Ht2) as He.
    destruct (isr_finish_release cfg inp b _ (Z.le_ge _ _ (Z.eq_le_incl _ _ (eq_sym He))))
      as [R1 R2].
    split; [exact R1|]. split.
    + rewrite R2, (tr_queue _ _ _ _ _ _ _ Ht2). reflexivity.
    + rewrite <- (tracing_done _ Ht2).
      pose proof (forget_finish_isr_finish cfg inp b
                    (isr_steps cfg b (isr_endstops cfg inp b s))) as F.
      assert (P : count_position
                    (isr_finish cfg inp b (isr_steps cfg b (isr_endstops cfg inp b s)))
                  = count_position (isr_steps cfg b (isr_endstops cfg inp b s)))
        by by_frame forget_finish F.
      rewrite P. reflexivity.
  - left. exists k'. split; [lia|]. apply tracing_isr_finish; [exact Ht2|lia].
Qed.

End Tracer.

Section Acquire.
Variable cfg : Config.

Lemma int32_uint32 z : int32 (uint32 z) = int32 z.
Proof. unfold int32, uint32. rewrite Zplus_mod_idemp_l. reflexivity. Qed.

Lemma latch_direction_effect a f s :
  (forall v q s, forget_outputs (f v q s) = forget_outputs s) ->
  out_bits (latch_direction cfg a f s) = out_bits s
  /\ count_direction (latch_direction cfg a f s)
     = upd_axis (count_direction s) a (if TEST (out_bits s) (axis_bit cfg a) then -1 else 1).
Proof.
  intros Hf. unfold latch_direction.
  destruct (TEST (out_bits s) (axis_bit cfg a)); st_simpl; split; try reflexivity.
  - by_frame forget_outputs (Hf (INVERT_DIR cfg a) false s).
  - by_frame forget_outputs (Hf (negb (INVERT_DIR cfg a)) false s).
Qed.

Lemma latch_e_direction_effect s :
  out_bits (latch_e_direction cfg s) = out_bits s
  /\ count_direction (latch_e_direction cfg s)
     = upd_axis (count_direction s) E_AXIS
         (if TEST (out_bits s) (axis_bit cfg E_AXIS) then -1 else 1).
Proof.
  unfold latch_e_direction. destruct (TEST (out_bits s) (axis_bit cfg E_AXIS));
    split; reflexivity.
Qed.

(** [set_stepper_direction] derives [count_direction] from [out_bits]. *)
Lemma set_stepper_direction_latched s a :
  (a = E_AXIS -> ADVANCE cfg = false) ->
  count_direction (set_stepper_direction cfg s) a
  = if TEST (out_bits s) (axis_bit cfg a) then -1 else 1.
Proof.
  intros HE. unfold set_stepper_direction. cbv zeta.
  set (s1 := latch_direction cfg X_AXIS (X_APPLY_DIR cfg) s).
  set (s2 := latch_direction cfg Y_AXIS (Y_APPLY_DIR cfg) s1).
  set (s3 := latch_direction cfg Z_AXIS (Z_APPLY_DIR cfg) s2).
  destruct (latch_direction_effect X_AXIS (X_APPLY_DIR cfg) s) as [O1 D1];
    [intros; apply forget_outputs_APPLY_DIR|]. fold s1 in O1, D1.
  destruct (latch_direction_effect Y_AXIS (Y_APPLY_DIR cfg) s1) as [O2 D2];
    [intros; apply forget_outputs_APPLY_DIR|]. fold s2 in O2, D2.
  destruct (latch_direction_effect Z_AXIS (Z_APPLY_DIR cfg) s2) as [O3 D3];
    [intros; apply forget_outputs_APPLY_DIR|]. fold s3 in O3, D3.
  destruct (latch_e_direction_effect s3) as [O4 D4].
  rewrite O2, O1 in *. rewrite O3 in *.
  destruct a.
  - destruct (ADVANCE cfg); rewrite ?D4, D3, D2, D1;
      rewrite ?upd_axis_other by discriminate; apply upd_axis_same.
  - destruct (ADVANCE cfg); rewrite ?D4, D3, D2;
      rewrite ?upd_axis_other by discriminate; apply upd_axis_same.
  - destruct (ADVANCE cfg); rewrite ?D4, D3;
      rewrite ?upd_axis_other by discriminate; apply upd_axis_same.
  - rewrite (HE eq_refl), D4. apply upd_axis_same.
Qed.

(** What [trapezoid_generator_reset] leaves in the variables the tracer
    depends on. *)
Lemma trapezoid_generator_reset_tracer b s :
  count_direction (trapezoid_generator_reset cfg b s)
  = count_direction (if negb (direction_bits b =? out_bits s)
                     then set_stepper_direction cfg (set_out_bits (direction_bits b) s)
                     else s)
  /\ step_loops (trapezoid_generator_reset cfg b s) = loops_of cfg (initial_rate b)
  /\ step_loops_nominal (trapezoid_generator_reset cfg b s)
     = uint16 (loops_of cfg (nominal_rate b)).
Proof.
  unfold trapezoid_generator_reset, advance_e_steps. cbv zeta. rewrite !calc_timer_eq.
  destruct (negb (direction_bits b =? out_bits s)), (ADVANCE cfg); repeat split; reflexivity.
Qed.

Lemma trapezoid_generator_reset_direction b s a :
  (a = E_AXIS -> ADVANCE cfg = false) ->
  directions_latched cfg s ->
  count_direction (trapezoid_generator_reset cfg b s) a = block_dir cfg b a.
Proof.
  intros HE HL. rewrite (proj1 (trapezoid_generator_reset_tracer b s)). unfold block_dir.
  destruct (Z.eqb_spec (direction_bits b) (out_bits s)) as [E|E]; cbn [negb].
  - rewrite (HL a HE), E. reflexivity.
  - rewrite set_stepper_direction_latched by exact HE. reflexivity.
Qed.

Lemma loops_range r : 1 <= loops_of cfg r <= 4.
Proof. destruct (loops_of_cases cfg r) as [H|[H|H]]; rewrite H; lia. Qed.

(** A fresh block, just acquired, is a block traced for zero step events. *)
Lemma tracing_acquire inp b0 rest a s :
  (a = E_AXIS -> ADVANCE cfg = false) ->
  block_wf b0 ->
  cleaning_buffer_counter s = 0 ->
  current_block s = None ->
  block_buffer s = b0 :: rest ->
  directions_latched cfg s ->
  - 2 ^ 31 <= count_position s a < 2 ^ 31 ->
  tracing cfg (set_busy true b0) rest a (count_position s a) 0 (fst (isr_acquire cfg inp s)).
Proof.
  intros HE [HN Hst] Hc Hb Hq HL Hp.
  rewrite (isr_acquire_fresh cfg inp b0 rest s Hb Hq). cbv zeta.
  set (b := set_busy true b0).
  set (s0 := set_current_block (Some b) (set_block_buffer (b :: rest) s)).
  pose proof (forget_reset_trapezoid_generator_reset cfg b s0) as F.
  destruct (trapezoid_generator_reset_tracer b s0) as (_ & L1 & L2).
  assert (D : count_direction (trapezoid_generator_reset cfg b s0) a = block_dir cfg b a)
    by (apply trapezoid_generator_reset_direction; [exact HE|exact HL]).
  assert (P : count_position (trapezoid_generator_reset cfg b s0) = count_position s)
    by (change (count_position s) with (count_position s0); by_frame forget_reset F).
  assert (B : current_block (trapezoid_generator_reset cfg b s0) = Some b)
    by (change (Some b) with (current_block s0); by_frame forget_reset F).
  assert (Q : block_buffer (trapezoid_generator_reset cfg b s0) = b :: rest)
    by (change (b :: rest) with (block_buffer s0); by_frame forget_reset F).
  assert (C : cleaning_buffer_counter (trapezoid_generator_reset cfg b s0) = 0)
    by (rewrite <- Hc; change (cleaning_buffer_counter s) with (cleaning_buffer_counter s0);
        by_frame forget_reset F).
  remember (trapezoid_generator_reset cfg b s0) as s1 eqn:E. clear E F.
  assert (Hh : 0 <= step_event_count b0 / 2 < step_event_count b0).
  { split; [apply Z.div_pos; lia | apply Z.div_lt; lia]. }
  assert (Hc0 : int32 (uint32 (- Z.shiftr (step_event_count b) 1))
                = - (step_event_count b / 2)).
  { rewrite int32_uint32, Z.shiftr_div_pow2 by lia. change (2 ^ 1) with 2.
    apply int32_small. change (step_event_count b) with (step_event_count b0). lia. }
  rewrite Hc0.
  assert (T : tracing cfg b rest a (count_position s a) 0
                (set_step_events_completed 0
                   (set_counter (fun _ => - (step_event_count b / 2)) s1))).
  { split; st_simpl; try assumption; try reflexivity.
    - rewrite L1. apply loops_range.
    - rewrite L2. pose proof (loops_range (nominal_rate b)).
      unfold uint16. rewrite Z.mod_small; lia.
    - exists 0. rewrite P. change (step_event_count b) with (step_event_count b0).
      split; [ring|]. split; [lia|].
      rewrite Z.mul_0_r, Z.add_0_r, int32_small by exact Hp. reflexivity. }
  destruct (Z_LATE_ENABLE cfg && (steps b Z_AXIS >? 0)); cbn [fst]; [|exact T].
  destruct T as [T1 T2 T3 T4 T5 T6 T7 T8]. split; assumption.
Qed.

End Acquire.

(** ** Executing a block *)

Section Execute.
Variable cfg : Config.
Variable b : block_t.
Variable rest : list block_t.
Variable a : AxisEnum.
Variable p0 : Z.
Hypothesis stepped : a = E_AXIS -> ADVANCE cfg = false.
Hypothesis wf : block_wf b.

Lemma tracing_ISR inp k s :
  tracing cfg b rest a p0 k s -> 0 <= k < step_event_count b ->
  endstop_truncates cfg inp s = false ->
  (exists k', k < k' < step_event_count b
              /\ tracing cfg b rest a p0 k' (HAL_STEP_TIMER_ISR cfg inp s)
              /\ releases cfg inp s = false)
  \/ (releases cfg inp s = true
      /\ finished cfg b rest a p0 (HAL_STEP_TIMER_ISR cfg inp s)).
Proof.
  intros Ht Hk Hu.
  pose proof (tr_block _ _ _ _ _ _ _ Ht) as Hb.
  pose proof (tr_clean _ _ _ _ _ _ _ Ht) as Hc.
  pose proof (tr_queue _ _ _ _ _ _ _ Ht) as Hq.
  rewrite (endstop_truncates_running cfg inp b s Hc Hb) in Hu.
  apply negb_false_iff, Z.eqb_eq in Hu.
  unfold releases. rewrite (isr_running cfg inp b s Hc Hb), Hq.
  destruct (tracing_isr_block cfg b rest a p0 stepped wf inp k s Ht Hk Hu)
    as [(k' & Hk' & Ht')|(R1 & R2 & R3)].
  - left. exists k'. split; [exact Hk'|]. split; [exact Ht'|].
    rewrite (tr_queue _ _ _ _ _ _ _ Ht'). apply Nat.ltb_irrefl.
  - right. split.
    + rewrite R2. cbn [length]. apply Nat.ltb_lt. lia.
    + split; [exact R1|]. split; [exact R2|exact R3].
Qed.

(** Enough interrupts carry a block in progress to its end. *)
Lemma tracing_execute_block inps : forall k s,
  tracing cfg b rest a p0 k s -> 0 <= k < step_event_count b ->
  (Z.to_nat (step_event_count b - k) <= length inps)%nat ->
  untruncated cfg inps s = true ->
  exists s', execute_block cfg inps s = Some s' /\ finished cfg b rest a p0 s'.
Proof.
  induction inps as [|inp inps IH]; intros k s Ht Hk Hlen Hu.
  - cbn [length] in Hlen. lia.
  - cbn [untruncated] in Hu. apply andb_prop in Hu. destruct Hu as [Hu1 Hu2].
    apply negb_true_iff in Hu1. cbn [execute_block].
    destruct (tracing_ISR inp k s Ht Hk Hu1) as [(k' & Hk' & Ht' & Hr)|(Hr & Hf)].
    + rewrite Hr in *. cbn [orb] in Hu2.
      apply (IH k' _ Ht'); [lia| |exact Hu2].
      cbn [length] in Hlen. lia.
    + rewrite Hr. exists (HAL_STEP_TIMER_ISR cfg inp s). split; [reflexivity|exact Hf].
Qed.

End Execute.

(** The handler and the truncation test when no flush is pending. *)
Lemma ISR_unflushed cfg inp s :
  cleaning_buffer_counter s = 0 ->
  HAL_STEP_TIMER_ISR cfg inp s
  = (if snd (isr_acquire cfg inp s) then fst (isr_acquire cfg inp s)
     else match current_block (fst (isr_acquire cfg inp s)) with
          | Some b => isr_block cfg inp b (fst (isr_acquire cfg inp s))
          | None => fst (isr_acquire cfg inp s)
          end)
  /\ endstop_truncates cfg inp s
     = (if snd (isr_acquire cfg inp s) then false
        else match current_block (fst (isr_acquire cfg inp s)) with
             | Some b =>
                 negb (step_events_completed
                         (isr_endstops cfg inp b (fst (isr_acquire cfg inp s)))
                       =? step_events_completed (fst (isr_acquire cfg inp s)))
             | None => false
             end).
Proof.
  intros Hc. unfold HAL_STEP_TIMER_ISR, endstop_truncates. rewrite Hc. cbn [Z.eqb negb].
  destruct (isr_acquire cfg inp s) as [s1 returned]. split; reflexivity.
Qed.


(** C1 (as amended) — a block executed to its end without endstop truncation
    moves [count_position] of every axis the interrupt steps (all but the
    extruder of an advance build) by its signed step count: after
    [st_set_position (x, y, z, e)] and the block, [st_get_position] is the
    position set plus the signed steps. *)
Theorem block_execution_moves_position (cfg : Config) (B : block_t) (rest : list block_t)
    (s : state) (x y z e : Z) (inps : list isr_input) (a : AxisEnum) :
  let p := match a with X_AXIS => x | Y_AXIS => y | Z_AXIS => z | E_AXIS => e end in
  block_wf B ->
  cleaning_buffer_counter s = 0 ->
  current_block s = None ->
  block_buffer s = B :: rest ->
  directions_latched cfg s ->
  - 2 ^ 31 <= p < 2 ^ 31 ->
  (a = E_AXIS -> ADVANCE cfg = false) ->
  (Z.to_nat (step_event_count B) + 1 <= length inps)%nat ->
  untruncated cfg inps (st_set_position x y z e s) = true ->
  exists s',
    execute_block cfg inps (st_set_position x y z e s) = Some s'
    /\ current_block s' = None
    /\ block_buffer s' = rest
    /\ st_get_position a s' = int32 (p + signed_steps cfg B a)
    /\ (- 2 ^ 31 <= p + signed_steps cfg B a < 2 ^ 31 ->
        st_get_position a s' = p + signed_steps cfg B a).
Proof.
  intros p Hwf Hc Hb Hq HL Hp HE Hlen Hu.
  set (s0 := st_set_position x y z e s) in *.
  set (b := set_busy true B).
  assert (Hwf' : block_wf b) by exact Hwf.
  assert (Hp0 : count_position s0 a = p) by (destruct a; reflexivity).
  assert (goal : exists s', execute_block cfg inps s0 = Some s' /\ finished cfg b rest a p s').
  { destruct inps as [|inp inps]; [cbn [length] in Hlen; lia|].
    cbn [length] in Hlen.
    pose proof (tracing_acquire cfg inp B rest a s0 HE Hwf Hc Hb Hq HL) as Ht.
    rewrite Hp0 in Ht. specialize (Ht Hp).
    cbn [untruncated] in Hu. apply andb_prop in Hu. destruct Hu as [Hu1 Hu2].
    apply negb_true_iff in Hu1. cbn [execute_block].
    destruct (ISR_unflushed cfg inp s0 Hc) as [EI ET].
    rewrite ET in Hu1. unfold releases in *. rewrite EI in *. clear EI ET.
    destruct (isr_acquire cfg inp s0) as [s1 returned]. cbn [fst snd] in *.
    pose proof (tr_block _ _ _ _ _ _ _ Ht) as Hb1.
    pose proof (tr_queue _ _ _ _ _ _ _ Ht) as Hq1.
    assert (HN : 0 <= 0 < step_event_count b) by (destruct Hwf as [HN _]; exact (conj (Z.le_refl 0) (Z.lt_le_trans _ _ _ Z.lt_0_1 (proj1 HN)))).
    replace (block_buffer s0) with (B :: rest) in * by (symmetry; exact Hq).
    destruct returned.
    - rewrite Hq1 in *. cbn [length] in *. rewrite (Nat.ltb_irrefl (S (length rest))) in Hu2. rewrite (Nat.ltb_irrefl (S (length rest))). cbn [orb] in Hu2.
      apply (tracing_execute_block cfg b rest a p HE Hwf' inps 0 s1 Ht HN); [|exact Hu2].
      change (step_event_count b) with (step_event_count B). lia.
    - rewrite Hb1 in *. apply negb_false_iff, Z.eqb_eq in Hu1.
      destruct (tracing_isr_block cfg b rest a p HE Hwf' inp 0 s1 Ht HN Hu1)
        as [(k' & Hk' & Ht')|(R1 & R2 & R3)].
      + pose proof (tr_queue _ _ _ _ _ _ _ Ht') as Hq'. unfold b in Hq'.
        rewrite Hq' in Hu2 |- *. cbn [length] in *.
        rewrite (Nat.ltb_irrefl (S (length rest))) in Hu2. rewrite (Nat.ltb_irrefl (S (length rest))). cbn [orb] in Hu2.
        apply (tracing_execute_block cfg b rest a p HE Hwf' inps k' _ Ht');
          [lia| |exact Hu2].
        change (step_event_count b) with (step_event_count B) in *. lia.
      + unfold b in R2. rewrite R2. cbn [length].
        replace (length rest <? S (length rest))%nat with true
          by (symmetry; apply Nat.ltb_lt; lia).
        eexists. split; [reflexivity|]. split; [exact R1|]. split; [exact R2|exact R3]. }
  destruct goal as (s' & He & Hf1 & Hf2 & Hf3).
  exists s'. change (signed_steps cfg b a) with (signed_steps cfg B a) in Hf3.
  repeat split; try assumption.
  intros Hr. rewrite Hf3. apply int32_small. exact Hr.
Qed.

Lemma block_execution_moves_position_witness :
  exists s',
    execute_block cartesian (repeat quiet_input 5)
      (st_set_position 10 20 30 40 (enqueue diagonal_block power_on)) = Some s'
    /\ current_block s' = None
    /\ block_buffer s' = []
    /\ st_get_position X_AXIS s' = int32 (10 + signed_steps cartesian diagonal_block X_AXIS)
    /\ (- 2 ^ 31 <= 10 + signed_steps cartesian diagonal_block X_AXIS < 2 ^ 31 ->
        st_get_position X_AXIS s' = 10 + signed_steps cartesian diagonal_block X_AXIS).
Proof.
  apply (block_execution_moves_position cartesian diagonal_block []
           (enqueue diagonal_block power_on) 10 20 30 40 (repeat quiet_input 5) X_AXIS).
  - split; [vm_compute; easy|]. intros a. destruct a; vm_compute; easy.
  - reflexivity.
  - reflexivity.
  - reflexivity.
  - intros a _. destruct a; reflexivity.
  - vm_compute. easy.
  - discriminate.
  - vm_compute. lia.
  - vm_compute. reflexivity.
Defined.

(** C1 as stated fails on the extruder of an advance build: the interrupt
    neither steps E nor counts it, so the block — 2 steps of E in the
    positive direction — leaves [count_position[E_AXIS]] where it was set. *)
Lemma advance_build_leaves_extruder_position :
  let s0 := st_set_position 10 20 30 40 (enqueue diagonal_block power_on) in
  untruncated cartesian_advance (repeat quiet_input 5) s0 = true
  /\ signed_steps cartesian_advance diagonal_block E_AXIS = 2
  /\ option_map (st_get_position E_AXIS)
       (execute_block cartesian_advance (repeat quiet_input 5) s0) = Some 40.
Proof. vm_compute. repeat split; reflexivity. Qed.


(** ** Idle, flush and quick stop *)

Section Idle.
Variable cfg : Config.

Lemma TC_RC_HAL_timer_stepper_count count inp s :
  TC_RC (HAL_timer_stepper_count count inp s) = rearm count inp
  /\ trace (HAL_timer_stepper_count count inp s) = trace s ++ [TimerCompare (rearm count inp)].
Proof.
  unfold HAL_timer_stepper_count, rearm. cbv zeta. st_simpl.
  destruct (Z.leb_spec (uint32 (TC_CV inp + 42)) count).
  - rewrite Z.max_l by lia. split; reflexivity.
  - rewrite Z.max_r by lia. split; reflexivity.
Qed.

(** With nothing queued the handler only re-arms the timer. *)
Lemma ISR_idle inp s :
  cleaning_buffer_counter s = 0 -> current_block s = None -> block_buffer s = [] ->
  HAL_STEP_TIMER_ISR cfg inp s = HAL_timer_stepper_count (HAL_TIMER_RATE cfg / 1000) inp s.
Proof.
  intros Hc Hb Hq. unfold HAL_STEP_TIMER_ISR. rewrite Hc. cbn [Z.eqb negb].
  rewrite (isr_acquire_empty cfg inp s Hb Hq).
  change (current_block (HAL_timer_stepper_count (HAL_TIMER_RATE cfg / 1000) inp s))
    with (current_block s).
  rewrite Hb. reflexivity.
Qed.

End Idle.

(** X1 — with no block in hand and none queued, interrupts change nothing but
    the comparator: every variable of the stepper and every pin keeps its
    value, and each interrupt adds one timer event, the idle poll of
    [HAL_TIMER_RATE / 1000] counts clamped to the counter plus the guard. *)
Theorem idle_interrupts_only_rearm (cfg : Config) (inps : list isr_input) (s : state) :
  cleaning_buffer_counter s = 0 -> current_block s = None -> block_buffer s = [] ->
  let s' := run cfg inps s in
  forget_outputs s' = forget_outputs s
  /\ step_pin s' = step_pin s
  /\ dir_pin s' = dir_pin s
  /\ trace s' = trace s ++ map (fun inp => TimerCompare (rearm (HAL_TIMER_RATE cfg / 1000) inp)) inps
  /\ (forall a, st_get_position a s' = st_get_position a s).
Proof.
  revert s. induction inps as [|inp inps IH]; intros s Hc Hb Hq; cbn [run map].
  - rewrite app_nil_r. repeat split; reflexivity.
  - rewrite (ISR_idle cfg inp s Hc Hb Hq).
    set (s1 := HAL_timer_stepper_count (HAL_TIMER_RATE cfg / 1000) inp s).
    destruct (IH s1 Hc Hb Hq) as (H1 & H2 & H3 & H4 & H5).
    repeat split.
    + rewrite H1. reflexivity.
    + rewrite H2. reflexivity.
    + rewrite H3. reflexivity.
    + rewrite H4. unfold s1.
      rewrite (proj2 (TC_RC_HAL_timer_stepper_count _ _ _)), <- app_assoc. reflexivity.
    + intros a. rewrite H5. reflexivity.
Qed.

Lemma idle_interrupts_only_rearm_witness :
  trace (run cartesian [quiet_input; quiet_input] power_on)
  = trace power_on
    ++ map (fun inp => TimerCompare (rearm (HAL_TIMER_RATE cartesian / 1000) inp))
         [quiet_input; quiet_input].
Proof.
  apply (idle_interrupts_only_rearm cartesian [quiet_input; quiet_input] power_on);
    reflexivity.
Defined.

Section Flush.
Variable cfg : Config.

Lemma ISR_flushing inp s :
  cleaning_buffer_counter s <> 0 -> HAL_STEP_TIMER_ISR cfg inp s = isr_cleaning cfg inp s.
Proof.
  intros Hc. unfold HAL_STEP_TIMER_ISR.
  destruct (Z.eqb_spec (cleaning_buffer_counter s) 0); [contradiction|reflexivity].
Qed.

Lemma isr_cleaning_effect inp s :
  0 < cleaning_buffer_counter s < 2 ^ 32 ->
  let s' := isr_cleaning cfg inp s in
  cleaning_buffer_counter s' = cleaning_buffer_counter s - 1
  /\ current_block s' = None
  /\ block_buffer s' = tl (block_buffer s)
  /\ forget_motion s' = forget_motion s
  /\ step_pin s' = step_pin s
  /\ dir_pin s' = dir_pin s
  /\ count_position s' = count_position s
  /\ trace s' = trace s ++ [DiscardBlock; TimerCompare (rearm (HAL_TIMER_RATE cfg / 200) inp)].
Proof.
  intros Hc. cbv zeta.
  assert (E : trace (isr_cleaning cfg inp s)
              = trace s ++ [DiscardBlock; TimerCompare (rearm (HAL_TIMER_RATE cfg / 200) inp)]).
  { unfold isr_cleaning. cbv zeta.
    rewrite (proj2 (TC_RC_HAL_timer_stepper_count _ _ _)).
    unfold plan_discard_current_block. st_simpl. rewrite <- app_assoc. reflexivity. }
  repeat split; try reflexivity; [|exact E].
  unfold isr_cleaning, HAL_timer_stepper_count, plan_discard_current_block. cbv zeta. st_simpl.
  apply uint32_small. lia.
Qed.

Lemma discard_while_queued_all n : forall s,
  length (block_buffer s) = n ->
  discard_while_queued n s
  = set_trace (trace s ++ repeat DiscardBlock n) (set_block_buffer [] s).
Proof.
  induction n as [|n IH]; intros s Hn; cbn [discard_while_queued repeat].
  - destruct s as [q]. cbn in Hn. destruct q; [|discriminate Hn].
    unfold set_trace, set_block_buffer. st_simpl. rewrite app_nil_r. reflexivity.
  - unfold blocks_queued. destruct (block_buffer s) as [|b l] eqn:Hq; [discriminate Hn|].
    rewrite IH.
    + unfold plan_discard_current_block, set_trace, set_block_buffer. st_simpl.
      rewrite <- app_assoc. reflexivity.
    + unfold plan_discard_current_block. st_simpl. rewrite Hq. cbn in Hn |- *. lia.
Qed.

Lemma quickStop_eq s :
  quickStop s
  = set_current_block None
      (set_trace (trace s ++ repeat DiscardBlock (length (block_buffer s)))
         (set_block_buffer [] (set_cleaning_buffer_counter 5000 s))).
Proof.
  unfold quickStop. cbv zeta. rewrite discard_while_queued_all by reflexivity. reflexivity.
Qed.

(** Interrupts during the flush window. *)
Lemma run_flushing inps : forall s,
  Z.of_nat (length inps) <= cleaning_buffer_counter s < 2 ^ 32 ->
  let s' := run cfg inps s in
  cleaning_buffer_counter s' = cleaning_buffer_counter s - Z.of_nat (length inps)
  /\ (inps <> [] -> current_block s' = None)
  /\ block_buffer s' = skipn (length inps) (block_buffer s)
  /\ forget_motion s' = forget_motion s
  /\ step_pin s' = step_pin s
  /\ dir_pin s' = dir_pin s
  /\ count_position s' = count_position s
  /\ trace s'
     = trace s ++ flat_map (fun inp => [DiscardBlock;
                                        TimerCompare (rearm (HAL_TIMER_RATE cfg / 200) inp)])
                    inps.
Proof.
  induction inps as [|inp inps IH]; intros s Hc; cbn [run flat_map length skipn].
  - rewrite app_nil_r, Z.sub_0_r. repeat split; try reflexivity. intros H. contradiction.
  - cbn [length] in Hc. rewrite Nat2Z.inj_succ in Hc |- *.
    rewrite ISR_flushing by lia.
    destruct (isr_cleaning_effect inp s ltac:(lia)) as (E1 & E2 & E3 & E4 & E5 & E6 & E7 & E8).
    destruct (IH (isr_cleaning cfg inp s) ltac:(lia)) as (H1 & H2 & H3 & H4 & H5 & H6 & H7 & H8).
    repeat split.
    + rewrite H1, E1. lia.
    + intros _. destruct inps as [|i l]; [exact E2|]. apply H2. discriminate.
    + rewrite H3, E3. destruct (block_buffer s); [destruct (length inps)|]; reflexivity.
    + rewrite H4. exact E4.
    + rewrite H5. exact E5.
    + rewrite H6. exact E6.
    + rewrite H7. exact E7.
    + rewrite H8, E8, <- app_assoc. reflexivity.
Qed.

Lemma no_step_discards n : forallb no_step (repeat DiscardBlock n) = true.
Proof. induction n as [|n IH]; [reflexivity|exact IH]. Qed.

Lemma no_step_flush (inps : list isr_input) :
  forallb no_step
    (flat_map (fun inp => [DiscardBlock; TimerCompare (rearm (HAL_TIMER_RATE cfg / 200) inp)])
       inps) = true.
Proof. induction inps as [|i l IH]; [reflexivity|exact IH]. Qed.

End Flush.


(** X3 — an interrupt in the flush window ([cleaning_buffer_counter] not
    zero) counts the window down by one, drops the block in hand and the
    head of the queue without stepping, and re-arms the timer for
    [HAL_TIMER_RATE / 200] counts; over [n] such interrupts [n] queued
    blocks are lost and no pin is written. *)
Theorem flush_window_discards (cfg : Config) (inps : list isr_input) (s : state) :
  Z.of_nat (length inps) <= cleaning_buffer_counter s < 2 ^ 32 ->
  let s' := run cfg inps s in
  cleaning_buffer_counter s' = cleaning_buffer_counter s - Z.of_nat (length inps)
  /\ (inps <> [] -> current_block s' = None)
  /\ block_buffer s' = skipn (length inps) (block_buffer s)
  /\ step_pin s' = step_pin s
  /\ dir_pin s' = dir_pin s
  /\ count_position s' = count_position s
  /\ trace s'
     = trace s ++ flat_map (fun inp => [DiscardBlock;
                                        TimerCompare (rearm (HAL_TIMER_RATE cfg / 200) inp)])
                    inps.
Proof.
  intros Hc. destruct (run_flushing cfg inps s Hc) as (H1 & H2 & H3 & _ & H5 & H6 & H7 & H8).
  cbv zeta. repeat split; assumption.
Qed.

Lemma flush_window_discards_witness :
  block_buffer (run cartesian [quiet_input; quiet_input]
                  (enqueue fast_block (enqueue diagonal_block
                     (enqueue x_homing_block (set_cleaning_buffer_counter 2 power_on)))))
  = [fast_block].
Proof.
  apply (flush_window_discards cartesian [quiet_input; quiet_input]
           (enqueue fast_block (enqueue diagonal_block
              (enqueue x_homing_block (set_cleaning_buffer_counter 2 power_on))))).
  vm_compute. split; [discriminate|reflexivity].
Defined.

(** X4 — after [quickStop] the stepper stays still for the next 5000
    interrupts: the queue stays empty, no block is in hand, the position
    counters and all pins keep their values, and the window is over exactly
    after the 5000th. *)
Theorem quickStop_then_still (cfg : Config) (inps : list isr_input) (s : state) :
  (length inps <= 5000)%nat ->
  let s' := run cfg inps (quickStop s) in
  block_buffer s' = []
  /\ current_block s' = None
  /\ cleaning_buffer_counter s' = 5000 - Z.of_nat (length inps)
  /\ count_position s' = count_position s
  /\ step_pin s' = step_pin s
  /\ dir_pin s' = dir_pin s
  /\ forallb no_step (new_events s s') = true.
Proof.
  intros Hn. cbv zeta.
  assert (Q : cleaning_buffer_counter (quickStop s) = 5000
              /\ block_buffer (quickStop s) = []
              /\ current_block (quickStop s) = None
              /\ count_position (quickStop s) = count_position s
              /\ step_pin (quickStop s) = step_pin s
              /\ dir_pin (quickStop s) = dir_pin s
              /\ trace (quickStop s)
                 = trace s ++ repeat DiscardBlock (length (block_buffer s))).
  { rewrite quickStop_eq. repeat split; reflexivity. }
  destruct Q as (Q1 & Q2 & Q3 & Q4 & Q5 & Q6 & Q7).
  destruct (run_flushing cfg inps (quickStop s) ltac:(rewrite Q1; lia))
    as (H1 & H2 & H3 & _ & H5 & H6 & H7 & H8).
  cbv zeta in *. repeat split.
  - rewrite H3, Q2. destruct (length inps); reflexivity.
  - destruct inps as [|i l]; [exact Q3|]. apply H2. discriminate.
  - rewrite H1, Q1. reflexivity.
  - rewrite H7. exact Q4.
  - rewrite H5. exact Q5.
  - rewrite H6. exact Q6.
  - rewrite Q7, <- app_assoc in H8. rewrite (new_events_extends _ _ _ H8).
    rewrite forallb_app. apply andb_true_intro. split.
    + apply no_step_discards.
    + apply no_step_flush.
Qed.

Lemma quickStop_then_still_witness :
  block_buffer (run cartesian [quiet_input; quiet_input; quiet_input] (quickStop three_queued))
  = [].
Proof.
  apply (quickStop_then_still cartesian [quiet_input; quiet_input; quiet_input] three_queued).
  cbn [length]. lia.
Defined.

(** ** A tick on a block in progress *)

Section Tick.
Variable cfg : Config.

Lemma forget_tick_pulses s s' :
  forget_pulses s = forget_pulses s' -> forget_tick s = forget_tick s'.
Proof. unfold forget_tick. intros ->. reflexivity. Qed.

Lemma forget_pulses_APPLY_STEP a v q s :
  forget_pulses (APPLY_STEP cfg a v q s) = forget_pulses s.
Proof.
  destruct a; unfold APPLY_STEP, X_APPLY_STEP, Y_APPLY_STEP, Z_APPLY_STEP, E_APPLY_STEP,
    Z_guarded_step; cases; reflexivity.
Qed.

Lemma forget_tick_STEP_START b a s : forget_tick (STEP_START cfg b a s) = forget_tick s.
Proof.
  unfold STEP_START. cbv zeta.
  match goal with |- context [if ?c then _ else _] => destruct c end; [|reflexivity].
  transitivity (forget_tick
                  (APPLY_STEP cfg a (negb (INVERT_STEP_PIN cfg a)) false
                     (set_counter
                        (upd_axis (counter s) a (int32 (counter s a + steps b a))) s)));
    [reflexivity|].
  rewrite (forget_tick_pulses _ _ (forget_pulses_APPLY_STEP _ _ _ _)). reflexivity.
Qed.

Lemma forget_tick_STEP_END a s : forget_tick (STEP_END cfg a s) = forget_tick s.
Proof. apply forget_tick_pulses, forget_pulses_APPLY_STEP. Qed.

Lemma forget_tick_advance_tick b s : forget_tick (advance_tick cfg b s) = forget_tick s.
Proof. unfold advance_tick. cbv zeta. cases; reflexivity. Qed.

Lemma forget_tick_step_starts b s : forget_tick (step_starts cfg b s) = forget_tick s.
Proof.
  unfold step_starts. cbv zeta. destruct (ADVANCE cfg);
    rewrite !forget_tick_STEP_START; reflexivity.
Qed.

Lemma forget_tick_step_ends s : forget_tick (step_ends cfg s) = forget_tick s.
Proof.
  unfold step_ends. cbv zeta. destruct (ADVANCE cfg);
    rewrite !forget_tick_STEP_END; reflexivity.
Qed.

Lemma forget_tick_step_iteration b s : forget_tick (step_iteration cfg b s) = forget_tick s.
Proof.
  unfold step_iteration. cbv zeta.
  transitivity (forget_tick
                  (step_ends cfg
                     (step_starts cfg b (if ADVANCE cfg then advance_tick cfg b s else s))));
    [reflexivity|].
  rewrite forget_tick_step_ends, forget_tick_step_starts.
  destruct (ADVANCE cfg); [apply forget_tick_advance_tick|reflexivity].
Qed.

Lemma forget_tick_step_loop b n : forall s, forget_tick (step_loop cfg b n s) = forget_tick s.
Proof.
  induction n as [|n IH]; intros s; [reflexivity|].
  cbn [step_loop]. cbv zeta.
  destruct (step_events_completed (step_iteration cfg b s) >=? step_event_count b).
  - apply forget_tick_step_iteration.
  - rewrite IH. apply forget_tick_step_iteration.
Qed.

Lemma forget_tick_isr_steps b s : forget_tick (isr_steps cfg b s) = forget_tick s.
Proof.
  unfold isr_steps. destruct (ENABLE_HIGH_SPEED_STEPPING cfg).
  - apply forget_tick_step_loop.
  - transitivity (forget_tick (step_starts cfg b s)); [reflexivity|].
    apply forget_tick_step_starts.
Qed.

Lemma forget_tick_trapezoid_update b s :
  forget_tick (snd (trapezoid_update cfg b s)) = forget_tick s.
Proof.
  pose proof (forget_rates_update cfg b s) as H.
  change (forget_tick (forget_rates (snd (trapezoid_update cfg b s)))
          = forget_tick (forget_rates s)).
  rewrite H. reflexivity.
Qed.

Lemma forget_tick_isr_finish inp b s : forget_tick (isr_finish cfg inp b s) = forget_tick s.
Proof.
  rewrite isr_finish_eq. cbv zeta.
  match goal with
  | |- forget_tick (if _ then plan_discard_current_block (set_current_block None ?x) else ?x)
       = _ => transitivity (forget_tick x); [cases; reflexivity|]
  end.
  transitivity (forget_tick
                  (if ENABLE_HIGH_SPEED_STEPPING cfg
                   then snd (trapezoid_update cfg b s)
                   else step_ends cfg (snd (trapezoid_update cfg b s)))); [reflexivity|].
  destruct (ENABLE_HIGH_SPEED_STEPPING cfg); rewrite ?forget_tick_step_ends;
    apply forget_tick_trapezoid_update.
Qed.

Lemma forget_tick_isr_endstops inp b s : forget_tick (isr_endstops cfg inp b s) = forget_tick s.
Proof.
  pose proof (forget_check_isr_endstops cfg inp b s) as H.
  change (forget_tick (forget_check (isr_endstops cfg inp b s)) = forget_tick (forget_check s)).
  rewrite H. reflexivity.
Qed.

Lemma forget_tick_isr_block inp b s : forget_tick (isr_block cfg inp b s) = forget_tick s.
Proof.
  rewrite isr_block_eq, forget_tick_isr_finish, forget_tick_isr_steps.
  apply forget_tick_isr_endstops.
Qed.

(** The events of the tracer are step writes. *)
Lemma step_writes_STEP_START b a s : extends is_step_write s (STEP_START cfg b a s).
Proof.
  unfold STEP_START. cbv zeta.
  match goal with |- context [if ?c then _ else _] => destruct c end;
    [|apply extends_same; reflexivity].
  eapply extends_trans; [|apply extends_same; reflexivity].
  eapply extends_trans; [apply extends_same|apply extends_APPLY_STEP].
  - reflexivity.
  - reflexivity.
Qed.

Lemma step_writes_STEP_END a s : extends is_step_write s (STEP_END cfg a s).
Proof. unfold STEP_END. apply extends_APPLY_STEP. reflexivity. Qed.

Lemma step_writes_step_starts b s : extends is_step_write s (step_starts cfg b s).
Proof.
  unfold step_starts. cbv zeta.
  destruct (ADVANCE cfg);
    repeat (eapply extends_trans; [|apply step_writes_STEP_START]); apply extends_refl.
Qed.

Lemma step_writes_step_ends s : extends is_step_write s (step_ends cfg s).
Proof.
  unfold step_ends. cbv zeta.
  destruct (ADVANCE cfg);
    repeat (eapply extends_trans; [|apply step_writes_STEP_END]); apply extends_refl.
Qed.

Lemma step_writes_step_iteration b s : extends is_step_write s (step_iteration cfg b s).
Proof.
  unfold step_iteration. cbv zeta.
  eapply extends_trans; [|apply extends_same; reflexivity].
  eapply extends_trans; [|apply step_writes_step_ends].
  eapply extends_trans; [|apply step_writes_step_starts].
  apply extends_same. destruct (ADVANCE cfg); [apply trace_advance_tick | reflexivity].
Qed.

Lemma step_writes_step_loop b n : forall s, extends is_step_write s (step_loop cfg b n s).
Proof.
  induction n as [|n IH]; intros s; [apply extends_refl|].
  cbn [step_loop]. cbv zeta.
  destruct (step_events_completed (step_iteration cfg b s) >=? step_event_count b).
  - apply step_writes_step_iteration.
  - eapply extends_trans; [apply step_writes_step_iteration|apply IH].
Qed.

Lemma step_writes_isr_steps b s : extends is_step_write s (isr_steps cfg b s).
Proof.
  unfold isr_steps. destruct (ENABLE_HIGH_SPEED_STEPPING cfg).
  - apply step_writes_step_loop.
  - eapply extends_trans; [apply step_writes_step_starts|apply extends_same; reflexivity].
Qed.

(** The trace of a tick: step writes, the re-arm, and the release when the
    block is used up. *)
Lemma trace_isr_block inp b s :
  exists l,
    forallb is_step_write l = true
    /\ trace (isr_block cfg inp b s)
       = trace s ++ l
         ++ TimerCompare (TC_RC (isr_block cfg inp b s))
         :: (if step_events_completed (isr_block cfg inp b s) >=? step_event_count b
             then [DiscardBlock] else []).
Proof.
  rewrite isr_block_eq, step_events_completed_isr_finish.
  set (s2 := isr_steps cfg b (isr_endstops cfg inp b s)).
  assert (H2 : extends is_step_write s s2).
  { eapply extends_trans; [apply extends_same, trace_isr_endstops|apply step_writes_isr_steps]. }
  rewrite isr_finish_eq. cbv zeta.
  set (s3 := if ENABLE_HIGH_SPEED_STEPPING cfg then snd (trapezoid_update cfg b s2)
             else step_ends cfg (snd (trapezoid_update cfg b s2))).
  assert (H3 : extends is_step_write s s3).
  { eapply extends_trans; [exact H2|]. unfold s3.
    destruct (ENABLE_HIGH_SPEED_STEPPING cfg).
    - apply extends_same, trace_trapezoid_update.
    - eapply extends_trans; [apply extends_same, trace_trapezoid_update
                            |apply step_writes_step_ends]. }
  destruct H3 as (l & El & Hl). exists l. split; [exact Hl|].
  set (t := fst (trapezoid_update cfg b s2)).
  destruct (TC_RC_HAL_timer_stepper_count t inp s3) as [E1 E2].
  destruct (step_events_completed s2 >=? step_event_count b).
  - unfold plan_discard_current_block. st_simpl.
    rewrite E1, E2, El, <- !app_assoc. reflexivity.
  - rewrite E1, E2, El, <- !app_assoc. reflexivity.
Qed.

End Tick.

(** X5 — an interrupt on a block in progress leaves the direction pins, the
    direction bits and counters, the nominal timer values and the switches
    set from the main loop as they are; it writes step pins, programs the
    comparator exactly once, after the last step write, and hands the block
    back after that when its step events are used up. *)
Theorem block_tick_footprint (cfg : Config) (inp : isr_input) (b : block_t) (s : state) :
  cleaning_buffer_counter s = 0 ->
  current_block s = Some b ->
  let s' := HAL_STEP_TIMER_ISR cfg inp s in
  dir_pin s' = dir_pin s
  /\ out_bits s' = out_bits s
  /\ count_direction s' = count_direction s
  /\ OCR1A_nominal s' = OCR1A_nominal s
  /\ step_loops_nominal s' = step_loops_nominal s
  /\ check_endstops s' = check_endstops s
  /\ performing_homing s' = performing_homing s
  /\ cleaning_buffer_counter s' = 0
  /\ exists l,
       forallb is_step_write l = true
       /\ new_events s s'
          = l ++ TimerCompare (TC_RC s')
              :: (if step_events_completed s' >=? step_event_count b
                  then [DiscardBlock] else []).
Proof.
  intros Hc Hb. cbv zeta. rewrite (isr_running cfg inp b s Hc Hb).
  pose proof (forget_tick_isr_block cfg inp b s) as F.
  repeat split;
    try (match goal with
         | |- ?p (isr_block _ _ _ _) = _ =>
             change (p (forget_tick (isr_block cfg inp b s)) = p (forget_tick s));
             rewrite F; reflexivity
         end).
  - rewrite <- Hc.
    change (cleaning_buffer_counter (forget_tick (isr_block cfg inp b s))
            = cleaning_buffer_counter (forget_tick s)).
    rewrite F. reflexivity.
  - destruct (trace_isr_block cfg inp b s) as (l & Hl & E). exists l. split; [exact Hl|].
    apply new_events_extends. exact E.
Qed.

Lemma block_tick_footprint_witness :
  dir_pin (HAL_STEP_TIMER_ISR cartesian quiet_input x_homing) = dir_pin x_homing.
Proof.
  apply (block_tick_footprint cartesian quiet_input (set_busy true x_homing_block) x_homing);
    reflexivity.
Defined.

(** ** Directions *)

Section Directions.
Variable cfg : Config.

Lemma dir_pin_X_APPLY_DIR v q s m :
  dir_pin (X_APPLY_DIR cfg v q s) m
  = if Motor_in m (step_targets cfg X_AXIS q s) then v else dir_pin s m.
Proof.
  unfold X_APPLY_DIR, step_targets, DIR_WRITE.
  destruct (DUAL_X_CARRIAGE cfg), (extruder_duplication_enabled s || q),
    (negb (cb_active_extruder s =? 0)); st_simpl; unfold upd_motor; destruct m; reflexivity.
Qed.

Lemma dir_pin_Y_APPLY_DIR v q s m :
  dir_pin (Y_APPLY_DIR cfg v q s) m
  = match m with
    | MY => v
    | MY2 => if Y_DUAL_STEPPER_DRIVERS cfg then xorb v (INVERT_Y2_VS_Y_DIR cfg) else dir_pin s m
    | _ => dir_pin s m
    end.
Proof.
  unfold Y_APPLY_DIR, DIR_WRITE.
  destruct (Y_DUAL_STEPPER_DRIVERS cfg); st_simpl; unfold upd_motor; destruct m; reflexivity.
Qed.

Lemma dir_pin_Z_APPLY_DIR v q s m :
  dir_pin (Z_APPLY_DIR cfg v q s) m
  = match m with
    | MZ => v
    | MZ2 => if Z_DUAL_STEPPER_DRIVERS cfg then v else dir_pin s m
    | _ => dir_pin s m
    end.
Proof.
  unfold Z_APPLY_DIR, DIR_WRITE.
  destruct (Z_DUAL_STEPPER_DRIVERS cfg); st_simpl; unfold upd_motor; destruct m; reflexivity.
Qed.

Lemma dir_pin_latch_direction a f s :
  dir_pin (latch_direction cfg a f s) = dir_pin (f (dir_level cfg (out_bits s) a) false s).
Proof. unfold latch_direction, dir_level. cases; reflexivity. Qed.

Lemma dir_pin_latch_e_direction s m :
  dir_pin (latch_e_direction cfg s) m
  = match m with
    | ME => dir_level cfg (out_bits s) E_AXIS
    | _ => dir_pin s m
    end.
Proof.
  unfold latch_e_direction, REV_E_DIR, NORM_E_DIR, dir_level, DIR_WRITE.
  destruct (TEST (out_bits s) (axis_bit cfg E_AXIS)); st_simpl; unfold upd_motor;
    destruct m; reflexivity.
Qed.

Lemma forget_dirs_APPLY_DIR v q s :
  forget_dirs (X_APPLY_DIR cfg v q s) = forget_dirs s
  /\ forget_dirs (Y_APPLY_DIR cfg v q s) = forget_dirs s
  /\ forget_dirs (Z_APPLY_DIR cfg v q s) = forget_dirs s.
Proof.
  unfold X_APPLY_DIR, Y_APPLY_DIR, Z_APPLY_DIR. repeat split; cases; reflexivity.
Qed.

Lemma forget_dirs_latch_direction a f s :
  (forall v q s, forget_dirs (f v q s) = forget_dirs s) ->
  forget_dirs (latch_direction cfg a f s) = forget_dirs s.
Proof.
  intros Hf. unfold latch_direction. cases.
  - transitivity (forget_dirs (f (INVERT_DIR cfg a) false s)); [reflexivity|apply Hf].
  - transitivity (forget_dirs (f (negb (INVERT_DIR cfg a)) false s)); [reflexivity|apply Hf].
Qed.

Lemma forget_dirs_set_stepper_direction s :
  forget_dirs (set_stepper_direction cfg s) = forget_dirs s.
Proof.
  unfold set_stepper_direction. cbv zeta.
  assert (HE : forall s, forget_dirs (latch_e_direction cfg s) = forget_dirs s).
  { intros s'. unfold latch_e_direction, REV_E_DIR, NORM_E_DIR. cases; reflexivity. }
  destruct (ADVANCE cfg); rewrite ?HE;
    rewrite !forget_dirs_latch_direction; try reflexivity;
    intros; apply forget_dirs_APPLY_DIR.
Qed.

(** The direction pins after [set_stepper_direction]. *)
Lemma dir_pin_set_stepper_direction s m :
  dir_pin (set_stepper_direction cfg s) m
  = let lv := dir_level cfg (out_bits s) in
    match m with
    | MX | MX2 => if Motor_in m (step_targets cfg X_AXIS false s) then lv X_AXIS
                  else dir_pin s m
    | MY => lv Y_AXIS
    | MY2 => if Y_DUAL_STEPPER_DRIVERS cfg then xorb (lv Y_AXIS) (INVERT_Y2_VS_Y_DIR cfg)
             else dir_pin s m
    | MZ => lv Z_AXIS
    | MZ2 => if Z_DUAL_STEPPER_DRIVERS cfg then lv Z_AXIS else dir_pin s m
    | ME => if ADVANCE cfg then dir_pin s m else lv E_AXIS
    end.
Proof.
  unfold set_stepper_direction. cbv zeta.
  set (s1 := latch_direction cfg X_AXIS (X_APPLY_DIR cfg) s).
  set (s2 := latch_direction cfg Y_AXIS (Y_APPLY_DIR cfg) s1).
  set (s3 := latch_direction cfg Z_AXIS (Z_APPLY_DIR cfg) s2).
  destruct (latch_direction_effect cfg X_AXIS (X_APPLY_DIR cfg) s) as [O1 _];
    [intros; apply forget_outputs_APPLY_DIR|]. fold s1 in O1.
  destruct (latch_direction_effect cfg Y_AXIS (Y_APPLY_DIR cfg) s1) as [O2 _];
    [intros; apply forget_outputs_APPLY_DIR|]. fold s2 in O2.
  destruct (latch_direction_effect cfg Z_AXIS (Z_APPLY_DIR cfg) s2) as [O3 _];
    [intros; apply forget_outputs_APPLY_DIR|]. fold s3 in O3.
  assert (D1 : forall m, dir_pin s1 m
                = if Motor_in m (step_targets cfg X_AXIS false s)
                  then dir_level cfg (out_bits s) X_AXIS else dir_pin s m).
  { intros m'. unfold s1. rewrite dir_pin_latch_direction. apply dir_pin_X_APPLY_DIR. }
  assert (D2 : forall m, dir_pin s2 m
                = match m with
                  | MY => dir_level cfg (out_bits s) Y_AXIS
                  | MY2 => if Y_DUAL_STEPPER_DRIVERS cfg
                           then xorb (dir_level cfg (out_bits s) Y_AXIS) (INVERT_Y2_VS_Y_DIR cfg)
                           else dir_pin s1 m
                  | _ => dir_pin s1 m
                  end).
  { intros m'. unfold s2. rewrite dir_pin_latch_direction, dir_pin_Y_APPLY_DIR, O1.
    reflexivity. }
  assert (D3 : forall m, dir_pin s3 m
                = match m with
                  | MZ => dir_level cfg (out_bits s) Z_AXIS
                  | MZ2 => if Z_DUAL_STEPPER_DRIVERS cfg
                           then dir_level cfg (out_bits s) Z_AXIS else dir_pin s2 m
                  | _ => dir_pin s2 m
                  end).
  { intros m'. unfold s3. rewrite dir_pin_latch_direction, dir_pin_Z_APPLY_DIR, O2, O1.
    reflexivity. }
  assert (T : forall m', motor_axis m' <> X_AXIS ->
                Motor_in m' (step_targets cfg X_AXIS false s) = false).
  { intros m' Hm. unfold step_targets. cases; destruct m'; try reflexivity;
      exfalso; apply Hm; reflexivity. }
  destruct (ADVANCE cfg); rewrite ?dir_pin_latch_e_direction, ?O3, ?O2, ?O1;
    destruct m; rewrite ?D3, ?D2, ?D1, ?T by discriminate; reflexivity.
Qed.

Lemma out_bits_set_stepper_direction s :
  out_bits (set_stepper_direction cfg s) = out_bits s.
Proof.
  change (out_bits (forget_dirs (set_stepper_direction cfg s)) = out_bits (forget_dirs s)).
  rewrite forget_dirs_set_stepper_direction. reflexivity.
Qed.

Lemma pins_latched_set_stepper_direction s : pins_latched cfg (set_stepper_direction cfg s).
Proof.
  intros m Hm. rewrite dir_pin_set_stepper_direction, out_bits_set_stepper_direction.
  cbv zeta. unfold primary_motors, step_targets in *.
  destruct (DUAL_X_CARRIAGE cfg), (ADVANCE cfg), m; try discriminate Hm; reflexivity.
Qed.

(** Only direction pins are written. *)
Lemma extends_APPLY_DIR_dirs v q s :
  extends is_dir_write s (X_APPLY_DIR cfg v q s)
  /\ extends is_dir_write s (Y_APPLY_DIR cfg v q s)
  /\ extends is_dir_write s (Z_APPLY_DIR cfg v q s).
Proof.
  unfold X_APPLY_DIR, Y_APPLY_DIR, Z_APPLY_DIR. repeat split; cases;
    repeat first [ apply extends_refl
                 | eapply extends_trans; [|apply extends_DIR_WRITE; reflexivity] ].
Qed.

Lemma extends_latch_direction_dirs a f s :
  (forall v q s, extends is_dir_write s (f v q s)) ->
  extends is_dir_write s (latch_direction cfg a f s).
Proof.
  intros Hf. unfold latch_direction. cases;
    (eapply extends_trans; [apply Hf | apply extends_same; reflexivity]).
Qed.

Lemma extends_set_stepper_direction_dirs s :
  extends is_dir_write s (set_stepper_direction cfg s).
Proof.
  unfold set_stepper_direction. cbv zeta.
  assert (HE : forall s, extends is_dir_write s (latch_e_direction cfg s)).
  { intros s'. unfold latch_e_direction, REV_E_DIR, NORM_E_DIR. cases;
      (eapply extends_trans; [apply extends_DIR_WRITE; reflexivity
                             | apply extends_same; reflexivity]). }
  assert (HX : forall s, extends is_dir_write s (latch_direction cfg X_AXIS (X_APPLY_DIR cfg) s))
    by (intros; apply extends_latch_direction_dirs; intros; apply extends_APPLY_DIR_dirs).
  assert (HY : forall s, extends is_dir_write s (latch_direction cfg Y_AXIS (Y_APPLY_DIR cfg) s))
    by (intros; apply extends_latch_direction_dirs; intros; apply extends_APPLY_DIR_dirs).
  assert (HZ : forall s, extends is_dir_write s (latch_direction cfg Z_AXIS (Z_APPLY_DIR cfg) s))
    by (intros; apply extends_latch_direction_dirs; intros; apply extends_APPLY_DIR_dirs).
  destruct (ADVANCE cfg).
  - eapply extends_trans; [|apply HZ]. eapply extends_trans; [|apply HY]. apply HX.
  - eapply extends_trans; [|apply HE].
    eapply extends_trans; [|apply HZ]. eapply extends_trans; [|apply HY]. apply HX.
Qed.

End Directions.

(** X6 — [set_stepper_direction], called where its read of the block pointer
    is defined (a build with one X carriage, or duplication on, or a block
    in hand), writes to the direction pins of every axis the level its bit
    of [out_bits] asks for (inverted per axis, and for the second Y driver),
    and sets [count_direction] to -1 or +1 to match; with [ADVANCE] the
    extruder is left out.  It touches nothing but direction pins and
    [count_direction]. *)
Theorem set_stepper_direction_latches (cfg : Config) (s : state) :
  block_pointer_read_defined cfg s ->
  let s' := set_stepper_direction cfg s in
  let lv := dir_level cfg (out_bits s) in
  forget_dirs s' = forget_dirs s
  /\ (forall a, (a = E_AXIS -> ADVANCE cfg = false) ->
        count_direction s' a = if TEST (out_bits s) (axis_bit cfg a) then -1 else 1)
  /\ (forall m, Motor_in m (step_targets cfg X_AXIS false s) = true ->
        dir_pin s' m = lv X_AXIS)
  /\ dir_pin s' MY = lv Y_AXIS
  /\ (Y_DUAL_STEPPER_DRIVERS cfg = true ->
        dir_pin s' MY2 = xorb (lv Y_AXIS) (INVERT_Y2_VS_Y_DIR cfg))
  /\ dir_pin s' MZ = lv Z_AXIS
  /\ (Z_DUAL_STEPPER_DRIVERS cfg = true -> dir_pin s' MZ2 = lv Z_AXIS)
  /\ (if ADVANCE cfg
      then dir_pin s' ME = dir_pin s ME /\ count_direction s' E_AXIS = count_direction s E_AXIS
      else dir_pin s' ME = lv E_AXIS)
  /\ forallb is_dir_write (new_events s s') = true.
Proof.
  intros _. cbv zeta. repeat split.
  - apply forget_dirs_set_stepper_direction.
  - intros a Ha. apply set_stepper_direction_latched, Ha.
  - intros m Hm. rewrite dir_pin_set_stepper_direction. cbv zeta.
    assert (Hx : motor_axis m = X_AXIS).
    { unfold step_targets in Hm. revert Hm. cases; destruct m; try discriminate; reflexivity. }
    destruct m; try discriminate Hx; rewrite Hm; reflexivity.
  - apply dir_pin_set_stepper_direction.
  - intros H. rewrite dir_pin_set_stepper_direction, H. reflexivity.
  - apply dir_pin_set_stepper_direction.
  - intros H. rewrite dir_pin_set_stepper_direction, H. reflexivity.
  - destruct (ADVANCE cfg) eqn:HA.
    + split.
      * rewrite dir_pin_set_stepper_direction, HA. reflexivity.
      * unfold set_stepper_direction. rewrite HA. cbv zeta.
        rewrite (proj2 (latch_direction_effect cfg Z_AXIS (Z_APPLY_DIR cfg) _
                          ltac:(intros; apply forget_outputs_APPLY_DIR))).
        rewrite (proj2 (latch_direction_effect cfg Y_AXIS (Y_APPLY_DIR cfg) _
                          ltac:(intros; apply forget_outputs_APPLY_DIR))).
        rewrite (proj2 (latch_direction_effect cfg X_AXIS (X_APPLY_DIR cfg) _
                          ltac:(intros; apply forget_outputs_APPLY_DIR))).
        reflexivity.
    + rewrite dir_pin_set_stepper_direction, HA. reflexivity.
  - destruct (extends_set_stepper_direction_dirs cfg s) as (l & E & Hl).
    rewrite (new_events_extends _ _ _ E). exact Hl.
Qed.

(** The second carriage of a dual-carriage build, its block in hand. *)
Lemma set_stepper_direction_latches_witness :
  dir_pin (set_stepper_direction dual_x_build second_carriage_started) MX2
  = dir_level dual_x_build (out_bits second_carriage_started) X_AXIS.
Proof.
  assert (D : block_pointer_read_defined dual_x_build second_carriage_started)
    by (intros _ _; vm_compute; discriminate).
  destruct (set_stepper_direction_latches dual_x_build second_carriage_started D)
    as (_ & _ & H & _).
  apply H. reflexivity.
Defined.

Section Reset.
Variable cfg : Config.

Lemma reset_direction_part b s :
  forget_reset
    (if negb (direction_bits b =? out_bits s)
     then set_stepper_direction cfg (set_out_bits (direction_bits b) s) else s)
  = forget_reset s.
Proof.
  destruct (negb (direction_bits b =? out_bits s)); [|reflexivity].
  transitivity (forget_reset (set_stepper_direction cfg (set_out_bits (direction_bits b) s)));
    [reflexivity|].
  rewrite (forget_reset_direction _ _ (forget_direction_set_stepper_direction _ _)).
  reflexivity.
Qed.

(** The reset is the direction part followed by assignments to the rates. *)
Lemma trapezoid_generator_reset_split b s :
  let s0 := if negb (direction_bits b =? out_bits s)
            then set_stepper_direction cfg (set_out_bits (direction_bits b) s) else s in
  let s' := trapezoid_generator_reset cfg b s in
  out_bits s' = out_bits s0
  /\ dir_pin s' = dir_pin s0
  /\ count_direction s' = count_direction s0
  /\ trace s' = trace s0
  /\ deceleration_time s' = 0
  /\ OCR1A_nominal s' = timer_of cfg (nominal_rate b)
  /\ step_loops_nominal s' = loops_of cfg (nominal_rate b)
  /\ acc_step_rate s' = initial_rate b
  /\ acceleration_time s' = int32 (timer_of cfg (initial_rate b))
  /\ step_loops s' = loops_of cfg (initial_rate b).
Proof.
  cbv zeta. unfold trapezoid_generator_reset, advance_e_steps. cbv zeta.
  rewrite !calc_timer_eq.
  assert (U : uint16 (loops_of cfg (nominal_rate b)) = loops_of cfg (nominal_rate b)).
  { destruct (loops_of_cases cfg (nominal_rate b)) as [H|[H|H]]; rewrite H; reflexivity. }
  destruct (negb (direction_bits b =? out_bits s)), (ADVANCE cfg); st_simpl;
    rewrite U; repeat split; reflexivity.
Qed.

Lemma step_pin_trapezoid_generator_reset b s :
  step_pin (trapezoid_generator_reset cfg b s) = step_pin s.
Proof.
  transitivity
    (step_pin (if negb (direction_bits b =? out_bits s)
               then set_stepper_direction cfg (set_out_bits (direction_bits b) s) else s)).
  - unfold trapezoid_generator_reset, advance_e_steps. cbv zeta. rewrite !calc_timer_eq.
    destruct (negb (direction_bits b =? out_bits s)), (ADVANCE cfg); reflexivity.
  - destruct (negb (direction_bits b =? out_bits s)); [|reflexivity].
    change (step_pin (forget_dirs (set_stepper_direction cfg (set_out_bits (direction_bits b) s)))
            = step_pin (forget_dirs (set_out_bits (direction_bits b) s))).
    rewrite forget_dirs_set_stepper_direction. reflexivity.
Qed.

Lemma out_bits_trapezoid_generator_reset b s :
  out_bits (trapezoid_generator_reset cfg b s) = direction_bits b.
Proof.
  rewrite (proj1 (trapezoid_generator_reset_split b s)).
  destruct (Z.eqb_spec (direction_bits b) (out_bits s)) as [E|E]; cbn [negb].
  - symmetry. exact E.
  - rewrite out_bits_set_stepper_direction. reflexivity.
Qed.

Lemma pins_latched_trapezoid_generator_reset b s :
  pins_latched cfg s -> pins_latched cfg (trapezoid_generator_reset cfg b s).
Proof.
  intros HP m Hm. destruct (trapezoid_generator_reset_split b s) as (_ & D & _).
  cbv zeta in D. rewrite D, out_bits_trapezoid_generator_reset.
  destruct (Z.eqb_spec (direction_bits b) (out_bits s)) as [E|E]; cbn [negb].
  - rewrite E. apply HP, Hm.
  - rewrite (pins_latched_set_stepper_direction cfg _ m Hm), out_bits_set_stepper_direction.
    reflexivity.
Qed.

Lemma directions_latched_trapezoid_generator_reset b s :
  directions_latched cfg s -> directions_latched cfg (trapezoid_generator_reset cfg b s).
Proof.
  intros HL a Ha. rewrite (trapezoid_generator_reset_direction cfg b s a Ha HL).
  rewrite out_bits_trapezoid_generator_reset. reflexivity.
Qed.

End Reset.

(** X7 — [trapezoid_generator_reset] leaves [out_bits] equal to the
    block's direction bits whichever branch it takes, writes direction pins
    only when the bits differ from the ones in force, and starts the ramp:
    no deceleration time, the initial rate, the nominal interval and loop
    count noted for the cruise.  Directions that were latched stay so. *)
Theorem trapezoid_generator_reset_starts_block (cfg : Config) (b : block_t) (s : state) :
  let s' := trapezoid_generator_reset cfg b s in
  out_bits s' = direction_bits b
  /\ forget_reset s' = forget_reset s
  /\ (direction_bits b = out_bits s ->
        trace s' = trace s /\ dir_pin s' = dir_pin s /\ count_direction s' = count_direction s)
  /\ forallb is_dir_write (new_events s s') = true
  /\ deceleration_time s' = 0
  /\ acc_step_rate s' = initial_rate b
  /\ OCR1A_nominal s' = fst (calc_timer cfg (nominal_rate b) s)
  /\ step_loops_nominal s' = step_loops (snd (calc_timer cfg (nominal_rate b) s))
  /\ acceleration_time s' = int32 (fst (calc_timer cfg (initial_rate b) s))
  /\ step_loops s' = step_loops (snd (calc_timer cfg (initial_rate b) s))
  /\ (directions_latched cfg s -> directions_latched cfg s')
  /\ (pins_latched cfg s -> pins_latched cfg s').
Proof.
  cbv zeta. rewrite !calc_timer_eq. st_simpl.
  destruct (trapezoid_generator_reset_split cfg b s)
    as (H1 & H2 & H3 & H4 & H5 & H6 & H7 & H8 & H9 & H10). cbv zeta in *.
  repeat split; try assumption.
  - apply out_bits_trapezoid_generator_reset.
  - apply forget_reset_trapezoid_generator_reset.
  - rewrite H4. apply Z.eqb_eq in H. rewrite H. reflexivity.
  - rewrite H2. apply Z.eqb_eq in H. rewrite H. reflexivity.
  - rewrite H3. apply Z.eqb_eq in H. rewrite H. reflexivity.
  - assert (E : extends is_dir_write s (trapezoid_generator_reset cfg b s)).
    { destruct (negb (direction_bits b =? out_bits s)).
      - destruct (extends_set_stepper_direction_dirs cfg (set_out_bits (direction_bits b) s))
          as (l & E & Hl).
        exists l. split; [rewrite H4; exact E|exact Hl].
      - apply extends_same. exact H4. }
    destruct E as (l & E & Hl). rewrite (new_events_extends _ _ _ E). exact Hl.
  - apply directions_latched_trapezoid_generator_reset.
  - apply pins_latched_trapezoid_generator_reset.
Qed.

(** ** Taking up a block *)

Section Acquisition.
Variable cfg : Config.
Variable inp : isr_input.

(** The state in which the reset of a fresh block runs, and the state it
    leaves before the first tick. *)
Lemma isr_acquire_fresh_facts b0 rest s :
  current_block s = None -> block_buffer s = b0 :: rest ->
  let b := set_busy true b0 in
  let r := trapezoid_generator_reset cfg b
             (set_current_block (Some b) (set_block_buffer (b :: rest) s)) in
  let s1 := fst (isr_acquire cfg inp s) in
  let late := Z_LATE_ENABLE cfg && (steps b Z_AXIS >? 0) in
  snd (isr_acquire cfg inp s) = late
  /\ forget_pulses s1 = forget_pulses (set_step_events_completed 0
                                         (set_counter (fun _ => int32 (uint32 (- Z.shiftr (step_event_count b) 1))) r))
  /\ step_pin s1 = step_pin r
  /\ TC_RC s1 = TC_RC r
  /\ trace s1 = trace r ++ (if late then [EnableAxis Z_AXIS;
                                          TimerSetCount (HAL_TIMER_RATE cfg / 1000)] else []).
Proof.
  intros Hb Hq. cbv zeta. rewrite (isr_acquire_fresh cfg inp b0 rest s Hb Hq). cbv zeta.
  destruct (Z_LATE_ENABLE cfg && (steps (set_busy true b0) Z_AXIS >? 0)); cbn [fst snd].
  - repeat split; try reflexivity. st_simpl. rewrite <- app_assoc. reflexivity.
  - repeat split; try reflexivity. st_simpl. rewrite app_nil_r. reflexivity.
Qed.

Lemma current_block_reset b s :
  current_block (trapezoid_generator_reset cfg b s) = current_block s
  /\ block_buffer (trapezoid_generator_reset cfg b s) = block_buffer s
  /\ cleaning_buffer_counter (trapezoid_generator_reset cfg b s) = cleaning_buffer_counter s
  /\ count_position (trapezoid_generator_reset cfg b s) = count_position s
  /\ check_endstops (trapezoid_generator_reset cfg b s) = check_endstops s
  /\ forget_check (forget_reset (trapezoid_generator_reset cfg b s)) = forget_check (forget_reset s).
Proof.
  pose proof (forget_reset_trapezoid_generator_reset cfg b s) as F.
  repeat split;
    try (match goal with
         | |- ?p (trapezoid_generator_reset _ _ _) = _ =>
             change (p (forget_reset (trapezoid_generator_reset cfg b s)) = p (forget_reset s));
             rewrite F; reflexivity
         end).
  rewrite F. reflexivity.
Qed.

(** A variable that neither a tick on a block nor the flush writes is, after
    an interrupt, what it was before, or what the reset of a fresh block
    made it. *)
Section Field.
Context {A : Type} (p : state -> A).
Hypothesis p_tick : forall x, p (forget_tick x) = p x.
Hypothesis p_flush : forall v x, p (set_cleaning_buffer_counter v x) = p x.

Lemma ISR_field_kept s :
  cleaning_buffer_counter s <> 0 \/ current_block s <> None \/ block_buffer s = [] ->
  p (HAL_STEP_TIMER_ISR cfg inp s) = p s.
Proof.
  intros H.
  destruct (Z.eqb_spec (cleaning_buffer_counter s) 0) as [Hc|Hc].
  2:{ rewrite (ISR_flushing cfg inp s Hc). rewrite <- p_tick.
      change (p (forget_tick
                   (set_cleaning_buffer_counter (uint32 (cleaning_buffer_counter s - 1)) s))
              = p s).
      rewrite p_tick. apply p_flush. }
  destruct (current_block s) as [b|] eqn:Hb.
  { rewrite (isr_running cfg inp b s Hc Hb).
    rewrite <- p_tick, forget_tick_isr_block. apply p_tick. }
  destruct H as [H|[H|H]]; [contradiction|contradiction|].
  rewrite (ISR_idle cfg inp s Hc Hb H). rewrite <- p_tick.
  change (p (forget_tick s) = p s). apply p_tick.
Qed.

Lemma ISR_field_fresh b0 rest s :
  cleaning_buffer_counter s = 0 -> current_block s = None -> block_buffer s = b0 :: rest ->
  p (HAL_STEP_TIMER_ISR cfg inp s)
  = p (trapezoid_generator_reset cfg (set_busy true b0)
         (set_current_block (Some (set_busy true b0))
            (set_block_buffer (set_busy true b0 :: rest) s))).
Proof.
  intros Hc Hb Hq.
  destruct (ISR_unflushed cfg inp s Hc) as [E _]. rewrite E. clear E.
  destruct (isr_acquire_fresh_facts b0 rest s Hb Hq) as (_ & A2 & _). cbv zeta in A2.
  set (b := set_busy true b0) in *.
  set (r := trapezoid_generator_reset cfg b
              (set_current_block (Some b) (set_block_buffer (b :: rest) s))) in *.
  set (s1 := fst (isr_acquire cfg inp s)) in *.
  assert (C1 : current_block s1 = Some b).
  { change (current_block (forget_pulses s1) = Some b). rewrite A2.
    change (current_block r = Some b).
    unfold r. rewrite (proj1 (current_block_reset _ _)). reflexivity. }
  assert (P1 : p s1 = p r).
  { rewrite <- (p_tick s1), (forget_tick_pulses _ _ A2). change (p (forget_tick r) = p r).
    apply p_tick. }
  destruct (snd (isr_acquire cfg inp s)); [exact P1|].
  rewrite C1, <- p_tick, forget_tick_isr_block, p_tick. exact P1.
Qed.

End Field.

(** The block in hand after an interrupt. *)
Lemma ISR_current_block s :
  let s' := HAL_STEP_TIMER_ISR cfg inp s in
  current_block s' = None
  \/ (cleaning_buffer_counter s = 0 /\ current_block s' = current_block s)
  \/ (exists b0 rest,
        cleaning_buffer_counter s = 0 /\ current_block s = None /\ block_buffer s = b0 :: rest
        /\ current_block s' = Some (set_busy true b0)).
Proof.
  cbv zeta.
  assert (K : forall b x, current_block x = Some b ->
                current_block (isr_block cfg inp b x) = None
                \/ current_block (isr_block cfg inp b x) = Some b).
  { intros b x Hx. rewrite isr_block_eq.
    set (s2 := isr_steps cfg b (isr_endstops cfg inp b x)).
    assert (H2 : current_block s2 = Some b).
    { rewrite <- Hx. unfold s2.
      transitivity (current_block (isr_endstops cfg inp b x)).
      - by_frame forget_ticks (forget_ticks_isr_steps cfg b (isr_endstops cfg inp b x)).
      - by_frame forget_check (forget_check_isr_endstops cfg inp b x). }
    destruct (Z_ge_lt_dec (step_events_completed s2) (step_event_count b)) as [G|G].
    - left. apply (isr_finish_release cfg inp b s2 G).
    - right. rewrite (proj1 (isr_finish_keep cfg inp b s2 G)). exact H2. }
  destruct (Z.eqb_spec (cleaning_buffer_counter s) 0) as [Hc|Hc].
  2:{ left. rewrite (ISR_flushing cfg inp s Hc). reflexivity. }
  destruct (current_block s) as [b|] eqn:Hb.
  { rewrite (isr_running cfg inp b s Hc Hb).
    destruct (K b s Hb) as [N|N]; [left; exact N|right; left; split; [exact Hc|exact N]]. }
  destruct (block_buffer s) as [|b0 rest] eqn:Hq.
  { left. rewrite (ISR_idle cfg inp s Hc Hb Hq). exact Hb. }
  destruct (ISR_unflushed cfg inp s Hc) as [E _]. rewrite E. clear E.
  destruct (isr_acquire_fresh_facts b0 rest s Hb Hq) as (_ & A2 & _). cbv zeta in A2.
  set (b := set_busy true b0) in *.
  set (s1 := fst (isr_acquire cfg inp s)) in *.
  assert (C1 : current_block s1 = Some b).
  { change (current_block (forget_pulses s1) = Some b). rewrite A2.
    match goal with
    | |- current_block (forget_pulses (set_step_events_completed _ (set_counter _ ?r))) = _ =>
        change (current_block r = Some b)
    end.
    rewrite (proj1 (current_block_reset _ _)). reflexivity. }
  destruct (snd (isr_acquire cfg inp s)).
  { right. right. exists b0, rest. repeat split; try assumption; reflexivity. }
  rewrite C1. destruct (K b s1 C1) as [N|N]; [left; exact N|].
  right. right. exists b0, rest. repeat split; try assumption; reflexivity.
Qed.

Lemma ISR_keeps_latched s :
  directions_latched cfg s -> pins_latched cfg s -> bits_of_block s ->
  directions_latched cfg (HAL_STEP_TIMER_ISR cfg inp s)
  /\ pins_latched cfg (HAL_STEP_TIMER_ISR cfg inp s)
  /\ bits_of_block (HAL_STEP_TIMER_ISR cfg inp s).
Proof.
  intros HL HP HB.
  destruct (Z.eqb_spec (cleaning_buffer_counter s) 0) as [Hc|Hc];
    [destruct (current_block s) as [b|] eqn:Hb;
     [|destruct (block_buffer s) as [|b0 rest] eqn:Hq]|].
  4:{ assert (K : cleaning_buffer_counter s <> 0 \/ current_block s <> None
                  \/ block_buffer s = []) by (left; exact Hc).
      repeat split.
      - intros a Ha. rewrite (ISR_field_kept out_bits), (ISR_field_kept count_direction);
          try reflexivity; try exact K. apply HL, Ha.
      - intros m Hm. rewrite (ISR_field_kept out_bits), (ISR_field_kept dir_pin);
          try reflexivity; try exact K. apply HP, Hm.
      - intros b' Hb'. rewrite (ISR_flushing cfg inp s Hc) in Hb'. discriminate Hb'. }
  - assert (K : cleaning_buffer_counter s <> 0 \/ current_block s <> None
                \/ block_buffer s = []) by (right; left; rewrite Hb; discriminate).
    repeat split.
    + intros a Ha. rewrite (ISR_field_kept out_bits), (ISR_field_kept count_direction);
        try reflexivity; try exact K. apply HL, Ha.
    + intros m Hm. rewrite (ISR_field_kept out_bits), (ISR_field_kept dir_pin);
        try reflexivity; try exact K. apply HP, Hm.
    + intros b' Hb'. rewrite (ISR_field_kept out_bits); try reflexivity; try exact K.
      apply HB.
      destruct (ISR_current_block s) as [N|[[_ N]|(b0 & rest & _ & N & _)]].
      * rewrite N in Hb'. discriminate Hb'.
      * rewrite <- N. exact Hb'.
      * rewrite Hb in N. discriminate N.
  - assert (K : cleaning_buffer_counter s <> 0 \/ current_block s <> None
                \/ block_buffer s = []) by (right; right; exact Hq).
    repeat split.
    + intros a Ha. rewrite (ISR_field_kept out_bits), (ISR_field_kept count_direction);
        try reflexivity; try exact K. apply HL, Ha.
    + intros m Hm. rewrite (ISR_field_kept out_bits), (ISR_field_kept dir_pin);
        try reflexivity; try exact K. apply HP, Hm.
    + intros b' Hb'. rewrite (ISR_idle cfg inp s Hc Hb Hq) in Hb'.
      change (current_block s = Some b') in Hb'. rewrite Hb in Hb'. discriminate Hb'.
  - set (b := set_busy true b0).
    set (s0 := set_current_block (Some b) (set_block_buffer (b :: rest) s)).
    repeat split.
    + intros a Ha.
      rewrite (ISR_field_fresh out_bits ltac:(reflexivity) b0 rest s Hc Hb Hq).
      rewrite (ISR_field_fresh count_direction ltac:(reflexivity) b0 rest s Hc Hb Hq).
      apply (directions_latched_trapezoid_generator_reset cfg b s0 HL a Ha).
    + intros m Hm.
      rewrite (ISR_field_fresh out_bits ltac:(reflexivity) b0 rest s Hc Hb Hq).
      rewrite (ISR_field_fresh dir_pin ltac:(reflexivity) b0 rest s Hc Hb Hq).
      apply (pins_latched_trapezoid_generator_reset cfg b s0 HP m Hm).
    + intros b' Hb'.
      rewrite (ISR_field_fresh out_bits ltac:(reflexivity) b0 rest s Hc Hb Hq).
      rewrite out_bits_trapezoid_generator_reset.
      destruct (ISR_current_block s) as [N|[[_ N]|(b1 & rest1 & _ & _ & Q & N)]].
      * rewrite N in Hb'. discriminate Hb'.
      * rewrite N, Hb in Hb'. discriminate Hb'.
      * rewrite Hq in Q. injection Q as <- <-. rewrite N in Hb'. injection Hb' as <-.
        reflexivity.
Qed.

End Acquisition.

(** X8 — the direction outputs follow the blocks.  If [count_direction] and
    the direction pins of the first drivers show [out_bits], and [out_bits]
    is the direction of the block in hand, this is still so after any number
    of interrupts: while a block is in hand every axis counts in the block's
    direction and the direction pin of its first driver shows it.  The pins
    meant are those of [primary_motors]: the X carriages of a dual-carriage
    build, latched one at a time, are not among them, nor are the second Y
    and Z drivers. *)
Theorem directions_follow_blocks (cfg : Config) (inps : list isr_input) (s : state) :
  directions_latched cfg s -> pins_latched cfg s -> bits_of_block s ->
  let s' := run cfg inps s in
  directions_latched cfg s' /\ pins_latched cfg s' /\ bits_of_block s'
  /\ (forall b, current_block s' = Some b ->
        (forall a, (a = E_AXIS -> ADVANCE cfg = false) ->
                   count_direction s' a = block_dir cfg b a)
        /\ (forall m, Motor_in m (primary_motors cfg) = true ->
                      dir_pin s' m = dir_level cfg (direction_bits b) (motor_axis m))).
Proof.
  revert s. induction inps as [|inp inps IH]; intros s HL HP HB; cbn [run].
  - cbv zeta. repeat split; try assumption.
    + intros a Ha. rewrite (HL a Ha), (HB b H). reflexivity.
    + intros m Hm. rewrite (HP m Hm), (HB b H). reflexivity.
  - destruct (ISR_keeps_latched cfg inp s HL HP HB) as (HL' & HP' & HB').
    apply (IH _ HL' HP' HB').
Qed.

Lemma directions_follow_blocks_witness :
  directions_latched cartesian
    (run cartesian [quiet_input; quiet_input]
       (enqueue diagonal_block (set_stepper_direction cartesian power_on))).
Proof.
  apply (directions_follow_blocks cartesian [quiet_input; quiet_input]
           (enqueue diagonal_block (set_stepper_direction cartesian power_on))).
  - intros a _. destruct a; reflexivity.
  - intros m Hm. destruct m; try discriminate Hm; reflexivity.
  - intros b H. discriminate H.
Defined.

Section Paths.
Variable cfg : Config.
Variable inp : isr_input.

Lemma trace_isr_cleaning s :
  trace (isr_cleaning cfg inp s)
  = trace s ++ [DiscardBlock; TimerCompare (rearm (HAL_TIMER_RATE cfg / 200) inp)].
Proof.
  unfold isr_cleaning. cbv zeta.
  rewrite (proj2 (TC_RC_HAL_timer_stepper_count _ _ _)).
  unfold plan_discard_current_block. st_simpl. rewrite <- app_assoc. reflexivity.
Qed.

Lemma filter_none (P Q : event -> bool) l :
  (forall e, P e = true -> Q e = false) -> forallb P l = true -> filter Q l = [].
Proof.
  intros H. induction l as [|e l IH]; [reflexivity|]. cbn [forallb filter]. intros Hl.
  apply andb_prop in Hl. destruct Hl as [He Hl]. rewrite (H e He). apply IH, Hl.
Qed.

Lemma timer_events_app l1 l2 : timer_events (l1 ++ l2) = timer_events l1 ++ timer_events l2.
Proof. apply filter_app. Qed.

Lemma timer_events_steps l : forallb is_step_write l = true -> timer_events l = [].
Proof. apply filter_none. intros [] H; try discriminate H; reflexivity. Qed.

Lemma timer_events_dirs l : forallb is_dir_write l = true -> timer_events l = [].
Proof. apply filter_none. intros [] H; try discriminate H; reflexivity. Qed.

Lemma timer_events_isr_block b s l0 s0 :
  trace s = trace s0 ++ l0 -> timer_events l0 = [] ->
  length (timer_events (new_events s0 (isr_block cfg inp b s))) = 1%nat.
Proof.
  intros E0 T0. destruct (trace_isr_block cfg inp b s) as (l & Hl & E).
  rewrite E0, <- app_assoc in E. rewrite (new_events_extends _ _ _ E).
  rewrite !timer_events_app, T0, (timer_events_steps l Hl).
  destruct (step_events_completed (isr_block cfg inp b s) >=? step_event_count b); reflexivity.
Qed.

(** The trace of the reset of a fresh block. *)
Lemma trace_reset_dirs b s :
  exists l, trace (trapezoid_generator_reset cfg b s) = trace s ++ l
            /\ forallb is_dir_write l = true.
Proof.
  destruct (trapezoid_generator_reset_split cfg b s) as (_ & _ & _ & H4 & _). cbv zeta in H4.
  destruct (negb (direction_bits b =? out_bits s)).
  - destruct (extends_set_stepper_direction_dirs cfg (set_out_bits (direction_bits b) s))
      as (l & E & Hl).
    exists l. split; [rewrite H4; exact E|exact Hl].
  - exists []. rewrite app_nil_r. split; [exact H4|reflexivity].
Qed.

End Paths.

(** X9 — whatever path the handler takes, it programs the step timer exactly
    once per invocation: the flush, the idle poll, the wait for a
    late-enabled Z driver and every tick on a block each end in one write of
    the comparator or the counter. *)
Theorem ISR_programs_timer_once (cfg : Config) (inp : isr_input) (s : state) :
  length (timer_events (new_events s (HAL_STEP_TIMER_ISR cfg inp s))) = 1%nat.
Proof.
  destruct (Z.eqb_spec (cleaning_buffer_counter s) 0) as [Hc|Hc].
  2:{ rewrite (ISR_flushing cfg inp s Hc).
      rewrite (new_events_extends _ _ _ (trace_isr_cleaning cfg inp s)). reflexivity. }
  destruct (current_block s) as [b|] eqn:Hb.
  { rewrite (isr_running cfg inp b s Hc Hb).
    apply (timer_events_isr_block cfg inp b s [] s); [|reflexivity].
    rewrite app_nil_r. reflexivity. }
  destruct (block_buffer s) as [|b0 rest] eqn:Hq.
  { rewrite (ISR_idle cfg inp s Hc Hb Hq).
    rewrite (new_events_extends _ _ _ (proj2 (TC_RC_HAL_timer_stepper_count _ _ _))).
    reflexivity. }
  destruct (ISR_unflushed cfg inp s Hc) as [E _]. rewrite E. clear E.
  destruct (isr_acquire_fresh_facts cfg inp b0 rest s Hb Hq) as (A1 & A2 & _ & _ & A5).
  cbv zeta in A1, A2, A5.
  set (b := set_busy true b0) in *.
  set (s0 := set_current_block (Some b) (set_block_buffer (b :: rest) s)) in *.
  destruct (trace_reset_dirs cfg b s0) as (l & El & Hl).
  change (trace s0) with (trace s) in El. rewrite El in A5.
  set (s1 := fst (isr_acquire cfg inp s)) in *.
  assert (C1 : current_block s1 = Some b).
  { change (current_block (forget_pulses s1) = Some b). rewrite A2.
    change (current_block (trapezoid_generator_reset cfg b s0) = Some b).
    rewrite (proj1 (current_block_reset _ _ _)). reflexivity. }
  rewrite A1. destruct (Z_LATE_ENABLE cfg && (steps b Z_AXIS >? 0)).
  - rewrite <- app_assoc in A5. rewrite (new_events_extends _ _ _ A5).
    rewrite timer_events_app, (timer_events_dirs l Hl). reflexivity.
  - rewrite C1. rewrite app_nil_r in A5.
    apply (timer_events_isr_block cfg inp b s1 l s A5), timer_events_dirs, Hl.
Qed.

Lemma isr_acquire_fresh_effect (cfg : Config) (inp : isr_input) (b0 : block_t)
    (rest : list block_t) (s : state) :
  current_block s = None ->
  block_buffer s = b0 :: rest ->
  let s1 := fst (isr_acquire cfg inp s) in
  current_block s1 = Some (set_busy true b0)
  /\ block_buffer s1 = set_busy true b0 :: rest
  /\ snd (isr_acquire cfg inp s) = Z_LATE_ENABLE cfg && (steps b0 Z_AXIS >? 0)
  /\ step_events_completed s1 = 0
  /\ (forall a, counter s1 a = int32 (uint32 (- Z.shiftr (step_event_count b0) 1)))
  /\ (0 <= step_event_count b0 < 2 ^ 32 ->
      forall a, counter s1 a = - (step_event_count b0 / 2))
  /\ out_bits s1 = direction_bits b0
  /\ count_position s1 = count_position s
  /\ step_pin s1 = step_pin s
  /\ endstop_hit_bits s1 = endstop_hit_bits s
  /\ old_endstop_bits s1 = old_endstop_bits s
  /\ endstops_trigsteps s1 = endstops_trigsteps s
  /\ exists l,
       forallb is_dir_write l = true
       /\ new_events s s1
          = l ++ (if Z_LATE_ENABLE cfg && (steps b0 Z_AXIS >? 0)
                  then [EnableAxis Z_AXIS; TimerSetCount (HAL_TIMER_RATE cfg / 1000)]
                  else []).
Proof.
  intros Hb Hq. cbv zeta.
  destruct (isr_acquire_fresh_facts cfg inp b0 rest s Hb Hq) as (A1 & A2 & A3 & _ & A5).
  cbv zeta in A1, A2, A3, A5.
  set (b := set_busy true b0) in *.
  set (s0 := set_current_block (Some b) (set_block_buffer (b :: rest) s)) in *.
  set (s1 := fst (isr_acquire cfg inp s)) in *.
  set (r := trapezoid_generator_reset cfg b s0) in *.
  destruct (current_block_reset cfg b s0) as (R1 & R2 & R3 & R4 & R5 & R6). fold r in R1, R2, R3, R4, R5, R6.
  assert (P : forall (A : Type) (p : state -> A),
            (forall x, p (forget_pulses x) = p x) ->
            p s1 = p (set_step_events_completed 0
                        (set_counter
                           (fun _ => int32 (uint32 (- Z.shiftr (step_event_count b) 1))) r))).
  { intros A p Hp. rewrite <- (Hp s1), A2, Hp. reflexivity. }
  repeat split.
  - rewrite (P _ current_block) by reflexivity. exact R1.
  - rewrite (P _ block_buffer) by reflexivity. exact R2.
  - exact A1.
  - rewrite (P _ step_events_completed) by reflexivity. reflexivity.
  - intros a. rewrite (P _ counter) by reflexivity. reflexivity.
  - intros HN a. rewrite (P _ counter) by reflexivity. st_simpl.
    change (step_event_count b) with (step_event_count b0).
    rewrite Z.shiftr_div_pow2 by lia. change (2 ^ 1) with 2.
    rewrite int32_uint32. apply int32_small.
    assert (0 <= step_event_count b0 / 2 < 2 ^ 31).
    { split; [apply Z.div_pos; lia|apply Z.div_lt_upper_bound; lia]. }
    lia.
  - rewrite (P _ out_bits) by reflexivity. exact (out_bits_trapezoid_generator_reset cfg b s0).
  - rewrite (P _ count_position) by reflexivity. exact R4.
  - rewrite A3. exact (step_pin_trapezoid_generator_reset cfg b s0).
  - rewrite (P _ endstop_hit_bits) by reflexivity.
    change (endstop_hit_bits (forget_reset r) = endstop_hit_bits (forget_reset s0)).
    unfold r. rewrite forget_reset_trapezoid_generator_reset. reflexivity.
  - rewrite (P _ old_endstop_bits) by reflexivity.
    change (old_endstop_bits (forget_reset r) = old_endstop_bits (forget_reset s0)).
    unfold r. rewrite forget_reset_trapezoid_generator_reset. reflexivity.
  - rewrite (P _ endstops_trigsteps) by reflexivity.
    change (endstops_trigsteps (forget_reset r) = endstops_trigsteps (forget_reset s0)).
    unfold r. rewrite forget_reset_trapezoid_generator_reset. reflexivity.
  - destruct (trace_reset_dirs cfg b s0) as (l & El & Hl). fold r in El.
    change (trace s0) with (trace s) in El. rewrite El, <- app_assoc in A5.
    exists l. split; [exact Hl|]. apply new_events_extends. exact A5.
Qed.


(** X10 — taking up a block.  With no block in hand the handler peeks at the
    head of the queue, marks it busy without removing it, resets the
    trapezoid, puts every Bresenham counter at minus half the step event
    count and the step event counter at zero, and writes nothing but
    direction pins; the position counters and the endstop variables are
    untouched. *)
Theorem block_acquisition (cfg : Config) (inp : isr_input) (b0 : block_t)
    (rest : list block_t) (s : state) :
  current_block s = None ->
  block_buffer s = b0 :: rest ->
  let s1 := fst (isr_acquire cfg inp s) in
  current_block s1 = Some (set_busy true b0)
  /\ block_buffer s1 = set_busy true b0 :: rest
  /\ snd (isr_acquire cfg inp s) = Z_LATE_ENABLE cfg && (steps b0 Z_AXIS >? 0)
  /\ step_events_completed s1 = 0
  /\ (forall a, counter s1 a = int32 (uint32 (- Z.shiftr (step_event_count b0) 1)))
  /\ (0 <= step_event_count b0 < 2 ^ 32 ->
      forall a, counter s1 a = - (step_event_count b0 / 2))
  /\ out_bits s1 = direction_bits b0
  /\ count_position s1 = count_position s
  /\ step_pin s1 = step_pin s
  /\ endstop_hit_bits s1 = endstop_hit_bits s
  /\ old_endstop_bits s1 = old_endstop_bits s
  /\ endstops_trigsteps s1 = endstops_trigsteps s
  /\ exists l,
       forallb is_dir_write l = true
       /\ new_events s s1
          = l ++ (if Z_LATE_ENABLE cfg && (steps b0 Z_AXIS >? 0)
                  then [EnableAxis Z_AXIS; TimerSetCount (HAL_TIMER_RATE cfg / 1000)]
                  else []).
Proof. apply isr_acquire_fresh_effect. Qed.

Lemma block_acquisition_witness :
  current_block (fst (isr_acquire cartesian quiet_input (enqueue diagonal_block power_on)))
  = Some (set_busy true diagonal_block).
Proof.
  apply (block_acquisition cartesian quiet_input diagonal_block [] 
           (enqueue diagonal_block power_on)); reflexivity.
Defined.

Section Ignoring.
Variable cfg : Config.
Variable inp : isr_input.
Variable closed : EndstopEnum -> bool.

Lemma isr_acquire_with_endstops s :
  isr_acquire cfg (with_endstops closed inp) s = isr_acquire cfg inp s.
Proof. reflexivity. Qed.

Lemma isr_finish_with_endstops b s :
  isr_finish cfg (with_endstops closed inp) b s = isr_finish cfg inp b s.
Proof. reflexivity. Qed.

Lemma check_endstops_isr_acquire s :
  check_endstops (fst (isr_acquire cfg inp s)) = check_endstops s.
Proof. by_frame forget_acquire (forget_acquire_isr_acquire cfg inp s). Qed.

Lemma ISR_unchecked s :
  check_endstops s = false ->
  HAL_STEP_TIMER_ISR cfg inp s
  = if negb (cleaning_buffer_counter s =? 0) then isr_cleaning cfg inp s
    else if snd (isr_acquire cfg inp s) then fst (isr_acquire cfg inp s)
         else match current_block (fst (isr_acquire cfg inp s)) with
              | Some b => isr_finish cfg inp b (isr_steps cfg b (fst (isr_acquire cfg inp s)))
              | None => fst (isr_acquire cfg inp s)
              end.
Proof.
  intros Hk. unfold HAL_STEP_TIMER_ISR.
  destruct (negb (cleaning_buffer_counter s =? 0)); [reflexivity|].
  pose proof (check_endstops_isr_acquire s) as K. rewrite Hk in K.
  destruct (isr_acquire cfg inp s) as [s1 returned]. cbn [fst snd] in *.
  destruct returned; [reflexivity|].
  destruct (current_block s1) as [b|]; [|reflexivity].
  unfold isr_block, isr_endstops. rewrite K. reflexivity.
Qed.

Lemma forget_motion_ISR_unchecked s :
  check_endstops s = false ->
  forget_motion (HAL_STEP_TIMER_ISR cfg inp s) = forget_motion s.
Proof.
  intros Hk. rewrite (ISR_unchecked s Hk).
  destruct (negb (cleaning_buffer_counter s =? 0)); [apply forget_motion_isr_cleaning|].
  pose proof (forget_motion_acquire _ _ (forget_acquire_isr_acquire cfg inp s)) as A.
  destruct (snd (isr_acquire cfg inp s)); [exact A|].
  destruct (current_block (fst (isr_acquire cfg inp s))) as [b|]; [|exact A].
  rewrite forget_motion_after_endstops. exact A.
Qed.

Lemma check_endstops_ISR_unchecked s :
  check_endstops s = false -> check_endstops (HAL_STEP_TIMER_ISR cfg inp s) = false.
Proof.
  intros Hk. rewrite <- Hk. by_frame forget_motion (forget_motion_ISR_unchecked s Hk).
Qed.

Lemma endstop_truncates_unchecked s :
  check_endstops s = false -> endstop_truncates cfg inp s = false.
Proof.
  intros Hk. unfold endstop_truncates.
  destruct (negb (cleaning_buffer_counter s =? 0)); [reflexivity|].
  pose proof (check_endstops_isr_acquire s) as K. rewrite Hk in K.
  destruct (isr_acquire cfg inp s) as [s1 returned]. cbn [fst] in K.
  destruct returned; [reflexivity|].
  destruct (current_block s1) as [b|]; [|reflexivity].
  unfold isr_endstops. rewrite K, Z.eqb_refl. reflexivity.
Qed.

End Ignoring.

(** X11 — with the endstop check switched off ([enable_endstops(false)]) the
    handler does not look at the endstop pins: its result is the same
    whatever they read, no hit is latched, no trigger position recorded, the
    stored sample is not refreshed and no block is cut short. *)
Theorem disabled_endstops_are_ignored (cfg : Config) (inp : isr_input)
    (closed : EndstopEnum -> bool) (s : state) :
  check_endstops s = false ->
  let s' := HAL_STEP_TIMER_ISR cfg inp s in
  HAL_STEP_TIMER_ISR cfg (with_endstops closed inp) s = s'
  /\ check_endstops s' = false
  /\ endstop_hit_bits s' = endstop_hit_bits s
  /\ endstops_trigsteps s' = endstops_trigsteps s
  /\ old_endstop_bits s' = old_endstop_bits s
  /\ endstop_truncates cfg inp s = false.
Proof.
  intros Hk. cbv zeta.
  pose proof (forget_motion_ISR_unchecked cfg inp s Hk) as F.
  split; [|split; [|split; [|split; [|split]]]].
  - rewrite !ISR_unchecked by exact Hk. reflexivity.
  - apply check_endstops_ISR_unchecked, Hk.
  - by_frame forget_motion F.
  - by_frame forget_motion F.
  - by_frame forget_motion F.
  - apply endstop_truncates_unchecked, Hk.
Qed.

Lemma disabled_endstops_are_ignored_witness :
  HAL_STEP_TIMER_ISR cartesian (with_endstops (fun _ => true) quiet_input)
    (enable_endstops false x_homing)
  = HAL_STEP_TIMER_ISR cartesian quiet_input (enable_endstops false x_homing).
Proof.
  apply (disabled_endstops_are_ignored cartesian quiet_input (fun _ => true)
           (enable_endstops false x_homing)).
  reflexivity.
Defined.

(** X12 — the first interrupt of a block.  Taking the block up and stepping
    it happen in one invocation, unless the build enables the Z driver late
    and the block moves Z: then the handler enables Z, sets the counter for
    a wait of [HAL_TIMER_RATE / 1000] counts and returns without sampling
    the endstops or stepping; the block is stepped from the next interrupt
    on. *)
Theorem fresh_block_first_tick (cfg : Config) (inp : isr_input) (b0 : block_t)
    (rest : list block_t) (s : state) :
  cleaning_buffer_counter s = 0 ->
  current_block s = None ->
  block_buffer s = b0 :: rest ->
  let b := set_busy true b0 in
  let s1 := fst (isr_acquire cfg inp s) in
  let s' := HAL_STEP_TIMER_ISR cfg inp s in
  (Z_LATE_ENABLE cfg && (steps b0 Z_AXIS >? 0) = false -> s' = isr_block cfg inp b s1)
  /\ (Z_LATE_ENABLE cfg && (steps b0 Z_AXIS >? 0) = true ->
      s' = s1
      /\ current_block s' = Some b
      /\ step_events_completed s' = 0
      /\ count_position s' = count_position s
      /\ step_pin s' = step_pin s
      /\ old_endstop_bits s' = old_endstop_bits s
      /\ endstop_hit_bits s' = endstop_hit_bits s
      /\ (exists l, forallb is_dir_write l = true
                    /\ new_events s s'
                       = l ++ [EnableAxis Z_AXIS; TimerSetCount (HAL_TIMER_RATE cfg / 1000)])
      /\ forall inp', HAL_STEP_TIMER_ISR cfg inp' s' = isr_block cfg inp' b s').
Proof.
  intros Hc Hb Hq. cbv zeta.
  destruct (ISR_unflushed cfg inp s Hc) as [E _].
  destruct (isr_acquire_fresh_effect cfg inp b0 rest s Hb Hq)
    as (A1 & A2 & A3 & A4 & _ & _ & _ & A8 & A9 & A10 & A11 & _ & A13).
  cbv zeta in *. rewrite A3, A1 in E.
  split; intros HL; rewrite HL in *.
  - exact E.
  - rewrite E. repeat split; try assumption.
    intros inp'. apply isr_running; [|exact A1].
    rewrite <- Hc. by_frame forget_acquire (forget_acquire_isr_acquire cfg inp s).
Qed.

Lemma fresh_block_first_tick_witness :
  HAL_STEP_TIMER_ISR z_late_build quiet_input (enqueue z_lift_block power_on)
  = fst (isr_acquire z_late_build quiet_input (enqueue z_lift_block power_on)).
Proof.
  apply (fresh_block_first_tick z_late_build quiet_input z_lift_block []
           (enqueue z_lift_block power_on)); reflexivity.
Defined.

(** ** Timer intervals *)

(** X13 — [calc_timer] clamps the step rate to [MAX_STEP_FREQUENCY], picks 4,
    2 or 1 steps per interrupt by the thresholds of [DOUBLE_STEP_FREQUENCY]
    (always 1 without high-speed stepping) and returns the timer rate
    divided by the rate per interrupt; the interval is never shorter than
    [HAL_TIMER_RATE / MAX_STEP_FREQUENCY], and the divisor is at least one
    when the rate is and the doubling threshold is at least two. *)
Theorem calc_timer_interval (cfg : Config) (step_rate : Z) (s : state) :
  1 <= step_rate ->
  1 <= MAX_STEP_FREQUENCY cfg ->
  (ENABLE_HIGH_SPEED_STEPPING cfg = true -> 2 <= DOUBLE_STEP_FREQUENCY cfg) ->
  0 <= HAL_TIMER_RATE cfg ->
  let rate := Z.min step_rate (MAX_STEP_FREQUENCY cfg) in
  let timer := fst (calc_timer cfg step_rate s) in
  let s' := snd (calc_timer cfg step_rate s) in
  let n := step_loops s' in
  s' = set_step_loops n s
  /\ n = (if ENABLE_HIGH_SPEED_STEPPING cfg
          then if rate >? 2 * DOUBLE_STEP_FREQUENCY cfg then 4
               else if rate >? DOUBLE_STEP_FREQUENCY cfg then 2 else 1
          else 1)
  /\ 1 <= rate / n
  /\ timer = HAL_TIMER_RATE cfg / (rate / n)
  /\ HAL_TIMER_RATE cfg / MAX_STEP_FREQUENCY cfg <= timer <= HAL_TIMER_RATE cfg.
Proof.
  intros Hr Hm Hd Ht. cbv zeta. unfold calc_timer. cbv zeta.
  assert (E : (if step_rate >? MAX_STEP_FREQUENCY cfg then MAX_STEP_FREQUENCY cfg
               else step_rate) = Z.min step_rate (MAX_STEP_FREQUENCY cfg)).
  { destruct (Z.gtb_spec step_rate (MAX_STEP_FREQUENCY cfg)); lia. }
  rewrite E. set (rate := Z.min step_rate (MAX_STEP_FREQUENCY cfg)).
  assert (R : 1 <= rate <= MAX_STEP_FREQUENCY cfg) by (unfold rate; lia).
  assert (B : forall d, 1 <= d -> d <= rate ->
                HAL_TIMER_RATE cfg / MAX_STEP_FREQUENCY cfg <= HAL_TIMER_RATE cfg / (rate / d)
                <= HAL_TIMER_RATE cfg /\ 1 <= rate / d).
  { intros d Hd1 Hd2.
    assert (1 <= rate / d) by (apply Z.div_le_lower_bound; lia).
    assert (rate / d <= rate) by (apply Z.div_le_upper_bound; nia).
    repeat split; [apply Z.div_le_compat_l; lia| |lia].
    apply Z.div_le_upper_bound; nia. }
  destruct (ENABLE_HIGH_SPEED_STEPPING cfg) eqn:HS.
  - specialize (Hd eq_refl).
    destruct (Z.gtb_spec rate (2 * DOUBLE_STEP_FREQUENCY cfg));
      [|destruct (Z.gtb_spec rate (DOUBLE_STEP_FREQUENCY cfg))]; st_simpl;
      rewrite ?Z.shiftr_div_pow2 by lia; change (2 ^ 2) with 4; change (2 ^ 1) with 2.
    + destruct (B 4 ltac:(lia) ltac:(lia)). repeat split; try reflexivity; lia.
    + destruct (B 2 ltac:(lia) ltac:(lia)). repeat split; try reflexivity; lia.
    + destruct (B 1 ltac:(lia) ltac:(lia)). rewrite Z.div_1_r in *.
      repeat split; try reflexivity; lia.
  - st_simpl. destruct (B 1 ltac:(lia) ltac:(lia)). rewrite Z.div_1_r in *.
    repeat split; try reflexivity; lia.
Qed.

Lemma calc_timer_interval_witness :
  fst (calc_timer cartesian_fast 250000 power_on)
  = HAL_TIMER_RATE cartesian_fast
    / (Z.min 250000 (MAX_STEP_FREQUENCY cartesian_fast)
       / step_loops (snd (calc_timer cartesian_fast 250000 power_on))).
Proof.
  apply (calc_timer_interval cartesian_fast 250000 power_on); vm_compute; try easy.
Defined.

Section Cruise.
Variable cfg : Config.
Variable inp : isr_input.

Lemma calc_timer_state r s s' :
  fst (calc_timer cfg r s) = fst (calc_timer cfg r s')
  /\ step_loops (snd (calc_timer cfg r s)) = step_loops (snd (calc_timer cfg r s')).
Proof. rewrite !calc_timer_eq. split; reflexivity. Qed.

Lemma ISR_keeps_nominal s :
  nominal_noted cfg s -> nominal_noted cfg (HAL_STEP_TIMER_ISR cfg inp s).
Proof.
  intros HN b' Hb'.
  rewrite (proj1 (calc_timer_state (nominal_rate b') _ s)),
          (proj2 (calc_timer_state (nominal_rate b') _ s)).
  destruct (ISR_current_block cfg inp s) as [N|[[Hc N]|(b0 & rest & Hc & Hb & Hq & N)]];
    cbv zeta in N; rewrite N in Hb'.
  - discriminate Hb'.
  - assert (K : cleaning_buffer_counter s <> 0 \/ current_block s <> None
                \/ block_buffer s = []) by (right; left; rewrite Hb'; discriminate).
    rewrite (ISR_field_kept cfg inp OCR1A_nominal ltac:(reflexivity) ltac:(reflexivity) s K).
    rewrite (ISR_field_kept cfg inp step_loops_nominal ltac:(reflexivity) ltac:(reflexivity)
               s K).
    apply HN, Hb'.
  - injection Hb' as <-.
    rewrite (ISR_field_fresh cfg inp OCR1A_nominal ltac:(reflexivity) b0 rest s Hc Hb Hq).
    rewrite (ISR_field_fresh cfg inp step_loops_nominal ltac:(reflexivity) b0 rest s Hc Hb Hq).
    destruct (trapezoid_generator_reset_split cfg (set_busy true b0)
                (set_current_block (Some (set_busy true b0))
                   (set_block_buffer (set_busy true b0 :: rest) s)))
      as (_ & _ & _ & _ & _ & H6 & H7 & _).
    cbv zeta in H6, H7. rewrite H6, H7, calc_timer_eq. split; reflexivity.
Qed.

Lemma cruise_tick b s :
  cleaning_buffer_counter s = 0 -> current_block s = Some b ->
  let s' := HAL_STEP_TIMER_ISR cfg inp s in
  uint32 (accelerate_until b) < step_events_completed s' <= uint32 (decelerate_after b) ->
  TC_RC s' = rearm (OCR1A_nominal s) inp
  /\ step_loops s' = uint8 (step_loops_nominal s)
  /\ acc_step_rate s' = acc_step_rate s
  /\ acceleration_time s' = acceleration_time s
  /\ deceleration_time s' = deceleration_time s.
Proof.
  intros Hc Hb. cbv zeta. rewrite (isr_running cfg inp b s Hc Hb), isr_block_eq.
  rewrite step_events_completed_isr_finish.
  set (s2 := isr_steps cfg b (isr_endstops cfg inp b s)). intros Hk.
  assert (F : forall (A : Type) (p : state -> A),
            (forall x, p (forget_ticks x) = p x) -> (forall x, p (forget_check x) = p x) ->
            p s2 = p s).
  { intros A p H1 H2. unfold s2.
    rewrite <- H1, forget_ticks_isr_steps, H1, <- H2, forget_check_isr_endstops. apply H2. }
  assert (U : trapezoid_update cfg b s2
              = (OCR1A_nominal s2, set_step_loops (uint8 (step_loops_nominal s2)) s2)).
  { unfold trapezoid_update.
    destruct (Z.leb_spec (step_events_completed s2) (uint32 (accelerate_until b))); [lia|].
    destruct (Z.gtb_spec (step_events_completed s2) (uint32 (decelerate_after b))); [lia|].
    reflexivity. }
  rewrite isr_finish_eq, U. cbv zeta. cbn [fst snd].
  set (s3 := if ENABLE_HIGH_SPEED_STEPPING cfg
             then set_step_loops (uint8 (step_loops_nominal s2)) s2
             else step_ends cfg (set_step_loops (uint8 (step_loops_nominal s2)) s2)).
  assert (G : forget_outputs s3
              = forget_outputs (set_step_loops (uint8 (step_loops_nominal s2)) s2)).
  { unfold s3. destruct (ENABLE_HIGH_SPEED_STEPPING cfg); [reflexivity|].
    apply forget_outputs_step_ends. }
  assert (T : TC_RC (HAL_timer_stepper_count (OCR1A_nominal s2) inp s3)
              = rearm (OCR1A_nominal s) inp).
  { rewrite (proj1 (TC_RC_HAL_timer_stepper_count _ _ _)), (F _ OCR1A_nominal); reflexivity. }
  assert (R : forall (A : Type) (p : state -> A),
            (forall x, p (forget_outputs x) = p x) ->
            (forall x, p (forget_ticks x) = p x) -> (forall x, p (forget_check x) = p x) ->
            (forall v x, p (set_step_loops v x) = p x) ->
            p s3 = p s).
  { intros A p H0 H1 H2 H3. rewrite <- H0, G, H0, H3. apply F; assumption. }
  destruct (step_events_completed s2 >=? step_event_count b);
    (repeat split;
     [ exact T
     | change (step_loops (forget_outputs s3) = uint8 (step_loops_nominal s)); rewrite G;
       st_simpl; rewrite (F _ step_loops_nominal); reflexivity
     | apply (R _ acc_step_rate); reflexivity
     | apply (R _ acceleration_time); reflexivity
     | apply (R _ deceleration_time); reflexivity ]).
Qed.

End Cruise.

(** X14 — between the ramps a block runs at its nominal rate.  The interval
    and loop count noted when a block is taken up stay noted as long as it
    is in hand; and a tick that ends with [step_events_completed] past
    [accelerate_until] and not past [decelerate_after] re-arms the timer for
    the noted interval, restores the noted loop count and leaves the ramp
    variables alone. *)
Theorem cruise_runs_at_nominal_rate (cfg : Config) (inps : list isr_input)
    (inp : isr_input) (s : state) :
  nominal_noted cfg s ->
  let s1 := run cfg inps s in
  let s' := HAL_STEP_TIMER_ISR cfg inp s1 in
  nominal_noted cfg s1
  /\ forall b,
       cleaning_buffer_counter s1 = 0 -> current_block s1 = Some b ->
       uint32 (accelerate_until b) < step_events_completed s' <= uint32 (decelerate_after b) ->
       TC_RC s' = rearm (fst (calc_timer cfg (nominal_rate b) s1)) inp
       /\ step_loops s' = step_loops (snd (calc_timer cfg (nominal_rate b) s1))
       /\ acc_step_rate s' = acc_step_rate s1
       /\ acceleration_time s' = acceleration_time s1
       /\ deceleration_time s' = deceleration_time s1.
Proof.
  intros HN. cbv zeta.
  assert (H1 : nominal_noted cfg (run cfg inps s)).
  { revert s HN. induction inps as [|i l IH]; intros s HN; [exact HN|].
    cbn [run]. apply IH, ISR_keeps_nominal, HN. }
  split; [exact H1|]. intros b Hc Hb Hk.
  destruct (H1 b Hb) as [N1 N2].
  destruct (cruise_tick cfg inp b _ Hc Hb Hk) as (C1 & C2 & C3 & C4 & C5).
  rewrite <- N1, <- N2. repeat split; try assumption.
  rewrite C2, N2, calc_timer_eq. st_simpl.
  destruct (loops_of_cases cfg (nominal_rate b)) as [H|[H|H]]; rewrite H; reflexivity.
Qed.

Lemma cruise_runs_at_nominal_rate_witness :
  TC_RC (HAL_STEP_TIMER_ISR cartesian quiet_input cruising)
  = rearm (fst (calc_timer cartesian (nominal_rate ramp_block) cruising)) quiet_input.
Proof.
  refine (proj1 (proj2 (cruise_runs_at_nominal_rate cartesian [] quiet_input cruising _)
                   ramp_block _ _ _)).
  - intros b H. injection H as <-. vm_compute. split; reflexivity.
  - reflexivity.
  - reflexivity.
  - vm_compute. split; [reflexivity|discriminate].
Defined.

(** ** Latched hits and their report *)

Section Hits.
Variable cfg : Config.
Variable spu : AxisEnum -> spec_float.

Lemma hit_bit_set_TEST s e :
  0 <= endstop_bit cfg e ->
  hit_bit_set cfg s e = TEST (endstop_hit_bits s) (endstop_bit cfg e).
Proof.
  intros Hk. unfold hit_bit_set, TEST.
  set (n := endstop_hit_bits s). set (k := endstop_bit cfg e) in *.
  assert (B : forall j, 0 <= j -> Z.testbit (Z.land n (BIT k)) j = Z.testbit n j && (j =? k)).
  { intros j Hj. rewrite Z.land_spec. f_equal. apply (TEST_BIT k j Hj). }
  destruct (Z.testbit n k) eqn:T.
  - apply negb_true_iff, Z.eqb_neq. intros Z0.
    pose proof (B k Hk) as Bk. rewrite Z0, Z.bits_0, T, Z.eqb_refl in Bk. discriminate Bk.
  - apply negb_false_iff, Z.eqb_eq, Z.bits_inj'. intros j Hj.
    rewrite (B j Hj), Z.bits_0. destruct (Z.eqb_spec j k) as [->|_].
    + rewrite T. reflexivity.
    + apply andb_false_r.
Qed.

(** One interrupt does not clear a latched hit. *)
Lemma ISR_hit_mono inp s i :
  i < 8 -> TEST (endstop_hit_bits s) i = true ->
  TEST (endstop_hit_bits (HAL_STEP_TIMER_ISR cfg inp s)) i = true.
Proof.
  intros Hi. unfold HAL_STEP_TIMER_ISR.
  destruct (negb (cleaning_buffer_counter s =? 0)).
  { change (endstop_hit_bits (isr_cleaning cfg inp s))
      with (endstop_hit_bits (forget_motion (isr_cleaning cfg inp s))).
    rewrite forget_motion_isr_cleaning. auto. }
  pose proof (forget_motion_acquire _ _ (forget_acquire_isr_acquire cfg inp s)) as Ha.
  destruct (isr_acquire cfg inp s) as [s1 returned]. cbn [fst] in Ha.
  assert (Hh : endstop_hit_bits s1 = endstop_hit_bits s).
  { change (endstop_hit_bits (forget_motion s1) = endstop_hit_bits (forget_motion s)).
    rewrite Ha. reflexivity. }
  destruct returned; [rewrite Hh; auto|].
  destruct (current_block s1) as [b|]; [|rewrite Hh; auto].
  rewrite (proj2 (endstop_variables_after_check cfg inp b s1)).
  unfold isr_endstops. destruct (check_endstops s1); [|rewrite Hh; auto].
  rewrite check_endstops_phase_eq. st_simpl. intros H. rewrite <- Hh in H.
  apply (latches_hit_mono cfg b s1 _ (checked_latches cfg inp b s1) i Hi H).
Qed.

Lemma checkHitEndstops_quiet abort s :
  endstop_hit_bits s = 0 -> checkHitEndstops cfg spu abort s = ([], s).
Proof. intros H. unfold checkHitEndstops. rewrite H. reflexivity. Qed.

Lemma checkHitEndstops_state abort s :
  endstop_hit_bits s <> 0 ->
  snd (checkHitEndstops cfg spu abort s)
  = if abort then quickStop (endstops_hit_on_purpose s) else endstops_hit_on_purpose s.
Proof.
  intros H. unfold checkHitEndstops.
  destruct (Z.eqb_spec (endstop_hit_bits s) 0); [contradiction|reflexivity].
Qed.

Lemma checkHitEndstops_report abort s e :
  endstop_hit_bits s <> 0 ->
  In e (reported_endstops cfg) ->
  hit_bit_set cfg s e = true ->
  In (HitReport e (echoed_position spu (endstop_axis e) (endstops_trigsteps s (endstop_axis e))))
     (fst (checkHitEndstops cfg spu abort s)).
Proof.
  intros H He Hs. unfold checkHitEndstops. cbv zeta.
  destruct (Z.eqb_spec (endstop_hit_bits s) 0); [contradiction|]. cbn [negb fst].
  unfold reported_endstops in He. rewrite !in_app_iff.
  cbn [In app] in He.
  destruct He as [<-|[<-|[<-|He]]].
  - left. rewrite Hs. left. reflexivity.
  - right. left. rewrite Hs. left. reflexivity.
  - right. right. left. rewrite Hs. left. reflexivity.
  - right. right. right. destruct (Z_PROBE_ENDSTOP cfg); [|contradiction].
    destruct He as [<-|[]]. rewrite Hs. left. reflexivity.
Qed.

Lemma checkHitEndstops_sound abort s e t :
  In (HitReport e t) (fst (checkHitEndstops cfg spu abort s)) ->
  In e (reported_endstops cfg) /\ hit_bit_set cfg s e = true
  /\ t = echoed_position spu (endstop_axis e) (endstops_trigsteps s (endstop_axis e)).
Proof.
  unfold checkHitEndstops, reported_endstops. cbv zeta.
  destruct (negb (endstop_hit_bits s =? 0)); cbn [fst]; [|intros []].
  intros H. rewrite !in_app_iff in H. destruct H as [H|[H|[H|H]]].
  - destruct (hit_bit_set cfg s X_MIN) eqn:E; [|destruct H].
    destruct H as [H|[]]. injection H as <- <-. cbn [In app].
    split; [left; reflexivity|split; [exact E|reflexivity]].
  - destruct (hit_bit_set cfg s Y_MIN) eqn:E; [|destruct H].
    destruct H as [H|[]]. injection H as <- <-. cbn [In app].
    split; [right; left; reflexivity|split; [exact E|reflexivity]].
  - destruct (hit_bit_set cfg s Z_MIN) eqn:E; [|destruct H].
    destruct H as [H|[]]. injection H as <- <-. cbn [In app].
    split; [right; right; left; reflexivity|split; [exact E|reflexivity]].
  - destruct (Z_PROBE_ENDSTOP cfg); [|destruct H].
    destruct (hit_bit_set cfg s Z_PROBE) eqn:E; [|destruct H].
    destruct H as [H|[]]. injection H as <- <-. cbn [In app].
    split; [right; right; right; left; reflexivity|split; [exact E|reflexivity]].
Qed.

End Hits.

(** The echoed position is a single-precision value: a trigger at step
    16777217 with one step to the unit is echoed as 16777216, and 100 steps
    at eighty to the unit as 1.25. *)
Lemma echoed_position_is_single_precision :
  echoed_position (fun _ => float_of_long 1) X_AXIS 16777217 = float_of_long 16777216
  /\ echoed_position eighty_steps_per_unit X_AXIS 100 = S754_finite false 10485760 (-23).
Proof. vm_compute. split; reflexivity. Qed.



(** X16 — [checkHitEndstops] does nothing while no hit is latched; otherwise
    it reports exactly the endstops among X_MIN, Y_MIN, Z_MIN (and Z_PROBE
    where the build has one) whose bit is set, each with the value the
    source echoes, the single-precision quotient of the trigger step count
    of its axis by [axis_steps_per_unit]; it clears the latch, and
    quick-stops when asked to abort.  A second call reports nothing. *)
Theorem checkHitEndstops_reports_and_clears (cfg : Config)
    (axis_steps_per_unit : AxisEnum -> spec_float) (abort : bool) (s : state) :
  let r := fst (checkHitEndstops cfg axis_steps_per_unit abort s) in
  let s' := snd (checkHitEndstops cfg axis_steps_per_unit abort s) in
  endstop_hit_bits s' = 0
  /\ (endstop_hit_bits s = 0 -> r = [] /\ s' = s)
  /\ (forall e t, In (HitReport e t) r <->
        endstop_hit_bits s <> 0 /\ In e (reported_endstops cfg)
        /\ hit_bit_set cfg s e = true
        /\ t = float_div (float_of_long (endstops_trigsteps s (endstop_axis e)))
                         (axis_steps_per_unit (endstop_axis e)))
  /\ (forall e, 0 <= endstop_bit cfg e ->
        hit_bit_set cfg s e = TEST (endstop_hit_bits s) (endstop_bit cfg e))
  /\ checkHitEndstops cfg axis_steps_per_unit abort s' = ([], s')
  /\ (endstop_hit_bits s <> 0 ->
      s' = if abort then quickStop (endstops_hit_on_purpose s) else endstops_hit_on_purpose s)
  /\ (endstop_hit_bits s <> 0 -> abort = true ->
      block_buffer s' = [] /\ current_block s' = None /\ cleaning_buffer_counter s' = 5000).
Proof.
  cbv zeta. set (spu := axis_steps_per_unit).
  assert (Z0 : endstop_hit_bits (snd (checkHitEndstops cfg spu abort s)) = 0).
  { destruct (Z.eq_dec (endstop_hit_bits s) 0) as [E|E].
    - rewrite (checkHitEndstops_quiet cfg spu abort s E). exact E.
    - rewrite (checkHitEndstops_state cfg spu abort s E). destruct abort; [|reflexivity].
      rewrite quickStop_eq. reflexivity. }
  split; [exact Z0|]. split; [|split; [|split; [|split; [|split]]]].
  - intros E. rewrite (checkHitEndstops_quiet cfg spu abort s E). split; reflexivity.
  - intros e t. split.
    + intros H. split.
      * intros E. rewrite (checkHitEndstops_quiet cfg spu abort s E) in H. destruct H.
      * apply (checkHitEndstops_sound cfg spu abort s e t H).
    + intros (E & He & Hs & ->). apply (checkHitEndstops_report cfg spu); assumption.
  - intros e. apply hit_bit_set_TEST.
  - apply checkHitEndstops_quiet, Z0.
  - apply checkHitEndstops_state.
  - intros E ->. rewrite (checkHitEndstops_state cfg spu true s E), quickStop_eq.
    repeat split; reflexivity.
Qed.



(** ** The stored endstop sample *)

Ltac split_ands H :=
  repeat match type of H with
         | _ && _ = true => let H' := fresh "G" in apply andb_prop in H; destruct H as [H H']
         end.

Section Sample.
Variable cfg : Config.
Variable inp : isr_input.
Variable b : block_t.

Lemma snd_UPDATE_ENDSTOP e sc :
  snd (UPDATE_ENDSTOP cfg inp b e sc) = SET_ENDSTOP_BIT cfg inp e (snd sc).
Proof. destruct sc as [s bits]. unfold UPDATE_ENDSTOP. cbv zeta. cases; reflexivity. Qed.

Lemma out_bits_UPDATE_ENDSTOP e sc :
  out_bits (fst (UPDATE_ENDSTOP cfg inp b e sc)) = out_bits (fst sc).
Proof.
  apply (latches_out_bits cfg b (fst sc)), UPDATE_ENDSTOP_latches, latches_refl.
Qed.

Lemma endstops_X_ungated sc :
  gated cfg b (fst sc) X_MIN = false -> gated cfg b (fst sc) X_MAX = false ->
  endstops_X cfg inp b sc = sc.
Proof.
  unfold gated, endstops_X, x_head_moves. cbv zeta.
  destruct (COREXY cfg), (steps b X_AXIS =? steps b Y_AXIS),
    (TEST (out_bits (fst sc)) (axis_bit cfg X_AXIS)),
    (TEST (out_bits (fst sc)) (axis_bit cfg Y_AXIS)),
    (TEST (out_bits (fst sc)) (X_HEAD cfg)),
    (dual_x_gate cfg b (-1)), (dual_x_gate cfg b 1),
    (HAS_ENDSTOP cfg X_MIN), (HAS_ENDSTOP cfg X_MAX);
    cbn [andb negb orb Bool.eqb]; intros; try discriminate; reflexivity.
Qed.

Lemma endstops_Y_ungated sc :
  gated cfg b (fst sc) Y_MIN = false -> gated cfg b (fst sc) Y_MAX = false ->
  endstops_Y cfg inp b sc = sc.
Proof.
  unfold gated, endstops_Y, y_head_moves. cbv zeta.
  destruct (COREXY cfg), (steps b X_AXIS =? steps b Y_AXIS),
    (TEST (out_bits (fst sc)) (axis_bit cfg X_AXIS)),
    (TEST (out_bits (fst sc)) (axis_bit cfg Y_AXIS)),
    (TEST (out_bits (fst sc)) (Y_HEAD cfg)),
    (HAS_ENDSTOP cfg Y_MIN), (HAS_ENDSTOP cfg Y_MAX);
    cbn [andb negb orb Bool.eqb]; intros; try discriminate; reflexivity.
Qed.

Lemma gated_exclusive s :
  (gated cfg b s X_MIN = true -> gated cfg b s X_MAX = false)
  /\ (gated cfg b s Y_MIN = true -> gated cfg b s Y_MAX = false)
  /\ (gated cfg b s Z_MIN = true -> gated cfg b s Z_MAX = false).
Proof.
  unfold gated. cbv zeta. repeat split; intros G; split_ands G.
  - rewrite G2. cbn [negb]. rewrite andb_false_r. reflexivity.
  - rewrite G1. cbn [negb]. rewrite andb_false_r. reflexivity.
  - rewrite G. reflexivity.
Qed.

Lemma snd_endstops_X sc :
  snd (endstops_X cfg inp b sc)
  = sample_of cfg inp (filter (gated cfg b (fst sc)) [X_MIN; X_MAX]) (snd sc).
Proof.
  cbn [filter]. destruct (gated cfg b (fst sc) X_MIN) eqn:G1.
  - rewrite (proj1 (gated_exclusive (fst sc)) G1).
    rewrite (endstops_X_gated cfg inp b X_MIN sc (or_introl eq_refl) G1).
    apply snd_UPDATE_ENDSTOP.
  - destruct (gated cfg b (fst sc) X_MAX) eqn:G2.
    + rewrite (endstops_X_gated cfg inp b X_MAX sc (or_intror eq_refl) G2).
      apply snd_UPDATE_ENDSTOP.
    + rewrite (endstops_X_ungated sc G1 G2). reflexivity.
Qed.

Lemma snd_endstops_Y sc :
  snd (endstops_Y cfg inp b sc)
  = sample_of cfg inp (filter (gated cfg b (fst sc)) [Y_MIN; Y_MAX]) (snd sc).
Proof.
  cbn [filter]. destruct (gated cfg b (fst sc) Y_MIN) eqn:G1.
  - rewrite (proj1 (proj2 (gated_exclusive (fst sc))) G1).
    rewrite (endstops_Y_gated cfg inp b Y_MIN sc (or_introl eq_refl) G1).
    apply snd_UPDATE_ENDSTOP.
  - destruct (gated cfg b (fst sc) Y_MAX) eqn:G2.
    + rewrite (endstops_Y_gated cfg inp b Y_MAX sc (or_intror eq_refl) G2).
      apply snd_UPDATE_ENDSTOP.
    + rewrite (endstops_Y_ungated sc G1 G2). reflexivity.
Qed.

Lemma snd_endstops_Z_probe sc :
  snd (endstops_Z_probe cfg inp b sc)
  = sample_of cfg inp (filter (gated cfg b (fst sc)) [Z_PROBE]) (snd sc).
Proof.
  unfold endstops_Z_probe, gated. cbn [filter].
  destruct (Z_PROBE_ENDSTOP cfg); [|reflexivity].
  pose proof (snd_UPDATE_ENDSTOP Z_PROBE sc) as H.
  destruct (UPDATE_ENDSTOP cfg inp b Z_PROBE sc) as [s1 bits1]. cbn [snd] in H.
  cases; exact H.
Qed.

Lemma snd_endstops_Z sc :
  Z_DUAL_ENDSTOPS cfg = false ->
  snd (endstops_Z cfg inp b sc)
  = sample_of cfg inp (filter (gated cfg b (fst sc)) [Z_MIN; Z_MAX; Z_PROBE]) (snd sc).
Proof.
  intros Hd.
  change [Z_MIN; Z_MAX; Z_PROBE] with ([Z_MIN; Z_MAX] ++ [Z_PROBE]).
  rewrite filter_app. unfold sample_of. rewrite fold_left_app.
  assert (P : forall sc', out_bits (fst sc') = out_bits (fst sc) ->
                snd sc' = fold_left (fun acc e => SET_ENDSTOP_BIT cfg inp e acc)
                            (filter (gated cfg b (fst sc)) [Z_MIN; Z_MAX]) (snd sc) ->
                snd (endstops_Z_probe cfg inp b sc')
                = fold_left (fun acc e => SET_ENDSTOP_BIT cfg inp e acc)
                    (filter (gated cfg b (fst sc)) [Z_PROBE])
                    (fold_left (fun acc e => SET_ENDSTOP_BIT cfg inp e acc)
                       (filter (gated cfg b (fst sc)) [Z_MIN; Z_MAX]) (snd sc))).
  { intros sc' Ho Hs. rewrite snd_endstops_Z_probe, <- Hs. unfold sample_of. cbn [filter].
    rewrite (gated_out_bits cfg b _ _ Z_PROBE Ho). reflexivity. }
  destruct (gated cfg b (fst sc) Z_MIN) eqn:G1.
  - rewrite (endstops_Z_gated cfg inp b Z_MIN sc (or_introl eq_refl) G1).
    apply P; [apply out_bits_UPDATE_ENDSTOP|].
    rewrite snd_UPDATE_ENDSTOP. cbn [filter].
    rewrite G1, (proj2 (proj2 (gated_exclusive (fst sc))) G1). reflexivity.
  - destruct (gated cfg b (fst sc) Z_MAX) eqn:G2.
    + rewrite (endstops_Z_gated cfg inp b Z_MAX sc (or_intror eq_refl) G2).
      apply P; [apply out_bits_UPDATE_ENDSTOP|].
      rewrite snd_UPDATE_ENDSTOP. cbn [filter]. rewrite G1, G2. reflexivity.
    + assert (E : endstops_Z cfg inp b sc = endstops_Z_probe cfg inp b sc).
      { unfold gated in G1, G2. unfold endstops_Z. cbv zeta.
        rewrite Hd in *. cbn [negb] in *. rewrite andb_true_r in G1, G2.
        destruct (TEST (out_bits (fst sc)) (axis_bit cfg Z_AXIS)); cbn [negb andb] in *.
        - rewrite G1. reflexivity.
        - rewrite G2. reflexivity. }
      rewrite E. apply P; [reflexivity|]. cbn [filter]. rewrite G1, G2. reflexivity.
Qed.

(** The sample is built from the endstops the tick looks at. *)
Lemma snd_checked s :
  Z_DUAL_ENDSTOPS cfg = false ->
  snd (checked cfg inp b s) = sample_of cfg inp (sampled cfg b s) 0.
Proof.
  intros Hd. unfold checked, sampled.
  assert (O1 : out_bits (fst (endstops_X cfg inp b (s, 0))) = out_bits s).
  { apply (latches_out_bits cfg b s).
    apply (endstops_X_latches cfg inp b s (s, 0)), latches_refl. }
  assert (O2 : out_bits (fst (endstops_Y cfg inp b (endstops_X cfg inp b (s, 0))))
               = out_bits s).
  { rewrite <- O1. apply (latches_out_bits cfg b (fst (endstops_X cfg inp b (s, 0)))).
    apply endstops_Y_latches, latches_refl. }
  rewrite snd_endstops_Z by exact Hd. rewrite snd_endstops_Y, snd_endstops_X. cbn [fst snd].
  rewrite (filter_ext _ _ (fun e => gated_out_bits cfg b _ s e O2)).
  rewrite (filter_ext _ _ (fun e => gated_out_bits cfg b _ s e O1)).
  change [X_MIN; X_MAX; Y_MIN; Y_MAX; Z_MIN; Z_MAX; Z_PROBE]
    with ([X_MIN; X_MAX] ++ [Y_MIN; Y_MAX] ++ [Z_MIN; Z_MAX; Z_PROBE]).
  rewrite !filter_app. unfold sample_of. rewrite !fold_left_app. reflexivity.
Qed.

Lemma distinct_endstop_bits e e' :
  endstop_bits_distinct cfg = true -> e <> e' -> endstop_bit cfg e <> endstop_bit cfg e'.
Proof.
  unfold endstop_bits_distinct, all_endstops. cbn [map distinct forallb]. intros H.
  repeat match goal with
         | H : _ && _ = true |- _ => apply andb_prop in H; destruct H
         | H : negb _ = true |- _ => apply negb_true_iff, Z.eqb_neq in H
         | H : true = true |- _ => clear H
         end.
  destruct e, e'; intros Hne; try (exfalso; apply Hne; reflexivity);
    first [assumption | apply not_eq_sym; assumption].
Qed.

Lemma TEST_sample_of l : forall e,
  endstop_bits_distinct cfg = true ->
  0 <= endstop_bit cfg e < (if Z_DUAL_ENDSTOPS cfg then 16 else 8) ->
  (In e l -> TEST (sample_of cfg inp l 0) (endstop_bit cfg e) = asserted cfg inp e)
  /\ (~ In e l -> TEST (sample_of cfg inp l 0) (endstop_bit cfg e) = false).
Proof.
  induction l as [|e' l IH] using rev_ind; intros e Hd Hw.
  - split; [intros []|]. intros _. unfold sample_of, TEST. cbn [fold_left]. apply Z.bits_0.
  - unfold sample_of. rewrite fold_left_app. cbn [fold_left].
    fold (sample_of cfg inp l 0).
    rewrite TEST_SET_ENDSTOP_BIT by lia.
    replace (endstop_bit cfg e <? (if Z_DUAL_ENDSTOPS cfg then 16 else 8)) with true
      by (symmetry; apply Z.ltb_lt; lia).
    cbn [andb]. destruct (IH e Hd Hw) as [I1 I2].
    destruct (Z.eqb_spec (endstop_bit cfg e) (endstop_bit cfg e')) as [E|E].
    + assert (e = e').
      { destruct e, e'; try reflexivity;
          exfalso; revert E; apply distinct_endstop_bits; try exact Hd; discriminate. }
      subst e'. split; [reflexivity|]. intros H. exfalso. apply H, in_or_app. right. left.
      reflexivity.
    + split.
      * intros H. apply in_app_or in H. destruct H as [H|[H|[]]]; [exact (I1 H)|].
        subst e'. contradiction.
      * intros H. apply I2. intros H'. apply H, in_or_app. left. exact H'.
Qed.

End Sample.

(** X18 — the endstop sample the handler stores for the next interrupt.  On a
    build without dual Z endstops, a tick on a block with the check on
    stores a sample in which the bit of an endstop is set exactly when the
    tick looked at it — the block moves towards it and the build has it —
    and its pin read asserted; the bits of all other endstops are clear,
    whatever the previous sample held. *)
Theorem stored_endstop_sample (cfg : Config) (inp : isr_input) (b : block_t) (s : state) :
  Z_DUAL_ENDSTOPS cfg = false ->
  endstop_bits_fit cfg = true ->
  endstop_bits_distinct cfg = true ->
  cleaning_buffer_counter s = 0 ->
  current_block s = Some b ->
  check_endstops s = true ->
  let s' := HAL_STEP_TIMER_ISR cfg inp s in
  old_endstop_bits s' = sample_of cfg inp (sampled cfg b s) 0
  /\ forall e, e <> Z2_MIN -> e <> Z2_MAX ->
       TEST (old_endstop_bits s') (endstop_bit cfg e) = gated cfg b s e && asserted cfg inp e.
Proof.
  intros Hd Hfit Hdis Hc Hb Hk. cbv zeta.
  assert (E : old_endstop_bits (HAL_STEP_TIMER_ISR cfg inp s)
              = sample_of cfg inp (sampled cfg b s) 0).
  { rewrite (isr_running cfg inp b s Hc Hb), isr_block_eq.
    transitivity (old_endstop_bits (isr_endstops cfg inp b s)).
    - by_frame forget_motion (forget_motion_after_endstops cfg inp b (isr_endstops cfg inp b s)).
    - unfold isr_endstops. rewrite Hk, check_endstops_phase_eq. st_simpl.
      apply snd_checked, Hd. }
  split; [exact E|]. intros e H1 H2. rewrite E.
  destruct (fit_bits cfg e Hfit H1 H2) as [Hw _].
  destruct (TEST_sample_of cfg inp (sampled cfg b s) e Hdis Hw) as [I1 I2].
  destruct (gated cfg b s e) eqn:G; cbn [andb].
  - apply I1. unfold sampled. apply filter_In. split; [|exact G].
    destruct e; cbn [In]; auto 8; contradiction.
  - apply I2. unfold sampled. intros H. apply filter_In in H. destruct H as [_ H].
    rewrite G in H. discriminate H.
Qed.

Lemma stored_endstop_sample_witness :
  old_endstop_bits (HAL_STEP_TIMER_ISR cartesian x_min_closed x_homing)
  = sample_of cartesian x_min_closed (sampled cartesian (set_busy true x_homing_block) x_homing) 0.
Proof.
  apply (stored_endstop_sample cartesian x_min_closed (set_busy true x_homing_block) x_homing);
    reflexivity.
Defined.

(** ** Step pins at rest *)

Ltac route :=
  repeat (match goal with
          | |- context [if ?c then _ else _] =>
              lazymatch c with
              | context [if _ then _ else _] => fail
              | context [Motor_eqb] => fail
              | context [Motor_in] => fail
              | _ => destruct c
              end
          end;
          cbn [Motor_in existsb Motor_eqb orb app andb negb]).

Section AtRest.
Variable cfg : Config.

Lemma step_pin_APPLY_STEP a v q s m :
  step_pin (APPLY_STEP cfg a v q s) m
  = if Motor_in m (step_targets cfg a q s) then v else step_pin s m.
Proof.
  destruct a; unfold APPLY_STEP, X_APPLY_STEP, Y_APPLY_STEP, Z_APPLY_STEP, E_APPLY_STEP,
    Z_guarded_step, step_targets, STEP_WRITE; cbv zeta.
  - destruct (DUAL_X_CARRIAGE cfg), (extruder_duplication_enabled s || q),
      (negb (cb_active_extruder s =? 0)); st_simpl; unfold upd_motor; destruct m; reflexivity.
  - destruct (Y_DUAL_STEPPER_DRIVERS cfg); st_simpl; unfold upd_motor; destruct m; reflexivity.
  - destruct (Z_DUAL_STEPPER_DRIVERS cfg), (Z_DUAL_ENDSTOPS cfg), (performing_homing s),
      (Z_HOME_DIR cfg >? 0); cbn [andb]; st_simpl;
      try (unfold upd_motor; destruct m; reflexivity).
    + destruct (negb (TEST (old_endstop_bits s) (endstop_bit cfg Z_MAX)
                      && (count_direction s Z_AXIS >? 0)) && negb (locked_z_motor s));
        st_simpl;
        destruct (negb (TEST (old_endstop_bits s) (endstop_bit cfg Z2_MAX)
                        && (count_direction s Z_AXIS >? 0)) && negb (locked_z2_motor s));
        st_simpl; unfold upd_motor; destruct m; reflexivity.
    + destruct (negb (TEST (old_endstop_bits s) (endstop_bit cfg Z_MIN)
                      && (count_direction s Z_AXIS <? 0)) && negb (locked_z_motor s));
        st_simpl;
        destruct (negb (TEST (old_endstop_bits s) (endstop_bit cfg Z2_MIN)
                        && (count_direction s Z_AXIS <? 0)) && negb (locked_z2_motor s));
        st_simpl; unfold upd_motor; destruct m; reflexivity.
  - st_simpl. unfold upd_motor. destruct m; reflexivity.
Qed.

Lemma step_targets_router a q s s' :
  router_inputs s = router_inputs s' -> step_targets cfg a q s = step_targets cfg a q s'.
Proof.
  unfold router_inputs. intros H. injection H as H1 H2 H3 H4 H5 H6 H7.
  unfold step_targets. rewrite H1, H2, H3, H4, H5, H6, H7. reflexivity.
Qed.

Lemma all_targets_router s s' :
  router_inputs s = router_inputs s' -> all_targets cfg s = all_targets cfg s'.
Proof.
  intros H. unfold all_targets. rewrite !(step_targets_router _ _ s s' H). reflexivity.
Qed.

Lemma targets_of_axis a q s m :
  Motor_in m (step_targets cfg a q s) = true -> motor_axis m = a.
Proof.
  unfold step_targets. destruct a; route; destruct m; try discriminate; reflexivity.
Qed.

Lemma Motor_in_app m l1 l2 : Motor_in m (l1 ++ l2) = Motor_in m l1 || Motor_in m l2.
Proof. apply existsb_app. Qed.

Lemma router_inputs_tracer s s' :
  forget_tracer s = forget_tracer s' -> router_inputs s = router_inputs s'.
Proof.
  intros H. change (router_inputs (forget_tracer s) = router_inputs (forget_tracer s')).
  rewrite H. reflexivity.
Qed.

(** [STEP_START] writes, if at all, pins of its axis. *)
Lemma step_pin_STEP_START b a s m :
  step_pin (STEP_START cfg b a s) m = step_pin s m
  \/ Motor_in m (step_targets cfg a false s) = true.
Proof.
  unfold STEP_START. cbv zeta.
  match goal with |- context [if ?c then _ else _] => destruct c end; [|left; reflexivity].
  st_simpl. rewrite step_pin_APPLY_STEP.
  rewrite (step_targets_router a false _ s) by reflexivity.
  destruct (Motor_in m (step_targets cfg a false s)); [right|left]; reflexivity.
Qed.

Lemma step_pin_step_starts b s m :
  step_pin (step_starts cfg b s) m = step_pin s m \/ Motor_in m (all_targets cfg s) = true.
Proof.
  unfold step_starts, all_targets. cbv zeta.
  set (s1 := STEP_START cfg b X_AXIS s).
  set (s2 := STEP_START cfg b Y_AXIS s1).
  set (s3 := STEP_START cfg b Z_AXIS s2).
  assert (R1 : router_inputs s1 = router_inputs s)
    by apply router_inputs_tracer, forget_tracer_STEP_START.
  assert (R2 : router_inputs s2 = router_inputs s).
  { rewrite <- R1. apply router_inputs_tracer, forget_tracer_STEP_START. }
  assert (R3 : router_inputs s3 = router_inputs s).
  { rewrite <- R2. apply router_inputs_tracer, forget_tracer_STEP_START. }
  rewrite !Motor_in_app.
  destruct (step_pin_STEP_START b X_AXIS s m) as [H1|H1]; fold s1 in H1;
    [|rewrite H1; right; reflexivity].
  destruct (step_pin_STEP_START b Y_AXIS s1 m) as [H2|H2]; fold s2 in H2;
    [|rewrite (step_targets_router _ _ _ _ R1) in H2; rewrite H2, !orb_true_r; right;
      reflexivity].
  destruct (step_pin_STEP_START b Z_AXIS s2 m) as [H3|H3]; fold s3 in H3;
    [|rewrite (step_targets_router _ _ _ _ R2) in H3; rewrite H3, !orb_true_r; right;
      reflexivity].
  destruct (ADVANCE cfg).
  - left. rewrite H3, H2, H1. reflexivity.
  - destruct (step_pin_STEP_START b E_AXIS s3 m) as [H4|H4].
    + left. rewrite H4, H3, H2, H1. reflexivity.
    + rewrite (step_targets_router _ _ _ _ R3) in H4. rewrite H4, !orb_true_r. right.
      reflexivity.
Qed.

(** [step_ends] puts every pin the tick may have written back to idle. *)
Lemma step_pin_step_ends s m :
  step_pin (step_ends cfg s) m
  = if Motor_in m (all_targets cfg s) then INVERT_STEP_PIN cfg (motor_axis m)
    else step_pin s m.
Proof.
  unfold step_ends, all_targets, STEP_END. cbv zeta.
  set (s1 := APPLY_STEP cfg X_AXIS (INVERT_STEP_PIN cfg X_AXIS) false s).
  set (s2 := APPLY_STEP cfg Y_AXIS (INVERT_STEP_PIN cfg Y_AXIS) false s1).
  set (s3 := APPLY_STEP cfg Z_AXIS (INVERT_STEP_PIN cfg Z_AXIS) false s2).
  assert (O : forall a v x, router_inputs (APPLY_STEP cfg a v false x) = router_inputs x).
  { intros a v x.
    change (router_inputs (forget_outputs (APPLY_STEP cfg a v false x))
            = router_inputs (forget_outputs x)).
    rewrite forget_outputs_APPLY_STEP. reflexivity. }
  assert (R1 : router_inputs s1 = router_inputs s) by apply O.
  assert (R2 : router_inputs s2 = router_inputs s) by (rewrite <- R1; apply O).
  assert (R3 : router_inputs s3 = router_inputs s) by (rewrite <- R2; apply O).
  assert (P1 : step_pin s1 m = if Motor_in m (step_targets cfg X_AXIS false s)
                               then INVERT_STEP_PIN cfg X_AXIS else step_pin s m)
    by apply step_pin_APPLY_STEP.
  assert (P2 : step_pin s2 m = if Motor_in m (step_targets cfg Y_AXIS false s)
                               then INVERT_STEP_PIN cfg Y_AXIS else step_pin s1 m).
  { unfold s2. rewrite step_pin_APPLY_STEP, (step_targets_router _ _ _ _ R1). reflexivity. }
  assert (P3 : step_pin s3 m = if Motor_in m (step_targets cfg Z_AXIS false s)
                               then INVERT_STEP_PIN cfg Z_AXIS else step_pin s2 m).
  { unfold s3. rewrite step_pin_APPLY_STEP, (step_targets_router _ _ _ _ R2). reflexivity. }
  assert (P4 : step_pin (APPLY_STEP cfg E_AXIS (INVERT_STEP_PIN cfg E_AXIS) false s3) m
               = if Motor_in m (step_targets cfg E_AXIS false s)
                 then INVERT_STEP_PIN cfg E_AXIS else step_pin s3 m).
  { rewrite step_pin_APPLY_STEP, (step_targets_router _ _ _ _ R3). reflexivity. }
  rewrite !Motor_in_app.
  pose proof (targets_of_axis X_AXIS false s m) as AX.
  pose proof (targets_of_axis Y_AXIS false s m) as AY.
  pose proof (targets_of_axis Z_AXIS false s m) as AZ.
  pose proof (targets_of_axis E_AXIS false s m) as AE.
  destruct (ADVANCE cfg); rewrite ?P4, P3, P2, P1;
    destruct (Motor_in m (step_targets cfg X_AXIS false s)),
             (Motor_in m (step_targets cfg Y_AXIS false s)),
             (Motor_in m (step_targets cfg Z_AXIS false s));
    try destruct (Motor_in m (step_targets cfg E_AXIS false s));
    cbn [orb]; rewrite ?(AX eq_refl), ?(AY eq_refl), ?(AZ eq_refl), ?(AE eq_refl);
    try reflexivity;
    repeat match goal with
           | H : true = true -> _ |- _ => specialize (H eq_refl)
           end; congruence.
Qed.

(** Rises followed by the falls of [step_ends] leave the pins at rest. *)
Lemma steps_idle_after_ends s0 s1 :
  steps_idle cfg s0 ->
  router_inputs s1 = router_inputs s0 ->
  (forall m, step_pin s1 m = step_pin s0 m \/ Motor_in m (all_targets cfg s0) = true) ->
  steps_idle cfg (step_ends cfg s1).
Proof.
  intros H0 R H1 m. rewrite step_pin_step_ends, (all_targets_router _ _ R).
  destruct (H1 m) as [E|E].
  - rewrite E, H0. destruct (Motor_in m (all_targets cfg s0)); reflexivity.
  - rewrite E. reflexivity.
Qed.

Lemma steps_idle_step_iteration b s :
  steps_idle cfg s -> steps_idle cfg (step_iteration cfg b s).
Proof.
  intros H0. unfold step_iteration. cbv zeta.
  set (s0 := if ADVANCE cfg then advance_tick cfg b s else s).
  assert (F0 : forget_tracer s0 = forget_tracer s).
  { unfold s0. destruct (ADVANCE cfg); [apply forget_tracer_advance_tick|reflexivity]. }
  assert (I0 : steps_idle cfg s0).
  { intros m. rewrite <- H0. unfold s0. destruct (ADVANCE cfg); [|reflexivity].
    unfold advance_tick. cbv zeta. cases; reflexivity. }
  intros m.
  change (step_pin (step_ends cfg (step_starts cfg b s0)) m
          = INVERT_STEP_PIN cfg (motor_axis m)).
  apply (steps_idle_after_ends s0); [exact I0| |apply step_pin_step_starts].
  apply router_inputs_tracer, forget_tracer_step_starts.
Qed.

Lemma steps_idle_step_loop b n : forall s,
  steps_idle cfg s -> steps_idle cfg (step_loop cfg b n s).
Proof.
  induction n as [|n IH]; intros s H; [exact H|].
  cbn [step_loop]. cbv zeta.
  destruct (step_events_completed (step_iteration cfg b s) >=? step_event_count b).
  - apply steps_idle_step_iteration, H.
  - apply IH, steps_idle_step_iteration, H.
Qed.

Lemma step_pin_trapezoid_update b s :
  step_pin (snd (trapezoid_update cfg b s)) = step_pin s
  /\ router_inputs (snd (trapezoid_update cfg b s)) = router_inputs s.
Proof.
  pose proof (forget_rates_update cfg b s) as F. split.
  - change (step_pin (forget_rates (snd (trapezoid_update cfg b s)))
            = step_pin (forget_rates s)).
    rewrite F. reflexivity.
  - change (router_inputs (forget_rates (snd (trapezoid_update cfg b s)))
            = router_inputs (forget_rates s)).
    rewrite F. reflexivity.
Qed.

Lemma steps_idle_isr_block inp b s :
  steps_idle cfg s -> steps_idle cfg (isr_block cfg inp b s).
Proof.
  intros H0. rewrite isr_block_eq.
  set (s1 := isr_endstops cfg inp b s).
  assert (I1 : steps_idle cfg s1).
  { intros m. rewrite <- H0. unfold s1.
    change (step_pin (forget_check (isr_endstops cfg inp b s)) m = step_pin (forget_check s) m).
    rewrite forget_check_isr_endstops. reflexivity. }
  rewrite isr_finish_eq. cbv zeta.
  match goal with
  | |- steps_idle cfg (if _ then plan_discard_current_block (set_current_block None ?x) else ?x)
    => assert (G : steps_idle cfg x); [|destruct (_ >=? _); exact G]
  end.
  change (steps_idle cfg
            (if ENABLE_HIGH_SPEED_STEPPING cfg
             then snd (trapezoid_update cfg b (isr_steps cfg b s1))
             else step_ends cfg (snd (trapezoid_update cfg b (isr_steps cfg b s1))))).
  unfold isr_steps. destruct (ENABLE_HIGH_SPEED_STEPPING cfg).
  - intros m. rewrite (proj1 (step_pin_trapezoid_update b _)).
    apply steps_idle_step_loop, I1.
  - apply (steps_idle_after_ends s1); [exact I1| |].
    + rewrite (proj2 (step_pin_trapezoid_update b _)).
      change (router_inputs (step_starts cfg b s1) = router_inputs s1).
      apply router_inputs_tracer, forget_tracer_step_starts.
    + intros m. rewrite (proj1 (step_pin_trapezoid_update b _)).
      apply (step_pin_step_starts b s1 m).
Qed.

Lemma steps_idle_ISR inp s :
  steps_idle cfg s -> steps_idle cfg (HAL_STEP_TIMER_ISR cfg inp s).
Proof.
  intros H0.
  destruct (Z.eqb_spec (cleaning_buffer_counter s) 0) as [Hc|Hc].
  2:{ rewrite (ISR_flushing cfg inp s Hc). exact H0. }
  destruct (current_block s) as [b|] eqn:Hb.
  { rewrite (isr_running cfg inp b s Hc Hb). apply steps_idle_isr_block, H0. }
  destruct (block_buffer s) as [|b0 rest] eqn:Hq.
  { rewrite (ISR_idle cfg inp s Hc Hb Hq). exact H0. }
  destruct (ISR_unflushed cfg inp s Hc) as [E _]. rewrite E. clear E.
  destruct (isr_acquire_fresh_effect cfg inp b0 rest s Hb Hq)
    as (A1 & _ & _ & _ & _ & _ & _ & _ & A9 & _).
  cbv zeta in A1, A9.
  assert (I1 : steps_idle cfg (fst (isr_acquire cfg inp s))).
  { intros m. rewrite A9. apply H0. }
  destruct (snd (isr_acquire cfg inp s)); [exact I1|].
  rewrite A1. apply steps_idle_isr_block, I1.
Qed.

End AtRest.

(** X19 — step pulses are complete.  If every step pin is at its idle level
    before an interrupt it is so after it: each pin the tracer raises is
    lowered again before the handler returns, also when a dual-endstop
    guard holds a Z motor back, and in every iteration of the high-speed
    loop. *)
Theorem step_pins_rest_idle (cfg : Config) (inps : list isr_input) (s : state) :
  steps_idle cfg s -> steps_idle cfg (run cfg inps s).
Proof.
  revert s. induction inps as [|inp inps IH]; intros s H; [exact H|].
  cbn [run]. apply IH, steps_idle_ISR, H.
Qed.

Lemma step_pins_rest_idle_witness :
  steps_idle cartesian_fast (run cartesian_fast [quiet_input; quiet_input]
                               (enqueue fast_block power_on)).
Proof.
  apply (step_pins_rest_idle cartesian_fast [quiet_input; quiet_input]
           (enqueue fast_block power_on)).
  intros m. reflexivity.
Defined.

(** ** Babysteps between interrupts *)

Section BabystepRest.
Variable cfg : Config.

Section OneAxisRest.
Variable a : AxisEnum.
Variable m0 : Motor.
Variable AD : bool -> bool -> state -> state.
Hypothesis AD_outputs : forall v q s, forget_outputs (AD v q s) = forget_outputs s.
Hypothesis AD_dirs : forall v q s, forget_dirs (AD v q s) = forget_dirs s.

Lemma steps_idle_BABYSTEP_AXIS INVERT direction s :
  steps_idle cfg s ->
  steps_idle cfg (BABYSTEP_AXIS cfg a m0 AD (APPLY_STEP cfg a) INVERT direction s).
Proof.
  intros H0 m. unfold BABYSTEP_AXIS. cbv zeta.
  set (s1 := emit (EnableAxis a) s).
  set (s2 := AD (xorb (xorb (INVERT_DIR cfg a) direction) INVERT) true s1).
  set (s3 := APPLY_STEP cfg a (negb (INVERT_STEP_PIN cfg a)) true s2).
  set (s4 := emit (DelayMicroseconds 2) s3).
  set (s5 := APPLY_STEP cfg a (INVERT_STEP_PIN cfg a) true s4).
  assert (P2 : step_pin s2 m = step_pin s m).
  { change (step_pin (forget_dirs s2) m = step_pin (forget_dirs s1) m). unfold s2.
    rewrite AD_dirs. reflexivity. }
  assert (R4 : router_inputs s4 = router_inputs s2).
  { change (router_inputs (forget_outputs s3) = router_inputs (forget_outputs s2)). unfold s3.
    rewrite forget_outputs_APPLY_STEP. reflexivity. }
  transitivity (step_pin s5 m).
  { change (step_pin (forget_dirs (AD (dir_pin s1 m0) true s5)) m = step_pin (forget_dirs s5) m).
    rewrite AD_dirs. reflexivity. }
  unfold s5. rewrite step_pin_APPLY_STEP, (step_targets_router cfg a true _ _ R4).
  change (step_pin s4 m) with (step_pin s3 m). unfold s3. rewrite step_pin_APPLY_STEP, P2, H0.
  destruct (Motor_in m (step_targets cfg a true s2)) eqn:T; [|reflexivity].
  rewrite (targets_of_axis cfg a true s2 m T). reflexivity.
Qed.

End OneAxisRest.

Lemma forget_outputs_babystep axis direction s :
  forget_outputs (babystep cfg axis direction s) = forget_outputs s.
Proof.
  unfold babystep. destruct axis; try reflexivity.
  - apply BABYSTEP_AXIS_outputs. intros; apply forget_outputs_APPLY_DIR.
  - apply BABYSTEP_AXIS_outputs. intros; apply forget_outputs_APPLY_DIR.
  - destruct (DELTA cfg); [reflexivity|].
    apply BABYSTEP_AXIS_outputs. intros; apply forget_outputs_APPLY_DIR.
Qed.

Lemma steps_idle_babystep axis direction s :
  steps_idle cfg s -> steps_idle cfg (babystep cfg axis direction s).
Proof.
  intros H0. unfold babystep. destruct axis; try exact H0.
  - apply steps_idle_BABYSTEP_AXIS; try exact H0;
      intros; first [apply forget_outputs_APPLY_DIR | apply forget_dirs_APPLY_DIR].
  - apply steps_idle_BABYSTEP_AXIS; try exact H0;
      intros; first [apply forget_outputs_APPLY_DIR | apply forget_dirs_APPLY_DIR].
  - destruct (DELTA cfg).
    + intros m. unfold babystep_delta_z, STEP_WRITE, DIR_WRITE. cbv zeta. st_simpl.
      unfold upd_motor. pose proof (H0 m) as Hm.
      destruct m; cbn [Motor_eqb motor_axis] in *; try exact Hm; reflexivity.
    + apply steps_idle_BABYSTEP_AXIS; try exact H0;
        intros; first [apply forget_outputs_APPLY_DIR | apply forget_dirs_APPLY_DIR].
Qed.

End BabystepRest.

(** X20 — a babystep is invisible to the stepper.  It leaves every variable
    of the interrupt as it is — the block in hand, the Bresenham counters,
    the step event counter, the positions, the endstop latch — so a block
    being traced stays traced at the same point; the step pins are back at
    rest, [count_direction] still agrees with [out_bits], and so do the
    direction pins of the first drivers ([primary_motors]: not the X
    carriages of a dual-carriage build, whose second pin a babystep on X
    rewrites, nor the second Y and Z drivers). *)
Theorem babystep_is_transparent (cfg : Config) (axis : AxisEnum) (direction : bool)
    (s : state) :
  let s' := babystep cfg axis direction s in
  forget_outputs s' = forget_outputs s
  /\ (steps_idle cfg s -> steps_idle cfg s')
  /\ (directions_latched cfg s -> directions_latched cfg s')
  /\ (pins_latched cfg s -> pins_latched cfg s')
  /\ (forall b rest a p0 k, tracing cfg b rest a p0 k s -> tracing cfg b rest a p0 k s').
Proof.
  cbv zeta. pose proof (forget_outputs_babystep cfg axis direction s) as F.
  assert (P : forall (A : Type) (p : state -> A),
            (forall x, p (forget_outputs x) = p x) ->
            p (babystep cfg axis direction s) = p s).
  { intros A p Hp. rewrite <- Hp, F. apply Hp. }
  split; [exact F|]. split; [apply steps_idle_babystep|]. split; [|split].
  - intros HL a Ha. rewrite (P _ count_direction), (P _ out_bits) by reflexivity.
    apply HL, Ha.
  - intros HP m Hm. rewrite (P _ out_bits) by reflexivity. rewrite <- (HP m Hm).
    apply babystep_dir_pin. unfold primary_motors in Hm. unfold babystep_second_dirs.
    destruct axis, (DUAL_X_CARRIAGE cfg), (Y_DUAL_STEPPER_DRIVERS cfg), (DELTA cfg),
      (Z_DUAL_STEPPER_DRIVERS cfg), (ADVANCE cfg), m; try discriminate Hm; reflexivity.
  - intros b rest a p0 k [T1 T2 T3 T4 T5 T6 T7 T8]. split.
    + rewrite (P _ current_block) by reflexivity. exact T1.
    + rewrite (P _ block_buffer) by reflexivity. exact T2.
    + rewrite (P _ cleaning_buffer_counter) by reflexivity. exact T3.
    + rewrite (P _ step_events_completed) by reflexivity. exact T4.
    + rewrite (P _ step_loops) by reflexivity. exact T5.
    + rewrite (P _ step_loops_nominal) by reflexivity. exact T6.
    + rewrite (P _ count_direction) by reflexivity. exact T7.
    + rewrite (P _ counter), (P _ count_position) by reflexivity. exact T8.
Qed.

(** ** From a fresh block to the end of the queue *)

Section Queue.
Variable cfg : Config.

(** The first interrupt of a fresh block. *)
Lemma fresh_tick B rest a s inp :
  (a = E_AXIS -> ADVANCE cfg = false) ->
  block_wf B ->
  cleaning_buffer_counter s = 0 -> current_block s = None -> block_buffer s = B :: rest ->
  directions_latched cfg s ->
  - 2 ^ 31 <= count_position s a < 2 ^ 31 ->
  endstop_truncates cfg inp s = false ->
  let b := set_busy true B in
  (exists k, 0 <= k < step_event_count b
             /\ tracing cfg b rest a (count_position s a) k (HAL_STEP_TIMER_ISR cfg inp s)
             /\ releases cfg inp s = false)
  \/ (releases cfg inp s = true
      /\ finished cfg b rest a (count_position s a) (HAL_STEP_TIMER_ISR cfg inp s)).
Proof.
  intros HE Hwf Hc Hb Hq HL Hp Hu. cbv zeta.
  assert (Hwf' : block_wf (set_busy true B)) by exact Hwf.
  pose proof (tracing_acquire cfg inp B rest a s HE Hwf Hc Hb Hq HL Hp) as Ht.
  destruct (ISR_unflushed cfg inp s Hc) as [EI ET].
  rewrite ET in Hu. unfold releases. rewrite EI. clear EI ET.
  destruct (isr_acquire cfg inp s) as [s1 returned]. cbn [fst snd] in *.
  pose proof (tr_block _ _ _ _ _ _ _ Ht) as Hb1.
  pose proof (tr_queue _ _ _ _ _ _ _ Ht) as Hq1.
  assert (HN : 0 <= 0 < step_event_count (set_busy true B)).
  { destruct Hwf as [HN _]. change (step_event_count (set_busy true B)) with (step_event_count B). lia. }
  rewrite Hq. destruct returned.
  - left. exists 0. split; [exact HN|]. split; [exact Ht|].
    rewrite Hq1. cbn [length]. apply Nat.ltb_irrefl.
  - rewrite Hb1 in *. apply negb_false_iff, Z.eqb_eq in Hu.
    destruct (tracing_isr_block cfg (set_busy true B) rest a (count_position s a) HE Hwf'
                inp 0 s1 Ht HN Hu)
      as [(k' & Hk' & Ht')|(R1 & R2 & R3)].
    + left. exists k'. split; [lia|]. split; [exact Ht'|].
      rewrite (tr_queue _ _ _ _ _ _ _ Ht'). cbn [length]. apply Nat.ltb_irrefl.
    + right. split.
      * rewrite R2. cbn [length]. apply Nat.ltb_lt. lia.
      * split; [exact R1|]. split; [exact R2|exact R3].
Qed.

(** The handler never lengthens the queue. *)
Lemma length_block_buffer_ISR inp s :
  (length (block_buffer (HAL_STEP_TIMER_ISR cfg inp s)) <= length (block_buffer s))%nat.
Proof.
  assert (K : forall b x,
            (length (block_buffer (isr_block cfg inp b x)) <= length (block_buffer x))%nat).
  { intros b x. rewrite isr_block_eq.
    pose proof (block_buffer_after_check cfg inp b x) as Q.
    set (s2 := isr_steps cfg b (isr_endstops cfg inp b x)) in *.
    destruct (Z_ge_lt_dec (step_events_completed s2) (step_event_count b)) as [G|G].
    - rewrite (proj2 (isr_finish_release cfg inp b s2 G)), Q.
      destruct (block_buffer x); cbn [tl length]; lia.
    - rewrite (proj2 (isr_finish_keep cfg inp b s2 G)), Q. lia. }
  destruct (Z.eqb_spec (cleaning_buffer_counter s) 0) as [Hc|Hc].
  2:{ rewrite (ISR_flushing cfg inp s Hc).
      change (block_buffer (isr_cleaning cfg inp s)) with (tl (block_buffer s)).
      destruct (block_buffer s); cbn [tl length]; lia. }
  destruct (current_block s) as [b|] eqn:Hb.
  { rewrite (isr_running cfg inp b s Hc Hb). apply K. }
  destruct (block_buffer s) as [|b0 rest] eqn:Hq.
  { rewrite (ISR_idle cfg inp s Hc Hb Hq).
    change (block_buffer (HAL_timer_stepper_count (HAL_TIMER_RATE cfg / 1000) inp s))
      with (block_buffer s).
    rewrite Hq. lia. }
  destruct (ISR_unflushed cfg inp s Hc) as [E _]. rewrite E. clear E.
  destruct (isr_acquire_fresh_effect cfg inp b0 rest s Hb Hq) as (A1 & A2 & _).
  cbv zeta in A1, A2.
  assert (L1 : length (block_buffer (fst (isr_acquire cfg inp s))) = length (b0 :: rest))
    by (rewrite A2; reflexivity).
  destruct (snd (isr_acquire cfg inp s)); [rewrite L1; lia|].
  rewrite A1. rewrite <- L1. apply K.
Qed.

Lemma length_block_buffer_run inps : forall s,
  (length (block_buffer (run cfg inps s)) <= length (block_buffer s))%nat.
Proof.
  induction inps as [|inp inps IH]; intros s; cbn [run]; [lia|].
  etransitivity; [apply IH|apply length_block_buffer_ISR].
Qed.

(** A block stays traced until it is handed back. *)
Lemma tracing_run b rest a p0 inps : forall k s,
  (a = E_AXIS -> ADVANCE cfg = false) -> block_wf b ->
  tracing cfg b rest a p0 k s -> 0 <= k < step_event_count b ->
  untruncated cfg inps s = true ->
  block_buffer (run cfg inps s) = b :: rest ->
  exists k', k <= k' < step_event_count b /\ tracing cfg b rest a p0 k' (run cfg inps s).
Proof.
  induction inps as [|inp inps IH]; intros k s HE Hwf Ht Hk Hu Hq'; cbn [run] in *.
  - exists k. split; [lia|exact Ht].
  - cbn [untruncated] in Hu. apply andb_prop in Hu. destruct Hu as [Hu1 Hu2].
    apply negb_true_iff in Hu1.
    destruct (tracing_ISR cfg b rest a p0 HE Hwf inp k s Ht Hk Hu1)
      as [(k' & Hk' & Ht' & Hr)|(Hr & Hf)].
    + rewrite Hr in Hu2. cbn [orb] in Hu2.
      destruct (IH k' _ HE Hwf Ht' ltac:(lia) Hu2 Hq') as (k'' & Hk'' & Ht'').
      exists k''. split; [lia|exact Ht''].
    + exfalso. destruct Hf as (_ & Hf & _).
      pose proof (length_block_buffer_run inps (HAL_STEP_TIMER_ISR cfg inp s)) as L.
      rewrite Hq', Hf in L. cbn [length] in L. lia.
Qed.

(** Where the tracer stands on the ideal line. *)
Lemma tracing_line b rest a p0 k s :
  block_wf b -> tracing cfg b rest a p0 k s -> 0 <= k ->
  exists n, 0 <= n <= k
            /\ count_position s a = int32 (p0 + block_dir cfg b a * n)
            /\ - step_event_count b <= 2 * (n * step_event_count b - k * steps b a)
               <= step_event_count b.
Proof.
  intros [HN Hst] Ht Hk. destruct (tr_axis _ _ _ _ _ _ _ Ht) as (n & Hc & Hr & Hp).
  specialize (Hst a).
  assert (H2 : 0 <= step_event_count b - 2 * (step_event_count b / 2) <= 1).
  { pose proof (Z.mod_pos_bound (step_event_count b) 2 ltac:(lia)).
    pose proof (Z.div_mod (step_event_count b) 2 ltac:(lia)). lia. }
  exists n. rewrite Hc in Hr. split; [|split; [exact Hp|]].
  - split; nia.
  - nia.
Qed.

End Queue.

(** X21 — the tracer follows the straight line.  While a block is in hand and
    no endstop has cut it short, an axis that has seen [k] of the block's
    step events has taken [n] steps in the block's direction, where [n]
    times the step event count differs from [k] times the axis's step count
    by at most half the step event count: the axis is never more than half
    a step off the line from start to target. *)
Theorem tracer_follows_line (cfg : Config) (B : block_t) (rest : list block_t)
    (a : AxisEnum) (inps : list isr_input) (s : state) :
  (a = E_AXIS -> ADVANCE cfg = false) ->
  block_wf B ->
  cleaning_buffer_counter s = 0 -> current_block s = None -> block_buffer s = B :: rest ->
  directions_latched cfg s ->
  - 2 ^ 31 <= count_position s a < 2 ^ 31 ->
  untruncated cfg inps s = true ->
  let s' := run cfg inps s in
  inps <> [] ->
  block_buffer s' = set_busy true B :: rest ->
  exists n, 0 <= n <= step_events_completed s'
            /\ step_events_completed s' < step_event_count B
            /\ count_position s' a = int32 (count_position s a + block_dir cfg B a * n)
            /\ - step_event_count B
               <= 2 * (n * step_event_count B - step_events_completed s' * steps B a)
               <= step_event_count B.
Proof.
  intros HE Hwf Hc Hb Hq HL Hp Hu. cbv zeta. intros Hne Hq'.
  destruct inps as [|inp inps]; [contradiction|]. cbn [run] in *.
  cbn [untruncated] in Hu. apply andb_prop in Hu. destruct Hu as [Hu1 Hu2].
  apply negb_true_iff in Hu1.
  set (b := set_busy true B) in *.
  assert (Hwf' : block_wf b) by exact Hwf.
  destruct (fresh_tick cfg B rest a s inp HE Hwf Hc Hb Hq HL Hp Hu1)
    as [(k & Hk & Ht & Hr)|(Hr & Hf)].
  - rewrite Hr in Hu2. cbn [orb] in Hu2.
    destruct (tracing_run cfg b rest a (count_position s a) inps k _ HE Hwf' Ht Hk Hu2 Hq')
      as (k' & Hk' & Ht').
    destruct (tracing_line cfg b rest a _ k' _ Hwf' Ht' ltac:(lia)) as (n & Hn & Hpos & Hline).
    rewrite (tr_events _ _ _ _ _ _ _ Ht').
    exists n. split; [exact Hn|]. split; [exact (proj2 Hk')|]. split; [exact Hpos|exact Hline].
  - exfalso. destruct Hf as (_ & Hf & _).
    pose proof (length_block_buffer_run cfg inps (HAL_STEP_TIMER_ISR cfg inp s)) as L.
    rewrite Hq', Hf in L. cbn [length] in L. lia.
Qed.

Lemma tracer_follows_line_witness :
  exists n, 0 <= n <= step_events_completed
                         (run cartesian [quiet_input; quiet_input]
                            (enqueue diagonal_block power_on))
            /\ step_events_completed
                 (run cartesian [quiet_input; quiet_input] (enqueue diagonal_block power_on))
               < step_event_count diagonal_block
            /\ count_position
                 (run cartesian [quiet_input; quiet_input] (enqueue diagonal_block power_on))
                 X_AXIS
               = int32 (count_position (enqueue diagonal_block power_on) X_AXIS
                        + block_dir cartesian diagonal_block X_AXIS * n)
            /\ - step_event_count diagonal_block
               <= 2 * (n * step_event_count diagonal_block
                       - step_events_completed
                           (run cartesian [quiet_input; quiet_input]
                              (enqueue diagonal_block power_on))
                         * steps diagonal_block X_AXIS)
               <= step_event_count diagonal_block.
Proof.
  apply (tracer_follows_line cartesian diagonal_block [] X_AXIS [quiet_input; quiet_input]
           (enqueue diagonal_block power_on)).
  - discriminate.
  - split; [vm_compute; easy|]. intros a. destruct a; vm_compute; easy.
  - reflexivity.
  - reflexivity.
  - reflexivity.
  - intros a _. destruct a; reflexivity.
  - vm_compute. easy.
  - vm_compute. reflexivity.
  - discriminate.
  - vm_compute. reflexivity.
Defined.

Section Drain.
Variable cfg : Config.

Lemma cleaning_buffer_counter_ISR inp s :
  cleaning_buffer_counter s = 0 ->
  cleaning_buffer_counter (HAL_STEP_TIMER_ISR cfg inp s) = 0.
Proof.
  intros Hc.
  destruct (current_block s) as [b|] eqn:Hb.
  { rewrite (isr_running cfg inp b s Hc Hb), <- Hc.
    by_frame forget_tick (forget_tick_isr_block cfg inp b s). }
  destruct (block_buffer s) as [|b0 rest] eqn:Hq.
  { rewrite (ISR_idle cfg inp s Hc Hb Hq). exact Hc. }
  rewrite (ISR_field_fresh cfg inp cleaning_buffer_counter ltac:(reflexivity) b0 rest s Hc Hb Hq).
  rewrite (proj1 (proj2 (proj2 (current_block_reset cfg _ _)))). exact Hc.
Qed.

Lemma directions_latched_ISR inp s :
  directions_latched cfg s -> directions_latched cfg (HAL_STEP_TIMER_ISR cfg inp s).
Proof.
  intros HL.
  destruct (Z.eqb_spec (cleaning_buffer_counter s) 0) as [Hc|Hc];
    [destruct (current_block s) as [b|] eqn:Hb;
     [|destruct (block_buffer s) as [|b0 rest] eqn:Hq]|].
  4:{ assert (K : cleaning_buffer_counter s <> 0 \/ current_block s <> None
                  \/ block_buffer s = []) by (left; exact Hc).
      intros a Ha.
      rewrite (ISR_field_kept cfg inp out_bits ltac:(reflexivity) ltac:(reflexivity) s K).
      rewrite (ISR_field_kept cfg inp count_direction ltac:(reflexivity) ltac:(reflexivity) s K).
      apply HL, Ha. }
  - assert (K : cleaning_buffer_counter s <> 0 \/ current_block s <> None
                \/ block_buffer s = []) by (right; left; rewrite Hb; discriminate).
    intros a Ha.
    rewrite (ISR_field_kept cfg inp out_bits ltac:(reflexivity) ltac:(reflexivity) s K).
    rewrite (ISR_field_kept cfg inp count_direction ltac:(reflexivity) ltac:(reflexivity) s K).
    apply HL, Ha.
  - assert (K : cleaning_buffer_counter s <> 0 \/ current_block s <> None
                \/ block_buffer s = []) by (right; right; exact Hq).
    intros a Ha.
    rewrite (ISR_field_kept cfg inp out_bits ltac:(reflexivity) ltac:(reflexivity) s K).
    rewrite (ISR_field_kept cfg inp count_direction ltac:(reflexivity) ltac:(reflexivity) s K).
    apply HL, Ha.
  - intros a Ha.
    rewrite (ISR_field_fresh cfg inp out_bits ltac:(reflexivity) b0 rest s Hc Hb Hq).
    rewrite (ISR_field_fresh cfg inp count_direction ltac:(reflexivity) b0 rest s Hc Hb Hq).
    apply (directions_latched_trapezoid_generator_reset cfg (set_busy true b0)
             (set_current_block (Some (set_busy true b0))
                (set_block_buffer (set_busy true b0 :: rest) s)) HL a Ha).
Qed.

Lemma unchecked_run_run inps : forall s,
  unchecked_run cfg s -> unchecked_run cfg (run cfg inps s).
Proof.
  induction inps as [|inp inps IH]; intros s H; cbn [run]; [exact H|].
  apply IH. destruct H as (H1 & H2 & H3). split; [|split].
  - apply cleaning_buffer_counter_ISR, H1.
  - apply check_endstops_ISR_unchecked, H2.
  - apply directions_latched_ISR, H3.
Qed.

Lemma run_app l1 : forall l2 s, run cfg (l1 ++ l2) s = run cfg l2 (run cfg l1 s).
Proof. induction l1 as [|i l1 IH]; intros l2 s; cbn [run app]; [reflexivity|apply IH]. Qed.

Lemma run_idle inps : forall s,
  cleaning_buffer_counter s = 0 -> current_block s = None -> block_buffer s = [] ->
  current_block (run cfg inps s) = None
  /\ block_buffer (run cfg inps s) = []
  /\ count_position (run cfg inps s) = count_position s.
Proof.
  induction inps as [|inp inps IH]; intros s Hc Hb Hq; cbn [run].
  - repeat split; assumption.
  - rewrite (ISR_idle cfg inp s Hc Hb Hq).
    apply (IH (HAL_timer_stepper_count (HAL_TIMER_RATE cfg / 1000) inp s) Hc Hb Hq).
Qed.

(** With the check off, a block in progress is finished within as many
    interrupts as it has step events left. *)
Lemma tracing_finishes b rest a p0 inps : forall k s,
  (a = E_AXIS -> ADVANCE cfg = false) -> block_wf b ->
  tracing cfg b rest a p0 k s -> 0 <= k < step_event_count b ->
  check_endstops s = false ->
  (Z.to_nat (step_event_count b - k) <= length inps)%nat ->
  exists l1 l2, inps = l1 ++ l2
                /\ (length l1 <= Z.to_nat (step_event_count b - k))%nat
                /\ finished cfg b rest a p0 (run cfg l1 s).
Proof.
  induction inps as [|inp inps IH]; intros k s HE Hwf Ht Hk Hu Hlen; cbn [length] in Hlen.
  - lia.
  - destruct (tracing_ISR cfg b rest a p0 HE Hwf inp k s Ht Hk
                (endstop_truncates_unchecked cfg inp s Hu))
      as [(k' & Hk' & Ht' & Hr)|(Hr & Hf)].
    + destruct (IH k' _ HE Hwf Ht' ltac:(lia) (check_endstops_ISR_unchecked cfg inp s Hu)
                  ltac:(lia)) as (l1 & l2 & E & L & F).
      exists (inp :: l1), l2. split; [rewrite E; reflexivity|]. split; [|exact F].
      cbn [length]. lia.
    + exists [inp], inps. split; [reflexivity|]. split; [cbn [length]; lia|exact Hf].
Qed.

(** The same from the moment the block is taken up. *)
Lemma fresh_block_finishes B rest a inps s :
  (a = E_AXIS -> ADVANCE cfg = false) -> block_wf B ->
  current_block s = None -> block_buffer s = B :: rest ->
  unchecked_run cfg s ->
  - 2 ^ 31 <= count_position s a < 2 ^ 31 ->
  (Z.to_nat (step_event_count B) + 1 <= length inps)%nat ->
  exists l1 l2, inps = l1 ++ l2
                /\ (length l1 <= Z.to_nat (step_event_count B) + 1)%nat
                /\ finished cfg (set_busy true B) rest a (count_position s a) (run cfg l1 s).
Proof.
  intros HE Hwf Hb Hq (Hc & Hu & HL) Hp Hlen.
  destruct inps as [|inp inps]; cbn [length] in Hlen; [lia|].
  destruct (fresh_tick cfg B rest a s inp HE Hwf Hc Hb Hq HL Hp
              (endstop_truncates_unchecked cfg inp s Hu))
    as [(k & Hk & Ht & Hr)|(Hr & Hf)].
  - change (step_event_count (set_busy true B)) with (step_event_count B) in Hk.
    destruct (tracing_finishes (set_busy true B) rest a (count_position s a) inps k _ HE Hwf
                Ht Hk (check_endstops_ISR_unchecked cfg inp s Hu))
      as (l1 & l2 & E & L & F).
    { change (step_event_count (set_busy true B)) with (step_event_count B). lia. }
    change (step_event_count (set_busy true B)) with (step_event_count B) in L.
    exists (inp :: l1), l2. split; [rewrite E; reflexivity|]. split; [|exact F].
    cbn [length]. lia.
  - exists [inp], inps. split; [reflexivity|]. split; [cbn [length]; lia|exact Hf].
Qed.

Lemma queue_drains bs a : forall inps s,
  (a = E_AXIS -> ADVANCE cfg = false) ->
  Forall block_wf bs ->
  current_block s = None -> block_buffer s = bs ->
  unchecked_run cfg s ->
  - 2 ^ 31 <= count_position s a < 2 ^ 31 ->
  (ticks_needed bs <= length inps)%nat ->
  current_block (run cfg inps s) = None
  /\ block_buffer (run cfg inps s) = []
  /\ st_get_position a (run cfg inps s) = int32 (count_position s a + total_steps cfg bs a).
Proof.
  induction bs as [|B rest IH]; intros inps s HE Hwf Hb Hq Hinv Hp Hlen.
  - destruct (run_idle inps s (proj1 Hinv) Hb Hq) as (R1 & R2 & R3).
    split; [exact R1|]. split; [exact R2|].
    unfold st_get_position. rewrite R3. cbn [total_steps]. rewrite Z.add_0_r.
    symmetry. apply int32_small, Hp.
  - inversion Hwf as [|? ? HwfB Hwfr]; subst.
    cbn [ticks_needed] in Hlen.
    destruct (fresh_block_finishes B rest a inps s HE HwfB Hb Hq Hinv Hp ltac:(lia))
      as (l1 & l2 & E & L & (F1 & F2 & F3)).
    subst inps. rewrite run_app. rewrite length_app in Hlen.
    pose proof (unchecked_run_run l1 s Hinv) as Hinv1.
    assert (Hp1 : - 2 ^ 31 <= count_position (run cfg l1 s) a < 2 ^ 31).
    { change (count_position (run cfg l1 s) a) with (st_get_position a (run cfg l1 s)).
      rewrite F3. apply int32_range. }
    destruct (IH l2 (run cfg l1 s) HE Hwfr F1 F2 Hinv1 Hp1 ltac:(lia)) as (R1 & R2 & R3).
    split; [exact R1|]. split; [exact R2|].
    rewrite R3.
    change (count_position (run cfg l1 s) a) with (st_get_position a (run cfg l1 s)).
    rewrite F3, int32_add_l. cbn [total_steps].
    change (signed_steps cfg (set_busy true B) a) with (signed_steps cfg B a).
    f_equal. lia.
Qed.

End Drain.

(** X22 — a queue runs to completion.  With the endstop check off, no flush
    pending and the direction latch in force, one interrupt per step event
    plus one per block empties a queue of well-formed blocks: no block is
    left in hand, none is queued, and every axis the interrupt steps stands
    at its start plus the sum of the blocks' signed steps, as an [int32].
    Interrupts beyond that number change nothing of this. *)
Theorem queue_runs_to_completion (cfg : Config) (bs : list block_t) (a : AxisEnum)
    (inps : list isr_input) (s : state) :
  (a = E_AXIS -> ADVANCE cfg = false) ->
  Forall block_wf bs ->
  cleaning_buffer_counter s = 0 -> current_block s = None -> block_buffer s = bs ->
  check_endstops s = false ->
  directions_latched cfg s ->
  - 2 ^ 31 <= count_position s a < 2 ^ 31 ->
  (ticks_needed bs <= length inps)%nat ->
  let s' := run cfg inps s in
  current_block s' = None
  /\ block_buffer s' = []
  /\ st_get_position a s' = int32 (count_position s a + total_steps cfg bs a).
Proof.
  intros HE Hwf Hc Hb Hq Hu HL Hp Hlen. cbv zeta.
  apply (queue_drains cfg bs a inps s HE Hwf Hb Hq); try assumption.
  split; [exact Hc|]. split; [exact Hu|exact HL].
Qed.

Lemma queue_runs_to_completion_witness :
  st_get_position X_AXIS
    (run cartesian (repeat quiet_input 12)
       (enqueue diagonal_block (enqueue diagonal_block (enable_endstops false power_on))))
  = int32 (count_position
             (enqueue diagonal_block (enqueue diagonal_block (enable_endstops false power_on)))
             X_AXIS
           + total_steps cartesian [diagonal_block; diagonal_block] X_AXIS).
Proof.
  apply (queue_runs_to_completion cartesian [diagonal_block; diagonal_block] X_AXIS
           (repeat quiet_input 12)
           (enqueue diagonal_block (enqueue diagonal_block (enable_endstops false power_on)))).
  - discriminate.
  - apply Forall_cons; [|apply Forall_cons; [|apply Forall_nil]];
      (split; [vm_compute; easy|intros a; destruct a; vm_compute; easy]).
  - reflexivity.
  - reflexivity.
  - reflexivity.
  - reflexivity.
  - intros a _. destruct a; reflexivity.
  - vm_compute. easy.
  - vm_compute. lia.
Defined.

(** ** The extruder interrupt *)

Section Extruder.
Variable acfg : AdvanceConfig.
Variable m : Z.

Lemma advanced_refl x : advanced acfg m 0 x x.
Proof.
  unfold advanced, toward_zero. split.
  - destruct (Z.ltb_spec (e_steps (stepper x) m) 0); lia.
  - replace (Z.min 0 (Z.abs (e_steps (stepper x) m))) with 0 by lia.
    cbn. rewrite app_nil_r. reflexivity.
Qed.

Lemma e_pulses_add e j j' :
  0 <= j -> 0 <= j' -> e_pulses acfg m e j ++ e_pulses acfg m e j' = e_pulses acfg m e (j + j').
Proof.
  intros Hj Hj'. unfold e_pulses.
  rewrite Z2Nat.inj_add by assumption. rewrite repeat_app, concat_app. reflexivity.
Qed.

Lemma e_pulses_sign e e' j :
  (e <? 0) = (e' <? 0) -> e_pulses acfg m e j = e_pulses acfg m e' j.
Proof. unfold e_pulses. intros ->. reflexivity. Qed.

Lemma advanced_trans j j' x x' x'' :
  0 <= j -> 0 <= j' -> advanced acfg m j x x' -> advanced acfg m j' x' x'' ->
  advanced acfg m (j + j') x x''.
Proof.
  intros Hj Hj' [E1 T1] [E2 T2]. unfold advanced.
  set (e := e_steps (stepper x) m) in *.
  rewrite E1 in E2, T2. rewrite T1 in T2. rewrite <- app_assoc in T2.
  split.
  - rewrite E2. unfold toward_zero.
    destruct (Z.ltb_spec e 0); destruct (Z.ltb_spec (Z.min 0 (e + j)) 0);
      destruct (Z.ltb_spec (Z.max 0 (e - j)) 0); lia.
  - rewrite T2. f_equal.
    destruct (Z.eq_dec (toward_zero e j) 0) as [Z0|Z0].
    + rewrite Z0. replace (Z.min j' (Z.abs 0)) with 0 by lia.
      cbn. rewrite app_nil_r. f_equal.
      unfold toward_zero in Z0. destruct (Z.ltb_spec e 0); lia.
    + assert (S : (toward_zero e j <? 0) = (e <? 0)).
      { unfold toward_zero in *.
        destruct (Z.ltb_spec e 0); [apply Z.ltb_lt|apply Z.ltb_ge]; lia. }
      rewrite (e_pulses_sign _ e _ S), e_pulses_add by lia. f_equal.
      unfold toward_zero in *. destruct (Z.ltb_spec e 0); lia.
Qed.

Lemma forget_e_steps_set s v : forget_e_steps (set_e_steps v s) = forget_e_steps s.
Proof. reflexivity. Qed.

Lemma advance_pulse_other n x :
  n <> m ->
  e_steps (stepper (advance_pulse acfg n x)) m = e_steps (stepper x) m
  /\ extruder_events m (e_trace (advance_pulse acfg n x)) = extruder_events m (e_trace x).
Proof.
  intros Hn. apply Z.eqb_neq in Hn. unfold advance_pulse. cbv zeta.
  destruct (e_steps (stepper x) n =? 0); cbn [negb]; [split; reflexivity|].
  change (e_steps (stepper (e_emit (EStepWrite n (INVERT_E_STEP_PIN acfg)) x)) n)
    with (e_steps (stepper x) n).
  destruct (e_steps (stepper x) n <? 0); [|destruct (0 <? e_steps (stepper x) n)];
    cbn [e_emit set_e_step stepper e_trace]; unfold extruder_events, upd_Z, set_e_steps;
    cbn [e_steps]; rewrite ?filter_app; cbn [filter is_extruder_event];
    rewrite ?Hn, ?app_nil_r; split; reflexivity.
Qed.

Lemma advance_pulse_self x :
  - 2 ^ 31 <= e_steps (stepper x) m < 2 ^ 31 ->
  advanced acfg m 1 x (advance_pulse acfg m x).
Proof.
  intros He. unfold advanced, advance_pulse, toward_zero. cbv zeta.
  set (e := e_steps (stepper x) m) in *.
  destruct (Z.eqb_spec e 0) as [E0|E0]; cbn [negb].
  { fold e. rewrite E0. split; [reflexivity|]. cbn. rewrite app_nil_r. reflexivity. }
  change (e_steps (stepper (e_emit (EStepWrite m (INVERT_E_STEP_PIN acfg)) x)) m) with e.
  destruct (Z.ltb_spec e 0) as [L|L].
  - cbn [e_emit set_e_step stepper e_trace]. unfold extruder_events, upd_Z, set_e_steps.
    cbn [e_steps]. rewrite Z.eqb_refl, !filter_app. cbn [filter is_extruder_event]. rewrite Z.eqb_refl.
    fold e. split; [rewrite int32_small by lia; lia|].
    replace (Z.min 1 (Z.abs e)) with 1 by lia.
    unfold e_pulses. cbn. rewrite <- !app_assoc. cbn [app].
    destruct (Z.ltb_spec e 0); [reflexivity|lia].
  - destruct (Z.ltb_spec 0 e) as [G|G]; [|lia].
    cbn [e_emit set_e_step stepper e_trace]. unfold extruder_events, upd_Z, set_e_steps.
    cbn [e_steps]. rewrite Z.eqb_refl, !filter_app. cbn [filter is_extruder_event]. rewrite Z.eqb_refl.
    fold e. split; [rewrite int32_small by lia; lia|].
    replace (Z.min 1 (Z.abs e)) with 1 by lia.
    unfold e_pulses. cbn. rewrite <- !app_assoc. cbn [app].
    destruct (Z.ltb_spec e 0); [lia|reflexivity].
Qed.

Lemma forget_e_steps_advance_pulse n x :
  forget_e_steps (stepper (advance_pulse acfg n x)) = forget_e_steps (stepper x).
Proof.
  unfold advance_pulse. cbv zeta.
  destruct (negb (e_steps (stepper x) n =? 0)); [|reflexivity].
  change (e_steps (stepper (e_emit (EStepWrite n (INVERT_E_STEP_PIN acfg)) x)) n)
    with (e_steps (stepper x) n).
  destruct (e_steps (stepper x) n <? 0); [reflexivity|].
  destruct (0 <? e_steps (stepper x) n); reflexivity.
Qed.

Lemma advanced_range j x x' :
  0 <= j -> advanced acfg m j x x' ->
  - 2 ^ 31 <= e_steps (stepper x) m < 2 ^ 31 ->
  - 2 ^ 31 <= e_steps (stepper x') m < 2 ^ 31.
Proof.
  intros Hj [E _] H. rewrite E. unfold toward_zero.
  destruct (Z.ltb_spec (e_steps (stepper x) m) 0); lia.
Qed.

End Extruder.

(** An extruder the handler has code for is stepped once per pass. *)
Lemma advance_pass_self (acfg : AdvanceConfig) (m : Z) x :
  has_extruder acfg m = true ->
  - 2 ^ 31 <= e_steps (stepper x) m < 2 ^ 31 ->
  advanced acfg m 1 x (advance_pass acfg x).
Proof.
  intros Hm He. unfold advance_pass. cbv zeta.
  assert (K : forall n y, n <> m -> advanced acfg m 0 y (advance_pulse acfg n y)).
  { intros n y Hn. destruct (advance_pulse_other acfg m n y Hn) as [A B].
    destruct (advanced_refl acfg m y) as [A' B']. split.
    - rewrite A. exact A'.
    - rewrite B. exact B'. }
  assert (G : forall (n : Z) y, 1 <= n ->
            - 2 ^ 31 <= e_steps (stepper y) m < 2 ^ 31 ->
            advanced acfg m (if n =? m then 1 else 0) y
              (if n <? EXTRUDERS acfg then advance_pulse acfg n y else y)).
  { intros n y Hn Hy. destruct (Z.eqb_spec n m) as [->|N].
    - unfold has_extruder in Hm. destruct (Z.eqb_spec m 0); [lia|]. cbn [orb] in Hm.
      apply andb_prop in Hm. destruct Hm as [_ Hm]. rewrite Hm.
      apply advance_pulse_self, Hy.
    - destruct (n <? EXTRUDERS acfg); [apply K, N|apply advanced_refl]. }
  set (x0 := advance_pulse acfg 0 x).
  assert (A0 : advanced acfg m (if 0 =? m then 1 else 0) x x0).
  { destruct (Z.eqb_spec 0 m) as [<-|N]; [apply advance_pulse_self, He|apply K, N]. }
  assert (R0 := advanced_range acfg m (if 0 =? m then 1 else 0) _ _
                 ltac:(destruct (0 =? m); lia) A0 He).
  set (x1 := if 1 <? EXTRUDERS acfg then advance_pulse acfg 1 x0 else x0).
  assert (A1 := G 1 x0 ltac:(lia) R0). fold x1 in A1.
  assert (R1 := advanced_range acfg m (if 1 =? m then 1 else 0) _ _
                 ltac:(destruct (1 =? m); lia) A1 R0).
  set (x2 := if 2 <? EXTRUDERS acfg then advance_pulse acfg 2 x1 else x1).
  assert (A2 := G 2 x1 ltac:(lia) R1). fold x2 in A2.
  assert (R2 := advanced_range acfg m (if 2 =? m then 1 else 0) _ _
                 ltac:(destruct (2 =? m); lia) A2 R1).
  assert (A3 := G 3 x2 ltac:(lia) R2).
  assert (P : forall n : Z, 0 <= (if n =? m then 1 else 0))
    by (intros n; destruct (n =? m); lia).
  pose proof (advanced_trans acfg m _ _ _ _ _ (P 0) (P 1) A0 A1) as B1.
  pose proof (advanced_trans acfg m _ _ _ _ _
                (Z.add_nonneg_nonneg _ _ (P 0) (P 1)) (P 2) B1 A2) as B2.
  pose proof (advanced_trans acfg m _ _ _ _ _
                (Z.add_nonneg_nonneg _ _ (Z.add_nonneg_nonneg _ _ (P 0) (P 1)) (P 2))
                (P 3) B2 A3) as B3.
  replace 1 with ((if 0 =? m then 1 else 0) + (if 1 =? m then 1 else 0)
                  + (if 2 =? m then 1 else 0) + (if 3 =? m then 1 else 0)); [exact B3|].
  assert (C : m = 0 \/ m = 1 \/ m = 2 \/ m = 3).
  { unfold has_extruder in Hm. destruct (Z.eqb_spec m 0); [lia|]. cbn [orb] in Hm.
    apply andb_prop in Hm. destruct Hm as [Hm _]. apply andb_prop in Hm.
    destruct Hm as [H1 H3]. apply Z.leb_le in H1, H3. lia. }
  destruct C as [-> | [-> | [-> | ->]]]; reflexivity.
Qed.

(** An extruder it has no code for is left alone. *)
Lemma advance_pass_other (acfg : AdvanceConfig) (m : Z) x :
  has_extruder acfg m = false ->
  e_steps (stepper (advance_pass acfg x)) m = e_steps (stepper x) m
  /\ extruder_events m (e_trace (advance_pass acfg x)) = extruder_events m (e_trace x).
Proof.
  intros Hm. unfold advance_pass. cbv zeta.
  unfold has_extruder in Hm. apply orb_false_elim in Hm. destruct Hm as [M0 Hm].
  apply Z.eqb_neq in M0.
  assert (G : forall (n : Z) y, 1 <= n <= 3 ->
            let y' := if n <? EXTRUDERS acfg then advance_pulse acfg n y else y in
            e_steps (stepper y') m = e_steps (stepper y) m
            /\ extruder_events m (e_trace y') = extruder_events m (e_trace y)).
  { intros n y Hn. cbv zeta. destruct (Z.ltb_spec n (EXTRUDERS acfg)); [|split; reflexivity].
    apply advance_pulse_other. intros ->.
    destruct (Z.leb_spec 1 m); [|lia]. destruct (Z.leb_spec m 3); [|lia].
    destruct (Z.ltb_spec m (EXTRUDERS acfg)); [discriminate Hm|lia]. }
  set (x0 := advance_pulse acfg 0 x).
  destruct (advance_pulse_other acfg m 0 x ltac:(lia)) as [a0 b0]. fold x0 in a0, b0.
  destruct (G 1 x0 ltac:(lia)) as [a1 b1]. cbv zeta in a1, b1.
  set (x1 := if 1 <? EXTRUDERS acfg then advance_pulse acfg 1 x0 else x0) in *.
  destruct (G 2 x1 ltac:(lia)) as [a2 b2]. cbv zeta in a2, b2.
  set (x2 := if 2 <? EXTRUDERS acfg then advance_pulse acfg 2 x1 else x1) in *.
  destruct (G 3 x2 ltac:(lia)) as [a3 b3]. cbv zeta in a3, b3.
  split; congruence.
Qed.

Lemma forget_e_steps_advance_pass (acfg : AdvanceConfig) x :
  forget_e_steps (stepper (advance_pass acfg x)) = forget_e_steps (stepper x).
Proof.
  unfold advance_pass. cbv zeta.
  destruct (1 <? EXTRUDERS acfg); destruct (2 <? EXTRUDERS acfg);
    destruct (3 <? EXTRUDERS acfg); rewrite ?forget_e_steps_advance_pulse; reflexivity.
Qed.

(** Four passes and the comparator. *)
Lemma TIMER0_COMPA_vect_self (acfg : AdvanceConfig) (m : Z) x :
  has_extruder acfg m = true ->
  - 2 ^ 31 <= e_steps (stepper x) m < 2 ^ 31 ->
  advanced acfg m 4 x (TIMER0_COMPA_vect acfg x).
Proof.
  intros Hm He. unfold TIMER0_COMPA_vect. cbv zeta.
  set (x0 := {| stepper := stepper x; old_OCR0A := (old_OCR0A x + 52) mod 256;
                e_trace := e_trace x ++ [Timer0Compare ((old_OCR0A x + 52) mod 256)] |}).
  assert (A0 : advanced acfg m 0 x x0).
  { destruct (advanced_refl acfg m x) as [A B]. split; [exact A|].
    unfold x0, extruder_events. cbn [e_trace]. rewrite filter_app. cbn [filter is_extruder_event].
    rewrite app_nil_r. exact B. }
  unfold Nat.iter. cbn [nat_rect].
  assert (R0 := advanced_range acfg m 0 _ _ ltac:(lia) A0 He).
  assert (A1 := advance_pass_self acfg m x0 Hm R0).
  assert (R1 := advanced_range acfg m 1 _ _ ltac:(lia) A1 R0).
  assert (A2 := advance_pass_self acfg m _ Hm R1).
  assert (R2 := advanced_range acfg m 1 _ _ ltac:(lia) A2 R1).
  assert (A3 := advance_pass_self acfg m _ Hm R2).
  assert (R3 := advanced_range acfg m 1 _ _ ltac:(lia) A3 R2).
  assert (A4 := advance_pass_self acfg m _ Hm R3).
  exact (advanced_trans acfg m 0 4 _ _ _ ltac:(lia) ltac:(lia) A0
           (advanced_trans acfg m 3 1 _ _ _ ltac:(lia) ltac:(lia)
              (advanced_trans acfg m 2 1 _ _ _ ltac:(lia) ltac:(lia)
                 (advanced_trans acfg m 1 1 _ _ _ ltac:(lia) ltac:(lia) A1 A2) A3) A4)).
Qed.

Lemma TIMER0_COMPA_vect_other (acfg : AdvanceConfig) (m : Z) x :
  has_extruder acfg m = false ->
  e_steps (stepper (TIMER0_COMPA_vect acfg x)) m = e_steps (stepper x) m
  /\ extruder_events m (e_trace (TIMER0_COMPA_vect acfg x)) = extruder_events m (e_trace x).
Proof.
  intros Hm. unfold TIMER0_COMPA_vect. cbv zeta. unfold Nat.iter. cbn [nat_rect].
  set (x0 := {| stepper := stepper x; old_OCR0A := (old_OCR0A x + 52) mod 256;
                e_trace := e_trace x ++ [Timer0Compare ((old_OCR0A x + 52) mod 256)] |}).
  assert (B0 : extruder_events m (e_trace x0) = extruder_events m (e_trace x)).
  { unfold x0, extruder_events. cbn [e_trace]. rewrite filter_app.
    cbn [filter is_extruder_event]. apply app_nil_r. }
  change (e_steps (stepper x) m) with (e_steps (stepper x0) m). rewrite <- B0.
  destruct (advance_pass_other acfg m x0 Hm) as [a1 b1].
  destruct (advance_pass_other acfg m (advance_pass acfg x0) Hm) as [a2 b2].
  destruct (advance_pass_other acfg m (advance_pass acfg (advance_pass acfg x0)) Hm)
    as [a3 b3].
  destruct (advance_pass_other acfg m
              (advance_pass acfg (advance_pass acfg (advance_pass acfg x0))) Hm) as [a4 b4].
  split; congruence.
Qed.

Lemma forget_e_steps_TIMER0_COMPA_vect (acfg : AdvanceConfig) x :
  forget_e_steps (stepper (TIMER0_COMPA_vect acfg x)) = forget_e_steps (stepper x).
Proof.
  unfold TIMER0_COMPA_vect. cbv zeta. unfold Nat.iter. cbn [nat_rect].
  rewrite !forget_e_steps_advance_pass. reflexivity.
Qed.

(** Any number of interrupts. *)
Lemma interrupts_advance (acfg : AdvanceConfig) (m : Z) k : forall x,
  has_extruder acfg m = true ->
  - 2 ^ 31 <= e_steps (stepper x) m < 2 ^ 31 ->
  advanced acfg m (4 * Z.of_nat k) x (Nat.iter k (TIMER0_COMPA_vect acfg) x).
Proof.
  induction k as [|k IH]; intros x Hm He.
  - apply advanced_refl.
  - rewrite Nat.iter_succ.
    pose proof (IH x Hm He) as A.
    pose proof (advanced_range acfg m (4 * Z.of_nat k) _ _ ltac:(lia) A He) as R.
    pose proof (TIMER0_COMPA_vect_self acfg m _ Hm R) as B.
    replace (4 * Z.of_nat (S k)) with (4 * Z.of_nat k + 4) by lia.
    exact (advanced_trans acfg m (4 * Z.of_nat k) 4 _ _ _ ltac:(lia) ltac:(lia) A B).
Qed.

Lemma interrupts_leave (acfg : AdvanceConfig) (m : Z) k : forall x,
  has_extruder acfg m = false ->
  e_steps (stepper (Nat.iter k (TIMER0_COMPA_vect acfg) x)) m = e_steps (stepper x) m
  /\ extruder_events m (e_trace (Nat.iter k (TIMER0_COMPA_vect acfg) x))
     = extruder_events m (e_trace x).
Proof.
  induction k as [|k IH]; intros x Hm; [split; reflexivity|]. rewrite Nat.iter_succ.
  destruct (IH x Hm) as [A B].
  destruct (TIMER0_COMPA_vect_other acfg m (Nat.iter k (TIMER0_COMPA_vect acfg) x) Hm) as [C D].
  split; congruence.
Qed.

Lemma forget_e_steps_interrupts (acfg : AdvanceConfig) k : forall x,
  forget_e_steps (stepper (Nat.iter k (TIMER0_COMPA_vect acfg) x)) = forget_e_steps (stepper x).
Proof.
  induction k as [|k IH]; intros x; [reflexivity|]. rewrite Nat.iter_succ.
  rewrite forget_e_steps_TIMER0_COMPA_vect. apply IH.
Qed.


(** X23 — the extruder interrupt delivers the pending steps.  After [k]
    interrupts an extruder the handler serves has its [e_steps] moved [4 k]
    towards zero and not beyond, and its pins have seen exactly that many
    pulses (the smaller of [4 k] and the steps pending), each one the step
    pin to its idle level, the direction for the sign of [e_steps] and the
    step pin to its active level; the rest of the stepper state is not
    touched. *)
Theorem extruder_interrupts_deliver (acfg : AdvanceConfig) (m : Z) (k : nat)
    (x : advance_state) :
  has_extruder acfg m = true ->
  - 2 ^ 31 <= e_steps (stepper x) m < 2 ^ 31 ->
  let e := e_steps (stepper x) m in
  let x' := Nat.iter k (TIMER0_COMPA_vect acfg) x in
  e_steps (stepper x') m = toward_zero e (4 * Z.of_nat k)
  /\ extruder_events m (e_trace x')
     = extruder_events m (e_trace x)
       ++ e_pulses acfg m e (Z.min (4 * Z.of_nat k) (Z.abs e))
  /\ (Z.abs e <= 4 * Z.of_nat k -> e_steps (stepper x') m = 0)
  /\ forget_e_steps (stepper x') = forget_e_steps (stepper x).
Proof.
  intros Hm He. cbv zeta.
  destruct (interrupts_advance acfg m k x Hm He) as [A B].
  split; [exact A|]. split; [exact B|]. split.
  - intros Hk. rewrite A. unfold toward_zero.
    destruct (Z.ltb_spec (e_steps (stepper x) m) 0); lia.
  - apply forget_e_steps_interrupts.
Qed.

Lemma extruder_interrupts_deliver_witness :
  e_steps (stepper (Nat.iter 2 (TIMER0_COMPA_vect two_extruders) e_pending)) 1
  = toward_zero (e_steps (stepper e_pending) 1) (4 * Z.of_nat 2).
Proof.
  assert (R : - 2 ^ 31 <= e_steps (stepper e_pending) 1 < 2 ^ 31) by (vm_compute; easy).
  exact (proj1 (extruder_interrupts_deliver two_extruders 1 2 e_pending eq_refl R)).
Defined.

(** X24 — extruders the handler has no code for.  Whatever [e_steps] holds
    for an index above 3, or for an extruder beyond [EXTRUDERS] other than
    the first, no interrupt changes it or writes a pin of that extruder:
    steps queued there are never delivered. *)
Theorem unserved_extruder_is_never_stepped (acfg : AdvanceConfig) (m : Z) (k : nat)
    (x : advance_state) :
  has_extruder acfg m = false ->
  let x' := Nat.iter k (TIMER0_COMPA_vect acfg) x in
  e_steps (stepper x') m = e_steps (stepper x) m
  /\ extruder_events m (e_trace x') = extruder_events m (e_trace x).
Proof.
  intros Hm. cbv zeta. apply interrupts_leave, Hm.
Qed.

Lemma unserved_extruder_is_never_stepped_witness :
  e_steps (stepper (Nat.iter 3 (TIMER0_COMPA_vect two_extruders) e_pending)) 2
  = e_steps (stepper e_pending) 2.
Proof.
  exact (proj1 (unserved_extruder_is_never_stepped two_extruders 2 3 e_pending eq_refl)).
Defined.
